(** * systemd: the per-link resolver bus object and the udevadm attribute walk

    A shallow embedding of two translation units,
    - [src/udev/udevadm-info.c]: [skip_attribute], [sysattr_compare] and
      [print_all_attributes], the attribute table of [udevadm info -a];
      then the commands around it, from [print_device_chain] to
      [info_main];
    - [src/resolve/resolved-link-bus.c]: the method handlers of the
      [org.freedesktop.resolve1.Link] bus object; then its property
      getters, [link_object_find], [link_bus_path] and
      [link_node_enumerator],
    followed by the properties proved about them. *)

From Stdlib Require Import ZArith List String Ascii Bool Lia.
From Stdlib Require Import Sorting.Sorted Sorting.Permutation.
From Stdlib Require Structures.OrderedTypeEx.
From Stdlib Require Import DecimalString DecimalZ DecimalPos.
Import ListNotations.

Local Open Scope string_scope.
Local Open Scope Z_scope.

(* ===================================================================== *)
(** * Part I. udevadm-info.c                                              *)
(* ===================================================================== *)

Module UdevadmInfo.

(** [-ENOMEM] and [-EPERM], the two errno values the attribute walk tells
    apart. *)
Definition ENOMEM : Z := 12.
Definition EPERM : Z := 1.

(** [skip_attribute]: the names that are displayed separately or not at all
    ([STR_IN_SET] is a sequence of [streq] tests). *)
Definition skip_attribute (name : string) : bool :=
  existsb (String.eqb name)
    ["uevent"; "dev"; "modalias"; "resource"; "driver"; "subsystem"; "module"].

(** [typedef struct SysAttr { const char *name; const char *value; }]. *)
Record SysAttr := mkSysAttr { name : string; value : string }.

(** [sysattr_compare] is [strcmp] on the names: bytes compared as unsigned
    chars, the shorter string first on a common prefix.  The sign of the C
    result is the [comparison] returned here. *)
Definition sysattr_compare (a b : SysAttr) : comparison :=
  String.compare (name a) (name b).

(** [isprint] on an [unsigned char], in the C locale. *)
Definition isprint (c : ascii) : bool :=
  let n := nat_of_ascii c in (32 <=? n)%nat && (n <=? 126)%nat.

(** The scan of lines 107-109: [len] starts at [strlen(value)] and walks
    down past printable bytes.  The string is handled reversed, so that the
    head of [rev_value] is [value[len-1]]; the result is the final [len]. *)
Fixpoint trailing_scan (rev_value : list ascii) : nat :=
  match rev_value with
  | [] => 0%nat
  | c :: rest => if isprint c then trailing_scan rest else List.length rev_value
  end.

Definition nonprintable_len (value : string) : nat :=
  trailing_scan (rev (list_ascii_of_string value)).

(** [value[0] == '/']. *)
Definition looks_like_path (value : string) : bool :=
  match value with
  | String c _ => Ascii.eqb c "/"%char
  | EmptyString => false
  end.

(** The part of [sd_device] the walk reads: the four identity strings, the
    attribute names in the order [FOREACH_DEVICE_SYSATTR] yields them, and
    [sd_device_get_sysattr_value], which gives a value or a negative errno. *)
Record sd_device := mkDevice {
  devpath : option string;
  sysname : option string;
  subsystem : option string;
  driver : option string;
  sysattrs : list string;
  sd_device_get_sysattr_value : string -> Z + string
}.

(** What one iteration of the [FOREACH_DEVICE_SYSATTR] body decides for
    [name]: [None] for every [continue], [Some value] when the pair is to be
    stored. *)
Definition sysattr_candidate (device : sd_device) (name : string) : option string :=
  if skip_attribute name then None
  else
    match sd_device_get_sysattr_value device name with
    | inr value =>
        if looks_like_path value then None
        else if (0 <? nonprintable_len value)%nat then None
        else Some value
    | inl r =>
        if r =? - EPERM then Some "(write-only)" else None
    end.

(** The collecting loop, lines 94-126.  [capacity] bounds what
    [GREEDY_REALLOC] can provide ([None]: no bound); the loop gives up with
    [inl (-ENOMEM)] when the array cannot grow. *)
Fixpoint collect_sysattrs (capacity : option nat) (device : sd_device)
         (names : list string) (acc : list SysAttr) : Z + list SysAttr :=
  match names with
  | [] => inr acc
  | name :: rest =>
      match sysattr_candidate device name with
      | None => collect_sysattrs capacity device rest acc
      | Some value =>
          let fits := match capacity with
                      | None => true
                      | Some cap => (List.length acc + 1 <=? cap)%nat
                      end in
          if fits
          then collect_sysattrs capacity device rest (acc ++ [mkSysAttr name value])%list
          else inl (- ENOMEM)
      end
  end.

(** [typesafe_qsort]: the array sorted by the comparison function.  libc
    leaves the order of equal elements open; an insertion sort stands for
    it here. *)
Fixpoint qsort_insert {A} (cmp : A -> A -> comparison) (x : A) (l : list A) : list A :=
  match l with
  | [] => [x]
  | y :: l' =>
      match cmp x y with
      | Gt => y :: qsort_insert cmp x l'
      | _ => x :: l
      end
  end.

Fixpoint typesafe_qsort {A} (cmp : A -> A -> comparison) (l : list A) : list A :=
  match l with
  | [] => []
  | x :: l' => qsort_insert cmp x (typesafe_qsort cmp l')
  end.

(** The double quote of the [printf] formats. *)
Definition dquote : string := String (ascii_of_nat 34) EmptyString.

Definition strempty (s : option string) : string :=
  match s with Some v => v | None => "" end.

(** The four heading lines, lines 78-92. *)
Definition print_heading (device : sd_device) (is_parent : bool) : list string :=
  [ "  looking at " ++ (if is_parent then "parent " else "") ++ "device '"
      ++ strempty (devpath device) ++ "':";
    "    " ++ (if is_parent then "KERNELS" else "KERNEL") ++ "=="
      ++ dquote ++ strempty (sysname device) ++ dquote;
    "    " ++ (if is_parent then "SUBSYSTEMS" else "SUBSYSTEM") ++ "=="
      ++ dquote ++ strempty (subsystem device) ++ dquote;
    "    " ++ (if is_parent then "DRIVERS" else "DRIVER") ++ "=="
      ++ dquote ++ strempty (driver device) ++ dquote ].

(** One row of the table, line 131. *)
Definition print_sysattr (is_parent : bool) (a : SysAttr) : string :=
  "    " ++ (if is_parent then "ATTRS" else "ATTR") ++ "{" ++ name a ++ "}=="
    ++ dquote ++ value a ++ dquote.

(** The table as printed: the collected pairs after [typesafe_qsort]. *)
Definition attribute_table (capacity : option nat) (device : sd_device)
  : Z + list SysAttr :=
  match collect_sysattrs capacity device (sysattrs device) [] with
  | inl r => inl r
  | inr collected => inr (typesafe_qsort sysattr_compare collected)
  end.

(** [print_all_attributes]: the return value and the lines written to the
    standard output. *)
Definition print_all_attributes (capacity : option nat) (device : sd_device)
           (is_parent : bool) : Z * list string :=
  match attribute_table capacity device with
  | inl r => (r, print_heading device is_parent)
  | inr table =>
      (0, (print_heading device is_parent
             ++ map (print_sysattr is_parent) table ++ [""])%list)
  end.

(** ** The words of the specification

    The order and the three reasons for leaving an attribute out, written
    without [sysattr_compare], [skip_attribute] and [isprint]. *)

(** The fixed exclusion set. *)
Definition excluded_names : list string :=
  ["uevent"; "dev"; "modalias"; "resource"; "driver"; "subsystem"; "module"].

Definition starts_with_slash (value : string) : Prop :=
  exists rest, value = String "/"%char rest.

(** A byte outside the printable range of ASCII, 0x20 to 0x7e. *)
Definition has_nonprintable (value : string) : Prop :=
  exists c, In c (list_ascii_of_string value)
            /\ ((nat_of_ascii c < 32)%nat \/ (126 < nat_of_ascii c)%nat).

(** The lexicographic order of strings: the first byte in which two strings
    differ decides, a byte counting as its value from 0 to 255, and a string
    comes before the strings it is a prefix of. *)
Inductive lex_le : string -> string -> Prop :=
| lex_le_nil s : lex_le EmptyString s
| lex_le_lt c1 s1 c2 s2 :
    (N_of_ascii c1 < N_of_ascii c2)%N -> lex_le (String c1 s1) (String c2 s2)
| lex_le_eq c s1 s2 : lex_le s1 s2 -> lex_le (String c s1) (String c s2).

(** Names in [strcmp] order. *)
Definition name_le (a b : SysAttr) : Prop := sysattr_compare a b <> Gt.

End UdevadmInfo.

(* ===================================================================== *)
(** * Part II. resolved-link-bus.c                                        *)
(* ===================================================================== *)

(** ** Intrusive lists with a transient mark

    [l->dns_servers] and [l->search_domains] are doubly linked lists of
    heap objects; the handlers hold pointers into them ([s], [d]) and the
    helpers work through these pointers.  A list is modelled as the sequence
    of its objects, each carrying its address ([ptr]); a pointer is an
    address, [NULL] is [None]. *)

Module MarkSweep.
Section Generic.

(** [E]: the list's objects; [V]: what a request says about one entry;
    [K]: the part of it the finder compares. *)
Variables E V K : Type.
Variable K_eq_dec : forall a b : K, {a = b} + {a <> b}.
Variable vkey : V -> K.
Variable view : E -> V.
Variable ptr : E -> nat.
Variable marked : E -> bool.
Variable set_marked : bool -> E -> E.

Definition key (e : E) : K := vkey (view e).

(** Modelled from the spec: the mark phase "sets the transient mark on every
    entry currently in L"; the body of [dns_server_mark_all] and of
    [dns_search_domain_mark_all] is not under src/. *)
Definition mark_all (first : list E) : list E := map (set_marked true) first.

(** Modelled from the spec: the Finder, [find(list, key) -> Some(entry) |
    None], whose "equality uses the type's full key tuple, not partial
    matches"; the list is walked from its head, so the first match is
    returned.  The bodies of [dns_server_find] and [dns_search_domain_find]
    are not under src/. *)
Definition find_entry (k : K) (first : list E) : option nat :=
  match List.find (fun e => if K_eq_dec (key e) k then true else false) first with
  | Some e => Some (ptr e)
  | None => None
  end.

(** Dereferencing a pointer into the list. *)
Definition deref (p : nat) (first : list E) : option E :=
  List.find (fun e => Nat.eqb (ptr e) p) first.

(** An assignment through a pointer, [d->field = v]. *)
Definition assign (p : nat) (f : E -> E) (first : list E) : list E :=
  map (fun e => if Nat.eqb (ptr e) p then f e else e) first.

(** Modelled from the spec: in the reconcile phase a matched entry has its
    mark cleared ("if found, clear its mark"); nothing is said of its place
    in the list, which it keeps here.  The bodies of
    [dns_server_move_back_and_unmark] and
    [dns_search_domain_move_back_and_unmark] are not under src/. *)
Definition move_back_and_unmark (p : nat) (first : list E) : list E :=
  assign p (set_marked false) first.

(** Modelled from the spec: the sweep phase "removes every entry in L that
    is still marked"; the bodies of [dns_server_unlink_marked] and
    [dns_search_domain_unlink_marked] are not under src/. *)
Definition unlink_marked (first : list E) : list E :=
  filter (fun e => negb (marked e)) first.

(** Modelled from the spec: "all of L is unlinked (every entry removed,
    including pre-existing ones)"; the bodies of [dns_server_unlink_all] and
    [dns_search_domain_unlink_all] are not under src/. *)
Definition unlink_all (first : list E) : list E := [].

End Generic.

Arguments key {E V K} vkey view e.
Arguments mark_all {E} set_marked first.
Arguments find_entry {E V K} K_eq_dec vkey view ptr k first.
Arguments deref {E} ptr p first.
Arguments move_back_and_unmark {E} ptr set_marked p first.
Arguments assign {E} ptr p f first.
Arguments unlink_marked {E} marked first.
Arguments unlink_all {E} first.

End MarkSweep.

Module LinkBus.

(** ** Constants of the system headers *)

Definition EPERM : Z := 1.
Definition ENXIO : Z := 6.
Definition ENOMEM : Z := 12.
Definition EACCES : Z := 13.
Definition EBUSY : Z := 16.
Definition EINVAL : Z := 22.
Definition AF_INET : Z := 2.
Definition AF_INET6 : Z := 10.
Definition IFF_LOOPBACK : Z := 8.

(** ** Bus errors

    [sd_bus_error_setf] stores an error name and a message in [*error] and
    returns the negative errno the name is mapped to.  Modelled from the
    spec: the taxonomy [Busy], [InvalidArgument], [AccessDenied]; the error
    maps are not under src/. *)
Inductive bus_error_name :=
| BUS_ERROR_LINK_BUSY
| SD_BUS_ERROR_INVALID_ARGS
| SD_BUS_ERROR_ACCESS_DENIED.

Definition bus_error_errno (e : bus_error_name) : Z :=
  match e with
  | BUS_ERROR_LINK_BUSY => EBUSY
  | SD_BUS_ERROR_INVALID_ARGS => EINVAL
  | SD_BUS_ERROR_ACCESS_DENIED => EACCES
  end.

Record sd_bus_error := mkError { error_name : bus_error_name; error_message : string }.

(** ** Data of the link *)

(** [struct in_addr_full]: one decoded DNS server of a request. *)
Record in_addr_full := mkAddr {
  family : Z;
  address : list Byte.byte;
  port : Z;
  ifindex : Z;
  server_name : option string
}.

(** [DnsServer], as far as the handlers see it: its address in memory,
    the five fields [dns_server_new] receives, and the mark. *)
Record DnsServer := mkServer {
  s_ptr : nat;
  s_addr : in_addr_full;
  s_marked : bool
}.

Definition s_set_marked (b : bool) (s : DnsServer) : DnsServer :=
  mkServer (s_ptr s) (s_addr s) b.

(** [DnsSearchDomain]. *)
Record DnsSearchDomain := mkDomain {
  d_ptr : nat;
  name : string;
  route_only : bool;
  d_marked : bool
}.

Definition d_set_marked (b : bool) (d : DnsSearchDomain) : DnsSearchDomain :=
  mkDomain (d_ptr d) (name d) (route_only d) b.

Definition d_set_route_only (v : bool) (d : DnsSearchDomain) : DnsSearchDomain :=
  mkDomain (d_ptr d) (name d) v (d_marked d).

(** [Link]: the settings the handlers of this file write, and what
    [verify_unmanaged_link] reads.  The modes are C enums, kept as integers:
    a negative value is the enum's [_INVALID] member.  The scope pointers
    ([l->unicast_scope] and the four LLMNR and mDNS scopes) are not in this
    record: the handlers reach them only through [link_allocate_scopes],
    whose body is not under src/; its calls are recorded as an [effect]. *)
Record Link := mkLink {
  ifname : string;
  flags : Z;
  is_managed : bool;
  dns_servers : list DnsServer;
  current_dns_server : option nat;
  search_domains : list DnsSearchDomain;
  default_route : Z;
  llmnr_support : Z;
  mdns_support : Z;
  dns_over_tls_mode : Z;
  dnssec_mode : Z;
  dnssec_negative_trust_anchors : list string
}.

(** What a handler can do to the world besides changing the link: the
    calls into the rest of the daemon, in the order they happen. *)
Inductive effect :=
| link_allocate_scopes
| link_add_rrs
| link_save_user
| manager_write_resolv_conf
| manager_send_changed (property : string)
| sd_bus_reply_method_return.

(** The state a handler runs in: the link, the allocator's next address,
    the failures the environment is going to inject into fallible calls
    (transport reads, allocations), the calls made so far, and [*error]. *)
Record World := mkWorld {
  link : Link;
  next_ptr : nat;
  faults : list Z;
  journal : list effect;
  error : option sd_bus_error
}.

(** ** The request *)

(** The body of a method call, by its D-Bus signature. *)
Inductive body :=
| Body_a_iay (addresses : list (Z * list Byte.byte))
| Body_a_iayqs (addresses : list (Z * list Byte.byte * Z * string))
| Body_a_sb (domains : list (string * bool))
| Body_b (enable : bool)
| Body_s (mode : string)
| Body_as (names : list string)
| Body_none.

(** [sd_bus_message]: the body, and the answer the authorization gate has
    for this caller and action ([< 0]: refused or failed, [0]: the gate will
    call back, [> 0]: granted). *)
Record sd_bus_message := mkMessage {
  msg_body : body;
  polkit : Z
}.

(** ** Collaborators declared in headers

    String tables, enum members and the domain-name predicates the handlers
    call; their definitions are outside this translation unit. *)
Class Externals := {
  dns_name_is_valid : string -> Z;
  dns_name_is_root : string -> Z;
  resolve_support_from_string : string -> Z;
  dns_over_tls_mode_from_string : string -> Z;
  dnssec_mode_from_string : string -> Z;
  RESOLVE_SUPPORT_NO : Z;
  RESOLVE_SUPPORT_YES : Z;
  DNS_OVER_TLS_MODE_INVALID : Z;
  DNSSEC_MODE_INVALID : Z
}.

(** ** Field updates *)

Definition with_dns_servers (v : list DnsServer) (l : Link) : Link :=
  mkLink (ifname l) (flags l) (is_managed l) v (current_dns_server l)
         (search_domains l) (default_route l) (llmnr_support l) (mdns_support l)
         (dns_over_tls_mode l) (dnssec_mode l) (dnssec_negative_trust_anchors l).

Definition with_current_dns_server (v : option nat) (l : Link) : Link :=
  mkLink (ifname l) (flags l) (is_managed l) (dns_servers l) v
         (search_domains l) (default_route l) (llmnr_support l) (mdns_support l)
         (dns_over_tls_mode l) (dnssec_mode l) (dnssec_negative_trust_anchors l).

Definition with_search_domains (v : list DnsSearchDomain) (l : Link) : Link :=
  mkLink (ifname l) (flags l) (is_managed l) (dns_servers l) (current_dns_server l)
         v (default_route l) (llmnr_support l) (mdns_support l)
         (dns_over_tls_mode l) (dnssec_mode l) (dnssec_negative_trust_anchors l).

Definition with_default_route (v : Z) (l : Link) : Link :=
  mkLink (ifname l) (flags l) (is_managed l) (dns_servers l) (current_dns_server l)
         (search_domains l) v (llmnr_support l) (mdns_support l)
         (dns_over_tls_mode l) (dnssec_mode l) (dnssec_negative_trust_anchors l).

Definition with_llmnr_support (v : Z) (l : Link) : Link :=
  mkLink (ifname l) (flags l) (is_managed l) (dns_servers l) (current_dns_server l)
         (search_domains l) (default_route l) v (mdns_support l)
         (dns_over_tls_mode l) (dnssec_mode l) (dnssec_negative_trust_anchors l).

Definition with_mdns_support (v : Z) (l : Link) : Link :=
  mkLink (ifname l) (flags l) (is_managed l) (dns_servers l) (current_dns_server l)
         (search_domains l) (default_route l) (llmnr_support l) v
         (dns_over_tls_mode l) (dnssec_mode l) (dnssec_negative_trust_anchors l).

Definition with_dns_over_tls_mode (v : Z) (l : Link) : Link :=
  mkLink (ifname l) (flags l) (is_managed l) (dns_servers l) (current_dns_server l)
         (search_domains l) (default_route l) (llmnr_support l) (mdns_support l)
         v (dnssec_mode l) (dnssec_negative_trust_anchors l).

Definition with_dnssec_mode (v : Z) (l : Link) : Link :=
  mkLink (ifname l) (flags l) (is_managed l) (dns_servers l) (current_dns_server l)
         (search_domains l) (default_route l) (llmnr_support l) (mdns_support l)
         (dns_over_tls_mode l) v (dnssec_negative_trust_anchors l).

Definition with_dnssec_negative_trust_anchors (v : list string) (l : Link) : Link :=
  mkLink (ifname l) (flags l) (is_managed l) (dns_servers l) (current_dns_server l)
         (search_domains l) (default_route l) (llmnr_support l) (mdns_support l)
         (dns_over_tls_mode l) (dnssec_mode l) v.

Definition with_link (f : Link -> Link) (w : World) : World :=
  mkWorld (f (link w)) (next_ptr w) (faults w) (journal w) (error w).

(** ** The handlers' monad: state passing over [World] *)

Definition M (A : Type) : Type := World -> A * World.

Definition ret {A} (a : A) : M A := fun w => (a, w).

Definition bind {A B} (m : M A) (k : A -> M B) : M B :=
  fun w => let (a, w') := m w in k a w'.

Notation "x <- m ;; k" := (bind m (fun x => k))
  (at level 61, m at next level, right associativity).
Notation "m ;;; k" := (bind m (fun _ => k))
  (at level 61, right associativity).

Definition get_link : M Link := fun w => (link w, w).

Definition modify_link (f : Link -> Link) : M unit := fun w => (tt, with_link f w).

(** A call into the rest of the daemon whose result the handler drops
    ([(void) link_save_user(l)]) or that returns nothing. *)
Definition call (e : effect) : M unit :=
  fun w => (tt, mkWorld (link w) (next_ptr w) (faults w) (journal w ++ [e]) (error w)).

(** The next injected failure: a negative errno when the environment makes
    the coming call fail, [0] when it lets it run. *)
Definition fault : M Z :=
  fun w =>
    match faults w with
    | [] => (0, w)
    | r :: rest =>
        ((if r <? 0 then r else 0),
         mkWorld (link w) (next_ptr w) rest (journal w) (error w))
    end.

Definition sd_bus_error_setf (e : bus_error_name) (message : string) : M Z :=
  fun w =>
    (- bus_error_errno e,
     mkWorld (link w) (next_ptr w) (faults w) (journal w) (Some (mkError e message))).

Definition isempty (s : string) : bool := String.eqb s "".

Definition Z_of_bool (b : bool) : Z := if b then 1 else 0.

(** ** Helpers of the two lists *)

Definition dns_server_mark_all (first : list DnsServer) : M unit :=
  modify_link (with_dns_servers (MarkSweep.mark_all s_set_marked first)).

(** What the finder compares of a DNS server.  Modelled from the spec: a
    match "requires address family, address bytes, port, and an optional
    associated name to agree", and "for DNS servers, the replace-set call
    matches ignoring the port field, i.e., port is not part of the dedup key
    during this call even though it is stored".  The interface index, [0]
    at the call of line 287, is no part of the spec's key. *)
Definition server_key (a : in_addr_full) : Z * list Byte.byte * option string :=
  (family a, address a, server_name a).

Definition server_key_eq_dec (a b : Z * list Byte.byte * option string)
  : {a = b} + {a <> b}.
Proof.
  decide equality.
  - decide equality. apply string_dec.
  - decide equality.
    + apply (list_eq_dec Byte.byte_eq_dec).
    + apply Z.eq_dec.
Defined.

(** [dns_server_find(first, family, in_addr, port, ifindex, name)]; the
    body is not under src/. *)
Definition dns_server_find (first : list DnsServer) (family : Z)
           (in_addr : list Byte.byte) (port ifindex : Z) (name : option string)
  : option nat :=
  MarkSweep.find_entry server_key_eq_dec server_key s_addr s_ptr
    (family, in_addr, name) first.

Definition dns_server_move_back_and_unmark (s : nat) : M unit :=
  modify_link (fun l =>
    with_dns_servers
      (MarkSweep.move_back_and_unmark s_ptr s_set_marked s (dns_servers l)) l).

(** Modelled from the spec: "construct a new entry from c and insert it at
    the end of L, unmarked"; the construction can fail for want of memory.
    The body of [dns_server_new] is not under src/. *)
Definition dns_server_new (family : Z) (in_addr : list Byte.byte)
           (port ifindex : Z) (name : option string) : M Z :=
  r <- fault ;;
  if r <? 0 then ret r
  else fun w =>
    (0, mkWorld
          (with_dns_servers
             (dns_servers (link w)
                ++ [mkServer (next_ptr w) (mkAddr family in_addr port ifindex name) false])
             (link w))
          (S (next_ptr w)) (faults w) (journal w) (error w)).

(** A reference to an object that has left the list does not survive it:
    [l->current_dns_server] is reset when its target is unlinked. *)
Definition drop_stale_current (l : Link) : Link :=
  match current_dns_server l with
  | Some p =>
      match MarkSweep.deref s_ptr p (dns_servers l) with
      | Some _ => l
      | None => with_current_dns_server None l
      end
  | None => l
  end.

Definition dns_server_unlink_all (first : list DnsServer) : M unit :=
  modify_link (fun l =>
    drop_stale_current (with_dns_servers (MarkSweep.unlink_all first) l)).

Definition dns_server_unlink_marked (first : list DnsServer) : M unit :=
  modify_link (fun l =>
    drop_stale_current (with_dns_servers (MarkSweep.unlink_marked s_marked first) l)).

Definition dns_search_domain_mark_all (first : list DnsSearchDomain) : M unit :=
  modify_link (with_search_domains (MarkSweep.mark_all d_set_marked first)).

(** [dns_search_domain_find(first, name, &d)]: negative on failure, [0]
    when there is no such domain, positive with [d] set when there is.
    Modelled from the spec: search domains are keyed by their domain name. *)
Definition dns_search_domain_find (first : list DnsSearchDomain) (nm : string)
  : M (Z * option nat) :=
  r <- fault ;;
  if r <? 0 then ret (r, None)
  else
    match MarkSweep.find_entry string_dec (fun v : string * bool => fst v)
            (fun d => (name d, route_only d)) d_ptr nm first with
    | Some d => ret (1, Some d)
    | None => ret (0, None)
    end.

Definition dns_search_domain_move_back_and_unmark (d : nat) : M unit :=
  modify_link (fun l =>
    with_search_domains
      (MarkSweep.move_back_and_unmark d_ptr d_set_marked d (search_domains l)) l).

(** Modelled from the spec, as [dns_server_new]: the new domain goes to the
    end of the list, unmarked, its other fields zeroed. *)
Definition dns_search_domain_new (nm : string) : M (Z * option nat) :=
  r <- fault ;;
  if r <? 0 then ret (r, None)
  else fun w =>
    ((0, Some (next_ptr w)),
     mkWorld
       (with_search_domains
          (search_domains (link w) ++ [mkDomain (next_ptr w) nm false false])
          (link w))
       (S (next_ptr w)) (faults w) (journal w) (error w)).

Definition dns_search_domain_unlink_all (first : list DnsSearchDomain) : M unit :=
  modify_link (with_search_domains (MarkSweep.unlink_all first)).

Definition dns_search_domain_unlink_marked (first : list DnsSearchDomain) : M unit :=
  modify_link (with_search_domains (MarkSweep.unlink_marked d_marked first)).

(** ** Transport and authorization *)

(** Modelled from the spec: the Authorization Gate, "async yes/no/deferred
    decision per caller identity and action name"; a refusal is the
    "standard access denied fault". *)
Definition bus_verify_polkit_async (message : sd_bus_message) (action : string) : M Z :=
  fun w =>
    (polkit message,
     if polkit message =? - EACCES
     then mkWorld (link w) (next_ptr w) (faults w) (journal w)
            (Some (mkError SD_BUS_ERROR_ACCESS_DENIED "Access denied"))
     else w).

(** [sd_bus_reply_method_return(message, NULL)]. *)
Definition bus_reply_method_return (message : sd_bus_message) : M Z :=
  r <- fault ;;
  if r <? 0 then ret r
  else call sd_bus_reply_method_return ;;; ret 1.

(** Reading a basic value of the expected type off the body: a transport
    failure, [-ENXIO] on another signature, or the value. *)
Definition sd_bus_message_read_b (message : sd_bus_message) : M (Z * Z) :=
  r <- fault ;;
  if r <? 0 then ret (r, 0)
  else match msg_body message with
       | Body_b b => ret (1, Z_of_bool b)
       | _ => ret (- ENXIO, 0)
       end.

Definition sd_bus_message_read_s (message : sd_bus_message) : M (Z * string) :=
  r <- fault ;;
  if r <? 0 then ret (r, "")
  else match msg_body message with
       | Body_s s => ret (1, s)
       | _ => ret (- ENXIO, "")
       end.

Definition sd_bus_message_read_strv (message : sd_bus_message) : M (Z * list string) :=
  r <- fault ;;
  if r <? 0 then ret (r, [])
  else match msg_body message with
       | Body_as l => ret (1, l)
       | _ => ret (- ENXIO, [])
       end.

(** [sd_bus_message_enter_container(message, 'a', "(sb)")]: the array's
    elements are what the following reads walk over. *)
Definition sd_bus_message_enter_container_a_sb (message : sd_bus_message)
  : M (Z * list (string * bool)) :=
  r <- fault ;;
  if r <? 0 then ret (r, [])
  else match msg_body message with
       | Body_a_sb l => ret (1, l)
       | _ => ret (- ENXIO, [])
       end.

(** Address sizes, [FAMILY_ADDRESS_SIZE]. *)
Definition family_address_size (family : Z) : nat :=
  if family =? AF_INET then 4%nat else if family =? AF_INET6 then 16%nat else 0%nat.

Definition address_ok (family : Z) (in_addr : list Byte.byte) : bool :=
  ((family =? AF_INET) || (family =? AF_INET6))
  && Nat.eqb (List.length in_addr) (family_address_size family).

(** Modelled from the spec: "parse C from the wire request; run Validator
    over every element of C; on first failure, abort with InvalidArgument".
    [SetDNS] entries carry a family and an address only (no port, no name);
    [SetDNSEx] entries carry all four.  The body of
    [bus_message_read_dns_servers] is not under src/. *)
Fixpoint decode_dns (l : list (Z * list Byte.byte)) : option (list in_addr_full) :=
  match l with
  | [] => Some []
  | (f, a) :: rest =>
      if address_ok f a
      then match decode_dns rest with
           | Some r => Some (mkAddr f a 0 0 None :: r)
           | None => None
           end
      else None
  end.

Fixpoint decode_dns_ex (l : list (Z * list Byte.byte * Z * string))
  : option (list in_addr_full) :=
  match l with
  | [] => Some []
  | (f, a, p, n) :: rest =>
      if address_ok f a
      then match decode_dns_ex rest with
           | Some r =>
               Some (mkAddr f a p 0 (if isempty n then None else Some n) :: r)
           | None => None
           end
      else None
  end.

Definition bus_message_read_dns_servers (message : sd_bus_message) (extended : bool)
  : M (Z * list in_addr_full) :=
  r <- fault ;;
  if r <? 0 then ret (r, [])
  else
    let decoded :=
      match msg_body message, extended with
      | Body_a_iay l, false => Some (decode_dns l)
      | Body_a_iayqs l, true => Some (decode_dns_ex l)
      | _, _ => None
      end in
    match decoded with
    | None => ret (- ENXIO, [])
    | Some None =>
        r <- sd_bus_error_setf SD_BUS_ERROR_INVALID_ARGS "Invalid DNS server address" ;;
        ret (r, [])
    | Some (Some dns) => ret (1, dns)
    end.

Notation "' pat <- m ;; k" :=
  (bind m (fun x => match x with pat => k end))
  (at level 61, pat pattern, m at next level, right associativity).

(** ** The method handlers *)

Section Handlers.
Context {ext : Externals}.

(** [verify_unmanaged_link], lines 243-252. *)
Definition verify_unmanaged_link : M Z :=
  l <- get_link ;;
  if negb (Z.land (flags l) IFF_LOOPBACK =? 0)
  then sd_bus_error_setf BUS_ERROR_LINK_BUSY ("Link " ++ ifname l ++ " is loopback device.")
  else if is_managed l
  then sd_bus_error_setf BUS_ERROR_LINK_BUSY ("Link " ++ ifname l ++ " is managed.")
  else ret 0.

(** The [for] loop of lines 284-298.  It gives a negative [r] when it left
    through [goto finalize] (after unlinking the whole list), [0] when it
    ran to its end. *)
Fixpoint set_dns_servers_loop (dns : list in_addr_full) : M Z :=
  match dns with
  | [] => ret 0
  | a :: rest =>
      l <- get_link ;;
      match dns_server_find (dns_servers l)
              (family a) (address a) (port a) 0 (server_name a) with
      | Some s =>
          dns_server_move_back_and_unmark s ;;;
          set_dns_servers_loop rest
      | None =>
          r <- dns_server_new (family a) (address a) (port a) 0 (server_name a) ;;
          if r <? 0
          then l <- get_link ;;
               dns_server_unlink_all (dns_servers l) ;;;
               ret r
          else set_dns_servers_loop rest
      end
  end.

(** [bus_link_method_set_dns_servers_internal], lines 254-315.  The
    [finalize] label only frees the decoded request. *)
Definition bus_link_method_set_dns_servers_internal
           (message : sd_bus_message) (extended : bool) : M Z :=
  r <- verify_unmanaged_link ;;
  if r <? 0 then ret r else
  '(r, dns) <- bus_message_read_dns_servers message extended ;;
  if r <? 0 then ret r else
  r <- bus_verify_polkit_async message "org.freedesktop.resolve1.set-dns-servers" ;;
  if r <? 0 then ret r else
  if r =? 0 then ret 1 (* Polkit will call us back *) else
  l <- get_link ;;
  dns_server_mark_all (dns_servers l) ;;;
  r <- set_dns_servers_loop dns ;;
  if r <? 0 then ret r else
  l <- get_link ;;
  dns_server_unlink_marked (dns_servers l) ;;;
  call link_allocate_scopes ;;;
  call link_save_user ;;;
  call manager_write_resolv_conf ;;;
  call (manager_send_changed "DNS") ;;;
  bus_reply_method_return message.

Definition bus_link_method_set_dns_servers (message : sd_bus_message) : M Z :=
  bus_link_method_set_dns_servers_internal message false.

Definition bus_link_method_set_dns_servers_ex (message : sd_bus_message) : M Z :=
  bus_link_method_set_dns_servers_internal message true.

(** The first [for (;;)] of [bus_link_method_set_domains], lines 340-357:
    every element is read and checked.  Negative: the handler returns it;
    [0]: the array ended. *)
Fixpoint set_domains_validate (entries : list (string * bool)) : M Z :=
  r <- fault (* sd_bus_message_read "(sb)" *) ;;
  if r <? 0 then ret r else
  match entries with
  | [] => ret 0
  | (nm, ro) :: rest =>
      let r := dns_name_is_valid nm in
      if r <? 0 then ret r else
      if r =? 0
      then sd_bus_error_setf SD_BUS_ERROR_INVALID_ARGS ("Invalid search domain " ++ nm)
      else if negb ro && negb (dns_name_is_root nm =? 0)
      then sd_bus_error_setf SD_BUS_ERROR_INVALID_ARGS
             "Root domain is not suitable as search domain"
      else set_domains_validate rest
  end.

(** The second [for (;;)], lines 374-398.  Negative: [goto clear]. *)
Fixpoint set_domains_reconcile (entries : list (string * bool)) : M Z :=
  r <- fault (* sd_bus_message_read "(sb)" *) ;;
  if r <? 0 then ret r else
  match entries with
  | [] => ret 0
  | (nm, ro) :: rest =>
      l <- get_link ;;
      ' (r, d) <- dns_search_domain_find (search_domains l) nm ;;
      if r <? 0 then ret r else
      ' (r, d) <- (if 0 <? r
                   then match d with
                        | Some p => dns_search_domain_move_back_and_unmark p
                        | None => ret tt
                        end ;;; ret (r, d)
                   else dns_search_domain_new nm) ;;
      if r <? 0 then ret r else
      match d with
      | Some p =>
          modify_link (fun l =>
            with_search_domains
              (MarkSweep.assign d_ptr p (d_set_route_only ro) (search_domains l)) l)
      | None => ret tt
      end ;;;
      set_domains_reconcile rest
  end.

(** [bus_link_method_set_domains], lines 325-414. *)
Definition bus_link_method_set_domains (message : sd_bus_message) : M Z :=
  r <- verify_unmanaged_link ;;
  if r <? 0 then ret r else
  ' (r, entries) <- sd_bus_message_enter_container_a_sb message ;;
  if r <? 0 then ret r else
  r <- set_domains_validate entries ;;
  if r <? 0 then ret r else
  r <- fault (* sd_bus_message_rewind *) ;;
  if r <? 0 then ret r else
  r <- bus_verify_polkit_async message "org.freedesktop.resolve1.set-domains" ;;
  if r <? 0 then ret r else
  if r =? 0 then ret 1 (* Polkit will call us back *) else
  l <- get_link ;;
  dns_search_domain_mark_all (search_domains l) ;;;
  r <- set_domains_reconcile entries ;;
  r <- (if r <? 0 then ret r else fault (* sd_bus_message_exit_container *)) ;;
  if r <? 0
  then (* clear: *)
       l <- get_link ;;
       dns_search_domain_unlink_all (search_domains l) ;;;
       ret r
  else
  l <- get_link ;;
  dns_search_domain_unlink_marked (search_domains l) ;;;
  call link_save_user ;;;
  call manager_write_resolv_conf ;;;
  bus_reply_method_return message.

(** [bus_link_method_set_default_route], lines 416-448. *)
Definition bus_link_method_set_default_route (message : sd_bus_message) : M Z :=
  r <- verify_unmanaged_link ;;
  if r <? 0 then ret r else
  ' (r, b) <- sd_bus_message_read_b message ;;
  if r <? 0 then ret r else
  r <- bus_verify_polkit_async message "org.freedesktop.resolve1.set-default-route" ;;
  if r <? 0 then ret r else
  if r =? 0 then ret 1 else
  l <- get_link ;;
  (if negb (default_route l =? b)
   then modify_link (with_default_route b) ;;;
        call link_save_user ;;;
        call manager_write_resolv_conf
   else ret tt) ;;;
  bus_reply_method_return message.

(** [bus_link_method_set_llmnr], lines 450-491. *)
Definition bus_link_method_set_llmnr (message : sd_bus_message) : M Z :=
  r <- verify_unmanaged_link ;;
  if r <? 0 then ret r else
  ' (r, llmnr) <- sd_bus_message_read_s message ;;
  if r <? 0 then ret r else
  let mode := if isempty llmnr then RESOLVE_SUPPORT_YES
              else resolve_support_from_string llmnr in
  if negb (isempty llmnr) && (mode <? 0)
  then sd_bus_error_setf SD_BUS_ERROR_INVALID_ARGS ("Invalid LLMNR setting: " ++ llmnr)
  else
  r <- bus_verify_polkit_async message "org.freedesktop.resolve1.set-llmnr" ;;
  if r <? 0 then ret r else
  if r =? 0 then ret 1 else
  modify_link (with_llmnr_support mode) ;;;
  call link_allocate_scopes ;;;
  call link_add_rrs ;;;
  call link_save_user ;;;
  bus_reply_method_return message.

(** [bus_link_method_set_mdns], lines 493-534. *)
Definition bus_link_method_set_mdns (message : sd_bus_message) : M Z :=
  r <- verify_unmanaged_link ;;
  if r <? 0 then ret r else
  ' (r, mdns) <- sd_bus_message_read_s message ;;
  if r <? 0 then ret r else
  let mode := if isempty mdns then RESOLVE_SUPPORT_NO
              else resolve_support_from_string mdns in
  if negb (isempty mdns) && (mode <? 0)
  then sd_bus_error_setf SD_BUS_ERROR_INVALID_ARGS ("Invalid MulticastDNS setting: " ++ mdns)
  else
  r <- bus_verify_polkit_async message "org.freedesktop.resolve1.set-mdns" ;;
  if r <? 0 then ret r else
  if r =? 0 then ret 1 else
  modify_link (with_mdns_support mode) ;;;
  call link_allocate_scopes ;;;
  call link_add_rrs ;;;
  call link_save_user ;;;
  bus_reply_method_return message.

(** Modelled from the spec: a mode setter "applies the new value only if it
    differs from the current effective value".  The bodies of
    [link_set_dns_over_tls_mode] and [link_set_dnssec_mode] are not under
    src/. *)
Definition link_set_dns_over_tls_mode (mode : Z) : M unit :=
  l <- get_link ;;
  if dns_over_tls_mode l =? mode then ret tt
  else modify_link (with_dns_over_tls_mode mode).

Definition link_set_dnssec_mode (mode : Z) : M unit :=
  l <- get_link ;;
  if dnssec_mode l =? mode then ret tt
  else modify_link (with_dnssec_mode mode).

(** [bus_link_method_set_dns_over_tls], lines 536-575. *)
Definition bus_link_method_set_dns_over_tls (message : sd_bus_message) : M Z :=
  r <- verify_unmanaged_link ;;
  if r <? 0 then ret r else
  ' (r, dns_over_tls) <- sd_bus_message_read_s message ;;
  if r <? 0 then ret r else
  let mode := if isempty dns_over_tls then DNS_OVER_TLS_MODE_INVALID
              else dns_over_tls_mode_from_string dns_over_tls in
  if negb (isempty dns_over_tls) && (mode <? 0)
  then sd_bus_error_setf SD_BUS_ERROR_INVALID_ARGS
         ("Invalid DNSOverTLS setting: " ++ dns_over_tls)
  else
  r <- bus_verify_polkit_async message "org.freedesktop.resolve1.set-dns-over-tls" ;;
  if r <? 0 then ret r else
  if r =? 0 then ret 1 else
  link_set_dns_over_tls_mode mode ;;;
  call link_save_user ;;;
  bus_reply_method_return message.

(** [bus_link_method_set_dnssec], lines 577-616. *)
Definition bus_link_method_set_dnssec (message : sd_bus_message) : M Z :=
  r <- verify_unmanaged_link ;;
  if r <? 0 then ret r else
  ' (r, dnssec) <- sd_bus_message_read_s message ;;
  if r <? 0 then ret r else
  let mode := if isempty dnssec then DNSSEC_MODE_INVALID
              else dnssec_mode_from_string dnssec in
  if negb (isempty dnssec) && (mode <? 0)
  then sd_bus_error_setf SD_BUS_ERROR_INVALID_ARGS ("Invalid DNSSEC setting: " ++ dnssec)
  else
  r <- bus_verify_polkit_async message "org.freedesktop.resolve1.set-dnssec" ;;
  if r <? 0 then ret r else
  if r =? 0 then ret 1 else
  link_set_dnssec_mode mode ;;;
  call link_save_user ;;;
  bus_reply_method_return message.

(** [set_put_strdup] into a set of names. *)
Definition set_put_strdup (ns : list string) (i : string) : list string :=
  if existsb (String.eqb i) ns then ns else ns ++ [i].

(** The [STRV_FOREACH] of lines 640-651. *)
Fixpoint set_ntas_loop (ntas ns : list string) : M (Z * list string) :=
  match ntas with
  | [] => ret (0, ns)
  | i :: rest =>
      let r := dns_name_is_valid i in
      if r <? 0 then ret (r, ns) else
      if r =? 0
      then r <- sd_bus_error_setf SD_BUS_ERROR_INVALID_ARGS
                  ("Invalid negative trust anchor domain: " ++ i) ;;
           ret (r, ns)
      else
      r <- fault (* set_put_strdup *) ;;
      if r <? 0 then ret (r, ns) else
      set_ntas_loop rest (set_put_strdup ns i)
  end.

(** [bus_link_method_set_dnssec_negative_trust_anchors], lines 618-668. *)
Definition bus_link_method_set_dnssec_negative_trust_anchors
           (message : sd_bus_message) : M Z :=
  r <- verify_unmanaged_link ;;
  if r <? 0 then ret r else
  r <- fault (* set_new *) ;;
  if r <? 0 then ret (- ENOMEM) else
  ' (r, ntas) <- sd_bus_message_read_strv message ;;
  if r <? 0 then ret r else
  ' (r, ns) <- set_ntas_loop ntas [] ;;
  if r <? 0 then ret r else
  r <- bus_verify_polkit_async message
         "org.freedesktop.resolve1.set-dnssec-negative-trust-anchors" ;;
  if r <? 0 then ret r else
  if r =? 0 then ret 1 else
  modify_link (with_dnssec_negative_trust_anchors ns) ;;;
  call link_save_user ;;;
  bus_reply_method_return message.

(** Modelled from the spec: [Revert] "discards all link-specific overrides,
    restoring defaults"; the defaults are those an empty setting stands for
    (LLMNR enabled, mDNS disabled, DNSSEC and DNS-over-TLS on the global
    default).  The body of [link_flush_settings] is not under src/. *)
Definition link_flush_settings : M unit :=
  modify_link (fun l =>
    mkLink (ifname l) (flags l) (is_managed l) [] None [] (-1)
           RESOLVE_SUPPORT_YES RESOLVE_SUPPORT_NO
           DNS_OVER_TLS_MODE_INVALID DNSSEC_MODE_INVALID []).

(** [bus_link_method_revert], lines 670-699. *)
Definition bus_link_method_revert (message : sd_bus_message) : M Z :=
  r <- verify_unmanaged_link ;;
  if r <? 0 then ret r else
  r <- bus_verify_polkit_async message "org.freedesktop.resolve1.revert" ;;
  if r <? 0 then ret r else
  if r =? 0 then ret 1 else
  link_flush_settings ;;;
  call link_allocate_scopes ;;;
  call link_add_rrs ;;;
  call link_save_user ;;;
  call manager_write_resolv_conf ;;;
  call (manager_send_changed "DNS") ;;;
  bus_reply_method_return message.

(** The methods of [link_vtable], lines 792-841. *)
Inductive method :=
| SetDNS | SetDNSEx | SetDomains | SetDefaultRoute | SetLLMNR
| SetMulticastDNS | SetDNSOverTLS | SetDNSSEC
| SetDNSSECNegativeTrustAnchors | Revert.

Definition link_vtable (m : method) : sd_bus_message -> M Z :=
  match m with
  | SetDNS => bus_link_method_set_dns_servers
  | SetDNSEx => bus_link_method_set_dns_servers_ex
  | SetDomains => bus_link_method_set_domains
  | SetDefaultRoute => bus_link_method_set_default_route
  | SetLLMNR => bus_link_method_set_llmnr
  | SetMulticastDNS => bus_link_method_set_mdns
  | SetDNSOverTLS => bus_link_method_set_dns_over_tls
  | SetDNSSEC => bus_link_method_set_dnssec
  | SetDNSSECNegativeTrustAnchors => bus_link_method_set_dnssec_negative_trust_anchors
  | Revert => bus_link_method_revert
  end.

End Handlers.

End LinkBus.

(* ===================================================================== *)
(** * Part III. udevadm-info.c: the commands around the attribute walk    *)
(* ===================================================================== *)

Module UdevadmInfoCommands.
Import UdevadmInfo.

Definition EINVAL : Z := 22.

Inductive ActionType := ACTION_QUERY | ACTION_ATTRIBUTE_WALK | ACTION_DEVICE_ID_FILE.

Inductive QueryType := QUERY_NAME | QUERY_PATH | QUERY_SYMLINK | QUERY_PROPERTY | QUERY_ALL.

(** ** Devices *)

(** [sd_device], as far as this file reads it.  A getter gives its value
    or a negative errno; the three [FOREACH_DEVICE_...] macros walk lists;
    [sd_device_get_parent] gives the parent or fails ([None]). *)
#[warnings="-register-all"]
Inductive Device := mkDev {
  sd_device_get_devpath : Z + string;
  sd_device_get_sysname : Z + string;
  sd_device_get_subsystem : Z + string;
  sd_device_get_driver : Z + string;
  device_sysattrs : list string;
  device_get_sysattr_value : string -> Z + string;
  sd_device_get_devname : Z + string;
  device_get_devlink_priority : Z + Z;
  device_devlinks : list string;
  device_properties : list (string * string);
  sd_device_get_parent : option Device
}.

(** A getter called with [(void)]: the pointer stays [NULL] on failure. *)
Definition hush {A} (x : Z + A) : option A :=
  match x with inr v => Some v | inl _ => None end.

(** The device as [print_all_attributes] reads it. *)
Definition as_sd_device (device : Device) : sd_device :=
  mkDevice (hush (sd_device_get_devpath device)) (hush (sd_device_get_sysname device))
           (hush (sd_device_get_subsystem device)) (hush (sd_device_get_driver device))
           (device_sysattrs device) (device_get_sysattr_value device).

(** ** The udev database under /run/udev *)

(** An entry of a directory: its name, the [st_mode] that [fstatat] with
    [AT_SYMLINK_NOFOLLOW] gives ([None]: [fstatat] fails), whether [openat]
    and [fdopendir] succeed on it, whether the kernel lets it be unlinked
    (a directory must be empty besides), and the entries of a directory. *)
#[warnings="-register-all"]
Inductive dirent := mkDirent {
  d_name : string;
  fstatat : option Z;
  openable : bool;
  unlinkable : bool;
  entries : list dirent
}.

Definition S_IFMT : Z := 61440.   (* 0170000 *)
Definition S_IFDIR : Z := 16384.  (* 0040000 *)
Definition S_ISVTX : Z := 512.    (* 01000 *)

Definition S_ISDIR (st_mode : Z) : bool := Z.land st_mode S_IFMT =? S_IFDIR.

(** [dent->d_name[0] == '.']. *)
Definition starts_with_dot (d_name : string) : bool :=
  match d_name with
  | String c _ => Ascii.eqb c "."%char
  | EmptyString => false
  end.

Definition with_entries (es : list dirent) (dent : dirent) : dirent :=
  mkDirent (d_name dent) (fstatat dent) (openable dent) (unlinkable dent) es.

(** [unlinkat(..., AT_REMOVEDIR)] and [unlinkat(..., 0)]: what is left of
    the entry in its directory. *)
Definition unlinkat_removedir (dent : dirent) : list dirent :=
  if unlinkable dent && match entries dent with [] => true | _ => false end
  then [] else [dent].

Definition unlinkat (dent : dirent) : list dirent :=
  if unlinkable dent then [] else [dent].

(** The loop of [cleanup_dir], lines 237-256, for a positive [depth];
    [levels] is [depth] as a natural number, and the result is the
    directory afterwards. *)
Fixpoint cleanup_levels (levels : nat) (mask : Z) (dir : list dirent) : list dirent :=
  match levels with
  | O => dir
  | S levels' =>
      flat_map
        (fun dent =>
           if starts_with_dot (d_name dent) then [dent] else
           match fstatat dent with
           | None => [dent]
           | Some st_mode =>
               if negb (Z.land st_mode mask =? 0) then [dent] else
               if S_ISDIR st_mode
               then unlinkat_removedir
                      (if openable dent
                       then with_entries (cleanup_levels levels' mask (entries dent)) dent
                       else dent)
               else unlinkat dent
           end)
        dir
  end.

(** [cleanup_dir(dir, mask, depth)], lines 231-257. *)
Definition cleanup_dir (dir : list dirent) (mask : Z) (depth : Z) : list dirent :=
  if depth <=? 0 then dir else cleanup_levels (Z.to_nat depth) mask dir.

(** The five directories [cleanup_db] opens; [None] when [opendir] fails. *)
Record RunUdev := mkRunUdev {
  data : option (list dirent);
  links : option (list dirent);
  tags : option (list dirent);
  static_node_tags : option (list dirent);
  watch : option (list dirent)
}.

(** [cleanup_db], lines 259-281. *)
Definition cleanup_db (run : RunUdev) : RunUdev :=
  mkRunUdev
    (option_map (fun dir1 => cleanup_dir dir1 S_ISVTX 1) (data run))
    (option_map (fun dir2 => cleanup_dir dir2 0 2) (links run))
    (option_map (fun dir3 => cleanup_dir dir3 0 2) (tags run))
    (option_map (fun dir4 => cleanup_dir dir4 0 2) (static_node_tags run))
    (option_map (fun dir5 => cleanup_dir dir5 0 1) (watch run)).

(** ** The process *)

(** The file's static variables. *)
Record Args := mkArgs {
  arg_properties : option (list string);
  arg_root : bool;
  arg_export : bool;
  arg_value : bool;
  arg_export_prefix : option string;
  arg_wait_for_initialization_timeout : Z
}.

(** Their initializers, lines 42-47. *)
Definition initial_args : Args := mkArgs None false false false None 0.

(** What a run of the command works on: the static variables, the lines
    written to the standard output, the messages logged, the failures the
    environment is going to inject into allocations and enumerator calls,
    the bound on what [GREEDY_REALLOC] can provide, and /run/udev. *)
Record Process := mkProcess {
  args : Args;
  stdout : list string;
  log : list string;
  faults : list Z;
  realloc_capacity : option nat;
  run_udev : RunUdev
}.

(** How a run can end other than by returning. *)
Inductive crash :=
| assertion_failed     (* [assert_se], [assert], [assert_not_reached] *)
| uninitialized_read.  (* a pointer no getter has set is printed *)

(** State passing over [Process], with crashes. *)
Definition P (A : Type) : Type := Process -> (crash + A) * Process.

Definition ret {A} (a : A) : P A := fun p => (inr a, p).

Definition bind {A B} (m : P A) (k : A -> P B) : P B :=
  fun p =>
    match m p with
    | (inr a, p') => k a p'
    | (inl c, p') => (inl c, p')
    end.

Notation "x <- m ;; k" := (bind m (fun x => k))
  (at level 61, m at next level, right associativity).
Notation "m ;;; k" := (bind m (fun _ => k))
  (at level 61, right associativity).

Definition die {A} (c : crash) : P A := fun p => (inl c, p).

Definition get_args : P Args := fun p => (inr (args p), p).

Definition set_args (f : Args -> Args) : P unit :=
  fun p => (inr tt, mkProcess (f (args p)) (stdout p) (log p) (faults p)
                      (realloc_capacity p) (run_udev p)).

(** [printf] of one line, [puts]. *)
Definition puts (line : string) : P unit :=
  fun p => (inr tt, mkProcess (args p) (stdout p ++ [line]) (log p) (faults p)
                      (realloc_capacity p) (run_udev p)).

(** [log_error_errno(r, message)]: the message is logged and the negative
    errno returned; [log_oom()] is the same with [-ENOMEM]. *)
Definition log_error_errno (r : Z) (message : string) : P Z :=
  fun p => (inr (- Z.abs r), mkProcess (args p) (stdout p) (log p ++ [message])
                               (faults p) (realloc_capacity p) (run_udev p)).

Definition log_oom : P Z := log_error_errno (- ENOMEM) "Out of memory.".

(** The next injected failure: a negative errno when the coming call
    fails, [0] when it succeeds. *)
Definition fault : P Z :=
  fun p =>
    match faults p with
    | [] => (inr 0, p)
    | r :: rest =>
        (inr (if r <? 0 then r else 0),
         mkProcess (args p) (stdout p) (log p) rest (realloc_capacity p) (run_udev p))
    end.

(** A [FOREACH] loop whose body returns nothing. *)
Fixpoint foreach {A} (l : list A) (body : A -> P unit) : P unit :=
  match l with
  | [] => ret tt
  | x :: rest => body x ;;; foreach rest body
  end.

(** [printf("%i")] and [printf("%u")] of a number. *)
Definition format_int (i : Z) : string := NilZero.string_of_int (Z.to_int i).

(** ** Collaborators declared in headers *)

Class Host := {
  (** [path_startswith(path, prefix)]: the rest of [path], or [NULL]. *)
  path_startswith : string -> string -> option string;
  (** [path_join(prefix, path)], [prefix] possibly [NULL]. *)
  path_join : option string -> string -> string;
  (** [strv_split_and_extend(&l, s, ",", true)]: the new [l]. *)
  strv_split_and_extend : option (list string) -> string -> option (list string);
  (** [parse_sec]: a negative errno or the time in microseconds. *)
  parse_sec : string -> Z + Z;
  USEC_INFINITY : Z;
  (** [find_device(id, NULL, &device)]. *)
  find_device : string -> Z + Device;
  (** [device_wait_for_initialization(device, NULL, deadline, &d)], with
      the deadline [usec_add(now(CLOCK_MONOTONIC), timeout)]. *)
  device_wait_for_initialization : Device -> Z -> Z + Device;
  (** [stat(name, &statbuf)]: [errno] or [statbuf.st_dev]; [major], [minor]. *)
  stat : string -> Z + Z;
  major : Z -> Z;
  minor : Z -> Z;
  (** What [FOREACH_DEVICE_AND_SUBSYSTEM] yields after a scan. *)
  scanned_devices : list Device;
  (** What [print_version] writes; it returns [0]. *)
  version_lines : list string;
  program_invocation_short_name : string
}.

Section Commands.
Context {host : Host}.

(** ** Printing *)

(** [print_all_attributes] inside the process. *)
Definition print_all_attributes_of (device : Device) (is_parent : bool) : P Z :=
  fun p =>
    let (r, lines) :=
      print_all_attributes (realloc_capacity p) (as_sd_device device) is_parent in
    (inr r, mkProcess (args p) (stdout p ++ lines) (log p) (faults p)
              (realloc_capacity p) (run_udev p)).

(** The text of lines 142-148, line by line. *)
Definition chain_preamble : list string :=
  [ "";
    "Udevadm info starts with the device specified by the devpath and then";
    "walks up the chain of parent devices. It prints for every device";
    "found, all possible attributes in the udev rules key format.";
    "A rule to match, can be composed by the attributes of the device";
    "and the attributes from one single parent device.";
    "" ].

(** The [for] loop of lines 154-158. *)
Fixpoint print_parents (child : Device) : P Z :=
  match sd_device_get_parent child with
  | Some parent =>
      r <- print_all_attributes_of parent true ;;
      if r <? 0 then ret r else print_parents parent
  | None => ret 0
  end.

(** [print_device_chain], lines 138-161. *)
Definition print_device_chain (device : Device) : P Z :=
  foreach chain_preamble puts ;;;
  r <- print_all_attributes_of device false ;;
  if r <? 0 then ret r else
  print_parents device.

(** [assert_se(val = path_startswith(str, "/dev/"))]. *)
Definition dev_relative (str : string) : P string :=
  match path_startswith str "/dev/" with
  | Some val => ret val
  | None => die assertion_failed
  end.

(** [print_record], lines 163-188. *)
Definition print_record (device : Device) : P Z :=
  match sd_device_get_devpath device with
  | inr str => puts ("P: " ++ str)
  | inl _ => die uninitialized_read
  end ;;;
  match sd_device_get_devname device with
  | inr str => val <- dev_relative str ;; puts ("N: " ++ val)
  | inl _ => ret tt
  end ;;;
  match device_get_devlink_priority device with
  | inr i => puts ("L: " ++ format_int i)
  | inl _ => ret tt
  end ;;;
  foreach (device_devlinks device)
          (fun str => val <- dev_relative str ;; puts ("S: " ++ val)) ;;;
  foreach (device_properties device)
          (fun kv => puts ("E: " ++ fst kv ++ "=" ++ snd kv)) ;;;
  puts "" ;;;
  ret 0.

(** [stat_device], lines 190-206. *)
Definition stat_device (name : string) (export : bool) (prefix : option string) : P Z :=
  match stat name with
  | inl errno => ret (- errno)
  | inr st_dev =>
      (if export
       then let prefix := match prefix with Some s => s | None => "INFO_" end in
            puts (prefix ++ "MAJOR=" ++ format_int (major st_dev)) ;;;
            puts (prefix ++ "MINOR=" ++ format_int (minor st_dev))
       else puts (format_int (major st_dev) ++ ":" ++ format_int (minor st_dev))) ;;;
      ret 0
  end.

(** [export_devices], lines 208-229. *)
Definition export_devices : P Z :=
  r <- fault (* sd_device_enumerator_new *) ;;
  if r <? 0 then log_oom else
  r <- fault (* sd_device_enumerator_allow_uninitialized *) ;;
  if r <? 0
  then log_error_errno r "Failed to set allowing uninitialized flag: %m" else
  r <- fault (* device_enumerator_scan_devices *) ;;
  if r <? 0 then log_error_errno r "Failed to scan devices: %m" else
  foreach scanned_devices (fun d => print_record d ;;; ret tt) ;;;
  ret 0.

(** [cleanup_db] inside the process. *)
Definition cleanup_db_of : P unit :=
  fun p => (inr tt, mkProcess (args p) (stdout p) (log p) (faults p)
                      (realloc_capacity p) (cleanup_db (run_udev p))).

(** The [FOREACH_DEVICE_DEVLINK] of lines 305-310.  Its [printf]s make one
    line, which [puts("")] ends: [line] is what has been written of it,
    [prefix] what goes in front of the next link.  (A failed assertion
    leaves the unfinished line out of [stdout].) *)
Fixpoint query_symlinks (arg_root : bool) (devlinks : list string) (prefix : string)
         (line : string) : P string :=
  match devlinks with
  | [] => ret line
  | devlink :: rest =>
      devlink <- (if negb arg_root then dev_relative devlink else ret devlink) ;;
      query_symlinks arg_root rest " " (line ++ prefix ++ devlink)
  end.

(** The body of the [FOREACH_DEVICE_PROPERTY] of lines 329-339. *)
Definition query_property (a : Args) (kv : string * string) : P unit :=
  let (key, value) := kv in
  if match arg_properties a with
     | Some l => negb (existsb (String.eqb key) l)   (* strv_contains *)
     | None => false
     end
  then ret tt
  else if arg_export a
  then puts (strempty (arg_export_prefix a) ++ key ++ "='" ++ value ++ "'")
  else if arg_value a
  then puts value
  else puts (key ++ "=" ++ value).

(** [query_device], lines 283-350. *)
Definition query_device (query : QueryType) (device : Device) : P Z :=
  a <- get_args ;;
  match query with
  | QUERY_NAME =>
      match sd_device_get_devname device with
      | inl r => log_error_errno r "No device node found: %m"
      | inr node =>
          node <- (if negb (arg_root a) then dev_relative node else ret node) ;;
          puts node ;;;
          ret 0
      end
  | QUERY_SYMLINK =>
      line <- query_symlinks (arg_root a) (device_devlinks device) "" "" ;;
      puts line ;;;
      ret 0
  | QUERY_PATH =>
      match sd_device_get_devpath device with
      | inl r => log_error_errno r "Failed to get device path: %m"
      | inr devpath => puts devpath ;;; ret 0
      end
  | QUERY_PROPERTY =>
      foreach (device_properties device) (query_property a) ;;;
      ret 0
  | QUERY_ALL => print_record device
  end.

(** [help], lines 352-380. *)
Definition help : P Z :=
  foreach
    [ program_invocation_short_name ++ " info [OPTIONS] [DEVPATH|FILE]";
      "";
      "Query sysfs or the udev database.";
      "";
      "  -h --help                   Print this message";
      "  -V --version                Print version of the program";
      "  -q --query=TYPE             Query device information:";
      "       name                     Name of device node";
      "       symlink                  Pointing to node";
      "       path                     sysfs device path";
      "       property                 The device properties";
      "       all                      All values";
      "     --property=NAME          Show only properties by this name";
      "     --value                  When showing properties, print only their values";
      "  -p --path=SYSPATH           sysfs device path used for query or attribute walk";
      "  -n --name=NAME              Node or symlink name used for query or attribute walk";
      "  -r --root                   Prepend dev directory to path names";
      "  -a --attribute-walk         Print all key matches walking along the chain";
      "                              of parent devices";
      "  -d --device-id-of-file=FILE Print major:minor of device containing this file";
      "  -x --export                 Export key/value pairs";
      "  -P --export-prefix          Export the key name with a prefix";
      "  -e --export-db              Export the content of the udev database";
      "  -c --cleanup-db             Clean up the udev database";
      "  -w --wait-for-initialization[=SECONDS]";
      "                              Wait for device to be initialized" ]
    puts ;;;
  ret 0.

Definition print_version : P Z := foreach version_lines puts ;;; ret 0.

(** ** [info_main] *)

(** What one call of [getopt_long] gives: the option found ([c]) with its
    argument ([optarg]).  [opt_unknown] is ['?'], which [getopt_long]
    returns for an option it does not know or whose argument is missing. *)
Inductive getopt_result :=
| ARG_PROPERTY (optarg : string)
| ARG_VALUE
| opt_n (optarg : string)
| opt_p (optarg : string)
| opt_q (optarg : string)
| opt_r
| opt_d (optarg : string)
| opt_a
| opt_e
| opt_c
| opt_x
| opt_P (optarg : string)
| opt_w (optarg : option string)
| opt_V
| opt_h
| opt_unknown.

(** The local variables of [info_main] the loop writes. *)
Record Locals := mkLocals {
  devices : list string;
  name : option string;
  action : ActionType;
  query : QueryType
}.

(** Lines 383-384 and 411-412. *)
Definition initial_locals : Locals := mkLocals [] None ACTION_QUERY QUERY_ALL.

Definition isempty (s : string) : bool := String.eqb s "".

Definition with_arg_properties (v : option (list string)) (a : Args) : Args :=
  mkArgs v (arg_root a) (arg_export a) (arg_value a) (arg_export_prefix a)
         (arg_wait_for_initialization_timeout a).

Definition with_arg_root (v : bool) (a : Args) : Args :=
  mkArgs (arg_properties a) v (arg_export a) (arg_value a) (arg_export_prefix a)
         (arg_wait_for_initialization_timeout a).

Definition with_arg_export (v : bool) (a : Args) : Args :=
  mkArgs (arg_properties a) (arg_root a) v (arg_value a) (arg_export_prefix a)
         (arg_wait_for_initialization_timeout a).

Definition with_arg_value (v : bool) (a : Args) : Args :=
  mkArgs (arg_properties a) (arg_root a) (arg_export a) v (arg_export_prefix a)
         (arg_wait_for_initialization_timeout a).

Definition with_arg_export_prefix (v : option string) (a : Args) : Args :=
  mkArgs (arg_properties a) (arg_root a) (arg_export a) (arg_value a) v
         (arg_wait_for_initialization_timeout a).

Definition with_arg_wait_for_initialization_timeout (v : Z) (a : Args) : Args :=
  mkArgs (arg_properties a) (arg_root a) (arg_export a) (arg_value a)
         (arg_export_prefix a) v.

(** The [switch] of lines 415-502 for one option: [inl r] when [info_main]
    returns [r] from there, [inr] with the locals when the loop goes on. *)
Definition info_option (c : getopt_result) (v : Locals) : P (Z + Locals) :=
  match c with
  | ARG_PROPERTY optarg =>
      (* Make sure that if the empty property list was specified, we won't
         show any properties. *)
      a <- get_args ;;
      if isempty optarg
         && match arg_properties a with None => true | Some _ => false end
      then r <- fault (* new0 *) ;;
           if r <? 0 then r <- log_oom ;; ret (inl r) else
           set_args (with_arg_properties (Some [])) ;;;
           ret (inr v)
      else r <- fault (* strv_split_and_extend *) ;;
           if r <? 0 then r <- log_oom ;; ret (inl r) else
           set_args (with_arg_properties
                       (strv_split_and_extend (arg_properties a) optarg)) ;;;
           ret (inr v)
  | ARG_VALUE =>
      set_args (with_arg_value true) ;;; ret (inr v)
  | opt_n optarg | opt_p optarg =>
      let prefix := match c with opt_n _ => "/dev/" | _ => "/sys/" end in
      let path :=
        path_join (match path_startswith optarg prefix with
                   | Some _ => None
                   | None => Some prefix
                   end) optarg in
      r <- fault (* path_join *) ;;
      if r <? 0 then r <- log_oom ;; ret (inl r) else
      r <- fault (* strv_consume *) ;;
      if r <? 0 then r <- log_oom ;; ret (inl r) else
      ret (inr (mkLocals (devices v ++ [path]) (name v) (action v) (query v)))
  | opt_q optarg =>
      let action := ACTION_QUERY in
      if String.eqb optarg "property" || String.eqb optarg "env"
      then ret (inr (mkLocals (devices v) (name v) action QUERY_PROPERTY))
      else if String.eqb optarg "name"
      then ret (inr (mkLocals (devices v) (name v) action QUERY_NAME))
      else if String.eqb optarg "symlink"
      then ret (inr (mkLocals (devices v) (name v) action QUERY_SYMLINK))
      else if String.eqb optarg "path"
      then ret (inr (mkLocals (devices v) (name v) action QUERY_PATH))
      else if String.eqb optarg "all"
      then ret (inr (mkLocals (devices v) (name v) action QUERY_ALL))
      else r <- log_error_errno EINVAL "unknown query type" ;; ret (inl r)
  | opt_r =>
      set_args (with_arg_root true) ;;; ret (inr v)
  | opt_d optarg =>
      let action := ACTION_DEVICE_ID_FILE in
      r <- fault (* free_and_strdup *) ;;
      if r <? 0 then r <- log_oom ;; ret (inl r) else
      ret (inr (mkLocals (devices v) (Some optarg) action (query v)))
  | opt_a =>
      ret (inr (mkLocals (devices v) (name v) ACTION_ATTRIBUTE_WALK (query v)))
  | opt_e =>
      r <- export_devices ;; ret (inl r)
  | opt_c =>
      cleanup_db_of ;;; ret (inl 0)
  | opt_x =>
      set_args (with_arg_export true) ;;; ret (inr v)
  | opt_P optarg =>
      set_args (with_arg_export true) ;;;
      set_args (with_arg_export_prefix (Some optarg)) ;;;
      ret (inr v)
  | opt_w (Some optarg) =>
      match parse_sec optarg with
      | inl r => r <- log_error_errno r "Failed to parse timeout value: %m" ;; ret (inl r)
      | inr usec =>
          set_args (with_arg_wait_for_initialization_timeout usec) ;;; ret (inr v)
      end
  | opt_w None =>
      set_args (with_arg_wait_for_initialization_timeout USEC_INFINITY) ;;;
      ret (inr v)
  | opt_V =>
      r <- print_version ;; ret (inl r)
  | opt_h =>
      r <- help ;; ret (inl r)
  | opt_unknown =>
      ret (inl (- EINVAL))
  end.

(** The [while] loop of lines 414-502 over what [getopt_long] finds. *)
Fixpoint info_options (opts : list getopt_result) (v : Locals) : P (Z + Locals) :=
  match opts with
  | [] => ret (inr v)
  | c :: rest =>
      x <- info_option c v ;;
      match x with
      | inl r => ret (inl r)
      | inr v' => info_options rest v'
      end
  end.

(** The [STRV_FOREACH] of lines 528-560. *)
Fixpoint info_devices (action : ActionType) (query : QueryType) (devices : list string)
  : P Z :=
  match devices with
  | [] => ret 0
  | p :: rest =>
      match find_device p with
      | inl r =>
          if r =? - EINVAL
          then log_error_errno r
                 ("Bad argument " ++ dquote ++ p ++ dquote
                  ++ ", expected an absolute path in /dev/ or /sys or a unit name: %m")
          else log_error_errno r ("Unknown device " ++ dquote ++ p ++ dquote ++ ": %m")
      | inr device =>
          a <- get_args ;;
          let waited :=
            if 0 <? arg_wait_for_initialization_timeout a
            then device_wait_for_initialization device
                   (arg_wait_for_initialization_timeout a)
            else inr device in
          match waited with
          | inl r => ret r
          | inr device =>
              r <- match action with
                   | ACTION_QUERY => query_device query device
                   | ACTION_ATTRIBUTE_WALK => print_device_chain device
                   | ACTION_DEVICE_ID_FILE => die assertion_failed
                   end ;;
              if r <? 0 then ret r else info_devices action query rest
          end
      end
  end.

(** [info_main], lines 382-563: [opts] is what the calls of [getopt_long]
    find in [argv], [positional] is [argv + optind] after them. *)
Definition info_main (opts : list getopt_result) (positional : list string) : P Z :=
  x <- info_options opts initial_locals ;;
  match x with
  | inl r => ret r
  | inr v =>
      if match action v with ACTION_DEVICE_ID_FILE => true | _ => false end
      then
        match positional with
        | _ :: _ =>
            log_error_errno EINVAL
              "Positional arguments are not allowed with -d/--device-id-of-file."
        | [] =>
            match name v with
            | None => die assertion_failed
            | Some name =>
                a <- get_args ;;
                stat_device name (arg_export a) (arg_export_prefix a)
            end
        end
      else
      r <- fault (* strv_extend_strv *) ;;
      if r <? 0 then log_error_errno r "Failed to build argument list: %m" else
      let devices := (devices v ++ positional)%list in
      match devices with
      | [] => log_error_errno EINVAL "A device name or path is required"
      | _ :: _ =>
          if match action v with ACTION_ATTRIBUTE_WALK => true | _ => false end
             && (1 <? Z.of_nat (List.length devices))
          then log_error_errno EINVAL
                 "Only one device may be specified with -a/--attribute-walk"
          else
          a <- get_args ;;
          if arg_export a && arg_value a
          then log_error_errno EINVAL
                 "-x/--export or -P/--export-prefix cannot be used with --value"
          else info_devices (action v) (query v) devices
      end
  end.

End Commands.

End UdevadmInfoCommands.

(* ===================================================================== *)
(** * Part IV. resolved-link-bus.c: the properties and the object lookup  *)
(* ===================================================================== *)

Module LinkBusObject.
Import LinkBus.

(** ** The reply a property getter fills *)

(** What can be put into [reply]: [sd_bus_message_open_container],
    [sd_bus_message_close_container], [sd_bus_message_append] with the
    signatures "s", "b", "t" and "(sb)", and [bus_dns_server_append], which
    serializes the server a pointer refers to ([NULL]: [None]). *)
Inductive reply_item :=
| open_container (type : ascii) (contents : string)
| close_container
| append_s (s : string)
| append_b (b : bool)
| append_t (t : Z)
| append_sb (s : string) (b : bool)
| dns_server_append (s : option nat) (with_ifindex extended : bool).

(** The reply under construction: what it holds so far, and what the next
    calls on it are going to return ([< 0]: the call fails and adds
    nothing; no entry left: [0]). *)
Record Reply := mkReply { items : list reply_item; results : list Z }.

Definition reply_put (i : reply_item) (reply : Reply) : Z * Reply :=
  match results reply with
  | [] => (0, mkReply (items reply ++ [i]) [])
  | r :: rest =>
      if r <? 0 then (r, mkReply (items reply) rest)
      else (r, mkReply (items reply ++ [i]) rest)
  end.

(** A [LIST_FOREACH] or [SET_FOREACH] whose body appends one item and
    returns on failure. *)
Fixpoint append_each {A} (item : A -> reply_item) (l : list A) (reply : Reply)
  : Z * Reply :=
  match l with
  | [] => (0, reply)
  | x :: rest =>
      let (r, reply1) := reply_put (item x) reply in
      if r <? 0 then (r, reply1) else append_each item rest reply1
  end.

(** [property_get_dns_internal], lines 42-70. *)
Definition property_get_dns_internal (l : Link) (extended : bool) (reply : Reply)
  : Z * Reply :=
  let (r, reply1) :=
    reply_put (open_container "a" (if extended then "(iayqs)" else "(iay)")) reply in
  if r <? 0 then (r, reply1) else
  let (r, reply2) :=
    append_each (fun s => dns_server_append (Some (s_ptr s)) false extended)
                (dns_servers l) reply1 in
  if r <? 0 then (r, reply2) else
  reply_put close_container reply2.

(** [property_get_dns] and [property_get_dns_ex], lines 72-92. *)
Definition property_get_dns (l : Link) : Reply -> Z * Reply :=
  property_get_dns_internal l false.

Definition property_get_dns_ex (l : Link) : Reply -> Z * Reply :=
  property_get_dns_internal l true.

(** [property_get_current_dns_server_internal], lines 94-112; [userdata]
    points at [l->current_dns_server] (the vtable's [offsetof]). *)
Definition property_get_current_dns_server_internal
           (l : Link) (extended : bool) (reply : Reply) : Z * Reply :=
  reply_put (dns_server_append (current_dns_server l) false extended) reply.

Definition property_get_current_dns_server (l : Link) : Reply -> Z * Reply :=
  property_get_current_dns_server_internal l false.

Definition property_get_current_dns_server_ex (l : Link) : Reply -> Z * Reply :=
  property_get_current_dns_server_internal l true.

(** [property_get_domains], lines 136-163. *)
Definition property_get_domains (l : Link) (reply : Reply) : Z * Reply :=
  let (r, reply1) := reply_put (open_container "a" "(sb)") reply in
  if r <? 0 then (r, reply1) else
  let (r, reply2) :=
    append_each (fun d => append_sb (name d) (route_only d)) (search_domains l) reply1 in
  if r <? 0 then (r, reply2) else
  reply_put close_container reply2.

(** [property_get_ntas], lines 214-241. *)
Definition property_get_ntas (l : Link) (reply : Reply) : Z * Reply :=
  let (r, reply1) := reply_put (open_container "a" "s") reply in
  if r <? 0 then (r, reply1) else
  let (r, reply2) := append_each append_s (dnssec_negative_trust_anchors l) reply1 in
  if r <? 0 then (r, reply2) else
  reply_put close_container reply2.

Section Scopes.

(** [DnsScope], with [dns_scope_is_default_route] and the scope flags of
    the resolver's headers. *)
Variable DnsScope : Type.
Variable dns_scope_is_default_route : DnsScope -> bool.
Variables SD_RESOLVED_DNS SD_RESOLVED_LLMNR_IPV4 SD_RESOLVED_LLMNR_IPV6
          SD_RESOLVED_MDNS_IPV4 SD_RESOLVED_MDNS_IPV6 : Z.

(** The scope pointers of [Link]; the setters reach them only through
    [link_allocate_scopes]. *)
Record LinkScopes := mkScopes {
  unicast_scope : option DnsScope;
  llmnr_ipv4_scope : option DnsScope;
  llmnr_ipv6_scope : option DnsScope;
  mdns_ipv4_scope : option DnsScope;
  mdns_ipv6_scope : option DnsScope
}.

(** [property_get_default_route], lines 165-188.  An [int] appended as "b"
    is true when it is not zero. *)
Definition property_get_default_route (l : Link) (scopes : LinkScopes) (reply : Reply)
  : Z * Reply :=
  (* Return what is configured, if there's something configured *)
  if 0 <=? default_route l
  then reply_put (append_b (negb (default_route l =? 0))) reply
  else
  (* Otherwise report what is in effect *)
  match unicast_scope scopes with
  | Some scope => reply_put (append_b (dns_scope_is_default_route scope)) reply
  | None => reply_put (append_b false) reply
  end.

(** A pointer used as a condition. *)
Definition is_set (p : option DnsScope) : bool :=
  match p with Some _ => true | None => false end.

(** [property_get_scopes_mask], lines 190-212. *)
Definition scopes_mask (scopes : LinkScopes) : Z :=
  Z.lor (Z.lor (Z.lor (Z.lor
    (if is_set (unicast_scope scopes) then SD_RESOLVED_DNS else 0)
    (if is_set (llmnr_ipv4_scope scopes) then SD_RESOLVED_LLMNR_IPV4 else 0))
    (if is_set (llmnr_ipv6_scope scopes) then SD_RESOLVED_LLMNR_IPV6 else 0))
    (if is_set (mdns_ipv4_scope scopes) then SD_RESOLVED_MDNS_IPV4 else 0))
    (if is_set (mdns_ipv6_scope scopes) then SD_RESOLVED_MDNS_IPV6 else 0).

Definition property_get_scopes_mask (scopes : LinkScopes) (reply : Reply) : Z * Reply :=
  reply_put (append_t (scopes_mask scopes)) reply.

End Scopes.

Arguments mkScopes {DnsScope}.
Arguments unicast_scope {DnsScope}.
Arguments llmnr_ipv4_scope {DnsScope}.
Arguments llmnr_ipv6_scope {DnsScope}.
Arguments mdns_ipv4_scope {DnsScope}.
Arguments mdns_ipv6_scope {DnsScope}.
Arguments is_set {DnsScope}.
Arguments property_get_default_route {DnsScope}.
Arguments scopes_mask {DnsScope}.
Arguments property_get_scopes_mask {DnsScope}.

(** ** The object of a link on the bus *)

(** [xsprintf(ifindex, "%i", link->ifindex)]. *)
Definition format_int (i : Z) : string := NilZero.string_of_int (Z.to_int i).

(** A link as the manager holds it: [link->ifindex] and the settings. *)
Record LinkObject := mkLinkObject { ifindex : Z; settings : Link }.

(** [Manager], as far as this file reads it: [m->links], a hashmap from
    interface indices to links. *)
Record Manager := mkManager { links : list (Z * LinkObject) }.

(** [hashmap_get]. *)
Definition hashmap_get {V} (h : list (Z * V)) (key : Z) : option V :=
  match find (fun kv => fst kv =? key) h with
  | Some kv => Some (snd kv)
  | None => None
  end.

Definition link_object_prefix : string := "/org/freedesktop/resolve1/link".

Section Paths.

(** [sd_bus_path_encode(prefix, external_id, &ret_path)]: a negative errno
    or the path; [sd_bus_path_decode(path, prefix, &external_id)]: negative
    on failure, [0] when [path] is not below [prefix], positive with the
    label decoded; [parse_ifindex]: the index or a negative errno. *)
Variable sd_bus_path_encode : string -> string -> Z + string.
Variable sd_bus_path_decode : string -> string -> Z * string.
Variable parse_ifindex : string -> Z.

(** [link_object_find], lines 701-727: the return value and [*found]. *)
Definition link_object_find (m : Manager) (path : string) : Z * option LinkObject :=
  let (r, e) := sd_bus_path_decode path link_object_prefix in
  if r <=? 0 then (0, None) else
  let ifindex := parse_ifindex e in
  if ifindex <? 0 then (0, None) else
  match hashmap_get (links m) ifindex with
  | None => (0, None)
  | Some link => (1, Some link)
  end.

(** [link_bus_path], lines 729-742. *)
Definition link_bus_path (link : LinkObject) : option string :=
  match sd_bus_path_encode link_object_prefix (format_int (ifindex link)) with
  | inl _ => None
  | inr p => Some p
  end.

(** The [HASHMAP_FOREACH] of lines 759-767. *)
Fixpoint enumerate_links (ls : list (Z * LinkObject)) : option (list string) :=
  match ls with
  | [] => Some []
  | (_, link) :: rest =>
      match link_bus_path link with
      | None => None
      | Some p =>
          match enumerate_links rest with
          | None => None
          | Some l => Some (p :: l)
          end
      end
  end.

(** [link_node_enumerator], lines 744-773: the return value and [*nodes].
    [new0_succeeds] tells whether the array could be allocated. *)
Definition link_node_enumerator (new0_succeeds : bool) (m : Manager)
  : Z * option (list string) :=
  if negb new0_succeeds then (- ENOMEM, None) else
  match enumerate_links (links m) with
  | None => (- ENOMEM, None)
  | Some l => (1, Some l)
  end.

End Paths.

End LinkBusObject.

(* ===================================================================== *)
(** * Part V. The replace-set protocol on a list, in general             *)
(* ===================================================================== *)

Module MarkSweepFacts.
Import MarkSweep.
Local Open Scope list_scope.
Local Open Scope nat_scope.

Section Generic.
Variables E V K : Type.
Variable K_eq_dec : forall a b : K, {a = b} + {a <> b}.
Variable vkey : V -> K.
Variable view : E -> V.
Variable ptr : E -> nat.
Variable marked : E -> bool.
Variable set_marked : bool -> E -> E.
(** [set_view v e]: what the handler stores into a matched or new entry
    besides the key; [mk n v]: the new entry for [v] at address [n]. *)
Variable set_view : V -> E -> E.
Variable mk : nat -> V -> E.

Hypothesis ptr_set_marked : forall b e, ptr (set_marked b e) = ptr e.
Hypothesis view_set_marked : forall b e, view (set_marked b e) = view e.
Hypothesis marked_set_marked : forall b e, marked (set_marked b e) = b.
Hypothesis ptr_set_view : forall v e, ptr (set_view v e) = ptr e.
Hypothesis marked_set_view : forall v e, marked (set_view v e) = marked e.
Hypothesis key_set_view : forall v e, vkey (view (set_view v e)) = vkey (view e).
Hypothesis ptr_mk : forall n v, ptr (mk n v) = n.
Hypothesis view_mk : forall n v, view (mk n v) = v.
Hypothesis marked_mk : forall n v, marked (mk n v) = false.

Definition key : E -> K := MarkSweep.key vkey view.
Definition keyb (k : K) (e : E) : bool := if K_eq_dec (key e) k then true else false.

(** The heap discipline of a list: distinct addresses, all below the
    allocator's next one. *)
Definition wfp (n : nat) (first : list E) : Prop :=
  NoDup (map ptr first) /\ Forall (fun e => (ptr e < n)%nat) first.

(** The heap discipline together with the data model's invariant: distinct
    keys. *)
Definition wf (n : nat) (first : list E) : Prop :=
  NoDup (map ptr first)
  /\ Forall (fun e => (ptr e < n)%nat) first
  /\ NoDup (map key first).

(** What the reconcile phase does to a matched entry: the mark is cleared
    and the handler's fields are stored. *)
Definition touch (v : V) (e : E) : E := set_view v (set_marked false e).

(** One iteration of a reconcile loop that meets no failure: the list and
    the allocator before and after. *)
Definition step (st : list E * nat) (v : V) : list E * nat :=
  let (first, n) := st in
  match List.find (keyb (vkey v)) first with
  | Some e => (assign ptr (ptr e) (touch v) first, n)
  | None => (first ++ [mk n v], S n)
  end.

Definition run (vs : list V) (st : list E * nat) : list E * nat :=
  fold_left step vs st.

(** The list after a whole replace-set call that meets no failure: mark,
    reconcile every requested value, sweep. *)
Definition replace_set (vs : list V) (st : list E * nat) : list E * nat :=
  let (first, n) := run vs (mark_all set_marked (fst st), snd st) in
  (unlink_marked marked first, n).

(** What a reader sees of the list: the values of the entries that are not
    marked. *)
Definition visible (first : list E) : list V := map view (unlink_marked marked first).

(** *** Elementary facts *)

Lemma key_set_marked b e : key (set_marked b e) = key e.
Proof. unfold key, MarkSweep.key. rewrite view_set_marked. reflexivity. Qed.

Lemma ptr_touch v e : ptr (touch v e) = ptr e.
Proof. unfold touch. rewrite ptr_set_view, ptr_set_marked. reflexivity. Qed.

Lemma marked_touch v e : marked (touch v e) = false.
Proof. unfold touch. rewrite marked_set_view, marked_set_marked. reflexivity. Qed.

Lemma key_touch v e : key e = vkey v -> key (touch v e) = key e.
Proof.
  intros _. unfold key, MarkSweep.key, touch.
  rewrite key_set_view, view_set_marked. reflexivity.
Qed.

Lemma find_key_some k first e :
  List.find (keyb k) first = Some e -> In e first /\ key e = k.
Proof.
  intros H. apply find_some in H. destruct H as [Hin Hk].
  split; [exact Hin|]. unfold keyb in Hk.
  destruct (K_eq_dec (key e) k); [assumption|discriminate].
Qed.

Lemma find_key_none k first :
  List.find (keyb k) first = None -> forall e, In e first -> key e <> k.
Proof.
  intros H e Hin. pose proof (find_none _ _ H e Hin) as Hk. unfold keyb in Hk.
  destruct (K_eq_dec (key e) k); [discriminate|assumption].
Qed.

Lemma find_key_in k first :
  In k (map key first) -> exists e, List.find (keyb k) first = Some e.
Proof.
  intros Hin. destruct (List.find (keyb k) first) as [e|] eqn:Hf.
  - exists e. reflexivity.
  - exfalso. apply in_map_iff in Hin. destruct Hin as [e [He Hin]].
    exact (find_key_none _ _ Hf e Hin He).
Qed.

Lemma keyb_refl e : keyb (key e) e = true.
Proof. unfold keyb. destruct (K_eq_dec (key e) (key e)); congruence. Qed.

Lemma find_app_some {A} (f : A -> bool) a b x :
  List.find f a = Some x -> List.find f (a ++ b) = Some x.
Proof.
  induction a as [|y a IH]; simpl; [discriminate|].
  destruct (f y); [auto|exact IH].
Qed.

Lemma find_app_none {A} (f : A -> bool) a b :
  List.find f a = None -> List.find f (a ++ b) = List.find f b.
Proof.
  induction a as [|y a IH]; simpl; [reflexivity|].
  destruct (f y); [discriminate|exact IH].
Qed.

Lemma NoDup_map_inj {A B} (f : A -> B) l x y :
  NoDup (map f l) -> In x l -> In y l -> f x = f y -> x = y.
Proof.
  induction l as [|a l IH]; simpl; intros Hnd Hx Hy Hxy; [contradiction|].
  inversion Hnd as [|? ? Hnotin Hnd']. subst.
  destruct Hx as [->|Hx], Hy as [->|Hy].
  - reflexivity.
  - exfalso. apply Hnotin. rewrite Hxy. apply in_map. exact Hy.
  - exfalso. apply Hnotin. rewrite <- Hxy. apply in_map. exact Hx.
  - apply IH; assumption.
Qed.

Lemma NoDup_map_of {A B} (f : A -> B) l :
  NoDup l -> (forall x y, In x l -> In y l -> f x = f y -> x = y) ->
  NoDup (map f l).
Proof.
  induction l as [|a l IH]; simpl; intros Hnd Hinj; [constructor|].
  inversion Hnd as [|? ? Hnotin Hnd']. subst. constructor.
  - intros Hin. apply in_map_iff in Hin. destruct Hin as [x [Hx Hxin]].
    apply Hnotin. rewrite (Hinj a x); auto.
  - apply IH; [exact Hnd'|]. intros x y Hx Hy. apply Hinj; auto.
Qed.

Lemma deref_in first e :
  NoDup (map ptr first) -> In e first -> deref ptr (ptr e) first = Some e.
Proof.
  unfold deref. induction first as [|a l IH]; simpl; intros Hnd Hin; [contradiction|].
  inversion Hnd as [|? ? Hnotin Hnd']. subst.
  destruct (Nat.eqb_spec (ptr a) (ptr e)) as [Heq|Hne].
  - destruct Hin as [->|Hin]; [reflexivity|].
    exfalso. apply Hnotin. rewrite Heq. apply in_map. exact Hin.
  - destruct Hin as [->|Hin]; [congruence|]. apply IH; assumption.
Qed.

Lemma deref_some first p e : deref ptr p first = Some e -> In e first /\ ptr e = p.
Proof.
  unfold deref. intros H. apply find_some in H. destruct H as [Hin Hp].
  split; [exact Hin|]. apply Nat.eqb_eq. exact Hp.
Qed.

Lemma map_filter_comm {A B} (f : A -> B) (g : B -> bool) l :
  map f (filter (fun a => g (f a)) l) = filter g (map f l).
Proof.
  induction l as [|a l IH]; simpl; [reflexivity|].
  destruct (g (f a)); simpl; rewrite IH; reflexivity.
Qed.

Lemma NoDup_map_filter {A B} (f : A -> B) (g : A -> bool) l :
  NoDup (map f l) -> NoDup (map f (filter g l)).
Proof.
  induction l as [|a l IH]; simpl; intros Hnd; [constructor|].
  inversion Hnd as [|? ? Hnotin Hnd']. subst.
  destruct (g a); simpl; [|apply IH; exact Hnd'].
  constructor; [|apply IH; exact Hnd'].
  intros Hin. apply Hnotin. apply in_map_iff in Hin.
  destruct Hin as [x [Hx Hin]]. apply filter_In in Hin.
  rewrite <- Hx. apply in_map. tauto.
Qed.

Lemma NoDup_snoc {A} (l : list A) x : NoDup l -> ~ In x l -> NoDup (l ++ [x]).
Proof.
  intros Hnd Hn. apply NoDup_app; [exact Hnd | repeat constructor; intros [] |].
  intros y Hy [<-|[]]. exact (Hn Hy).
Qed.

Lemma NoDup_of_map {A B} (f : A -> B) l : NoDup (map f l) -> NoDup l.
Proof.
  induction l as [|a l IH]; simpl; intros Hnd; [constructor|].
  inversion Hnd as [|? ? Hnotin Hnd']. subst.
  constructor; [|apply IH; exact Hnd'].
  intros Hin. apply Hnotin. apply in_map. exact Hin.
Qed.

Lemma filter_all {A} (f : A -> bool) l :
  (forall x, In x l -> f x = true) -> filter f l = l.
Proof.
  induction l as [|a l IH]; simpl; intros H; [reflexivity|].
  rewrite (H a (or_introl eq_refl)). f_equal. apply IH. auto.
Qed.

(** *** Assignments through a pointer *)

Lemma assign_absent p f first :
  (forall e, In e first -> ptr e <> p) -> assign ptr p f first = first.
Proof.
  unfold assign. induction first as [|a l IH]; simpl; intros H; [reflexivity|].
  destruct (Nat.eqb_spec (ptr a) p) as [Heq|_].
  - exfalso. exact (H a (or_introl eq_refl) Heq).
  - f_equal. apply IH. auto.
Qed.

Lemma assign_snoc p f first e :
  (forall x, In x first -> ptr x <> p) -> ptr e = p ->
  assign ptr p f (first ++ [e]) = first ++ [f e].
Proof.
  intros Habs He. unfold assign. rewrite map_app. fold (assign ptr p f first).
  rewrite (assign_absent p f first Habs). simpl.
  rewrite He, Nat.eqb_refl. reflexivity.
Qed.

Lemma assign_assign p f g first :
  (forall e, ptr (g e) = ptr e) ->
  assign ptr p f (assign ptr p g first) = assign ptr p (fun e => f (g e)) first.
Proof.
  intros Hg. unfold assign. rewrite map_map. apply map_ext. intros e.
  destruct (Nat.eqb (ptr e) p) eqn:He.
  - rewrite Hg, He. reflexivity.
  - rewrite He. reflexivity.
Qed.

Lemma in_assign p f first x :
  In x (assign ptr p f first)
  <-> exists e, In e first /\ x = (if Nat.eqb (ptr e) p then f e else e).
Proof.
  unfold assign. rewrite in_map_iff. split; intros [e [H1 H2]]; exists e; auto.
Qed.

(** An assignment that leaves addresses and keys alone changes neither what
    the list holds under an address nor what the finder finds. *)
Lemma map_ptr_assign p f first :
  (forall e, ptr (f e) = ptr e) -> map ptr (assign ptr p f first) = map ptr first.
Proof.
  intros Hf. unfold assign. rewrite map_map. apply map_ext. intros e.
  destruct (Nat.eqb (ptr e) p); [apply Hf|reflexivity].
Qed.

Lemma map_key_assign p f first :
  (forall e, In e first -> ptr e = p -> key (f e) = key e) ->
  map key (assign ptr p f first) = map key first.
Proof.
  intros Hf. unfold assign. rewrite map_map. apply map_ext_in. intros e He.
  destruct (Nat.eqb_spec (ptr e) p); [apply Hf; assumption|reflexivity].
Qed.

Lemma find_assign k p f first :
  (forall e, In e first -> ptr e = p -> key (f e) = key e) ->
  List.find (keyb k) (assign ptr p f first)
  = option_map (fun e => if Nat.eqb (ptr e) p then f e else e)
               (List.find (keyb k) first).
Proof.
  unfold assign. induction first as [|a l IH]; simpl; intros Hf; [reflexivity|].
  assert (Hk : keyb k (if Nat.eqb (ptr a) p then f a else a) = keyb k a).
  { unfold keyb. destruct (Nat.eqb_spec (ptr a) p) as [Hp|_]; [|reflexivity].
    rewrite (Hf a (or_introl eq_refl) Hp). reflexivity. }
  rewrite Hk. destruct (keyb k a); [reflexivity|].
  apply IH. intros e He. apply Hf. right. exact He.
Qed.

Lemma find_mark_all k first :
  List.find (keyb k) (mark_all set_marked first)
  = option_map (set_marked true) (List.find (keyb k) first).
Proof.
  unfold mark_all. induction first as [|a l IH]; simpl; [reflexivity|].
  unfold keyb at 1. rewrite key_set_marked. fold (keyb k a).
  destruct (keyb k a); [reflexivity|exact IH].
Qed.

(** The entry the finder returns is the only one the assignment of the
    step touches, and its key stays. *)
Lemma touched_key n first v e :
  wfp n first -> List.find (keyb (vkey v)) first = Some e ->
  forall x, In x first -> ptr x = ptr e -> key (touch v x) = key x.
Proof.
  intros [Hnd _] Hf x Hx Hp. apply find_key_some in Hf. destruct Hf as [Hin Hk].
  rewrite (NoDup_map_inj ptr first x e Hnd Hx Hin Hp). apply key_touch. exact Hk.
Qed.

(** *** The heap discipline is kept *)

Lemma wf_wfp n first : wf n first -> wfp n first.
Proof. intros [Hp [Hlt _]]. split; assumption. Qed.

Lemma wfp_mark_all n first : wfp n first -> wfp n (mark_all set_marked first).
Proof.
  unfold wfp, mark_all. intros [Hp Hlt]. rewrite map_map.
  rewrite (map_ext (fun x => ptr (set_marked true x)) ptr)
    by (intros; apply ptr_set_marked).
  split; [exact Hp|]. apply Forall_map. eapply Forall_impl; [|exact Hlt].
  intros e He. simpl. rewrite ptr_set_marked. exact He.
Qed.

Lemma wfp_unlink_marked n first : wfp n first -> wfp n (unlink_marked marked first).
Proof.
  unfold wfp, unlink_marked. intros [Hp Hlt].
  split; [apply NoDup_map_filter; exact Hp|].
  rewrite Forall_forall in *. intros e He. apply filter_In in He. apply Hlt. tauto.
Qed.

Lemma wfp_step n first v :
  wfp n first -> wfp (snd (step (first, n) v)) (fst (step (first, n) v)).
Proof.
  intros Hwf. pose proof Hwf as [Hp Hlt]. unfold step.
  destruct (List.find (keyb (vkey v)) first) as [e|] eqn:Hf; cbn [fst snd].
  - unfold wfp. rewrite (map_ptr_assign _ _ _ (ptr_touch v)).
    split; [exact Hp|]. rewrite Forall_forall in *. intros x Hx.
    apply in_assign in Hx. destruct Hx as [y [Hy ->]].
    destruct (Nat.eqb (ptr y) (ptr e)); [rewrite ptr_touch|]; apply Hlt, Hy.
  - unfold wfp. rewrite map_app. simpl. rewrite ptr_mk. split.
    + apply NoDup_snoc; [exact Hp|].
      intros H. apply in_map_iff in H. destruct H as [x [Hx Hxin]].
      rewrite Forall_forall in Hlt. specialize (Hlt x Hxin). lia.
    + apply Forall_app. split.
      * eapply Forall_impl; [|exact Hlt]. intros x Hx. simpl in *. lia.
      * constructor; [|constructor]. rewrite ptr_mk. lia.
Qed.

Lemma run_cons v vs st : run (v :: vs) st = run vs (step st v).
Proof. reflexivity. Qed.

Lemma run_nil st : run [] st = st.
Proof. reflexivity. Qed.

Lemma run_app vs1 vs2 st : run (vs1 ++ vs2) st = run vs2 (run vs1 st).
Proof. unfold run. apply fold_left_app. Qed.

Lemma wfp_run vs n first :
  wfp n first -> wfp (snd (run vs (first, n))) (fst (run vs (first, n))).
Proof.
  revert n first.
  induction vs as [|v vs IH]; intros n first Hwf.
  - exact Hwf.
  - rewrite run_cons. pose proof (wfp_step n first v Hwf) as Hs.
    destruct (step (first, n) v) as [first' n']. apply IH. exact Hs.
Qed.

Lemma step_mono st v : (snd st <= snd (step st v))%nat.
Proof.
  destruct st as [first n]. unfold step.
  destruct (List.find _ first); simpl; lia.
Qed.

Lemma run_mono vs st : (snd st <= snd (run vs st))%nat.
Proof.
  revert st. induction vs as [|v vs IH]; intros st; [apply Nat.le_refl|].
  rewrite run_cons. eapply Nat.le_trans; [apply step_mono | apply IH].
Qed.

Lemma replace_set_wfp vs n first :
  wfp n first ->
  wfp (snd (replace_set vs (first, n))) (fst (replace_set vs (first, n))).
Proof.
  intros Hwf. unfold replace_set. simpl.
  pose proof (wfp_run vs n _ (wfp_mark_all n first Hwf)) as H.
  destruct (run vs (mark_all set_marked first, n)) as [first' n']. simpl in *.
  apply wfp_unlink_marked. exact H.
Qed.

Lemma replace_set_unmarked vs st :
  Forall (fun e => marked e = false) (fst (replace_set vs st)).
Proof.
  unfold replace_set.
  destruct (run vs (mark_all set_marked (fst st), snd st)) as [first' n']. simpl.
  unfold unlink_marked. rewrite Forall_forall. intros e He.
  apply filter_In in He. destruct He as [_ He].
  destruct (marked e); [discriminate|reflexivity].
Qed.

(** *** Distinct keys are kept *)

Lemma wf_mark_all n first : wf n first -> wf n (mark_all set_marked first).
Proof.
  intros Hwf. destruct (wfp_mark_all n first (wf_wfp n first Hwf)) as [Hp Hlt].
  split; [exact Hp|]. split; [exact Hlt|].
  destruct Hwf as [_ [_ Hk]]. unfold mark_all. rewrite map_map.
  rewrite (map_ext (fun x => key (set_marked true x)) key)
    by (intros; apply key_set_marked).
  exact Hk.
Qed.

Lemma wf_unlink_marked n first : wf n first -> wf n (unlink_marked marked first).
Proof.
  intros Hwf. destruct (wfp_unlink_marked n first (wf_wfp n first Hwf)) as [Hp Hlt].
  split; [exact Hp|]. split; [exact Hlt|].
  destruct Hwf as [_ [_ Hk]]. apply NoDup_map_filter. exact Hk.
Qed.

Lemma wf_step n first v :
  wf n first -> wf (snd (step (first, n) v)) (fst (step (first, n) v)).
Proof.
  intros Hwf. pose proof (wf_wfp n first Hwf) as Hwfp.
  destruct (wfp_step n first v Hwfp) as [Hp Hlt].
  split; [exact Hp|]. split; [exact Hlt|].
  destruct Hwf as [_ [_ Hk]]. unfold step.
  destruct (List.find (keyb (vkey v)) first) as [e|] eqn:Hf; cbn [fst snd].
  - rewrite (map_key_assign _ _ _ (touched_key n first v e Hwfp Hf)). exact Hk.
  - rewrite map_app. simpl. unfold key at 2, MarkSweep.key. rewrite view_mk.
    apply NoDup_snoc; [exact Hk|].
    intros H. apply in_map_iff in H. destruct H as [x [Hx Hxin]].
    exact (find_key_none _ _ Hf x Hxin Hx).
Qed.

Lemma wf_run vs n first :
  wf n first -> wf (snd (run vs (first, n))) (fst (run vs (first, n))).
Proof.
  revert n first.
  induction vs as [|v vs IH]; intros n first Hwf.
  - exact Hwf.
  - rewrite run_cons. pose proof (wf_step n first v Hwf) as Hs.
    destruct (step (first, n) v) as [first' n']. apply IH. exact Hs.
Qed.

Lemma replace_set_wf vs n first :
  wf n first ->
  wf (snd (replace_set vs (first, n))) (fst (replace_set vs (first, n))).
Proof.
  intros Hwf. unfold replace_set. simpl.
  pose proof (wf_run vs n _ (wf_mark_all n first Hwf)) as H.
  destruct (run vs (mark_all set_marked first, n)) as [first' n']. simpl in *.
  apply wf_unlink_marked. exact H.
Qed.

(** *** What the reconcile phase keeps true *)

(** [seen] being the requested values handled so far: an entry whose mark
    is cleared is the first of the list under its key, its key is that of a
    value of [seen], and every value of [seen] has such an entry. *)
Definition reconciled (seen : list V) (first : list E) : Prop :=
  (forall e, In e first -> marked e = false ->
             List.find (keyb (key e)) first = Some e)
  /\ (forall e, In e first -> marked e = false -> In (key e) (map vkey seen))
  /\ (forall v, In v seen ->
                exists e, In e first /\ key e = vkey v /\ marked e = false).

Lemma reconciled_mark_all first : reconciled [] (mark_all set_marked first).
Proof.
  assert (Hm : forall e, In e (mark_all set_marked first) -> marked e = false -> False).
  { intros e He Hu. unfold mark_all in He. apply in_map_iff in He.
    destruct He as [x [<- _]]. rewrite marked_set_marked in Hu. discriminate. }
  split; [|split].
  - intros e He Hu. destruct (Hm e He Hu).
  - intros e He Hu. destruct (Hm e He Hu).
  - intros v [].
Qed.

Lemma reconciled_step seen n first v :
  wfp n first -> reconciled seen first ->
  reconciled (seen ++ [v]) (fst (step (first, n) v)).
Proof.
  intros Hwf [Hfst [Hkeys Hcov]]. pose proof Hwf as [Hnd _]. unfold step.
  destruct (List.find (keyb (vkey v)) first) as [e|] eqn:Hf; cbn [fst].
  - pose proof (touched_key n first v e Hwf Hf) as Htk.
    pose proof (find_key_some _ _ _ Hf) as [Hin Hkey].
    split; [|split].
    + intros x Hx Hu. apply in_assign in Hx. destruct Hx as [y [Hy ->]].
      rewrite (find_assign _ _ _ _ Htk).
      destruct (Nat.eqb_spec (ptr y) (ptr e)) as [Hp|Hp].
      * assert (y = e) by (apply (NoDup_map_inj ptr first); assumption). subst y.
        rewrite (key_touch v e Hkey), Hkey, Hf. cbn [option_map].
        rewrite Nat.eqb_refl. reflexivity.
      * rewrite (Hfst y Hy Hu). cbn [option_map].
        destruct (Nat.eqb_spec (ptr y) (ptr e)); [contradiction|reflexivity].
    + intros x Hx Hu. apply in_assign in Hx. destruct Hx as [y [Hy ->]].
      rewrite map_app. apply in_or_app.
      destruct (Nat.eqb_spec (ptr y) (ptr e)) as [Hp|Hp].
      * right. left. rewrite (Htk y Hy Hp).
        rewrite (NoDup_map_inj ptr first y e Hnd Hy Hin Hp). symmetry. exact Hkey.
      * left. apply Hkeys; assumption.
    + intros x Hx. apply in_app_or in Hx. destruct Hx as [Hx|[<-|[]]].
      * destruct (Hcov x Hx) as [y [Hy [Hk Hu]]].
        exists (if Nat.eqb (ptr y) (ptr e) then touch v y else y).
        split; [apply in_assign; exists y; auto|].
        destruct (Nat.eqb_spec (ptr y) (ptr e)) as [Hp|Hp]; [|auto].
        rewrite (Htk y Hy Hp), marked_touch. auto.
      * exists (touch v e). split.
        -- apply in_assign. exists e. rewrite Nat.eqb_refl. auto.
        -- rewrite (key_touch v e Hkey), marked_touch. auto.
  - assert (Hkmk : key (mk n v) = vkey v)
      by (unfold key, MarkSweep.key; rewrite view_mk; reflexivity).
    split; [|split].
    + intros x Hx Hu. apply in_app_or in Hx. destruct Hx as [Hx|[<-|[]]].
      * apply find_app_some. apply Hfst; assumption.
      * rewrite Hkmk, (find_app_none _ _ _ Hf). simpl.
        unfold keyb. rewrite Hkmk.
        destruct (K_eq_dec (vkey v) (vkey v)); congruence.
    + intros x Hx Hu. rewrite map_app. apply in_or_app.
      apply in_app_or in Hx. destruct Hx as [Hx|[<-|[]]].
      * left. apply Hkeys; assumption.
      * right. left. symmetry. exact Hkmk.
    + intros x Hx. apply in_app_or in Hx. destruct Hx as [Hx|[<-|[]]].
      * destruct (Hcov x Hx) as [y [Hy [Hk Hu]]].
        exists y. split; [apply in_or_app; left; exact Hy|]. auto.
      * exists (mk n v). split; [apply in_or_app; right; left; reflexivity|].
        rewrite marked_mk. auto.
Qed.

Lemma reconciled_run vs seen n first :
  wfp n first -> reconciled seen first ->
  reconciled (seen ++ vs) (fst (run vs (first, n))).
Proof.
  revert seen n first. induction vs as [|v vs IH]; intros seen n first Hwf Hr.
  - rewrite app_nil_r. exact Hr.
  - rewrite run_cons.
    pose proof (wfp_step n first v Hwf) as Hs.
    pose proof (reconciled_step seen n first v Hwf Hr) as Ht.
    destruct (step (first, n) v) as [first' n']. cbn [fst snd] in *.
    replace (seen ++ v :: vs) with ((seen ++ [v]) ++ vs)
      by (rewrite <- app_assoc; reflexivity).
    apply IH; assumption.
Qed.

(** After a replace-set call no two entries of the list have the same key,
    whatever the list was before, and the keys of the list are the keys of
    the request. *)
Lemma replace_set_keys vs n first :
  wfp n first ->
  NoDup (map key (fst (replace_set vs (first, n))))
  /\ (forall v, In v vs -> In (vkey v) (map key (fst (replace_set vs (first, n)))))
  /\ (forall e, In e (fst (replace_set vs (first, n))) -> In (key e) (map vkey vs)).
Proof.
  intros Hwf. unfold replace_set. cbn [fst snd].
  pose proof (wfp_run vs n _ (wfp_mark_all n first Hwf)) as Hwr.
  pose proof (reconciled_run vs [] n _ (wfp_mark_all n first Hwf)
                (reconciled_mark_all first)) as [Hfst [Hkeys Hcov]].
  destruct (run vs (mark_all set_marked first, n)) as [first' n'].
  cbn [fst snd app] in *. destruct Hwr as [Hndp _].
  assert (Hin : forall e, In e (unlink_marked marked first')
                          <-> In e first' /\ marked e = false).
  { intros e. unfold unlink_marked. rewrite filter_In.
    destruct (marked e); simpl; intuition congruence. }
  split; [|split].
  - apply NoDup_map_of.
    + apply (NoDup_of_map ptr). apply NoDup_map_filter. exact Hndp.
    + intros x y Hx Hy Hxy. apply Hin in Hx, Hy.
      destruct Hx as [Hx Hxu], Hy as [Hy Hyu].
      pose proof (Hfst x Hx Hxu) as H1. pose proof (Hfst y Hy Hyu) as H2.
      rewrite Hxy in H1. congruence.
  - intros v Hv. destruct (Hcov v Hv) as [e [He [Hk Hu]]].
    rewrite <- Hk. apply in_map. apply Hin. auto.
  - intros e He. apply Hin in He. destruct He as [He Hu]. apply Hkeys; assumption.
Qed.

(** *** Which entries a call keeps, and for which values it makes new ones *)

(** The entry the finder returns for a key stays the one it returns, under
    the same address, while the request is reconciled; once a value with the
    key has been handled its mark is cleared. *)
Lemma first_stays_step k n first v x :
  wfp n first -> List.find (keyb k) first = Some x ->
  exists x',
    List.find (keyb k) (fst (step (first, n) v)) = Some x'
    /\ ptr x' = ptr x
    /\ (x' = x \/ x' = touch v x)
    /\ (marked x = false -> marked x' = false)
    /\ (vkey v = k -> marked x' = false).
Proof.
  intros Hwf Hx. pose proof Hwf as [Hnd _].
  pose proof (find_key_some _ _ _ Hx) as [Hxin Hxk]. unfold step.
  destruct (List.find (keyb (vkey v)) first) as [e|] eqn:Hf; cbn [fst].
  - rewrite (find_assign _ _ _ _ (touched_key n first v e Hwf Hf)), Hx.
    cbn [option_map]. pose proof (find_key_some _ _ _ Hf) as [Hein Hek].
    destruct (Nat.eqb_spec (ptr x) (ptr e)) as [Hp|Hp].
    + exists (touch v x). split; [reflexivity|]. split; [apply ptr_touch|].
      split; [right; reflexivity|]. rewrite marked_touch. auto.
    + exists x. split; [reflexivity|]. split; [reflexivity|].
      split; [left; reflexivity|]. split; [auto|].
      intros Hvk. exfalso. apply Hp. f_equal. rewrite <- Hvk in Hx. congruence.
  - exists x. split; [apply find_app_some; exact Hx|]. split; [reflexivity|].
    split; [left; reflexivity|]. split; [auto|].
    intros Hvk. exfalso. exact (find_key_none _ _ Hf x Hxin (eq_trans Hxk (eq_sym Hvk))).
Qed.

(** No entry is made for a value whose key the list has: an entry of the
    list after the call under a key the list had before is an object the
    list had before. *)
Lemma replace_set_no_new vs n first e :
  wfp n first ->
  In e (fst (replace_set vs (first, n))) ->
  In (key e) (map key first) ->
  In (ptr e) (map ptr first).
Proof.
  intros Hwf He Hk.
  assert (Hinv : forall ws g m,
             wfp m g ->
             (forall k, In k (map key first) -> In k (map key g)) ->
             (forall x, In x g -> In (ptr x) (map ptr first)
                                  \/ ~ In (key x) (map key first)) ->
             forall x, In x (fst (run ws (g, m))) ->
                       In (ptr x) (map ptr first) \/ ~ In (key x) (map key first)).
  { clear Hwf He Hk. intros ws.
    induction ws as [|v ws IH]; intros g m Hwf Hkeys Hold x Hx.
    - apply Hold. exact Hx.
    - rewrite run_cons in Hx. pose proof (wfp_step m g v Hwf) as Hs.
      unfold step in *.
      destruct (List.find (keyb (vkey v)) g) as [e0|] eqn:Hf; cbn [fst snd] in *.
      + pose proof (touched_key m g v e0 Hwf Hf) as Htk.
        apply (IH _ _ Hs); [| |exact Hx].
        * rewrite (map_key_assign _ _ _ Htk). exact Hkeys.
        * intros y Hy. apply in_assign in Hy. destruct Hy as [z [Hz ->]].
          destruct (Nat.eqb_spec (ptr z) (ptr e0)) as [Hp|Hp]; [|apply Hold, Hz].
          rewrite ptr_touch, (Htk z Hz Hp). apply Hold, Hz.
      + apply (IH _ _ Hs); [| |exact Hx].
        * intros k Hkin. rewrite map_app. apply in_or_app. left. apply Hkeys, Hkin.
        * intros y Hy. apply in_app_or in Hy. destruct Hy as [Hy|[<-|[]]].
          -- apply Hold, Hy.
          -- right. unfold key at 1, MarkSweep.key. rewrite view_mk.
             intros Hin. apply Hkeys in Hin. apply in_map_iff in Hin.
             destruct Hin as [z [Hz Hzin]].
             exact (find_key_none _ _ Hf z Hzin Hz). }
  unfold replace_set in He. cbn [fst snd] in He.
  assert (Hx : In e (fst (run vs (mark_all set_marked first, n)))).
  { destruct (run vs (mark_all set_marked first, n)) as [first' n'].
    cbn [fst] in *. unfold unlink_marked in He. apply filter_In in He. tauto. }
  assert (Hmk : map key (mark_all set_marked first) = map key first).
  { unfold mark_all. rewrite map_map. apply map_ext. intros; apply key_set_marked. }
  assert (Hmp : map ptr (mark_all set_marked first) = map ptr first).
  { unfold mark_all. rewrite map_map. apply map_ext. intros; apply ptr_set_marked. }
  destruct (Hinv vs _ n (wfp_mark_all n first Hwf)) with (x := e) as [H|H];
    [ rewrite Hmk; auto
    | intros x Hxin; left; rewrite <- Hmp; apply in_map; exact Hxin
    | exact Hx | exact H | contradiction ].
Qed.

(** *** A request without repeated keys is read back as it was made *)

(** For a list whose matched entries take the requested value whole. *)
Hypothesis view_set_view :
  forall v e, vkey (view e) = vkey v -> view (set_view v e) = v.

Lemma view_touch v e : key e = vkey v -> view (touch v e) = v.
Proof.
  intros He. unfold touch. apply view_set_view. rewrite view_set_marked. exact He.
Qed.

Lemma visible_app a b : visible (a ++ b) = visible a ++ visible b.
Proof. unfold visible, unlink_marked. rewrite filter_app, map_app. reflexivity. Qed.

Lemma visible_mark_all first : visible (mark_all set_marked first) = [].
Proof.
  unfold visible, unlink_marked, mark_all.
  induction first as [|e l IH]; simpl; [reflexivity|].
  rewrite marked_set_marked. simpl. exact IH.
Qed.

Lemma visible_assign_marked first v e :
  NoDup (map ptr first) -> In e first -> marked e = true -> key e = vkey v ->
  Permutation (visible (assign ptr (ptr e) (touch v) first)) (v :: visible first).
Proof.
  intros Hnd Hin Hm Hk. induction first as [|a l IH]; [destruct Hin|].
  inversion Hnd as [|? ? Hnotin Hnd']. subst.
  change (assign ptr (ptr e) (touch v) (a :: l))
    with ((if Nat.eqb (ptr a) (ptr e) then touch v a else a)
            :: assign ptr (ptr e) (touch v) l).
  destruct Hin as [->|Hin].
  - rewrite Nat.eqb_refl.
    rewrite assign_absent.
    + unfold visible, unlink_marked. simpl.
      rewrite marked_touch, Hm. simpl. rewrite (view_touch v e Hk).
      apply Permutation_refl.
    + intros x Hx Hp. apply Hnotin. rewrite <- Hp. apply in_map. exact Hx.
  - destruct (Nat.eqb_spec (ptr a) (ptr e)) as [Hp|Hp].
    + exfalso. apply Hnotin. rewrite Hp. apply in_map. exact Hin.
    + change (visible (a :: assign ptr (ptr e) (touch v) l))
        with (visible ([a] ++ assign ptr (ptr e) (touch v) l)).
      change (visible (a :: l)) with (visible ([a] ++ l)).
      rewrite !visible_app.
      eapply perm_trans; [apply Permutation_app_head, IH; assumption|].
      apply Permutation_sym, Permutation_middle.
Qed.

Lemma visible_run vs seen n first :
  wfp n first ->
  NoDup (map vkey vs) ->
  (forall x, In x seen -> ~ In (vkey x) (map vkey vs)) ->
  Permutation (visible first) seen ->
  Permutation (visible (fst (run vs (first, n)))) (seen ++ vs).
Proof.
  revert seen n first.
  induction vs as [|v vs IH]; intros seen n first Hwf Hnd Hfresh Hperm.
  - rewrite app_nil_r. exact Hperm.
  - rewrite run_cons. pose proof (wfp_step n first v Hwf) as Hs.
    inversion Hnd as [|? ? Hnotin Hnd']. subst.
    assert (Hstep : Permutation (visible (fst (step (first, n) v))) (seen ++ [v])).
    { unfold step.
      destruct (List.find (keyb (vkey v)) first) as [e|] eqn:Hf; cbn [fst].
      - pose proof (find_key_some _ _ _ Hf) as [Hin Hk].
        assert (Hm : marked e = true).
        { destruct (marked e) eqn:Hm; [reflexivity|]. exfalso.
          apply (Hfresh (view e)).
          - apply (Permutation_in _ Hperm). unfold visible, unlink_marked.
            apply in_map. apply filter_In. rewrite Hm. auto.
          - left. symmetry. exact Hk. }
        eapply perm_trans;
          [apply visible_assign_marked; [apply Hwf|assumption..]|].
        eapply perm_trans; [apply perm_skip, Hperm|].
        apply Permutation_cons_append.
      - rewrite visible_app. apply Permutation_app; [exact Hperm|].
        unfold visible, unlink_marked. simpl. rewrite marked_mk. simpl.
        rewrite view_mk. apply Permutation_refl. }
    destruct (step (first, n) v) as [first' n']. cbn [fst snd] in *.
    replace (seen ++ v :: vs) with ((seen ++ [v]) ++ vs)
      by (rewrite <- app_assoc; reflexivity).
    apply IH; [exact Hs | exact Hnd' | | exact Hstep].
    intros x Hx Hin. apply in_app_or in Hx. destruct Hx as [Hx|[<-|[]]].
    + apply (Hfresh x Hx). right. exact Hin.
    + exact (Hnotin Hin).
Qed.

(** After a call whose request names no key twice the list holds the
    requested values, each once. *)
Lemma replace_set_perm vs n first :
  wfp n first -> NoDup (map vkey vs) ->
  Permutation (map view (fst (replace_set vs (first, n)))) vs.
Proof.
  intros Hwf Hnd. unfold replace_set. cbn [fst snd].
  pose proof (visible_run vs [] n _ (wfp_mark_all n first Hwf) Hnd) as H.
  destruct (run vs (mark_all set_marked first, n)) as [first' n']. cbn [fst] in *.
  apply H; [intros x []|]. rewrite visible_mark_all. apply perm_nil.
Qed.

(** *** The same request a second time *)

Hypothesis set_view_same : forall v e, set_view v e = e.
Hypothesis set_marked_eta : forall e, set_marked (marked e) e = e.
Hypothesis set_marked_idem :
  forall b b' e, set_marked b (set_marked b' e) = set_marked b e.

Lemma touch_unmark v e : touch v e = set_marked false e.
Proof. unfold touch. apply set_view_same. Qed.

(** An entry that is the first of the list under its key, and whose key
    the request names, is in the list after the call: the same object. *)
Lemma replace_set_keeps_first vs n first s :
  wfp n first ->
  List.find (keyb (key s)) first = Some s ->
  In (key s) (map vkey vs) ->
  In (set_marked false s) (fst (replace_set vs (first, n))).
Proof.
  intros Hwf Hs Hk.
  assert (Hinv : forall ws g m b,
             wfp m g ->
             List.find (keyb (key s)) g = Some (set_marked b s) ->
             exists b',
               List.find (keyb (key s)) (fst (run ws (g, m))) = Some (set_marked b' s)
               /\ (b = false -> b' = false)
               /\ (In (key s) (map vkey ws) -> b' = false)).
  { clear Hwf Hs Hk. intros ws. induction ws as [|v ws IH]; intros g m b Hwf Hg.
    - exists b. split; [exact Hg|]. split; [auto|]. intros [].
    - rewrite run_cons. pose proof (wfp_step m g v Hwf) as Hws.
      destruct (first_stays_step (key s) m g v _ Hwf Hg)
        as [x' [Hf' [_ [Hx' [Hm1 Hm2]]]]].
      assert (Hform : x' = set_marked (marked x') s).
      { destruct Hx' as [->| ->].
        - rewrite marked_set_marked. reflexivity.
        - rewrite touch_unmark, set_marked_idem, marked_set_marked. reflexivity. }
      rewrite Hform in Hf'.
      destruct (step (g, m) v) as [g' m']. cbn [fst snd] in *.
      destruct (IH g' m' (marked x') Hws Hf') as [b' [Hfin [Hb1 Hb2]]].
      exists b'. split; [exact Hfin|]. split.
      + intros ->. apply Hb1, Hm1. apply marked_set_marked.
      + intros [Hv|Hin]; [|apply Hb2, Hin]. apply Hb1, Hm2. exact Hv. }
  unfold replace_set. cbn [fst snd].
  destruct (Hinv vs (mark_all set_marked first) n true (wfp_mark_all n first Hwf))
    as [b' [Hfin [_ Hb']]].
  { rewrite find_mark_all, Hs. reflexivity. }
  rewrite (Hb' Hk) in Hfin.
  destruct (run vs (mark_all set_marked first, n)) as [first' n']. cbn [fst] in *.
  apply find_some in Hfin. destruct Hfin as [Hin _].
  unfold unlink_marked. apply filter_In. split; [exact Hin|].
  rewrite marked_set_marked. reflexivity.
Qed.

(** A list with distinct keys, none marked, whose keys are those of the
    request, is left as it is by a call: object by object, nothing
    allocated. *)
Lemma replace_set_settled vs n first1 :
  wfp n first1 ->
  Forall (fun e => marked e = false) first1 ->
  NoDup (map key first1) ->
  (forall v, In v vs -> In (vkey v) (map key first1)) ->
  (forall e, In e first1 -> In (key e) (map vkey vs)) ->
  replace_set vs (first1, n) = (first1, n).
Proof.
  intros Hwf Hun Hndk Hcov Hkeys.
  assert (Hinv : forall ws seen g,
             wfp n g ->
             map (set_marked false) g = first1 ->
             (forall v, In v ws -> In (vkey v) (map key first1)) ->
             (forall e, In e g -> In (key e) (map vkey seen) -> marked e = false) ->
             exists g',
               run ws (g, n) = (g', n)
               /\ map (set_marked false) g' = first1
               /\ (forall e, In e g' -> In (key e) (map vkey (seen ++ ws)) ->
                             marked e = false)).
  { clear Hcov Hkeys Hwf. intros ws. induction ws as [|v ws IH];
      intros seen g Hwf Hg Hcov Hseen.
    - exists g. split; [reflexivity|]. split; [exact Hg|].
      rewrite app_nil_r. exact Hseen.
    - rewrite run_cons.
      assert (Hkg : map key g = map key first1).
      { rewrite <- Hg, map_map. apply map_ext. intros. symmetry. apply key_set_marked. }
      assert (Hfind : exists e, List.find (keyb (vkey v)) g = Some e).
      { apply find_key_in. rewrite Hkg. apply Hcov. left. reflexivity. }
      destruct Hfind as [e Hf]. pose proof (find_key_some _ _ _ Hf) as [Hin Hk].
      pose proof (wfp_step n g v Hwf) as Hws. unfold step in *. rewrite Hf in *.
      cbn [fst snd] in Hws.
      destruct (IH (seen ++ [v]) (assign ptr (ptr e) (touch v) g) Hws)
        as [g' [Hrun [Hg' Hseen']]].
      + rewrite <- Hg. unfold assign. rewrite map_map. apply map_ext. intros x.
        destruct (Nat.eqb (ptr x) (ptr e)); [|reflexivity].
        rewrite touch_unmark. apply set_marked_idem.
      + intros x Hx. apply Hcov. right. exact Hx.
      + intros x Hx Hxk. apply in_assign in Hx. destruct Hx as [y [Hy ->]].
        destruct (Nat.eqb_spec (ptr y) (ptr e)) as [Hp|Hp]; [apply marked_touch|].
        rewrite map_app in Hxk. apply in_app_or in Hxk.
        destruct Hxk as [Hxk|[Hxk|[]]]; [apply Hseen; assumption|].
        exfalso. apply Hp. f_equal.
        apply (NoDup_map_inj key g); [rewrite Hkg; exact Hndk | exact Hy | exact Hin |].
        congruence.
      + exists g'. split; [exact Hrun|]. split; [exact Hg'|].
        rewrite <- app_assoc in Hseen'. exact Hseen'. }
  unfold replace_set. cbn [fst snd].
  destruct (Hinv vs [] (mark_all set_marked first1) (wfp_mark_all n first1 Hwf))
    as [g' [Hrun [Hg' Hseen]]].
  - unfold mark_all. rewrite map_map.
    rewrite <- (map_id first1) at 2. apply map_ext_in. intros e He.
    rewrite set_marked_idem. rewrite Forall_forall in Hun.
    rewrite <- (Hun e He). apply set_marked_eta.
  - exact Hcov.
  - intros e _ [].
  - rewrite Hrun. f_equal. cbn [app] in Hseen.
    assert (Hall : forall e, In e g' -> marked e = false).
    { intros e He. apply Hseen; [exact He|].
      rewrite <- (key_set_marked false e). apply Hkeys.
      rewrite <- Hg'. apply in_map. exact He. }
    unfold unlink_marked. rewrite filter_all.
    + rewrite <- Hg'. rewrite <- (map_id g') at 1. apply map_ext_in.
      intros e He. rewrite <- (Hall e He). symmetry. apply set_marked_eta.
    + intros e He. rewrite (Hall e He). reflexivity.
Qed.

(** A call with the request a list was made from leaves the list exactly
    as it is, whatever the list was before the first call. *)
Lemma replace_set_again vs n first :
  wfp n first ->
  replace_set vs (replace_set vs (first, n)) = replace_set vs (first, n).
Proof.
  intros Hwf.
  pose proof (replace_set_wfp vs n first Hwf) as Hwf1.
  pose proof (replace_set_unmarked vs (first, n)) as Hun.
  destruct (replace_set_keys vs n first Hwf) as [Hnd [Hcov Hkeys]].
  destruct (replace_set vs (first, n)) as [first1 n1]. cbn [fst snd] in *.
  apply replace_set_settled; assumption.
Qed.

End Generic.

Arguments wfp {E} ptr n first.
Arguments wf {E V K} vkey view ptr n first.
Arguments step {E V K} K_eq_dec vkey view ptr set_marked set_view mk st v.
Arguments run {E V K} K_eq_dec vkey view ptr set_marked set_view mk vs st.
Arguments replace_set {E V K} K_eq_dec vkey view ptr marked set_marked set_view mk vs st.

End MarkSweepFacts.

(* ===================================================================== *)
(** * Part VI. Properties of the link's bus methods                      *)
(* ===================================================================== *)

Module LinkBusFacts.
Import LinkBus.
Local Open Scope list_scope.

(** A link the per-link methods accept: not a loopback device, not managed
    by another owner. *)
Definition eligible (l : Link) : Prop :=
  Z.land (flags l) IFF_LOOPBACK = 0 /\ is_managed l = false.

(** No failure is going to be injected. *)
Definition fault_free (w : World) : Prop := Forall (fun r => 0 <= r) (faults w).

(** The data model's invariant between calls: no entry is marked. *)
Definition no_marks (l : Link) : Prop :=
  Forall (fun s => s_marked s = false) (dns_servers l)
  /\ Forall (fun d => d_marked d = false) (search_domains l).

(** A handler left everything but [*error] and the pending failures as it
    was. *)
Definition untouched (w w' : World) : Prop :=
  link w' = link w /\ next_ptr w' = next_ptr w /\ journal w' = journal w.

Lemma untouched_refl w : untouched w w.
Proof. repeat split. Qed.

Lemma untouched_trans w1 w2 w3 : untouched w1 w2 -> untouched w2 w3 -> untouched w1 w3.
Proof. unfold untouched. intuition congruence. Qed.

#[local] Hint Resolve untouched_refl : core.

(** ** The building blocks *)

Lemma bind_run {A B} (m : M A) (k : A -> M B) w a w' :
  m w = (a, w') -> bind m k w = k a w'.
Proof. unfold bind. intros ->. reflexivity. Qed.

Lemma bind_assoc_run {A B C} (m : M A) (f : A -> M B) (k : B -> M C) w a w' :
  m w = (a, w') -> bind (bind m f) k w = bind (f a) k w'.
Proof. unfold bind. intros ->. reflexivity. Qed.

Lemma fault_spec w :
  exists r w', fault w = (r, w') /\ r <= 0 /\ untouched w w' /\ error w' = error w
               /\ (fault_free w -> r = 0 /\ fault_free w')
               /\ (r = 0 -> fault_free w' -> fault_free w).
Proof.
  unfold fault, fault_free, untouched. destruct w as [l n fs j e]. simpl.
  destruct fs as [|r rest]; simpl.
  - exists 0, (mkWorld l n [] j e). simpl. intuition lia.
  - destruct (Z.ltb_spec r 0).
    + exists r, (mkWorld l n rest j e). simpl.
      split; [reflexivity|]. split; [lia|]. split; [auto|]. split; [reflexivity|].
      split.
      * intros Hf. inversion Hf. lia.
      * intros Hr. lia.
    + exists 0, (mkWorld l n rest j e). simpl.
      split; [reflexivity|]. split; [lia|]. split; [auto|]. split; [reflexivity|].
      split.
      * intros Hf. inversion Hf. auto.
      * intros _ Hf. constructor; assumption.
Qed.

Lemma sd_bus_error_setf_spec e text w :
  exists w', sd_bus_error_setf e text w = (- bus_error_errno e, w')
             /\ untouched w w' /\ faults w' = faults w
             /\ error w' = Some (mkError e text).
Proof. unfold sd_bus_error_setf. eexists. repeat split. Qed.

Lemma polkit_spec message action w :
  exists w', bus_verify_polkit_async message action w = (polkit message, w')
             /\ untouched w w' /\ faults w' = faults w.
Proof.
  unfold bus_verify_polkit_async. destruct (polkit message =? - EACCES);
    eexists; repeat split.
Qed.

Section Facts.
Context {ext : Externals}.

Lemma verify_unmanaged_link_eligible w :
  eligible (link w) -> verify_unmanaged_link w = (0, w).
Proof.
  intros [Hlo Hm]. unfold verify_unmanaged_link, bind, get_link.
  rewrite Hlo, Hm. reflexivity.
Qed.

Lemma verify_unmanaged_link_busy w :
  Z.land (flags (link w)) IFF_LOOPBACK <> 0 \/ is_managed (link w) = true ->
  exists text,
    verify_unmanaged_link w
    = (- EBUSY, mkWorld (link w) (next_ptr w) (faults w) (journal w)
                  (Some (mkError BUS_ERROR_LINK_BUSY text))).
Proof.
  intros H. unfold verify_unmanaged_link, bind, get_link.
  destruct (Z.eqb_spec (Z.land (flags (link w)) IFF_LOOPBACK) 0) as [Hz|Hz]; simpl.
  - destruct H as [H|H]; [contradiction|]. rewrite H. eexists. reflexivity.
  - eexists. reflexivity.
Qed.

Lemma eligible_dec l :
  eligible l \/ (Z.land (flags l) IFF_LOOPBACK <> 0 \/ is_managed l = true).
Proof.
  unfold eligible.
  destruct (Z.eq_dec (Z.land (flags l) IFF_LOOPBACK) 0); [|auto].
  destruct (is_managed l); auto.
Qed.

(** C5. Whatever the method and whatever the request holds, on a link that
    is a loopback device or is managed the handler returns [-EBUSY] with
    the error [BUS_ERROR_LINK_BUSY] set, and it has done nothing else: the
    body was not read (no pending failure was consumed), the gate was not
    asked, the link and the journal are as before. *)
Theorem busy_before_parsing (m : method) (message : sd_bus_message) (w : World) :
  Z.land (flags (link w)) IFF_LOOPBACK <> 0 \/ is_managed (link w) = true ->
  exists text,
    link_vtable m message w
    = (- EBUSY, mkWorld (link w) (next_ptr w) (faults w) (journal w)
                  (Some (mkError BUS_ERROR_LINK_BUSY text))).
Proof.
  intros H. destruct (verify_unmanaged_link_busy w H) as [text Hv].
  exists text.
  destruct m; cbn [link_vtable];
    unfold bus_link_method_set_dns_servers, bus_link_method_set_dns_servers_ex,
      bus_link_method_set_dns_servers_internal, bus_link_method_set_domains,
      bus_link_method_set_default_route, bus_link_method_set_llmnr,
      bus_link_method_set_mdns, bus_link_method_set_dns_over_tls,
      bus_link_method_set_dnssec,
      bus_link_method_set_dnssec_negative_trust_anchors, bus_link_method_revert;
    rewrite (bind_run _ _ _ _ _ Hv); reflexivity.
Qed.


Ltac run_bind H := rewrite (bind_run _ _ _ _ _ H); cbv beta iota.

(** ** Reading the request *)

(** The servers a request asks for, when its body decodes. *)
Definition request_dns (message : sd_bus_message) (extended : bool)
  : option (list in_addr_full) :=
  match msg_body message, extended with
  | Body_a_iay l, false => decode_dns l
  | Body_a_iayqs l, true => decode_dns_ex l
  | _, _ => None
  end.

Lemma bus_message_read_dns_servers_spec message extended w :
  exists r dns w',
    bus_message_read_dns_servers message extended w = ((r, dns), w')
    /\ untouched w w'
    /\ (0 <= r -> request_dns message extended = Some dns)
    /\ (fault_free w ->
        fault_free w' /\
        forall dns0, request_dns message extended = Some dns0 -> r = 1 /\ dns = dns0).
Proof.
  unfold bus_message_read_dns_servers, request_dns.
  destruct (fault_spec w) as [r [w1 [Hf [Hle [Hu [_ [Hff _]]]]]]].
  run_bind Hf. destruct (Z.ltb_spec r 0) as [Hneg|Hpos].
  - exists r, [], w1. split; [reflexivity|]. split; [exact Hu|]. split; [lia|].
    intros Hfree. destruct (Hff Hfree). lia.
  - assert (Hnone : exists w', (ret (- ENXIO, @nil in_addr_full) : M _) w1
                               = ((- ENXIO, []), w')
                      /\ untouched w w' /\ (fault_free w -> fault_free w')).
    { exists w1. split; [reflexivity|]. split; [exact Hu|]. intros H; apply Hff, H. }
    assert (Hbad : exists w',
               (r0 <- sd_bus_error_setf SD_BUS_ERROR_INVALID_ARGS
                        "Invalid DNS server address" ;; ret (r0, @nil in_addr_full)) w1
               = ((- EINVAL, []), w')
               /\ untouched w w' /\ (fault_free w -> fault_free w')).
    { eexists. split; [reflexivity|]. split.
      - destruct Hu as [H1 [H2 H3]]. repeat split; simpl; assumption.
      - intros H. destruct (Hff H) as [_ H']. exact H'. }
    destruct (msg_body message) as [l|l|l|b|s0|l|], extended;
      try (destruct Hnone as [w' [He [Hu' Hfree]]];
           exists (- ENXIO), [], w'; split; [exact He|]; split; [exact Hu'|];
           split; [unfold ENXIO; lia|]; intros H; split; [auto|]; discriminate).
    + destruct (decode_dns l) as [dns|].
      * exists 1, dns, w1. split; [reflexivity|]. split; [exact Hu|].
        split; [reflexivity|]. intros H. split; [apply Hff, H|].
        intros dns0 Hd. inversion Hd. auto.
      * destruct Hbad as [w' [He [Hu' Hfree]]].
        exists (- EINVAL), [], w'. split; [exact He|]. split; [exact Hu'|].
        split; [unfold EINVAL; lia|]. intros H. split; [auto|]. discriminate.
    + destruct (decode_dns_ex l) as [dns|].
      * exists 1, dns, w1. split; [reflexivity|]. split; [exact Hu|].
        split; [reflexivity|]. intros H. split; [apply Hff, H|].
        intros dns0 Hd. inversion Hd. auto.
      * destruct Hbad as [w' [He [Hu' Hfree]]].
        exists (- EINVAL), [], w'. split; [exact He|]. split; [exact Hu'|].
        split; [unfold EINVAL; lia|]. intros H. split; [auto|]. discriminate.
Qed.

(** C4. When the gate does not grant a [SetDNS] or [SetDNSEx] call
    ([bus_verify_polkit_async] negative: denied, or failed), the handler
    returns a negative value and the link is bit for bit what it was: the
    DNS server list has the same entries in the same order, no entry has
    been created, and if none was marked before none is marked after. *)
Theorem denied_set_dns_changes_nothing
        (message : sd_bus_message) (extended : bool) (w : World) :
  polkit message < 0 ->
  let (r, w') := bus_link_method_set_dns_servers_internal message extended w in
  r < 0
  /\ link w' = link w
  /\ map s_ptr (dns_servers (link w')) = map s_ptr (dns_servers (link w))
  /\ next_ptr w' = next_ptr w
  /\ journal w' = journal w
  /\ (Forall (fun s => s_marked s = false) (dns_servers (link w)) ->
      Forall (fun s => s_marked s = false) (dns_servers (link w'))).
Proof.
  intros Hden. unfold bus_link_method_set_dns_servers_internal.
  assert (Hdone : forall r w', r < 0 -> untouched w w' ->
            r < 0 /\ link w' = link w
            /\ map s_ptr (dns_servers (link w')) = map s_ptr (dns_servers (link w))
            /\ next_ptr w' = next_ptr w /\ journal w' = journal w
            /\ (Forall (fun s => s_marked s = false) (dns_servers (link w)) ->
                Forall (fun s => s_marked s = false) (dns_servers (link w')))).
  { intros r w' Hr [Hl [Hn Hj]]. rewrite Hl. repeat split; auto. }
  destruct (eligible_dec (link w)) as [Hel|Hbusy].
  - run_bind (verify_unmanaged_link_eligible w Hel). change (0 <? 0) with false.
    cbv iota.
    destruct (bus_message_read_dns_servers_spec message extended w)
      as [r [dns [w1 [Hread [Hu1 _]]]]].
    run_bind Hread. destruct (Z.ltb_spec r 0) as [Hneg|Hpos].
    + apply Hdone; assumption.
    + destruct (polkit_spec message "org.freedesktop.resolve1.set-dns-servers" w1)
        as [w2 [Hpk [Hu2 _]]].
      run_bind Hpk. destruct (Z.ltb_spec (polkit message) 0) as [_|Hge]; [|lia].
      apply Hdone; [exact Hden | eapply untouched_trans; eassumption].
  - destruct (verify_unmanaged_link_busy w Hbusy) as [text Hv].
    run_bind Hv. change (- EBUSY <? 0) with true. cbv iota.
    apply Hdone; [unfold EBUSY; lia | repeat split].
Qed.


(** ** Validation of a [SetDomains] batch *)

(** An entry the first loop of [bus_link_method_set_domains] refuses: a
    name [dns_name_is_valid] says no to, or the root domain without the
    route-only flag. *)
Definition invalid_entry (e : string * bool) : Prop :=
  dns_name_is_valid (fst e) = 0
  \/ (snd e = false /\ dns_name_is_root (fst e) <> 0).

Lemma set_domains_validate_rejects entries w :
  fault_free w ->
  Forall (fun e => 0 <= dns_name_is_valid (fst e)) entries ->
  Exists invalid_entry entries ->
  exists text w',
    set_domains_validate entries w = (- EINVAL, w')
    /\ untouched w w'
    /\ error w' = Some (mkError SD_BUS_ERROR_INVALID_ARGS text).
Proof.
  revert w. induction entries as [|[nm ro] rest IH]; intros w Hfree Hok Hbad.
  - inversion Hbad.
  - cbn [set_domains_validate].
    destruct (fault_spec w) as [r [w1 [Hf [_ [Hu [_ [Hff _]]]]]]].
    destruct (Hff Hfree) as [-> Hfree1].
    run_bind Hf. change (0 <? 0) with false. cbv iota.
    inversion Hok as [|? ? Hnm Hok']. subst. simpl in Hnm.
    destruct (Z.ltb_spec (dns_name_is_valid nm) 0) as [Hneg|_]; [lia|].
    destruct (Z.eqb_spec (dns_name_is_valid nm) 0) as [Hz|Hnz].
    + destruct (sd_bus_error_setf_spec SD_BUS_ERROR_INVALID_ARGS
                  ("Invalid search domain " ++ nm)%string w1)
        as [w2 [Hs [Hu2 [_ He]]]].
      exists ("Invalid search domain " ++ nm)%string, w2.
      split; [exact Hs|]. split; [eapply untouched_trans; eassumption | exact He].
    + destruct (negb ro && negb (dns_name_is_root nm =? 0)) eqn:Hroot.
      * destruct (sd_bus_error_setf_spec SD_BUS_ERROR_INVALID_ARGS
                    "Root domain is not suitable as search domain" w1)
          as [w2 [Hs [Hu2 [_ He]]]].
        exists "Root domain is not suitable as search domain"%string, w2.
        split; [exact Hs|]. split; [eapply untouched_trans; eassumption | exact He].
      * assert (Hrest : Exists invalid_entry rest).
        { inversion Hbad as [? ? Hhead|? ? Htail]; [|exact Htail]. subst.
          exfalso. destruct Hhead as [Hv|[Hro Hr]]; simpl in *; [contradiction|].
          subst ro. simpl in Hroot.
          destruct (Z.eqb_spec (dns_name_is_root nm) 0); [contradiction|discriminate]. }
        destruct (IH w1 Hfree1 Hok' Hrest) as [text [w2 [Hv [Hu2 He]]]].
        exists text, w2. split; [exact Hv|].
        split; [eapply untouched_trans; eassumption | exact He].
Qed.

Lemma enter_container_a_sb_spec message w :
  exists r entries w',
    sd_bus_message_enter_container_a_sb message w = ((r, entries), w')
    /\ untouched w w' /\ error w' = error w
    /\ (0 <= r -> msg_body message = Body_a_sb entries)
    /\ (fault_free w ->
        fault_free w' /\
        forall l, msg_body message = Body_a_sb l -> r = 1 /\ entries = l).
Proof.
  unfold sd_bus_message_enter_container_a_sb.
  destruct (fault_spec w) as [r [w1 [Hf [Hle [Hu [He [Hff _]]]]]]].
  run_bind Hf. destruct (Z.ltb_spec r 0) as [Hneg|Hpos].
  - exists r, [], w1. split; [reflexivity|]. split; [exact Hu|]. split; [exact He|].
    split; [lia|]. intros H. destruct (Hff H). lia.
  - destruct (msg_body message) as [l|l|l|b|s0|l|];
      try (exists (- ENXIO), [], w1; split; [reflexivity|]; split; [exact Hu|];
           split; [exact He|]; split; [unfold ENXIO; lia|];
           intros H; split; [apply Hff, H|]; discriminate).
    exists 1, l, w1. split; [reflexivity|]. split; [exact Hu|]. split; [exact He|].
    split; [reflexivity|]. intros H. split; [apply Hff, H|].
    intros l0 Hl. inversion Hl. auto.
Qed.

(** C3, as the code has it.  On an eligible link, when the request is read
    without a transport failure and [dns_name_is_valid] itself does not
    fail, a [SetDomains] batch with an invalid entry is refused with
    [SD_BUS_ERROR_INVALID_ARGS] ([-EINVAL]), whatever the gate would have
    answered; the link, its search domains included, is what it was, nothing
    was allocated and no side effect was run. *)
Theorem set_domains_rejects_invalid_batch
        (message : sd_bus_message) (w : World) (entries : list (string * bool)) :
  eligible (link w) ->
  fault_free w ->
  msg_body message = Body_a_sb entries ->
  Forall (fun e => 0 <= dns_name_is_valid (fst e)) entries ->
  Exists invalid_entry entries ->
  exists text w',
    bus_link_method_set_domains message w = (- EINVAL, w')
    /\ error w' = Some (mkError SD_BUS_ERROR_INVALID_ARGS text)
    /\ link w' = link w
    /\ search_domains (link w') = search_domains (link w)
    /\ next_ptr w' = next_ptr w
    /\ journal w' = journal w.
Proof.
  intros Hel Hfree Hbody Hok Hbad. unfold bus_link_method_set_domains.
  run_bind (verify_unmanaged_link_eligible w Hel). change (0 <? 0) with false.
  cbv iota.
  destruct (enter_container_a_sb_spec message w)
    as [r [es [w1 [Hent [Hu1 [_ [_ Hff]]]]]]].
  destruct (Hff Hfree) as [Hfree1 Hes]. destruct (Hes entries Hbody) as [-> ->].
  run_bind Hent. change (1 <? 0) with false. cbv iota.
  destruct (set_domains_validate_rejects entries w1 Hfree1 Hok Hbad)
    as [text [w2 [Hv [Hu2 He]]]].
  run_bind Hv. change (- EINVAL <? 0) with true. cbv iota.
  exists text, w2. split; [reflexivity|]. split; [exact He|].
  destruct (untouched_trans _ _ _ Hu1 Hu2) as [Hl [Hn Hj]].
  rewrite Hl. auto.
Qed.


(** ** The DNS server list as an instance of the general protocol *)

(** What the handler hands to [dns_server_find] and [dns_server_new] for a
    requested server: its family, address, port and name, and the interface
    index [0]. *)
Definition link_key (a : in_addr_full) : in_addr_full :=
  mkAddr (family a) (address a) (port a) 0 (server_name a).

Definition server_mk (n : nat) (v : in_addr_full) : DnsServer := mkServer n v false.

(** The heap discipline of the list, with the data model's invariant: no
    two entries agree in family, address, port, interface index and name. *)
Definition server_wf : nat -> list DnsServer -> Prop :=
  MarkSweepFacts.wf (fun v : in_addr_full => v) s_addr s_ptr.

Definition server_wfp : nat -> list DnsServer -> Prop := MarkSweepFacts.wfp s_ptr.

Definition server_step : list DnsServer * nat -> in_addr_full -> list DnsServer * nat :=
  MarkSweepFacts.step server_key_eq_dec server_key s_addr s_ptr
    s_set_marked (fun _ s => s) server_mk.

Definition server_run : list in_addr_full -> list DnsServer * nat -> list DnsServer * nat :=
  MarkSweepFacts.run server_key_eq_dec server_key s_addr s_ptr
    s_set_marked (fun _ s => s) server_mk.

Definition server_replace_set
  : list in_addr_full -> list DnsServer * nat -> list DnsServer * nat :=
  MarkSweepFacts.replace_set server_key_eq_dec server_key s_addr s_ptr s_marked
    s_set_marked (fun _ s => s) server_mk.

Lemma server_wf_wfp n first : server_wf n first -> server_wfp n first.
Proof. apply MarkSweepFacts.wf_wfp. Qed.

Lemma s_set_marked_eta s : s_set_marked (s_marked s) s = s.
Proof. destruct s; reflexivity. Qed.

Lemma with_dns_servers_twice a b l :
  with_dns_servers a (with_dns_servers b l) = with_dns_servers a l.
Proof. reflexivity. Qed.

Lemma with_dns_servers_same l : with_dns_servers (dns_servers l) l = l.
Proof. destruct l; reflexivity. Qed.

Lemma server_step_mono st v : (snd st <= snd (server_step st v))%nat.
Proof. apply MarkSweepFacts.step_mono. Qed.

Lemma server_run_mono vs st : (snd st <= snd (server_run vs st))%nat.
Proof. apply MarkSweepFacts.run_mono. Qed.

Definition server_keyb : Z * list Byte.byte * option string -> DnsServer -> bool :=
  MarkSweepFacts.keyb DnsServer in_addr_full (Z * list Byte.byte * option string)
    server_key_eq_dec server_key s_addr.

Lemma dns_server_find_eq first a :
  dns_server_find first (family a) (address a) (port a) 0 (server_name a)
  = option_map s_ptr (find (server_keyb (server_key a)) first).
Proof. reflexivity. Qed.

Lemma set_dns_servers_loop_found a rest w e :
  find (server_keyb (server_key a)) (dns_servers (link w)) = Some e ->
  set_dns_servers_loop (a :: rest) w
  = set_dns_servers_loop rest
      (with_link (with_dns_servers
                    (MarkSweep.move_back_and_unmark s_ptr s_set_marked (s_ptr e)
                       (dns_servers (link w)))) w).
Proof.
  intros Hfind. cbn [set_dns_servers_loop].
  unfold bind at 1. unfold get_link. rewrite dns_server_find_eq, Hfind.
  reflexivity.
Qed.

Lemma set_dns_servers_loop_new_failed a rest w r w1 :
  find (server_keyb (server_key a)) (dns_servers (link w)) = None ->
  fault w = (r, w1) -> r < 0 ->
  set_dns_servers_loop (a :: rest) w
  = (r, with_link (fun l => drop_stale_current (with_dns_servers [] l)) w1).
Proof.
  intros Hfind Hf Hneg. cbn [set_dns_servers_loop].
  unfold bind at 1. unfold get_link. rewrite dns_server_find_eq, Hfind.
  cbn [option_map]. unfold dns_server_new.
  unfold bind at 1 2. rewrite Hf.
  apply Z.ltb_lt in Hneg. rewrite Hneg. unfold ret at 1. rewrite Hneg.
  reflexivity.
Qed.

Lemma set_dns_servers_loop_new a rest w w1 :
  find (server_keyb (server_key a)) (dns_servers (link w)) = None ->
  fault w = (0, w1) ->
  set_dns_servers_loop (a :: rest) w
  = set_dns_servers_loop rest
      (mkWorld
         (with_dns_servers
            (dns_servers (link w1) ++ [server_mk (next_ptr w1) (link_key a)])
            (link w1))
         (S (next_ptr w1)) (faults w1) (journal w1) (error w1)).
Proof.
  intros Hfind Hf. cbn [set_dns_servers_loop].
  unfold bind at 1. unfold get_link. rewrite dns_server_find_eq, Hfind.
  cbn [option_map]. unfold dns_server_new.
  unfold bind at 1 2. rewrite Hf. reflexivity.
Qed.

(** One iteration of the loop of lines 284-298 against the general step:
    either the loop goes on from a world whose list is the step's, or
    [dns_server_new] failed and the loop left with an empty list. *)
Lemma set_dns_servers_iteration a rest w :
  exists w1,
    journal w1 = journal w /\ error w1 = error w
    /\ ((set_dns_servers_loop (a :: rest) w = set_dns_servers_loop rest w1
         /\ link w1 = with_dns_servers
                        (fst (server_step (dns_servers (link w), next_ptr w) (link_key a)))
                        (link w)
         /\ next_ptr w1
            = snd (server_step (dns_servers (link w), next_ptr w) (link_key a))
         /\ (fault_free w -> fault_free w1)
         /\ (next_ptr w1 = next_ptr w -> faults w1 = faults w))
        \/ (exists r,
              r < 0
              /\ set_dns_servers_loop (a :: rest) w = (r, w1)
              /\ dns_servers (link w1) = []
              /\ search_domains (link w1) = search_domains (link w)
              /\ ~ fault_free w
              /\ (next_ptr w
                  < snd (server_step (dns_servers (link w), next_ptr w) (link_key a)))%nat)).
Proof.
  unfold server_step, MarkSweepFacts.step. fold server_keyb.
  change (server_key (link_key a)) with (server_key a).
  destruct (find (server_keyb (server_key a)) (dns_servers (link w))) as [e|] eqn:Hfind.
  - rewrite (set_dns_servers_loop_found a rest w e Hfind).
    eexists. split; [|split]; [| |left; split; [reflexivity|]].
    3:{ cbn [link with_link next_ptr fst snd faults].
        split; [reflexivity|]. split; [reflexivity|]. split; [|reflexivity].
        unfold fault_free. cbn [faults with_link]. auto. }
    + reflexivity.
    + reflexivity.
  - destruct (fault_spec w) as [r [w1 [Hf [Hle [[Hl [Hn Hj]] [He [Hff Hfb]]]]]]].
    destruct (Z.ltb_spec r 0) as [Hneg|Hpos].
    + rewrite (set_dns_servers_loop_new_failed a rest w r w1 Hfind Hf Hneg).
      eexists. split; [|split]; [| |right; exists r; split; [exact Hneg|];
                                     split; [reflexivity|]].
      3:{ cbn [link with_link snd].
          split; [|split; [|split]].
          + unfold drop_stale_current. cbn.
            destruct (current_dns_server (link w1)); reflexivity.
          + unfold drop_stale_current. cbn. rewrite <- Hl.
            destruct (current_dns_server (link w1)); reflexivity.
          + intros Hfree. destruct (Hff Hfree). lia.
          + lia. }
      * cbn [journal with_link]. exact Hj.
      * cbn [error with_link]. exact He.
    + assert (r = 0) by lia. subst r.
      rewrite (set_dns_servers_loop_new a rest w w1 Hfind Hf).
      eexists. split; [|split]; [| |left; split; [reflexivity|]].
      3:{ cbn [link next_ptr fst snd faults]. rewrite Hl, Hn.
          split; [reflexivity|]. split; [reflexivity|]. split; [|intros; lia].
          intros Hfree. destruct (Hff Hfree) as [_ Hfree1]. exact Hfree1. }
      * cbn [journal]. exact Hj.
      * cbn [error]. exact He.
Qed.


(** The whole loop: it ends with [0] and the list the general run gives,
    or with the negative result of a failed allocation and an empty list.
    It fails only if a failure is injected, and only at a value the list has
    no entry for. *)
Lemma set_dns_servers_loop_spec dns w :
  exists r w',
    set_dns_servers_loop dns w = (r, w')
    /\ journal w' = journal w /\ error w' = error w
    /\ ((r = 0
         /\ link w' = with_dns_servers
                        (fst (server_run (map link_key dns)
                                (dns_servers (link w), next_ptr w)))
                        (link w)
         /\ next_ptr w'
            = snd (server_run (map link_key dns) (dns_servers (link w), next_ptr w))
         /\ (fault_free w -> fault_free w')
         /\ (next_ptr w' = next_ptr w -> faults w' = faults w))
        \/ (r < 0
            /\ dns_servers (link w') = []
            /\ search_domains (link w') = search_domains (link w)
            /\ ~ fault_free w
            /\ (next_ptr w
                < snd (server_run (map link_key dns)
                         (dns_servers (link w), next_ptr w)))%nat)).
Proof.
  revert w. induction dns as [|a rest IH]; intros w.
  - exists 0, w. split; [reflexivity|]. split; [reflexivity|]. split; [reflexivity|].
    left. split; [reflexivity|]. cbn [map]. unfold server_run.
    rewrite MarkSweepFacts.run_nil. cbn [fst snd].
    rewrite with_dns_servers_same. auto.
  - cbn [map]. unfold server_run. rewrite MarkSweepFacts.run_cons.
    fold server_run. fold server_step.
    pose proof (server_step_mono (dns_servers (link w), next_ptr w) (link_key a))
      as Hmono1.
    destruct (set_dns_servers_iteration a rest w)
      as [w1 [Hj1 [He1 [[Hloop [Hl1 [Hn1 [Hfree1 Hsame1]]]]
                       |[r [Hneg [Hloop [Hnil [Hdom [Hnf Hlt]]]]]]]]]].
    + destruct (server_step (dns_servers (link w), next_ptr w) (link_key a))
        as [first1 n1] eqn:Hstep. cbn [fst snd] in *.
      assert (Hd1 : dns_servers (link w1) = first1) by (rewrite Hl1; reflexivity).
      destruct (IH w1) as [r [w' [Hrun [Hj [He Hcases]]]]].
      rewrite Hd1, Hn1 in Hcases.
      pose proof (server_run_mono (map link_key rest) (first1, n1)) as Hmono.
      cbn [snd] in Hmono.
      exists r, w'. rewrite Hloop. split; [exact Hrun|].
      split; [congruence|]. split; [congruence|].
      destruct Hcases as [[Hr [Hl [Hn [Hfree Hsame]]]]|[Hr [Hnil [Hdom [Hnf Hlt]]]]].
      * left. split; [exact Hr|]. split; [rewrite Hl, Hl1; reflexivity|].
        split; [exact Hn|]. split; [auto|].
        intros Heq. rewrite Hsame by lia. apply Hsame1. lia.
      * right. split; [exact Hr|]. split; [exact Hnil|].
        split; [rewrite Hdom, Hl1; reflexivity|]. split; [auto|]. lia.
    + exists r, w1. split; [exact Hloop|]. split; [exact Hj1|]. split; [exact He1|].
      right. split; [exact Hneg|]. split; [exact Hnil|]. split; [exact Hdom|].
      split; [exact Hnf|].
      pose proof (server_run_mono (map link_key rest)
                    (server_step (dns_servers (link w), next_ptr w) (link_key a))).
      lia.
Qed.


(** ** The phases of [bus_link_method_set_dns_servers_internal] *)

(** Lines 263-282: eligibility, decoding, the gate, the mark phase.  [inl r]
    when the handler returns [r] from there, [inr dns] when it goes on to
    the loop with the decoded request. *)
Definition set_dns_servers_begin (message : sd_bus_message) (extended : bool)
  : M (Z + list in_addr_full) :=
  r <- verify_unmanaged_link ;;
  if r <? 0 then ret (inl r) else
  ' (r, dns) <- bus_message_read_dns_servers message extended ;;
  if r <? 0 then ret (inl r) else
  r <- bus_verify_polkit_async message "org.freedesktop.resolve1.set-dns-servers" ;;
  if r <? 0 then ret (inl r) else
  if r =? 0 then ret (inl 1) else
  l <- get_link ;;
  dns_server_mark_all (dns_servers l) ;;;
  ret (inr dns).

(** Lines 300-307: the sweep, the side effects and the reply. *)
Definition set_dns_servers_commit (message : sd_bus_message) : M Z :=
  l <- get_link ;;
  dns_server_unlink_marked (dns_servers l) ;;;
  call link_allocate_scopes ;;;
  call link_save_user ;;;
  call manager_write_resolv_conf ;;;
  call (manager_send_changed "DNS") ;;;
  bus_reply_method_return message.

Lemma set_dns_servers_phases message extended w :
  bus_link_method_set_dns_servers_internal message extended w
  = let (x, w0) := set_dns_servers_begin message extended w in
    match x with
    | inl r => (r, w0)
    | inr dns =>
        let (r, w1) := set_dns_servers_loop dns w0 in
        if r <? 0 then (r, w1) else set_dns_servers_commit message w1
    end.
Proof.
  unfold bus_link_method_set_dns_servers_internal, set_dns_servers_begin,
    set_dns_servers_commit.
  unfold bind, ret, get_link, dns_server_mark_all, modify_link.
  destruct (verify_unmanaged_link w) as [r w1].
  destruct (r <? 0); [reflexivity|].
  destruct (bus_message_read_dns_servers message extended w1) as [[r1 dns] w2].
  destruct (r1 <? 0); [reflexivity|].
  destruct (bus_verify_polkit_async message _ w2) as [r2 w3].
  destruct (r2 <? 0); [reflexivity|]. destruct (r2 =? 0); [reflexivity|].
  destruct (set_dns_servers_loop dns _) as [r3 w4].
  destruct (r3 <? 0); reflexivity.
Qed.

Lemma set_dns_servers_begin_spec message extended w :
  exists x w0,
    set_dns_servers_begin message extended w = (x, w0)
    /\ match x with
       | inl r =>
           untouched w w0
           /\ (0 < polkit message -> r < 0)
           /\ (eligible (link w) -> fault_free w -> 0 < polkit message ->
               request_dns message extended = None)
       | inr dns =>
           eligible (link w)
           /\ 0 < polkit message
           /\ request_dns message extended = Some dns
           /\ link w0 = with_dns_servers
                          (MarkSweep.mark_all s_set_marked (dns_servers (link w)))
                          (link w)
           /\ next_ptr w0 = next_ptr w
           /\ journal w0 = journal w
           /\ (fault_free w -> fault_free w0)
       end.
Proof.
  unfold set_dns_servers_begin.
  destruct (eligible_dec (link w)) as [Hel|Hbusy].
  - run_bind (verify_unmanaged_link_eligible w Hel). change (0 <? 0) with false.
    cbv iota.
    destruct (bus_message_read_dns_servers_spec message extended w)
      as [r [dns [w1 [Hread [Hu1 [Hreq Hfree1]]]]]].
    run_bind Hread. destruct (Z.ltb_spec r 0) as [Hneg|Hpos].
    + exists (inl r), w1. split; [reflexivity|]. split; [exact Hu1|].
      split; [auto|]. intros _ Hfree _.
      destruct (request_dns message extended) as [dns0|] eqn:Hd; [|reflexivity].
      destruct (Hfree1 Hfree) as [_ Hok]. destruct (Hok dns0 eq_refl). lia.
    + destruct (polkit_spec message "org.freedesktop.resolve1.set-dns-servers" w1)
        as [w2 [Hpk [Hu2 Hf2]]].
      run_bind Hpk. pose proof (untouched_trans _ _ _ Hu1 Hu2) as Hu.
      destruct (Z.ltb_spec (polkit message) 0) as [Hden|Hge].
      * exists (inl (polkit message)), w2. split; [reflexivity|].
        split; [exact Hu|]. split; intros; lia.
      * destruct (Z.eqb_spec (polkit message) 0) as [Hz|Hnz].
        -- exists (inl 1), w2. split; [reflexivity|].
           split; [exact Hu|]. split; intros; lia.
        -- eexists (inr dns), _. split; [reflexivity|].
           destruct Hu as [Hl [Hn Hj]].
           cbn [link next_ptr journal with_link]. rewrite Hl.
           split; [exact Hel|]. split; [lia|]. split; [apply Hreq; lia|].
           split; [reflexivity|]. split; [exact Hn|]. split; [exact Hj|].
           intros Hfree. destruct (Hfree1 Hfree) as [Hfree' _].
           unfold fault_free in *. cbn [faults with_link]. rewrite Hf2. exact Hfree'.
  - destruct (verify_unmanaged_link_busy w Hbusy) as [text Hv].
    run_bind Hv. change (- EBUSY <? 0) with true. cbv iota.
    eexists (inl (- EBUSY)), _. split; [reflexivity|].
    split; [repeat split|]. split; [unfold EBUSY; lia|].
    intros [Hlo Hm]. destruct Hbusy; [contradiction|congruence].
Qed.

Lemma bus_reply_method_return_spec message w :
  exists r w',
    bus_reply_method_return message w = (r, w')
    /\ link w' = link w /\ next_ptr w' = next_ptr w
    /\ ((r = 1 /\ journal w' = journal w ++ [sd_bus_reply_method_return])
        \/ (r < 0 /\ journal w' = journal w /\ ~ fault_free w)).
Proof.
  unfold bus_reply_method_return.
  destruct (fault_spec w) as [r [w1 [Hf [Hle [[Hl [Hn Hj]] [He [Hff _]]]]]]].
  run_bind Hf. destruct (Z.ltb_spec r 0) as [Hneg|Hpos].
  - exists r, w1. split; [reflexivity|]. split; [exact Hl|]. split; [exact Hn|].
    right. split; [exact Hneg|]. split; [exact Hj|].
    intros Hfree. destruct (Hff Hfree). lia.
  - eexists 1, _. split; [reflexivity|]. cbn [link next_ptr journal].
    split; [exact Hl|]. split; [exact Hn|]. left. rewrite Hj. auto.
Qed.

Lemma set_dns_servers_commit_spec message w :
  exists r w',
    set_dns_servers_commit message w = (r, w')
    /\ link w' = drop_stale_current
                   (with_dns_servers
                      (MarkSweep.unlink_marked s_marked (dns_servers (link w))) (link w))
    /\ next_ptr w' = next_ptr w
    /\ ((r = 1
         /\ journal w'
            = journal w ++ [link_allocate_scopes; link_save_user;
                            manager_write_resolv_conf; manager_send_changed "DNS";
                            sd_bus_reply_method_return])
        \/ (r < 0
            /\ journal w'
               = journal w ++ [link_allocate_scopes; link_save_user;
                               manager_write_resolv_conf; manager_send_changed "DNS"]
            /\ ~ fault_free w)).
Proof.
  unfold set_dns_servers_commit.
  unfold bind at 1. unfold get_link. cbv beta iota zeta.
  unfold bind at 1. unfold dns_server_unlink_marked, modify_link. cbv beta iota zeta.
  unfold bind at 1. unfold call at 1. cbv beta iota zeta.
  unfold bind at 1. unfold call at 1. cbv beta iota zeta.
  unfold bind at 1. unfold call at 1. cbv beta iota zeta.
  unfold bind at 1. unfold call at 1. cbv beta iota zeta.
  cbn [link next_ptr faults journal error with_link].
  match goal with
  | |- context [bus_reply_method_return message ?w0] =>
      destruct (bus_reply_method_return_spec message w0)
        as [r [w' [Hr [Hl [Hn Hcases]]]]]
  end.
  exists r, w'. split; [exact Hr|]. cbn [link next_ptr journal] in *.
  split; [exact Hl|]. split; [exact Hn|].
  destruct Hcases as [[-> Hj]|[Hneg [Hj Hnf]]].
  - left. split; [reflexivity|]. rewrite Hj. rewrite <- !app_assoc. reflexivity.
  - right. split; [exact Hneg|]. split.
    + rewrite Hj. rewrite <- !app_assoc. reflexivity.
    + exact Hnf.
Qed.


(** ** A committed [SetDNS] call *)

Lemma decode_dns_ifindex l dns :
  decode_dns l = Some dns -> map link_key dns = dns.
Proof.
  revert dns. induction l as [|[f a] l IH]; simpl; intros dns H.
  - inversion H. reflexivity.
  - destruct (address_ok f a); [|discriminate].
    destruct (decode_dns l) as [r|]; [|discriminate].
    inversion H. subst. simpl. rewrite (IH r eq_refl). reflexivity.
Qed.

Lemma decode_dns_ex_ifindex l dns :
  decode_dns_ex l = Some dns -> map link_key dns = dns.
Proof.
  revert dns. induction l as [|[[[f a] p] n] l IH]; simpl; intros dns H.
  - inversion H. reflexivity.
  - destruct (address_ok f a); [|discriminate].
    destruct (decode_dns_ex l) as [r|]; [|discriminate].
    inversion H. subst. simpl. rewrite (IH r eq_refl). reflexivity.
Qed.

Lemma request_dns_ifindex message extended dns :
  request_dns message extended = Some dns -> map link_key dns = dns.
Proof.
  unfold request_dns.
  destruct (msg_body message), extended; try discriminate.
  - apply decode_dns_ifindex.
  - apply decode_dns_ex_ifindex.
Qed.

(** What a granted call that returns a non-negative value has done. *)
Lemma set_dns_servers_committed message extended w r w' :
  bus_link_method_set_dns_servers_internal message extended w = (r, w') ->
  0 < polkit message -> 0 <= r ->
  exists dns,
    request_dns message extended = Some dns
    /\ eligible (link w)
    /\ r = 1
    /\ link w' = drop_stale_current
                   (with_dns_servers
                      (fst (server_replace_set dns (dns_servers (link w), next_ptr w)))
                      (link w))
    /\ next_ptr w' = snd (server_replace_set dns (dns_servers (link w), next_ptr w))
    /\ journal w'
       = journal w ++ [link_allocate_scopes; link_save_user;
                       manager_write_resolv_conf; manager_send_changed "DNS";
                       sd_bus_reply_method_return].
Proof.
  intros Hrun Hpk Hr. rewrite set_dns_servers_phases in Hrun.
  destruct (set_dns_servers_begin_spec message extended w) as [x [w0 [Hb Hx]]].
  rewrite Hb in Hrun. destruct x as [r0|dns].
  - destruct Hx as [_ [Hneg _]]. inversion Hrun. subst. specialize (Hneg Hpk). lia.
  - destruct Hx as [Hel [_ [Hreq [Hl0 [Hn0 [Hj0 _]]]]]].
    destruct (set_dns_servers_loop_spec dns w0)
      as [r1 [w1 [Hloop [Hj1 [_ Hcases]]]]].
    rewrite Hloop in Hrun.
    destruct Hcases as [[-> [Hl1 [Hn1 _]]]|[Hneg _]].
    + change (0 <? 0) with false in Hrun. cbv iota in Hrun.
      destruct (set_dns_servers_commit_spec message w1)
        as [r2 [w2 [Hc [Hl2 [Hn2 Hj2]]]]].
      rewrite Hc in Hrun. inversion Hrun. subst r2 w2. clear Hrun.
      exists dns. split; [exact Hreq|]. split; [exact Hel|].
      rewrite (request_dns_ifindex _ _ _ Hreq) in *.
      rewrite Hl0, Hn0 in Hl1, Hn1. cbn [dns_servers with_dns_servers] in Hl1, Hn1.
      assert (Hfinal :
        server_replace_set dns (dns_servers (link w), next_ptr w)
        = (MarkSweep.unlink_marked s_marked (dns_servers (link w1)), next_ptr w1)).
      { unfold server_replace_set, MarkSweepFacts.replace_set. cbn [fst snd].
        fold server_run. rewrite Hl1, Hn1. cbn [dns_servers with_dns_servers].
        destruct (server_run dns _); reflexivity. }
      rewrite Hfinal. cbn [fst snd].
      destruct Hj2 as [[-> Hj2]|[Hneg _]]; [|lia].
      split; [reflexivity|]. split; [rewrite Hl2, Hl1; reflexivity|].
      split; [exact Hn2|]. rewrite Hj2, Hj1, Hj0. reflexivity.
    + apply Z.ltb_lt in Hneg. rewrite Hneg in Hrun. inversion Hrun. subst.
      apply Z.ltb_lt in Hneg. lia.
Qed.

Lemma dns_servers_drop_stale l : dns_servers (drop_stale_current l) = dns_servers l.
Proof.
  unfold drop_stale_current. destruct (current_dns_server l); [|reflexivity].
  destruct (MarkSweep.deref _ _ _); reflexivity.
Qed.

Lemma drop_stale_current_idem l : drop_stale_current (drop_stale_current l) = drop_stale_current l.
Proof.
  unfold drop_stale_current. destruct (current_dns_server l) as [p|] eqn:Hc.
  - destruct (MarkSweep.deref s_ptr p (dns_servers l)) eqn:Hd.
    + rewrite Hc, Hd. reflexivity.
    + reflexivity.
  - rewrite Hc. reflexivity.
Qed.


(** The general facts at the DNS server list. *)

Ltac server_instance := intros; try reflexivity; try assumption.

Lemma server_replace_set_wfp dns n first :
  server_wfp n first ->
  server_wfp (snd (server_replace_set dns (first, n)))
             (fst (server_replace_set dns (first, n))).
Proof. apply MarkSweepFacts.replace_set_wfp; server_instance. Qed.

Lemma server_replace_set_unmarked dns st :
  Forall (fun s => s_marked s = false) (fst (server_replace_set dns st)).
Proof. apply MarkSweepFacts.replace_set_unmarked. Qed.

Lemma server_replace_set_keeps_first dns n first s :
  server_wfp n first ->
  find (server_keyb (server_key (s_addr s))) first = Some s ->
  In (server_key (s_addr s)) (map server_key dns) ->
  In (s_set_marked false s) (fst (server_replace_set dns (first, n))).
Proof.
  intros Hwf Hs Hk.
  apply (MarkSweepFacts.replace_set_keeps_first DnsServer in_addr_full _
           server_key_eq_dec server_key s_addr s_ptr s_marked s_set_marked
           (fun _ s => s) server_mk); server_instance.
Qed.

Lemma server_replace_set_no_new dns n first e :
  server_wfp n first ->
  In e (fst (server_replace_set dns (first, n))) ->
  In (server_key (s_addr e)) (map (fun x => server_key (s_addr x)) first) ->
  In (s_ptr e) (map s_ptr first).
Proof.
  intros Hwf He Hk.
  apply (MarkSweepFacts.replace_set_no_new DnsServer in_addr_full _
           server_key_eq_dec server_key s_addr s_ptr s_marked s_set_marked
           (fun _ s => s) server_mk) with (vs := dns) (n := n); server_instance.
Qed.

Lemma server_replace_set_again dns n first :
  server_wfp n first ->
  server_replace_set dns (server_replace_set dns (first, n))
  = server_replace_set dns (first, n).
Proof.
  apply MarkSweepFacts.replace_set_again; server_instance.
  apply s_set_marked_eta.
Qed.

(** Two servers that differ in the port at most (and in the interface
    index, which is [0] for every server of a request). *)
Definition same_but_port (x a : in_addr_full) : Prop :=
  family x = family a /\ address x = address a /\ server_name x = server_name a.

Lemma same_but_port_key x a : same_but_port x a <-> server_key x = server_key a.
Proof.
  unfold same_but_port, server_key. split.
  - intros [-> [-> ->]]. reflexivity.
  - intros H. inversion H. auto.
Qed.


(** C8. After a granted [SetDNS]/[SetDNSEx] call that went through, a
    second call with the same request body leaves the link exactly as the
    first left it, whatever the gate or the transport do the second time:
    the list holds the same objects (same addresses in memory) in the same
    order, nothing was allocated, nothing was removed, and
    [current_dns_server] refers to what it referred to. *)
Theorem set_dns_twice_same_objects
        (message message2 : sd_bus_message) (extended : bool)
        (w : World) (r1 : Z) (w1 : World) (r2 : Z) (w2 : World) :
  server_wf (next_ptr w) (dns_servers (link w)) ->
  bus_link_method_set_dns_servers_internal message extended w = (r1, w1) ->
  0 < polkit message -> 0 <= r1 ->
  msg_body message2 = msg_body message ->
  bus_link_method_set_dns_servers_internal message2 extended w1 = (r2, w2) ->
  link w2 = link w1
  /\ map s_ptr (dns_servers (link w2)) = map s_ptr (dns_servers (link w1))
  /\ current_dns_server (link w2) = current_dns_server (link w1)
  /\ next_ptr w2 = next_ptr w1.
Proof.
  intros Hwf Hrun1 Hpk Hr1 Hbody Hrun2.
  pose proof (server_wf_wfp _ _ Hwf) as Hwfp.
  destruct (set_dns_servers_committed message extended w r1 w1 Hrun1 Hpk Hr1)
    as [dns [Hreq [_ [_ [Hl1 [Hn1 _]]]]]].
  assert (Hlink : link w2 = link w1 /\ next_ptr w2 = next_ptr w1);
    [|destruct Hlink as [-> ->]; auto].
  assert (Hd1 : dns_servers (link w1)
                = fst (server_replace_set dns (dns_servers (link w), next_ptr w)))
    by (rewrite Hl1, dns_servers_drop_stale; reflexivity).
  assert (Hagain : server_replace_set dns (dns_servers (link w1), next_ptr w1)
                   = (dns_servers (link w1), next_ptr w1)).
  { rewrite Hd1, Hn1, <- surjective_pairing.
    apply (server_replace_set_again dns _ _ Hwfp). }
  rewrite set_dns_servers_phases in Hrun2.
  destruct (set_dns_servers_begin_spec message2 extended w1) as [x [w0 [Hb Hx]]].
  rewrite Hb in Hrun2. destruct x as [r0|dns2].
  - destruct Hx as [[Hl [Hn _]] _]. inversion Hrun2. subst. auto.
  - destruct Hx as [_ [_ [Hreq2 [Hl0 [Hn0 _]]]]].
    assert (dns2 = dns).
    { unfold request_dns in Hreq, Hreq2. rewrite Hbody in Hreq2. congruence. }
    subst dns2.
    destruct (set_dns_servers_loop_spec dns w0)
      as [r3 [w3 [Hloop [_ [_ Hcases]]]]].
    rewrite Hloop in Hrun2.
    rewrite (request_dns_ifindex _ _ _ Hreq) in Hcases.
    rewrite Hl0, Hn0 in Hcases. cbn [dns_servers with_dns_servers] in Hcases.
    unfold server_replace_set, MarkSweepFacts.replace_set in Hagain.
    cbn [fst snd] in Hagain. fold server_run in Hagain.
    destruct (server_run dns _) as [first n] eqn:Hsr.
    inversion Hagain as [[Hfirst Hn]]. cbn [fst snd] in Hcases.
    destruct Hcases as [[-> [Hl3 [Hn3 _]]]|[_ [_ [_ [_ Hlt]]]]]; [|lia].
    change (0 <? 0) with false in Hrun2. cbv iota in Hrun2.
    destruct (set_dns_servers_commit_spec message2 w3)
      as [r4 [w4 [Hc [Hl4 [Hn4 _]]]]].
    rewrite Hc in Hrun2. inversion Hrun2. subst r4 w4.
    split; [|congruence].
    rewrite Hl4, Hl3. cbn [dns_servers with_dns_servers]. rewrite Hfirst.
    rewrite !with_dns_servers_twice, with_dns_servers_same.
    rewrite Hl1. apply drop_stale_current_idem.
Qed.


(** ** The search domain list as an instance of the general protocol *)

Definition domain_view (d : DnsSearchDomain) : string * bool := (name d, route_only d).

Definition domain_set_view (v : string * bool) (d : DnsSearchDomain) : DnsSearchDomain :=
  d_set_route_only (snd v) d.

Definition domain_mk (n : nat) (v : string * bool) : DnsSearchDomain :=
  mkDomain n (fst v) (snd v) false.

Definition domain_wf : nat -> list DnsSearchDomain -> Prop :=
  MarkSweepFacts.wf (fun v : string * bool => fst v) domain_view d_ptr.

Definition domain_step
  : list DnsSearchDomain * nat -> string * bool -> list DnsSearchDomain * nat :=
  MarkSweepFacts.step string_dec (fun v => fst v) domain_view d_ptr
    d_set_marked domain_set_view domain_mk.

Definition domain_run
  : list (string * bool) -> list DnsSearchDomain * nat -> list DnsSearchDomain * nat :=
  MarkSweepFacts.run string_dec (fun v => fst v) domain_view d_ptr
    d_set_marked domain_set_view domain_mk.

Definition domain_replace_set
  : list (string * bool) -> list DnsSearchDomain * nat -> list DnsSearchDomain * nat :=
  MarkSweepFacts.replace_set string_dec (fun v => fst v) domain_view d_ptr d_marked
    d_set_marked domain_set_view domain_mk.

Definition domain_keyb : string -> DnsSearchDomain -> bool :=
  MarkSweepFacts.keyb DnsSearchDomain (string * bool) string string_dec
    (fun v => fst v) domain_view.

Lemma domain_view_set_view v e :
  fst (domain_view e) = fst v -> domain_view (domain_set_view v e) = v.
Proof. destruct v, e. simpl. intros ->. reflexivity. Qed.

Lemma domain_view_mk n v : domain_view (domain_mk n v) = v.
Proof. destruct v. reflexivity. Qed.

Ltac domain_instance :=
  intros; try reflexivity; try (apply domain_view_set_view; assumption);
  try apply domain_view_mk.

Lemma domain_wf_step n first v :
  domain_wf n first ->
  domain_wf (snd (domain_step (first, n) v)) (fst (domain_step (first, n) v)).
Proof. apply MarkSweepFacts.wf_step; domain_instance.
Qed.

Lemma domain_replace_set_perm entries n first :
  domain_wf n first -> NoDup (map fst entries) ->
  Permutation (map domain_view (fst (domain_replace_set entries (first, n)))) entries.
Proof.
  intros Hwf Hnd.
  apply (MarkSweepFacts.replace_set_perm DnsSearchDomain (string * bool) string
           string_dec (fun v => fst v) domain_view d_ptr d_marked d_set_marked
           domain_set_view domain_mk); domain_instance; try assumption.
  revert Hwf. apply MarkSweepFacts.wf_wfp.
Qed.

Lemma with_search_domains_twice a b l :
  with_search_domains a (with_search_domains b l) = with_search_domains a l.
Proof. reflexivity. Qed.

Lemma with_search_domains_same l : with_search_domains (search_domains l) l = l.
Proof. destruct l; reflexivity. Qed.

Lemma get_link_run w : get_link w = (link w, w).
Proof. reflexivity. Qed.

(** The five ways through one iteration of the loop of lines 374-398. *)
Lemma set_domains_reconcile_read_failed entries w r w1 :
  fault w = (r, w1) -> r < 0 -> set_domains_reconcile entries w = (r, w1).
Proof.
  intros Hf Hneg. apply Z.ltb_lt in Hneg.
  destruct entries as [|[nm ro] rest]; cbn [set_domains_reconcile];
    run_bind Hf; rewrite Hneg; reflexivity.
Qed.

Lemma set_domains_reconcile_end w w1 :
  fault w = (0, w1) -> set_domains_reconcile [] w = (0, w1).
Proof. intros Hf. cbn [set_domains_reconcile]. run_bind Hf. reflexivity. Qed.

Lemma set_domains_reconcile_find_failed nm ro rest w w1 r w2 :
  fault w = (0, w1) -> fault w1 = (r, w2) -> r < 0 ->
  set_domains_reconcile ((nm, ro) :: rest) w = (r, w2).
Proof.
  intros Hf Hf1 Hneg. apply Z.ltb_lt in Hneg. cbn [set_domains_reconcile].
  run_bind Hf. change (0 <? 0) with false. cbv iota.
  run_bind (get_link_run w1). unfold dns_search_domain_find.
  unfold bind at 1 2. rewrite Hf1. rewrite Hneg. unfold ret at 1. rewrite Hneg.
  reflexivity.
Qed.

Lemma set_domains_reconcile_found nm ro rest w w1 w2 e :
  fault w = (0, w1) -> fault w1 = (0, w2) ->
  find (domain_keyb nm) (search_domains (link w1)) = Some e ->
  set_domains_reconcile ((nm, ro) :: rest) w
  = set_domains_reconcile rest
      (with_link
         (fun l =>
            with_search_domains
              (MarkSweep.assign d_ptr (d_ptr e) (d_set_route_only ro)
                 (MarkSweep.move_back_and_unmark d_ptr d_set_marked (d_ptr e)
                    (search_domains l))) l) w2).
Proof.
  intros Hf Hf1 Hfind. cbn [set_domains_reconcile].
  run_bind Hf. change (0 <? 0) with false. cbv iota.
  run_bind (get_link_run w1). unfold dns_search_domain_find.
  unfold bind at 1 2. rewrite Hf1. change (0 <? 0) with false. cbv iota.
  unfold MarkSweep.find_entry. fold domain_keyb.
  change (fun e0 : DnsSearchDomain =>
            if string_dec (MarkSweep.key (fun v : string * bool => fst v)
                             (fun d => (name d, route_only d)) e0) nm
            then true else false) with (domain_keyb nm).
  rewrite Hfind. unfold ret at 1. cbv beta iota zeta.
  change (1 <? 0) with false. change (0 <? 1) with true. cbv iota.
  unfold bind, dns_search_domain_move_back_and_unmark, modify_link, ret.
  cbv beta iota zeta. change (1 <? 0) with false. cbv iota.
  unfold with_link. cbn [link next_ptr faults journal error search_domains
                         with_search_domains].
  reflexivity.
Qed.


Lemma set_domains_reconcile_new_failed nm ro rest w w1 w2 r w3 :
  fault w = (0, w1) -> fault w1 = (0, w2) ->
  find (domain_keyb nm) (search_domains (link w1)) = None ->
  fault w2 = (r, w3) -> r < 0 ->
  set_domains_reconcile ((nm, ro) :: rest) w = (r, w3).
Proof.
  intros Hf Hf1 Hfind Hf2 Hneg. apply Z.ltb_lt in Hneg. cbn [set_domains_reconcile].
  run_bind Hf. change (0 <? 0) with false. cbv iota.
  run_bind (get_link_run w1). unfold dns_search_domain_find.
  unfold bind at 1 2. rewrite Hf1. change (0 <? 0) with false. cbv iota.
  unfold MarkSweep.find_entry.
  change (fun e0 : DnsSearchDomain =>
            if string_dec (MarkSweep.key (fun v : string * bool => fst v)
                             (fun d => (name d, route_only d)) e0) nm
            then true else false) with (domain_keyb nm).
  rewrite Hfind. unfold ret at 1. cbv beta iota zeta.
  change (0 <? 0) with false. cbv iota.
  unfold dns_search_domain_new. unfold bind at 1 2. rewrite Hf2. rewrite Hneg.
  unfold ret at 1. rewrite Hneg. reflexivity.
Qed.

Lemma set_domains_reconcile_new nm ro rest w w1 w2 w3 :
  fault w = (0, w1) -> fault w1 = (0, w2) ->
  find (domain_keyb nm) (search_domains (link w1)) = None ->
  fault w2 = (0, w3) ->
  set_domains_reconcile ((nm, ro) :: rest) w
  = set_domains_reconcile rest
      (mkWorld
         (with_search_domains
            (MarkSweep.assign d_ptr (next_ptr w3) (d_set_route_only ro)
               (search_domains (link w3) ++ [mkDomain (next_ptr w3) nm false false]))
            (link w3))
         (S (next_ptr w3)) (faults w3) (journal w3) (error w3)).
Proof.
  intros Hf Hf1 Hfind Hf2. cbn [set_domains_reconcile].
  run_bind Hf. change (0 <? 0) with false. cbv iota.
  run_bind (get_link_run w1). unfold dns_search_domain_find.
  unfold bind at 1 2. rewrite Hf1. change (0 <? 0) with false. cbv iota.
  unfold MarkSweep.find_entry.
  change (fun e0 : DnsSearchDomain =>
            if string_dec (MarkSweep.key (fun v : string * bool => fst v)
                             (fun d => (name d, route_only d)) e0) nm
            then true else false) with (domain_keyb nm).
  rewrite Hfind. unfold ret at 1. cbv beta iota zeta.
  change (0 <? 0) with false. cbv iota.
  unfold dns_search_domain_new. unfold bind at 1 2. rewrite Hf2.
  change (0 <? 0) with false. cbv iota. cbv beta iota zeta.
  change (0 <? 0) with false. cbv iota.
  unfold bind, modify_link, with_link.
  cbn [link next_ptr faults journal error search_domains with_search_domains].
  reflexivity.
Qed.

(** A world in which only the search domain list (and the allocator, the
    pending failures) may differ. *)
Definition domains_only (w w' : World) : Prop :=
  (exists X, link w' = with_search_domains X (link w))
  /\ journal w' = journal w /\ error w' = error w.

Lemma domains_only_refl w : domains_only w w.
Proof.
  split; [|auto]. exists (search_domains (link w)).
  rewrite with_search_domains_same. reflexivity.
Qed.

Lemma domains_only_trans w1 w2 w3 :
  domains_only w1 w2 -> domains_only w2 w3 -> domains_only w1 w3.
Proof.
  intros [[X HX] [Hj He]] [[Y HY] [Hj' He']]. split; [|split; congruence].
  exists Y. rewrite HY, HX. reflexivity.
Qed.

Lemma untouched_domains_only w w' : untouched w w' -> error w' = error w -> domains_only w w'.
Proof.
  intros [Hl [_ Hj]] He. split; [|auto]. exists (search_domains (link w)).
  rewrite Hl, with_search_domains_same. reflexivity.
Qed.

Lemma set_domains_iteration nm ro rest w :
  domain_wf (next_ptr w) (search_domains (link w)) ->
  exists w1,
    domains_only w w1
    /\ ((set_domains_reconcile ((nm, ro) :: rest) w = set_domains_reconcile rest w1
         /\ link w1 = with_search_domains
                        (fst (domain_step (search_domains (link w), next_ptr w) (nm, ro)))
                        (link w)
         /\ next_ptr w1
            = snd (domain_step (search_domains (link w), next_ptr w) (nm, ro))
         /\ (fault_free w -> fault_free w1))
        \/ (exists r,
              r < 0
              /\ set_domains_reconcile ((nm, ro) :: rest) w = (r, w1)
              /\ ~ fault_free w)).
Proof.
  intros Hwf. pose proof Hwf as [Hndp [Hlt _]].
  destruct (fault_spec w) as [r [w1 [Hf [Hle [Hu [He [Hff _]]]]]]].
  pose proof (untouched_domains_only _ _ Hu He) as Hd1.
  destruct (Z.ltb_spec r 0) as [Hneg|Hpos].
  { exists w1. split; [exact Hd1|]. right. exists r. split; [exact Hneg|].
    split; [apply set_domains_reconcile_read_failed; assumption|].
    intros Hfree. destruct (Hff Hfree). lia. }
  assert (r = 0) by lia. subst r.
  destruct (fault_spec w1) as [r [w2 [Hf1 [Hle1 [Hu1 [He1 [Hff1 _]]]]]]].
  pose proof (domains_only_trans _ _ _ Hd1 (untouched_domains_only _ _ Hu1 He1)) as Hd2.
  destruct (Z.ltb_spec r 0) as [Hneg|Hpos1].
  { exists w2. split; [exact Hd2|]. right. exists r. split; [exact Hneg|].
    split; [eapply set_domains_reconcile_find_failed; eassumption|].
    intros Hfree. destruct (Hff Hfree) as [_ Hfree1].
    destruct (Hff1 Hfree1). lia. }
  assert (r = 0) by lia. subst r.
  destruct Hu as [Hl [Hn Hj]]. destruct Hu1 as [Hl1 [Hn1 Hj1]].
  unfold domain_step, MarkSweepFacts.step. fold domain_keyb.
  change (domain_keyb (fst (nm, ro))) with (domain_keyb nm).
  destruct (find (domain_keyb nm) (search_domains (link w))) as [e|] eqn:Hfind.
  - rewrite <- Hl in Hfind.
    rewrite (set_domains_reconcile_found nm ro rest w w1 w2 e Hf Hf1 Hfind).
    rewrite Hl in Hfind.
    apply MarkSweepFacts.find_key_some in Hfind. destruct Hfind as [Hin _].
    eexists. split; [|left; split; [reflexivity|]].
    + eapply domains_only_trans; [exact Hd2|].
      split; [|auto]. eexists. reflexivity.
    + cbn [link with_link next_ptr fst snd].
      rewrite Hl1, Hl, Hn1, Hn.
      unfold MarkSweep.move_back_and_unmark.
      rewrite MarkSweepFacts.assign_assign by reflexivity.
      split; [reflexivity|]. split; [reflexivity|].
      intros Hfree. destruct (Hff Hfree) as [_ Hfree1].
      destruct (Hff1 Hfree1) as [_ Hfree2].
      unfold fault_free in *. cbn [faults]. exact Hfree2.
  - destruct (fault_spec w2) as [r [w3 [Hf2 [Hle2 [Hu2 [He2 [Hff2 _]]]]]]].
    pose proof (domains_only_trans _ _ _ Hd2 (untouched_domains_only _ _ Hu2 He2))
      as Hd3.
    rewrite <- Hl in Hfind.
    destruct (Z.ltb_spec r 0) as [Hneg|Hpos2].
    { exists w3. split; [exact Hd3|]. right. exists r. split; [exact Hneg|].
      split; [eapply set_domains_reconcile_new_failed; eassumption|].
      intros Hfree. destruct (Hff Hfree) as [_ Hfree1].
      destruct (Hff1 Hfree1) as [_ Hfree2]. destruct (Hff2 Hfree2). lia. }
    assert (r = 0) by lia. subst r.
    rewrite (set_domains_reconcile_new nm ro rest w w1 w2 w3 Hf Hf1 Hfind Hf2).
    destruct Hu2 as [Hl2 [Hn2 Hj2]].
    eexists. split; [|left; split; [reflexivity|]].
    + eapply domains_only_trans; [exact Hd3|].
      split; [|auto]. eexists. reflexivity.
    + cbn [link next_ptr fst snd]. rewrite Hl2, Hl1, Hl, Hn2, Hn1, Hn.
      rewrite MarkSweepFacts.assign_snoc.
      * split; [reflexivity|]. split; [reflexivity|].
        intros Hfree. destruct (Hff Hfree) as [_ Hfree1].
        destruct (Hff1 Hfree1) as [_ Hfree2]. destruct (Hff2 Hfree2) as [_ Hfree3].
        unfold fault_free in *. cbn [faults]. exact Hfree3.
      * intros x Hx. rewrite Forall_forall in Hlt. specialize (Hlt x Hx). lia.
      * reflexivity.
Qed.


Lemma set_domains_reconcile_spec entries w :
  domain_wf (next_ptr w) (search_domains (link w)) ->
  exists r w',
    set_domains_reconcile entries w = (r, w')
    /\ domains_only w w'
    /\ ((r = 0
         /\ link w' = with_search_domains
                        (fst (domain_run entries (search_domains (link w), next_ptr w)))
                        (link w)
         /\ next_ptr w' = snd (domain_run entries (search_domains (link w), next_ptr w))
         /\ (fault_free w -> fault_free w'))
        \/ (r < 0 /\ ~ fault_free w)).
Proof.
  revert w. induction entries as [|[nm ro] rest IH]; intros w Hwf.
  - destruct (fault_spec w) as [r [w1 [Hf [Hle [Hu [He [Hff _]]]]]]].
    pose proof (untouched_domains_only _ _ Hu He) as Hd1.
    destruct (Z.ltb_spec r 0) as [Hneg|Hpos].
    + exists r, w1. split; [apply set_domains_reconcile_read_failed; assumption|].
      split; [exact Hd1|]. right. split; [exact Hneg|].
      intros Hfree. destruct (Hff Hfree). lia.
    + assert (r = 0) by lia. subst r. exists 0, w1.
      split; [apply set_domains_reconcile_end; assumption|].
      split; [exact Hd1|]. left. split; [reflexivity|].
      unfold domain_run. rewrite MarkSweepFacts.run_nil. cbn [fst snd].
      destruct Hu as [Hl [Hn _]]. rewrite Hl, Hn, with_search_domains_same.
      split; [reflexivity|]. split; [reflexivity|].
      intros Hfree. apply Hff, Hfree.
  - unfold domain_run. rewrite MarkSweepFacts.run_cons.
    fold domain_run. fold domain_step.
    pose proof (domain_wf_step _ _ (nm, ro) Hwf) as Hwf1.
    destruct (set_domains_iteration nm ro rest w Hwf)
      as [w1 [Hd1 [[Hloop [Hl1 [Hn1 Hfree1]]]|[r [Hneg [Hloop Hnf]]]]]].
    + destruct (domain_step (search_domains (link w), next_ptr w) (nm, ro))
        as [first1 n1] eqn:Hstep. cbn [fst snd] in *.
      assert (Hs1 : search_domains (link w1) = first1) by (rewrite Hl1; reflexivity).
      rewrite <- Hs1, <- Hn1 in Hwf1.
      destruct (IH w1 Hwf1) as [r [w' [Hrun [Hd Hcases]]]].
      rewrite Hs1, Hn1 in Hcases.
      exists r, w'. rewrite Hloop. split; [exact Hrun|].
      split; [eapply domains_only_trans; eassumption|].
      destruct Hcases as [[Hr [Hl [Hn Hfree]]]|[Hr Hnf]].
      * left. split; [exact Hr|]. split; [rewrite Hl, Hl1; reflexivity|].
        split; [exact Hn|]. auto.
      * right. split; [exact Hr|]. auto.
    + exists r, w1. split; [exact Hloop|]. split; [exact Hd1|].
      right. split; assumption.
Qed.

(** Without any assumption on the list: the loop touches the search
    domains only. *)
Lemma set_domains_reconcile_frame entries w :
  exists r w', set_domains_reconcile entries w = (r, w') /\ domains_only w w' /\ r <= 0.
Proof.
  revert w. induction entries as [|[nm ro] rest IH]; intros w;
    destruct (fault_spec w) as [r [w1 [Hf [Hle [Hu [He _]]]]]];
    pose proof (untouched_domains_only _ _ Hu He) as Hd1;
    (destruct (Z.ltb_spec r 0) as [Hneg|Hpos];
     [exists r, w1; split; [apply set_domains_reconcile_read_failed; assumption|];
      split; [exact Hd1|lia]|]);
    assert (r = 0) by lia; subst r.
  - exists 0, w1. split; [apply set_domains_reconcile_end; assumption|].
    split; [exact Hd1|lia].
  - destruct (fault_spec w1) as [r [w2 [Hf1 [Hle1 [Hu1 [He1 _]]]]]].
    pose proof (domains_only_trans _ _ _ Hd1 (untouched_domains_only _ _ Hu1 He1))
      as Hd2.
    destruct (Z.ltb_spec r 0) as [Hneg|Hpos1].
    { exists r, w2. split; [eapply set_domains_reconcile_find_failed; eassumption|].
      split; [exact Hd2|lia]. }
    assert (r = 0) by lia. subst r.
    destruct (find (domain_keyb nm) (search_domains (link w1))) as [e|] eqn:Hfind.
    + rewrite (set_domains_reconcile_found nm ro rest w w1 w2 e Hf Hf1 Hfind).
      match goal with
      | |- context [set_domains_reconcile rest ?w0] =>
          destruct (IH w0) as [r [w' [Hrun [Hd Hr]]]];
          assert (Hd0 : domains_only w2 w0)
            by (split; [eexists; reflexivity|auto])
      end.
      exists r, w'. split; [exact Hrun|]. split; [|exact Hr].
      eapply domains_only_trans; [exact Hd2|].
      eapply domains_only_trans; eassumption.
    + destruct (fault_spec w2) as [r [w3 [Hf2 [Hle2 [Hu2 [He2 _]]]]]].
      pose proof (domains_only_trans _ _ _ Hd2 (untouched_domains_only _ _ Hu2 He2))
        as Hd3.
      destruct (Z.ltb_spec r 0) as [Hneg|Hpos2].
      { exists r, w3.
        split; [eapply set_domains_reconcile_new_failed; eassumption|].
        split; [exact Hd3|lia]. }
      assert (r = 0) by lia. subst r.
      rewrite (set_domains_reconcile_new nm ro rest w w1 w2 w3 Hf Hf1 Hfind Hf2).
      match goal with
      | |- context [set_domains_reconcile rest ?w0] =>
          destruct (IH w0) as [r [w' [Hrun [Hd Hr]]]];
          assert (Hd0 : domains_only w3 w0)
            by (split; [eexists; reflexivity|auto])
      end.
      exists r, w'. split; [exact Hrun|]. split; [|exact Hr].
      eapply domains_only_trans; [exact Hd3|].
      eapply domains_only_trans; eassumption.
Qed.

(** ** The phases of [bus_link_method_set_domains] *)

(** Lines 332-372: eligibility, the validating pass, the rewind, the gate,
    the mark phase. *)
Definition set_domains_begin (message : sd_bus_message)
  : M (Z + list (string * bool)) :=
  r <- verify_unmanaged_link ;;
  if r <? 0 then ret (inl r) else
  ' (r, entries) <- sd_bus_message_enter_container_a_sb message ;;
  if r <? 0 then ret (inl r) else
  r <- set_domains_validate entries ;;
  if r <? 0 then ret (inl r) else
  r <- fault ;;
  if r <? 0 then ret (inl r) else
  r <- bus_verify_polkit_async message "org.freedesktop.resolve1.set-domains" ;;
  if r <? 0 then ret (inl r) else
  if r =? 0 then ret (inl 1) else
  l <- get_link ;;
  dns_search_domain_mark_all (search_domains l) ;;;
  ret (inr entries).

(** Lines 374-402: the reconcile loop and [sd_bus_message_exit_container];
    a negative result is a [goto clear]. *)
Definition set_domains_reconcile_phase (entries : list (string * bool)) : M Z :=
  r <- set_domains_reconcile entries ;;
  if r <? 0 then ret r else fault.

(** Lines 411-413, the [clear] label. *)
Definition set_domains_clear (r : Z) : M Z :=
  l <- get_link ;;
  dns_search_domain_unlink_all (search_domains l) ;;;
  ret r.

(** Lines 404-409. *)
Definition set_domains_commit (message : sd_bus_message) : M Z :=
  l <- get_link ;;
  dns_search_domain_unlink_marked (search_domains l) ;;;
  call link_save_user ;;;
  call manager_write_resolv_conf ;;;
  bus_reply_method_return message.

Lemma set_domains_phases message w :
  bus_link_method_set_domains message w
  = let (x, w0) := set_domains_begin message w in
    match x with
    | inl r => (r, w0)
    | inr entries =>
        let (r, w1) := set_domains_reconcile_phase entries w0 in
        if r <? 0 then set_domains_clear r w1 else set_domains_commit message w1
    end.
Proof.
  unfold bus_link_method_set_domains, set_domains_begin, set_domains_reconcile_phase,
    set_domains_clear, set_domains_commit.
  unfold bind, ret, get_link, dns_search_domain_mark_all, modify_link.
  destruct (verify_unmanaged_link w) as [r w1].
  destruct (r <? 0); [reflexivity|].
  destruct (sd_bus_message_enter_container_a_sb message w1) as [[r1 entries] w2].
  destruct (r1 <? 0); [reflexivity|].
  destruct (set_domains_validate entries w2) as [r2 w3].
  destruct (r2 <? 0); [reflexivity|].
  destruct (fault w3) as [r3 w4].
  destruct (r3 <? 0); [reflexivity|].
  destruct (bus_verify_polkit_async message _ w4) as [r4 w5].
  destruct (r4 <? 0); [reflexivity|]. destruct (r4 =? 0); [reflexivity|].
  destruct (set_domains_reconcile entries _) as [r5 w6].
  destruct (r5 <? 0) eqn:H5.
  - rewrite H5. reflexivity.
  - destruct (fault w6) as [r6 w7]. destruct (r6 <? 0); reflexivity.
Qed.

Lemma set_domains_validate_frame entries w :
  exists r w',
    set_domains_validate entries w = (r, w')
    /\ untouched w w' /\ r <= 0 /\ (fault_free w -> fault_free w').
Proof.
  revert w. induction entries as [|[nm ro] rest IH]; intros w;
    cbn [set_domains_validate];
    destruct (fault_spec w) as [r [w1 [Hf [Hle [Hu [He [Hff _]]]]]]];
    run_bind Hf;
    (destruct (Z.ltb_spec r 0) as [Hneg|Hpos];
     [exists r, w1; split; [reflexivity|]; split; [exact Hu|]; split; [lia|];
      intros Hfree; apply Hff, Hfree|]).
  - exists 0, w1. split; [reflexivity|]. split; [exact Hu|]. split; [lia|].
    intros Hfree; apply Hff, Hfree.
  - destruct (Z.ltb_spec (dns_name_is_valid nm) 0) as [Hv|Hv].
    { exists (dns_name_is_valid nm), w1. split; [reflexivity|]. split; [exact Hu|].
      split; [lia|]. intros Hfree; apply Hff, Hfree. }
    assert (Hsetf : forall text, exists r' w',
               sd_bus_error_setf SD_BUS_ERROR_INVALID_ARGS text w1 = (r', w')
               /\ untouched w w' /\ r' <= 0 /\ (fault_free w -> fault_free w')).
    { intros text.
      destruct (sd_bus_error_setf_spec SD_BUS_ERROR_INVALID_ARGS text w1)
        as [w2 [Hs [Hu2 [Hf2 _]]]].
      exists (- bus_error_errno SD_BUS_ERROR_INVALID_ARGS), w2.
      split; [exact Hs|]. split; [eapply untouched_trans; eassumption|].
      split; [simpl; unfold EINVAL; lia|].
      intros Hfree. unfold fault_free. rewrite Hf2. apply Hff, Hfree. }
    destruct (dns_name_is_valid nm =? 0); [apply Hsetf|].
    destruct (negb ro && negb (dns_name_is_root nm =? 0)); [apply Hsetf|].
    destruct (IH w1) as [r' [w' [Hv' [Hu' [Hr' Hfree']]]]].
    exists r', w'. split; [exact Hv'|]. split; [eapply untouched_trans; eassumption|].
    split; [exact Hr'|]. intros Hfree. apply Hfree', Hff, Hfree.
Qed.


Lemma set_domains_begin_spec message w :
  exists x w0,
    set_domains_begin message w = (x, w0)
    /\ match x with
       | inl r => untouched w w0 /\ (0 < polkit message -> r < 0)
       | inr entries =>
           eligible (link w)
           /\ 0 < polkit message
           /\ msg_body message = Body_a_sb entries
           /\ link w0 = with_search_domains
                          (MarkSweep.mark_all d_set_marked (search_domains (link w)))
                          (link w)
           /\ next_ptr w0 = next_ptr w
           /\ journal w0 = journal w
           /\ (fault_free w -> fault_free w0)
       end.
Proof.
  unfold set_domains_begin.
  destruct (eligible_dec (link w)) as [Hel|Hbusy].
  - run_bind (verify_unmanaged_link_eligible w Hel). change (0 <? 0) with false.
    cbv iota.
    destruct (enter_container_a_sb_spec message w)
      as [r [entries [w1 [Hent [Hu1 [_ [Hbody Hfree1]]]]]]].
    run_bind Hent. destruct (Z.ltb_spec r 0) as [Hneg|Hpos].
    { exists (inl r), w1. split; [reflexivity|]. split; [exact Hu1|]. intros; lia. }
    destruct (set_domains_validate_frame entries w1)
      as [r2 [w2 [Hval [Hu2 [Hr2 Hfree2]]]]].
    run_bind Hval. pose proof (untouched_trans _ _ _ Hu1 Hu2) as Hu12.
    destruct (Z.ltb_spec r2 0) as [Hneg2|Hpos2].
    { exists (inl r2), w2. split; [reflexivity|]. split; [exact Hu12|]. intros; lia. }
    destruct (fault_spec w2) as [r3 [w3 [Hf3 [Hle3 [Hu3 [_ [Hff3 _]]]]]]].
    run_bind Hf3. pose proof (untouched_trans _ _ _ Hu12 Hu3) as Hu13.
    destruct (Z.ltb_spec r3 0) as [Hneg3|Hpos3].
    { exists (inl r3), w3. split; [reflexivity|]. split; [exact Hu13|]. intros; lia. }
    destruct (polkit_spec message "org.freedesktop.resolve1.set-domains" w3)
      as [w4 [Hpk [Hu4 Hf4]]].
    run_bind Hpk. pose proof (untouched_trans _ _ _ Hu13 Hu4) as Hu.
    destruct (Z.ltb_spec (polkit message) 0) as [Hden|Hge].
    { exists (inl (polkit message)), w4. split; [reflexivity|].
      split; [exact Hu|]. intros; lia. }
    destruct (Z.eqb_spec (polkit message) 0) as [Hz|Hnz].
    { exists (inl 1), w4. split; [reflexivity|]. split; [exact Hu|]. intros; lia. }
    eexists (inr entries), _. split; [reflexivity|].
    destruct Hu as [Hl [Hn Hj]].
    cbn [link next_ptr journal with_link]. rewrite Hl.
    split; [exact Hel|]. split; [lia|]. split; [apply Hbody; lia|].
    split; [reflexivity|]. split; [exact Hn|]. split; [exact Hj|].
    intros Hfree. destruct (Hfree1 Hfree) as [Hfree' _].
    destruct (Hff3 (Hfree2 Hfree')) as [_ Hfree3].
    unfold fault_free in *. cbn [faults with_link]. rewrite Hf4. exact Hfree3.
  - destruct (verify_unmanaged_link_busy w Hbusy) as [text Hv].
    run_bind Hv. change (- EBUSY <? 0) with true. cbv iota.
    eexists (inl (- EBUSY)), _. split; [reflexivity|].
    split; [repeat split|]. unfold EBUSY; lia.
Qed.

Lemma set_domains_reconcile_phase_spec entries w :
  domain_wf (next_ptr w) (search_domains (link w)) ->
  exists r w',
    set_domains_reconcile_phase entries w = (r, w')
    /\ domains_only w w'
    /\ ((r = 0
         /\ link w' = with_search_domains
                        (fst (domain_run entries (search_domains (link w), next_ptr w)))
                        (link w)
         /\ next_ptr w' = snd (domain_run entries (search_domains (link w), next_ptr w))
         /\ (fault_free w -> fault_free w'))
        \/ (r < 0 /\ ~ fault_free w)).
Proof.
  intros Hwf. unfold set_domains_reconcile_phase.
  destruct (set_domains_reconcile_spec entries w Hwf)
    as [r [w1 [Hrun [Hd Hcases]]]].
  run_bind Hrun.
  destruct Hcases as [[-> [Hl [Hn Hfree]]]|[Hneg Hnf]].
  - change (0 <? 0) with false. cbv iota.
    destruct (fault_spec w1) as [r [w2 [Hf [Hle [Hu [He [Hff _]]]]]]].
    exists r, w2. split; [exact Hf|].
    split; [eapply domains_only_trans; [exact Hd|];
            apply untouched_domains_only; assumption|].
    destruct Hu as [Hl2 [Hn2 _]].
    destruct (Z.ltb_spec r 0) as [Hneg|Hpos].
    + right. split; [exact Hneg|]. intros Hfree'.
      destruct (Hff (Hfree Hfree')). lia.
    + left. split; [lia|]. split; [congruence|]. split; [congruence|].
      intros Hfree'. apply Hff, Hfree, Hfree'.
  - pose proof Hneg as Hneg'. apply Z.ltb_lt in Hneg'. rewrite Hneg'.
    exists r, w1. split; [reflexivity|]. split; [exact Hd|]. right. auto.
Qed.

Lemma set_domains_reconcile_phase_frame entries w :
  exists r w',
    set_domains_reconcile_phase entries w = (r, w') /\ domains_only w w' /\ r <= 0.
Proof.
  unfold set_domains_reconcile_phase.
  destruct (set_domains_reconcile_frame entries w) as [r [w1 [Hrun [Hd Hr]]]].
  run_bind Hrun. destruct (Z.ltb_spec r 0) as [Hneg|Hpos].
  - exists r, w1. split; [reflexivity|]. split; [exact Hd|lia].
  - destruct (fault_spec w1) as [r' [w2 [Hf [Hle [Hu [He _]]]]]].
    exists r', w2. split; [exact Hf|]. split; [|exact Hle].
    eapply domains_only_trans; [exact Hd|]. apply untouched_domains_only; assumption.
Qed.

Lemma set_domains_clear_spec r w :
  set_domains_clear r w = (r, with_link (with_search_domains []) w).
Proof. reflexivity. Qed.

Lemma set_domains_commit_spec message w :
  exists r w',
    set_domains_commit message w = (r, w')
    /\ link w' = with_search_domains
                   (MarkSweep.unlink_marked d_marked (search_domains (link w))) (link w)
    /\ next_ptr w' = next_ptr w
    /\ ((r = 1
         /\ journal w'
            = journal w ++ [link_save_user; manager_write_resolv_conf;
                            sd_bus_reply_method_return])
        \/ (r < 0
            /\ journal w' = journal w ++ [link_save_user; manager_write_resolv_conf]
            /\ ~ fault_free w)).
Proof.
  unfold set_domains_commit.
  unfold bind at 1. unfold get_link. cbv beta iota zeta.
  unfold bind at 1. unfold dns_search_domain_unlink_marked, modify_link.
  cbv beta iota zeta.
  unfold bind at 1. unfold call at 1. cbv beta iota zeta.
  unfold bind at 1. unfold call at 1. cbv beta iota zeta.
  cbn [link next_ptr faults journal error with_link].
  match goal with
  | |- context [bus_reply_method_return message ?w0] =>
      destruct (bus_reply_method_return_spec message w0)
        as [r [w' [Hr [Hl [Hn Hcases]]]]]
  end.
  exists r, w'. split; [exact Hr|]. cbn [link next_ptr journal] in *.
  split; [exact Hl|]. split; [exact Hn|].
  destruct Hcases as [[-> Hj]|[Hneg [Hj Hnf]]].
  - left. split; [reflexivity|]. rewrite Hj. rewrite <- !app_assoc. reflexivity.
  - right. split; [exact Hneg|]. split.
    + rewrite Hj. rewrite <- !app_assoc. reflexivity.
    + exact Hnf.
Qed.

(** What a granted [SetDomains] call that returns a non-negative value has
    done. *)
Lemma set_domains_committed message w r w' :
  domain_wf (next_ptr w) (search_domains (link w)) ->
  bus_link_method_set_domains message w = (r, w') ->
  0 < polkit message -> 0 <= r ->
  exists entries,
    msg_body message = Body_a_sb entries
    /\ eligible (link w)
    /\ r = 1
    /\ link w' = with_search_domains
                   (fst (domain_replace_set entries
                           (search_domains (link w), next_ptr w)))
                   (link w)
    /\ next_ptr w' = snd (domain_replace_set entries
                            (search_domains (link w), next_ptr w))
    /\ journal w'
       = journal w ++ [link_save_user; manager_write_resolv_conf;
                       sd_bus_reply_method_return].
Proof.
  intros Hwf Hrun Hpk Hr. rewrite set_domains_phases in Hrun.
  destruct (set_domains_begin_spec message w) as [x [w0 [Hb Hx]]].
  rewrite Hb in Hrun. destruct x as [r0|entries].
  - destruct Hx as [_ Hneg]. inversion Hrun. subst. specialize (Hneg Hpk). lia.
  - destruct Hx as [Hel [_ [Hbody [Hl0 [Hn0 [Hj0 _]]]]]].
    assert (Hwf0 : domain_wf (next_ptr w0) (search_domains (link w0))).
    { rewrite Hl0, Hn0. cbn [search_domains with_search_domains].
      apply MarkSweepFacts.wf_mark_all; [intros; reflexivity..|exact Hwf]. }
    destruct (set_domains_reconcile_phase_spec entries w0 Hwf0)
      as [r1 [w1 [Hloop [[_ [Hj1 _]] Hcases]]]].
    rewrite Hloop in Hrun.
    destruct Hcases as [[-> [Hl1 [Hn1 _]]]|[Hneg _]].
    + change (0 <? 0) with false in Hrun. cbv iota in Hrun.
      destruct (set_domains_commit_spec message w1)
        as [r2 [w2 [Hc [Hl2 [Hn2 Hj2]]]]].
      rewrite Hc in Hrun. inversion Hrun. subst r2 w2. clear Hrun.
      exists entries. split; [exact Hbody|]. split; [exact Hel|].
      rewrite Hl0, Hn0 in Hl1, Hn1.
      cbn [search_domains with_search_domains] in Hl1, Hn1.
      assert (Hfinal :
        domain_replace_set entries (search_domains (link w), next_ptr w)
        = (MarkSweep.unlink_marked d_marked (search_domains (link w1)), next_ptr w1)).
      { unfold domain_replace_set, MarkSweepFacts.replace_set. cbn [fst snd].
        fold domain_run. rewrite Hl1, Hn1. cbn [search_domains with_search_domains].
        destruct (domain_run entries _); reflexivity. }
      rewrite Hfinal. cbn [fst snd].
      destruct Hj2 as [[-> Hj2]|[Hneg _]]; [|lia].
      split; [reflexivity|]. split; [rewrite Hl2, Hl1; reflexivity|].
      split; [exact Hn2|]. rewrite Hj2, Hj1, Hj0. reflexivity.
    + pose proof Hneg as Hneg'. apply Z.ltb_lt in Hneg'. rewrite Hneg' in Hrun.
      rewrite set_domains_clear_spec in Hrun. inversion Hrun. subst. lia.
Qed.


(** ** Failure inside the reconcile phase *)

(** A world in which only the DNS server list and the reference into it
    (and the allocator, the pending failures) may differ. *)
Definition servers_only (w w' : World) : Prop :=
  (exists X c, link w' = with_current_dns_server c (with_dns_servers X (link w)))
  /\ journal w' = journal w /\ error w' = error w.

Lemma servers_only_refl w : servers_only w w.
Proof.
  split; [|auto]. exists (dns_servers (link w)), (current_dns_server (link w)).
  destruct (link w); reflexivity.
Qed.

Lemma servers_only_trans w1 w2 w3 :
  servers_only w1 w2 -> servers_only w2 w3 -> servers_only w1 w3.
Proof.
  intros [[X [c HX]] [Hj He]] [[Y [d HY]] [Hj' He']]. split; [|split; congruence].
  exists Y, d. rewrite HY, HX. reflexivity.
Qed.

Lemma servers_only_domains w w' :
  servers_only w w' -> search_domains (link w') = search_domains (link w).
Proof. intros [[X [c HX]] _]. rewrite HX. reflexivity. Qed.

Lemma domains_only_servers w w' :
  domains_only w w' ->
  dns_servers (link w') = dns_servers (link w)
  /\ current_dns_server (link w') = current_dns_server (link w).
Proof. intros [[X HX] _]. rewrite HX. split; reflexivity. Qed.

(** Without any assumption on the list: the loop touches the DNS servers
    only, and when it ends with a negative value the list is empty. *)
Lemma set_dns_servers_loop_frame dns w :
  exists r w',
    set_dns_servers_loop dns w = (r, w')
    /\ servers_only w w' /\ r <= 0
    /\ (r < 0 -> dns_servers (link w') = []).
Proof.
  revert w. induction dns as [|a rest IH]; intros w.
  - exists 0, w. split; [reflexivity|]. split; [apply servers_only_refl|].
    split; [lia|]. intros; lia.
  - destruct (find (server_keyb (server_key a)) (dns_servers (link w))) as [e|] eqn:Hfind.
    + rewrite (set_dns_servers_loop_found a rest w e Hfind).
      match goal with
      | |- context [set_dns_servers_loop rest ?w0] =>
          destruct (IH w0) as [r [w' [Hrun [Hs Hr]]]];
          assert (Hs0 : servers_only w w0)
      end.
      { split; [|auto]. eexists _, (current_dns_server (link w)).
        cbn [link with_link]. reflexivity. }
      exists r, w'. split; [exact Hrun|].
      split; [eapply servers_only_trans; eassumption | exact Hr].
    + destruct (fault_spec w) as [r [w1 [Hf [Hle [[Hl [Hn Hj]] [He _]]]]]].
      destruct (Z.ltb_spec r 0) as [Hneg|Hpos].
      * rewrite (set_dns_servers_loop_new_failed a rest w r w1 Hfind Hf Hneg).
        eexists r, _. split; [reflexivity|].
        split; [|split; [lia|]].
        -- unfold servers_only. cbn [link with_link journal error].
           split; [|auto]. rewrite Hl.
           exists [], (current_dns_server
                         (drop_stale_current (with_dns_servers [] (link w)))).
           unfold drop_stale_current. cbn.
           destruct (current_dns_server (link w)); reflexivity.
        -- intros _. cbn [link with_link]. apply dns_servers_drop_stale.
      * assert (r = 0) by lia. subst r.
        rewrite (set_dns_servers_loop_new a rest w w1 Hfind Hf).
        match goal with
        | |- context [set_dns_servers_loop rest ?w0] =>
            destruct (IH w0) as [r [w' [Hrun [Hs Hr]]]];
            assert (Hs0 : servers_only w w0)
        end.
        { unfold servers_only. cbn [link journal error]. split; [|auto]. rewrite Hl.
          eexists _, (current_dns_server (link w)).
          reflexivity. }
        exists r, w'. split; [exact Hrun|].
        split; [eapply servers_only_trans; eassumption | exact Hr].
Qed.

(** ** Where the reconcile phase fails

    The calls of the reconcile phase that can fail, counted on the request
    and on what the list holds when the phase starts. *)

Definition next_fault (fs : list Z) (w : World) : World :=
  mkWorld (link w) (next_ptr w) fs (journal w) (error w).

Lemma fault_passes w r fs :
  faults w = r :: fs -> 0 <= r -> fault w = (0, next_fault fs w).
Proof.
  intros Hf Hr. unfold fault. rewrite Hf.
  destruct (Z.ltb_spec r 0); [lia|reflexivity].
Qed.

Lemma fault_fails w r fs :
  faults w = r :: fs -> r < 0 -> fault w = (r, next_fault fs w).
Proof.
  intros Hf Hr. unfold fault. rewrite Hf.
  destruct (Z.ltb_spec r 0); [reflexivity|lia].
Qed.

(** The allocations of [dns_server_new] a request leads to: one for each
    requested server the list has no entry for, a server asked for twice
    counted once.  [keys] is what the entries of the list are found by. *)
Fixpoint servers_to_allocate (dns : list in_addr_full)
         (keys : list (Z * list Byte.byte * option string)) : nat :=
  match dns with
  | [] => 0
  | a :: rest =>
      if in_dec server_key_eq_dec (server_key a) keys
      then servers_to_allocate rest keys
      else S (servers_to_allocate rest (server_key a :: keys))
  end.

(** The fallible calls of the second pass over a [SetDomains] request: for
    every entry the read of line 378 and [dns_search_domain_find], and
    [dns_search_domain_new] where the list has no domain of that name; then
    the read that finds the end of the array, and
    [sd_bus_message_exit_container]. *)
Fixpoint reconcile_calls (entries : list (string * bool)) (names : list string) : nat :=
  match entries with
  | [] => 2
  | (nm, _) :: rest =>
      if in_dec string_dec nm names
      then 2 + reconcile_calls rest names
      else 3 + reconcile_calls rest (nm :: names)
  end.

(** An entry the validating loop lets through. *)
Definition valid_entry (e : string * bool) : Prop :=
  0 < dns_name_is_valid (fst e) /\ (snd e = true \/ dns_name_is_root (fst e) = 0).

Definition server_keys (first : list DnsServer)
  : list (Z * list Byte.byte * option string) :=
  map (fun s => server_key (s_addr s)) first.

Lemma server_find_keys k first :
  (exists e, find (server_keyb k) first = Some e) <-> In k (server_keys first).
Proof.
  split.
  - intros [e He]. apply MarkSweepFacts.find_key_some in He. destruct He as [Hin Hk].
    rewrite <- Hk. apply (in_map (fun s => server_key (s_addr s))). exact Hin.
  - intros Hin.
    apply (MarkSweepFacts.find_key_in DnsServer in_addr_full _ server_key_eq_dec
             server_key s_addr).
    exact Hin.
Qed.

Lemma server_keys_unmark p first :
  server_keys (MarkSweep.move_back_and_unmark s_ptr s_set_marked p first)
  = server_keys first.
Proof.
  unfold server_keys, MarkSweep.move_back_and_unmark, MarkSweep.assign.
  rewrite map_map. apply map_ext. intros e.
  destruct (Nat.eqb (s_ptr e) p); reflexivity.
Qed.

Lemma server_keys_mark_all first :
  server_keys (MarkSweep.mark_all s_set_marked first) = server_keys first.
Proof.
  unfold server_keys, MarkSweep.mark_all. rewrite map_map. reflexivity.
Qed.

Lemma set_dns_servers_loop_fails dns :
  forall w keys oks r rest,
    (forall k, In k keys <-> In k (server_keys (dns_servers (link w)))) ->
    faults w = oks ++ r :: rest ->
    Forall (fun x => 0 <= x) oks -> r < 0 ->
    (List.length oks < servers_to_allocate dns keys)%nat ->
    fst (set_dns_servers_loop dns w) = r.
Proof.
  induction dns as [|a dns IH]; intros w keys oks r rest Hkeys Hf Hoks Hneg Hlen.
  - simpl in Hlen. lia.
  - cbn [servers_to_allocate] in Hlen.
    destruct (find (server_keyb (server_key a)) (dns_servers (link w))) as [e|] eqn:Hfind.
    + rewrite (set_dns_servers_loop_found a dns w e Hfind).
      destruct (in_dec server_key_eq_dec (server_key a) keys) as [_|Hnot].
      * apply (IH _ keys oks r rest); [|exact Hf|exact Hoks|exact Hneg|exact Hlen].
        intros k. cbn [link with_link dns_servers with_dns_servers].
        rewrite server_keys_unmark. apply Hkeys.
      * exfalso. apply Hnot, Hkeys, server_find_keys. exists e. exact Hfind.
    + destruct (in_dec server_key_eq_dec (server_key a) keys) as [Hin|_].
      * apply Hkeys, server_find_keys in Hin. destruct Hin as [e He]. congruence.
      * destruct oks as [|o oks].
        -- rewrite (set_dns_servers_loop_new_failed a dns w r _ Hfind
                      (fault_fails w r rest Hf Hneg) Hneg).
           reflexivity.
        -- inversion Hoks as [|? ? Ho Hoks']. subst.
           rewrite (set_dns_servers_loop_new a dns w _ Hfind
                      (fault_passes w o _ Hf Ho)).
           apply (IH _ (server_key a :: keys) oks r rest);
             [|reflexivity|exact Hoks'|exact Hneg|simpl in Hlen; lia].
           intros k. cbn [link dns_servers with_dns_servers next_fault].
           unfold server_keys. rewrite map_app, in_app_iff. cbn [map In].
           change (server_key (s_addr (server_mk (next_ptr (next_fault (oks ++ r :: rest) w))
                                         (link_key a))))
             with (server_key a).
           fold (server_keys (dns_servers (link w))).
           rewrite <- (Hkeys k). tauto.
Qed.

Lemma set_dns_servers_begin_passes message extended w dns ok fs :
  eligible (link w) -> 0 < polkit message ->
  request_dns message extended = Some dns ->
  faults w = ok :: fs -> 0 <= ok ->
  exists w0,
    set_dns_servers_begin message extended w = (inr dns, w0)
    /\ faults w0 = fs
    /\ dns_servers (link w0)
       = MarkSweep.mark_all s_set_marked (dns_servers (link w))
    /\ journal w0 = journal w.
Proof.
  intros Hel Hpk Hreq Hf Hok. unfold set_dns_servers_begin.
  run_bind (verify_unmanaged_link_eligible w Hel). change (0 <? 0) with false.
  cbv iota. unfold bus_message_read_dns_servers.
  rewrite (bind_assoc_run _ _ _ _ _ _ (fault_passes w ok fs Hf Hok)).
  change (0 <? 0) with false. cbv iota.
  unfold request_dns in Hreq.
  assert (Hpk0 : (polkit message <? 0) = false) by (apply Z.ltb_ge; lia).
  assert (Hpk1 : (polkit message =? 0) = false) by (apply Z.eqb_neq; lia).
  assert (Hpk2 : (polkit message =? - EACCES) = false)
    by (apply Z.eqb_neq; unfold EACCES; lia).
  destruct (msg_body message), extended; try discriminate;
    rewrite Hreq; unfold bind, ret, bus_verify_polkit_async, get_link,
      dns_server_mark_all, modify_link;
    cbv beta iota zeta; change (1 <? 0) with false; cbv iota;
    rewrite Hpk2, Hpk0, Hpk1; eexists; split; try reflexivity; auto.
Qed.

(** The server list.  On a link that takes the call, with a
    request that decodes and the gate's consent, let the call that reads the
    request succeed; if then one of the allocations the request leads to
    fails with [r] (the ones before it having succeeded), the handler
    returns [r], [l->dns_servers] is empty, entries the list had before
    included, and no side effect was run. *)
Lemma set_dns_allocation_failure
      (message : sd_bus_message) (extended : bool) (w : World)
      (dns : list in_addr_full) (ok : Z) (oks : list Z) (r : Z) (rest : list Z) :
  eligible (link w) -> 0 < polkit message ->
  request_dns message extended = Some dns ->
  faults w = ok :: oks ++ r :: rest ->
  0 <= ok -> Forall (fun x => 0 <= x) oks -> r < 0 ->
  (List.length oks < servers_to_allocate dns (server_keys (dns_servers (link w))))%nat ->
  exists w',
    bus_link_method_set_dns_servers_internal message extended w = (r, w')
    /\ dns_servers (link w') = []
    /\ journal w' = journal w.
Proof.
  intros Hel Hpk Hreq Hf Hok Hoks Hneg Hlen.
  destruct (set_dns_servers_begin_passes message extended w dns ok _ Hel Hpk Hreq Hf Hok)
    as [w0 [Hb [Hf0 [Hl0 Hj0]]]].
  rewrite set_dns_servers_phases, Hb.
  pose proof (set_dns_servers_loop_fails dns w0 (server_keys (dns_servers (link w)))
                oks r rest) as Hfail.
  destruct (set_dns_servers_loop_frame dns w0) as [r' [w' [Hrun [Hs [_ Hnil]]]]].
  rewrite Hrun in Hfail |- *. cbn [fst] in Hfail.
  rewrite Hfail; [|rewrite Hl0, server_keys_mark_all; tauto|assumption..].
  pose proof Hneg as Hneg'. apply Z.ltb_lt in Hneg'. rewrite Hneg'.
  exists w'. split; [reflexivity|].
  assert (r' = r).
  { apply Hfail; [rewrite Hl0, server_keys_mark_all; tauto|assumption..]. }
  subst r'. split; [apply Hnil, Hneg|].
  destruct Hs as [_ [Hj1 _]]. congruence.
Qed.

Definition domain_names (first : list DnsSearchDomain) : list string := map name first.

Lemma domain_find_names nm first :
  (exists e, find (domain_keyb nm) first = Some e) <-> In nm (domain_names first).
Proof.
  split.
  - intros [e He]. apply MarkSweepFacts.find_key_some in He. destruct He as [Hin Hk].
    rewrite <- Hk. apply (in_map name). exact Hin.
  - intros Hin.
    apply (MarkSweepFacts.find_key_in DnsSearchDomain (string * bool) string
             string_dec (fun v => fst v) domain_view).
    unfold domain_names in Hin. rewrite in_map_iff in *.
    destruct Hin as [e [He Hin]]. exists e. split; [exact He|exact Hin].
Qed.

Lemma domain_names_assign p f first :
  (forall e, name (f e) = name e) ->
  domain_names (MarkSweep.assign d_ptr p f first) = domain_names first.
Proof.
  intros Hf. unfold domain_names, MarkSweep.assign. rewrite map_map.
  apply map_ext. intros e. destruct (Nat.eqb (d_ptr e) p); [apply Hf|reflexivity].
Qed.

Lemma domain_names_mark_all first :
  domain_names (MarkSweep.mark_all d_set_marked first) = domain_names first.
Proof.
  unfold domain_names, MarkSweep.mark_all. rewrite map_map. reflexivity.
Qed.

(** A failure among the calls of the second pass: the loop gives it back,
    or it has run to its end and the failure is the next call's. *)
Lemma fault_step w o fs :
  faults w = o :: fs -> 0 <= o ->
  exists w1, fault w = (0, w1) /\ faults w1 = fs /\ link w1 = link w.
Proof.
  intros Hf Ho. exists (next_fault fs w).
  split; [apply (fault_passes w o fs Hf Ho)|]. split; reflexivity.
Qed.

Lemma set_domains_reconcile_fails entries :
  forall w names oks r rest,
    (forall k, In k names <-> In k (domain_names (search_domains (link w)))) ->
    faults w = oks ++ r :: rest ->
    Forall (fun x => 0 <= x) oks -> r < 0 ->
    (List.length oks < reconcile_calls entries names)%nat ->
    exists r' w',
      set_domains_reconcile entries w = (r', w')
      /\ (r' = r \/ (r' = 0 /\ faults w' = r :: rest)).
Proof.
  induction entries as [|[nm ro] entries IH];
    intros w names oks r rest Hnames Hf Hoks Hneg Hlen;
    cbn [reconcile_calls] in Hlen;
    (destruct oks as [|o oks];
     [eexists _, _; split; [|left; reflexivity];
      apply set_domains_reconcile_read_failed;
      [apply (fault_fails w r rest Hf Hneg)|exact Hneg]|]);
    apply Forall_cons_iff in Hoks; destruct Hoks as [Ho Hoks];
    destruct (fault_step w o _ Hf Ho) as [w1 [Hf0 [Hw1 Hl1]]].
  - destruct oks as [|o' oks]; [|simpl in Hlen; lia].
    exists 0, w1. split; [apply set_domains_reconcile_end; exact Hf0|].
    right. split; [reflexivity|exact Hw1].
  - destruct oks as [|o1 oks].
    { eexists _, _. split; [|left; reflexivity].
      eapply set_domains_reconcile_find_failed; [exact Hf0| |exact Hneg].
      apply (fault_fails w1 r rest Hw1 Hneg). }
    apply Forall_cons_iff in Hoks. destruct Hoks as [Ho1 Hoks].
    destruct (fault_step w1 o1 _ Hw1 Ho1) as [w2 [Hf1 [Hw2 Hl2]]].
    destruct (find (domain_keyb nm) (search_domains (link w1))) as [e|] eqn:Hfind.
    + rewrite (set_domains_reconcile_found nm ro entries w w1 w2 e Hf0 Hf1 Hfind).
      rewrite Hl1 in Hfind.
      destruct (in_dec string_dec nm names) as [_|Hnot].
      * apply (IH _ names oks r rest);
          [|exact Hw2|exact Hoks|exact Hneg|simpl in Hlen; lia].
        intros k. cbn [link with_link search_domains with_search_domains].
        unfold MarkSweep.move_back_and_unmark.
        rewrite !domain_names_assign by reflexivity. rewrite Hl2, Hl1. apply Hnames.
      * exfalso. apply Hnot, Hnames, domain_find_names. exists e. exact Hfind.
    + destruct (in_dec string_dec nm names) as [Hin|_].
      { apply Hnames, domain_find_names in Hin. destruct Hin as [e He].
        rewrite Hl1 in Hfind. congruence. }
      destruct oks as [|o2 oks].
      { eexists _, _. split; [|left; reflexivity].
        eapply set_domains_reconcile_new_failed;
          [exact Hf0|exact Hf1|exact Hfind| |exact Hneg].
        apply (fault_fails w2 r rest Hw2 Hneg). }
      apply Forall_cons_iff in Hoks. destruct Hoks as [Ho2 Hoks].
      destruct (fault_step w2 o2 _ Hw2 Ho2) as [w3 [Hf2 [Hw3 Hl3]]].
      rewrite (set_domains_reconcile_new nm ro entries w w1 w2 w3 Hf0 Hf1 Hfind Hf2).
      apply (IH _ (nm :: names) oks r rest);
        [|exact Hw3|exact Hoks|exact Hneg|simpl in Hlen; lia].
      intros k. cbn [link search_domains with_search_domains].
      rewrite domain_names_assign by reflexivity.
      unfold domain_names. rewrite map_app, in_app_iff. cbn [map In name].
      rewrite Hl3, Hl2, Hl1.
      fold (domain_names (search_domains (link w))).
      rewrite <- (Hnames k). tauto.
Qed.

Lemma set_domains_validate_passes entries :
  forall w pre fs,
    Forall valid_entry entries ->
    faults w = pre ++ fs -> List.length pre = S (List.length entries) ->
    Forall (fun x => 0 <= x) pre ->
    set_domains_validate entries w = (0, next_fault fs w).
Proof.
  induction entries as [|[nm ro] entries IH]; intros w pre fs Hok Hf Hlen Hpre;
    (destruct pre as [|o pre]; [discriminate|]);
    apply Forall_cons_iff in Hpre; destruct Hpre as [Ho Hpre'];
    cbn [app] in Hf; cbn [set_domains_validate];
    run_bind (fault_passes w o _ Hf Ho); change (0 <? 0) with false; cbv iota.
  - destruct pre; [reflexivity|discriminate].
  - inversion Hok as [|? ? [Hv Hroot] Hok']. subst. cbn [fst snd] in Hv, Hroot.
    assert (Hv0 : (dns_name_is_valid nm <? 0) = false) by (apply Z.ltb_ge; lia).
    assert (Hv1 : (dns_name_is_valid nm =? 0) = false) by (apply Z.eqb_neq; lia).
    rewrite Hv0, Hv1.
    assert (Hr : negb ro && negb (dns_name_is_root nm =? 0) = false).
    { destruct Hroot as [Hro | Hroot]; [rewrite Hro; reflexivity|].
      rewrite Hroot, Z.eqb_refl. apply andb_false_r. }
    rewrite Hr.
    apply (IH (next_fault (pre ++ fs) w) pre fs Hok' eq_refl);
      [simpl in Hlen; lia | exact Hpre'].
Qed.

Lemma set_domains_begin_passes message w entries pre fs :
  eligible (link w) -> 0 < polkit message ->
  msg_body message = Body_a_sb entries ->
  Forall valid_entry entries ->
  faults w = pre ++ fs -> List.length pre = (List.length entries + 3)%nat ->
  Forall (fun x => 0 <= x) pre ->
  exists w0,
    set_domains_begin message w = (inr entries, w0)
    /\ faults w0 = fs
    /\ search_domains (link w0)
       = MarkSweep.mark_all d_set_marked (search_domains (link w))
    /\ journal w0 = journal w.
Proof.
  intros Hel Hpk Hbody Hok Hf Hlen Hpre. unfold set_domains_begin.
  run_bind (verify_unmanaged_link_eligible w Hel). change (0 <? 0) with false.
  cbv iota.
  destruct pre as [|o pre]; [simpl in Hlen; lia|].
  apply Forall_cons_iff in Hpre. destruct Hpre as [Ho Hpre1].
  assert (Hsplit : exists mid o', pre = mid ++ [o']
                                  /\ List.length mid = S (List.length entries)).
  { destruct (exists_last (l := pre)) as [mid [o' Hp]].
    - intros ->. simpl in Hlen. lia.
    - exists mid, o'. split; [exact Hp|]. subst pre. simpl in Hlen.
      rewrite List.length_app in Hlen. simpl in Hlen. lia. }
  destruct Hsplit as [mid [o' [-> Hmid]]].
  apply Forall_app in Hpre1. destruct Hpre1 as [Hmid_ok Ho'].
  apply Forall_cons_iff in Ho'. destruct Ho' as [Ho'' _].
  cbn [app] in Hf. rewrite <- app_assoc in Hf. cbn [app] in Hf.
  pose proof (fault_passes w o _ Hf Ho) as Hf0.
  set (w1 := next_fault (mid ++ o' :: fs) w) in Hf0.
  assert (Hv : set_domains_validate entries w1 = (0, next_fault (o' :: fs) w1))
    by (apply (set_domains_validate_passes entries w1 mid (o' :: fs) Hok eq_refl
                 Hmid Hmid_ok)).
  set (w2 := next_fault (o' :: fs) w1) in Hv.
  pose proof (fault_passes w2 o' fs eq_refl Ho'') as Hf2.
  unfold sd_bus_message_enter_container_a_sb.
  rewrite (bind_assoc_run _ _ _ _ _ _ Hf0).
  change (0 <? 0) with false. cbv iota. rewrite Hbody.
  unfold ret at 1. unfold bind at 1. cbv beta iota zeta.
  change (1 <? 0) with false. cbv iota.
  rewrite (bind_run _ _ _ _ _ Hv). change (0 <? 0) with false. cbv iota.
  rewrite (bind_run _ _ _ _ _ Hf2). change (0 <? 0) with false. cbv iota.
  assert (Hpk0 : (polkit message <? 0) = false) by (apply Z.ltb_ge; lia).
  assert (Hpk1 : (polkit message =? 0) = false) by (apply Z.eqb_neq; lia).
  assert (Hpk2 : (polkit message =? - EACCES) = false)
    by (apply Z.eqb_neq; unfold EACCES; lia).
  unfold bind, ret, bus_verify_polkit_async, get_link, dns_search_domain_mark_all,
    modify_link. cbv beta iota zeta. rewrite Hpk2, Hpk0, Hpk1.
  eexists. split; [reflexivity|]. auto.
Qed.

(** C6.  A failure in the reconcile phase unlinks the whole list and is what
    the call returns.  The link takes the call, the request decodes (and,
    for domains, validates), the gate consents, and the calls up to the
    reconcile phase succeed (the read of the request; for [SetDomains] the
    opening of the array, the reads of the first pass and the rewind).  If
    then a call of the reconcile phase fails with [r], the ones before it
    having succeeded (for [SetDNS]/[SetDNSEx] an allocation in
    [dns_server_new]; for [SetDomains] a read of the second pass, the
    finder, an allocation in [dns_search_domain_new] or
    [sd_bus_message_exit_container]), the handler returns [r], the list is
    empty, entries it had before the call included, and no side effect was
    run. *)
Theorem reconcile_failure_unlinks_all :
  (forall message extended w dns ok oks r rest,
      eligible (link w) -> 0 < polkit message ->
      request_dns message extended = Some dns ->
      faults w = ok :: oks ++ r :: rest ->
      0 <= ok -> Forall (fun x => 0 <= x) oks -> r < 0 ->
      (List.length oks < servers_to_allocate dns (server_keys (dns_servers (link w))))%nat ->
      exists w',
        bus_link_method_set_dns_servers_internal message extended w = (r, w')
        /\ dns_servers (link w') = []
        /\ journal w' = journal w)
  /\ (forall message w entries pre oks r rest,
        eligible (link w) -> 0 < polkit message ->
        msg_body message = Body_a_sb entries ->
        Forall valid_entry entries ->
        faults w = pre ++ oks ++ r :: rest ->
        List.length pre = (List.length entries + 3)%nat ->
        Forall (fun x => 0 <= x) pre -> Forall (fun x => 0 <= x) oks -> r < 0 ->
        (List.length oks
         < reconcile_calls entries (domain_names (search_domains (link w))))%nat ->
        exists w',
          bus_link_method_set_domains message w = (r, w')
          /\ search_domains (link w') = []
          /\ journal w' = journal w).
Proof.
  split.
  - apply set_dns_allocation_failure.
  - intros message w entries pre oks r rest Hel Hpk Hbody Hok Hf Hlen Hpre Hoks Hneg Hlt.
    destruct (set_domains_begin_passes message w entries pre _ Hel Hpk Hbody Hok Hf
                Hlen Hpre) as [w0 [Hb [Hf0 [Hl0 Hj0]]]].
    rewrite set_domains_phases, Hb.
    destruct (set_domains_reconcile_phase_frame entries w0)
      as [r' [w' [Hrun [[_ [Hj1 _]] _]]]].
    assert (Hr : r' = r).
    { unfold set_domains_reconcile_phase in Hrun.
      destruct (set_domains_reconcile_fails entries w0
                  (domain_names (search_domains (link w))) oks r rest)
        as [r1 [w1 [Hloop Hcases]]];
        [rewrite Hl0, domain_names_mark_all; tauto|assumption..|].
      rewrite (bind_run _ _ _ _ _ Hloop) in Hrun.
      destruct Hcases as [->|[-> Hf1]].
      - pose proof Hneg as Hneg'. apply Z.ltb_lt in Hneg'. rewrite Hneg' in Hrun.
        inversion Hrun. reflexivity.
      - change (0 <? 0) with false in Hrun. cbv iota in Hrun.
        rewrite (fault_fails w1 r rest Hf1 Hneg) in Hrun. inversion Hrun. reflexivity. }
    subst r'. rewrite Hrun.
    pose proof Hneg as Hneg'. apply Z.ltb_lt in Hneg'. rewrite Hneg'.
    rewrite set_domains_clear_spec. eexists. split; [reflexivity|].
    split; [reflexivity|]. cbn [journal with_link]. congruence.
Qed.


(** ** Calls that go through

    With nothing injected, a granted request on an eligible link that
    decodes (and, for domains, validates) is carried out and answered. *)

Lemma set_dns_servers_succeeds message extended w dns :
  eligible (link w) -> fault_free w ->
  server_wf (next_ptr w) (dns_servers (link w)) ->
  request_dns message extended = Some dns ->
  0 < polkit message ->
  exists w', bus_link_method_set_dns_servers_internal message extended w = (1, w').
Proof.
  intros Hel Hfree Hwf Hreq Hpk. rewrite set_dns_servers_phases.
  destruct (set_dns_servers_begin_spec message extended w) as [x [w0 [Hb Hx]]].
  rewrite Hb. destruct x as [r0|dns0].
  - destruct Hx as [_ [_ Hnone]]. rewrite (Hnone Hel Hfree Hpk) in Hreq. discriminate.
  - destruct Hx as [_ [_ [_ [Hl0 [Hn0 [_ Hfree0]]]]]].
    destruct (set_dns_servers_loop_spec dns0 w0)
      as [r1 [w1 [Hloop [_ [_ Hcases]]]]].
    rewrite Hloop.
    destruct Hcases as [[-> [_ [_ [Hfree1 _]]]]|[_ [_ [_ [Hnf _]]]]];
      [|exfalso; apply Hnf, Hfree0, Hfree].
    change (0 <? 0) with false. cbv iota.
    destruct (set_dns_servers_commit_spec message w1) as [r2 [w2 [Hc [_ [_ Hj]]]]].
    rewrite Hc. destruct Hj as [[-> _]|[_ [_ Hnf]]].
    + exists w2. reflexivity.
    + exfalso. apply Hnf, Hfree1, Hfree0, Hfree.
Qed.

Lemma set_domains_validate_accepts entries w :
  fault_free w -> Forall valid_entry entries ->
  exists w', set_domains_validate entries w = (0, w')
             /\ untouched w w' /\ fault_free w'.
Proof.
  revert w. induction entries as [|[nm ro] rest IH]; intros w Hfree Hok;
    cbn [set_domains_validate];
    destruct (fault_spec w) as [r [w1 [Hf [_ [Hu [_ [Hff _]]]]]]];
    destruct (Hff Hfree) as [Hr Hfree1]; subst r; run_bind Hf;
    change (0 <? 0) with false; cbv iota.
  - exists w1. split; [reflexivity|]. split; assumption.
  - inversion Hok as [|? ? [Hv Hroot] Hok']. subst. simpl in Hv, Hroot.
    destruct (Z.ltb_spec (dns_name_is_valid nm) 0) as [Hneg|_]; [lia|].
    destruct (Z.eqb_spec (dns_name_is_valid nm) 0) as [Hz|_]; [lia|].
    assert (Hpass : negb ro && negb (dns_name_is_root nm =? 0) = false).
    { destruct Hroot as [Hro | Hrt]; [subst ro; reflexivity|]. rewrite Hrt. rewrite Z.eqb_refl.
      apply andb_false_r. }
    rewrite Hpass.
    destruct (IH w1 Hfree1 Hok') as [w' [Hv' [Hu' Hfree']]].
    exists w'. split; [exact Hv'|].
    split; [eapply untouched_trans; eassumption | exact Hfree'].
Qed.

Lemma set_domains_succeeds message w entries :
  eligible (link w) -> fault_free w ->
  domain_wf (next_ptr w) (search_domains (link w)) ->
  msg_body message = Body_a_sb entries ->
  Forall valid_entry entries ->
  0 < polkit message ->
  exists w', bus_link_method_set_domains message w = (1, w').
Proof.
  intros Hel Hfree Hwf Hbody Hok Hpk.
  assert (Hbegin : exists w0,
             set_domains_begin message w = (inr entries, w0)
             /\ link w0 = with_search_domains
                            (MarkSweep.mark_all d_set_marked (search_domains (link w)))
                            (link w)
             /\ next_ptr w0 = next_ptr w /\ fault_free w0).
  { unfold set_domains_begin.
    run_bind (verify_unmanaged_link_eligible w Hel). change (0 <? 0) with false.
    cbv iota.
    destruct (enter_container_a_sb_spec message w)
      as [r [es [w1 [Hent [Hu1 [_ [_ Hff]]]]]]].
    destruct (Hff Hfree) as [Hfree1 Hes]. destruct (Hes entries Hbody) as [-> ->].
    run_bind Hent. change (1 <? 0) with false. cbv iota.
    destruct (set_domains_validate_accepts entries w1 Hfree1 Hok)
      as [w2 [Hval [Hu2 Hfree2]]].
    run_bind Hval. change (0 <? 0) with false. cbv iota.
    destruct (fault_spec w2) as [r3 [w3 [Hf3 [_ [Hu3 [_ [Hff3 _]]]]]]].
    destruct (Hff3 Hfree2) as [-> Hfree3]. run_bind Hf3.
    change (0 <? 0) with false. cbv iota.
    destruct (polkit_spec message "org.freedesktop.resolve1.set-domains" w3)
      as [w4 [Hpk4 [Hu4 Hf4]]].
    run_bind Hpk4.
    destruct (Z.ltb_spec (polkit message) 0) as [Hneg|_]; [lia|].
    destruct (Z.eqb_spec (polkit message) 0) as [Hz|_]; [lia|].
    eexists. split; [reflexivity|].
    destruct (untouched_trans _ _ _ (untouched_trans _ _ _ Hu1 Hu2)
                (untouched_trans _ _ _ Hu3 Hu4)) as [Hl [Hn _]].
    cbn [link next_ptr with_link]. rewrite Hl.
    split; [reflexivity|]. split; [exact Hn|].
    unfold fault_free in *. cbn [faults with_link]. rewrite Hf4. exact Hfree3. }
  destruct Hbegin as [w0 [Hb [Hl0 [Hn0 Hfree0]]]].
  rewrite set_domains_phases, Hb.
  assert (Hwf0 : domain_wf (next_ptr w0) (search_domains (link w0))).
  { rewrite Hl0, Hn0. cbn [search_domains with_search_domains].
    apply MarkSweepFacts.wf_mark_all; [intros; reflexivity..|exact Hwf]. }
  destruct (set_domains_reconcile_phase_spec entries w0 Hwf0)
    as [r1 [w1 [Hphase [_ Hcases]]]].
  rewrite Hphase.
  destruct Hcases as [[-> [_ [_ Hfree1]]]|[_ Hnf]]; [|exfalso; exact (Hnf Hfree0)].
  change (0 <? 0) with false. cbv iota.
  destruct (set_domains_commit_spec message w1) as [r2 [w2 [Hc [_ [_ Hj]]]]].
  rewrite Hc. destruct Hj as [[-> _]|[_ [_ Hnf]]].
  - exists w2. reflexivity.
  - exfalso. apply Hnf, Hfree1, Hfree0.
Qed.

(** ** Marks do not outlive a call *)

(** A computation that leaves both lists as they are. *)
Definition kept (w w' : World) : Prop :=
  dns_servers (link w') = dns_servers (link w)
  /\ search_domains (link w') = search_domains (link w).

Definition keeps {A} (m : M A) : Prop := forall w, kept w (snd (m w)).

Lemma kept_refl w : kept w w.
Proof. split; reflexivity. Qed.

Lemma kept_trans w1 w2 w3 : kept w1 w2 -> kept w2 w3 -> kept w1 w3.
Proof. unfold kept. intuition congruence. Qed.

Lemma untouched_kept w w' : untouched w w' -> kept w w'.
Proof. intros [Hl _]. unfold kept. rewrite Hl. auto. Qed.

Lemma keeps_ret {A} (a : A) : keeps (ret a).
Proof. intros w. apply kept_refl. Qed.

Lemma keeps_bind {A B} (m : M A) (k : A -> M B) :
  keeps m -> (forall a, keeps (k a)) -> keeps (bind m k).
Proof.
  intros Hm Hk w. unfold bind. specialize (Hm w). destruct (m w) as [a w1].
  eapply kept_trans; [exact Hm | apply Hk].
Qed.

Lemma keeps_get_link : keeps get_link.
Proof. intros w. apply kept_refl. Qed.

Lemma keeps_fault : keeps fault.
Proof.
  intros w. destruct (fault_spec w) as [r [w1 [Hf [_ [Hu _]]]]]. rewrite Hf.
  apply untouched_kept, Hu.
Qed.

Lemma keeps_setf e text : keeps (sd_bus_error_setf e text).
Proof. intros w. split; reflexivity. Qed.

Lemma keeps_polkit message action : keeps (bus_verify_polkit_async message action).
Proof.
  intros w. destruct (polkit_spec message action w) as [w1 [Hp [Hu _]]].
  rewrite Hp. apply untouched_kept, Hu.
Qed.

Lemma keeps_call e : keeps (call e).
Proof. intros w. split; reflexivity. Qed.

Lemma keeps_modify_link f :
  (forall l, dns_servers (f l) = dns_servers l
             /\ search_domains (f l) = search_domains l) ->
  keeps (modify_link f).
Proof. intros Hf w. apply Hf. Qed.

Lemma keeps_verify : keeps verify_unmanaged_link.
Proof.
  intros w. destruct (eligible_dec (link w)) as [Hel|Hbusy].
  - rewrite (verify_unmanaged_link_eligible w Hel). apply kept_refl.
  - destruct (verify_unmanaged_link_busy w Hbusy) as [text ->]. split; reflexivity.
Qed.

Create HintDb keeps.

#[local] Hint Resolve keeps_ret keeps_get_link keeps_fault keeps_setf keeps_polkit
  keeps_call keeps_verify : keeps.

Ltac keeps_step :=
  first
    [ apply keeps_ret
    | solve [auto with keeps]
    | apply keeps_modify_link; intros; split; reflexivity
    | apply keeps_bind; [|intros]
    | match goal with
      | |- keeps (if ?b then _ else _) => destruct b
      | |- keeps (match ?x with (_, _) => _ end) => destruct x
      | |- keeps (match ?x with Body_b _ => _ | _ => _ end) => destruct x
      | |- keeps (match ?x with Body_s _ => _ | _ => _ end) => destruct x
      | |- keeps (match ?x with Body_as _ => _ | _ => _ end) => destruct x
      end ].

Lemma keeps_reply message : keeps (bus_reply_method_return message).
Proof. unfold bus_reply_method_return. repeat keeps_step. Qed.

Lemma keeps_read_b message : keeps (sd_bus_message_read_b message).
Proof. unfold sd_bus_message_read_b. repeat keeps_step. Qed.

Lemma keeps_read_s message : keeps (sd_bus_message_read_s message).
Proof. unfold sd_bus_message_read_s. repeat keeps_step. Qed.

Lemma keeps_read_strv message : keeps (sd_bus_message_read_strv message).
Proof. unfold sd_bus_message_read_strv. repeat keeps_step. Qed.

#[local] Hint Resolve keeps_reply keeps_read_b keeps_read_s keeps_read_strv : keeps.

Lemma keeps_set_default_route message : keeps (bus_link_method_set_default_route message).
Proof. unfold bus_link_method_set_default_route. repeat keeps_step. Qed.

Lemma keeps_set_llmnr message : keeps (bus_link_method_set_llmnr message).
Proof. unfold bus_link_method_set_llmnr. cbv zeta. repeat keeps_step. Qed.

Lemma keeps_set_mdns message : keeps (bus_link_method_set_mdns message).
Proof. unfold bus_link_method_set_mdns. cbv zeta. repeat keeps_step. Qed.

Lemma keeps_set_dns_over_tls message : keeps (bus_link_method_set_dns_over_tls message).
Proof.
  unfold bus_link_method_set_dns_over_tls, link_set_dns_over_tls_mode. cbv zeta.
  repeat keeps_step.
Qed.

Lemma keeps_set_dnssec message : keeps (bus_link_method_set_dnssec message).
Proof.
  unfold bus_link_method_set_dnssec, link_set_dnssec_mode. cbv zeta.
  repeat keeps_step.
Qed.

Lemma keeps_set_ntas_loop ntas ns : keeps (set_ntas_loop ntas ns).
Proof.
  revert ns. induction ntas as [|i rest IH]; intros ns; cbn [set_ntas_loop].
  - apply keeps_ret.
  - cbv zeta. repeat keeps_step.
Qed.

#[local] Hint Resolve keeps_set_ntas_loop : keeps.

Lemma keeps_set_ntas message :
  keeps (bus_link_method_set_dnssec_negative_trust_anchors message).
Proof.
  unfold bus_link_method_set_dnssec_negative_trust_anchors. repeat keeps_step.
Qed.

Lemma no_marks_kept w w' : kept w w' -> no_marks (link w) -> no_marks (link w').
Proof. intros [Hs Hd]. unfold no_marks. rewrite Hs, Hd. auto. Qed.

Lemma unlink_marked_unmarked {E} (marked : E -> bool) first :
  Forall (fun e => marked e = false) (MarkSweep.unlink_marked marked first).
Proof.
  unfold MarkSweep.unlink_marked. rewrite Forall_forall. intros e He.
  apply filter_In in He. destruct He as [_ He].
  destruct (marked e); [discriminate|reflexivity].
Qed.

Lemma no_marks_set_dns message extended w :
  no_marks (link w) ->
  no_marks (link (snd (bus_link_method_set_dns_servers_internal message extended w))).
Proof.
  intros [Hs Hd]. rewrite set_dns_servers_phases.
  destruct (set_dns_servers_begin_spec message extended w) as [x [w0 [Hb Hx]]].
  rewrite Hb. destruct x as [r0|dns].
  - destruct Hx as [[Hl _] _]. cbn [snd]. rewrite Hl. split; assumption.
  - destruct Hx as [_ [_ [_ [Hl0 _]]]].
    destruct (set_dns_servers_loop_frame dns w0) as [r [w1 [Hloop [Hso [_ Hnil]]]]].
    rewrite Hloop. pose proof (servers_only_domains _ _ Hso) as Hdom.
    rewrite Hl0 in Hdom. cbn [search_domains with_dns_servers] in Hdom.
    destruct (Z.ltb_spec r 0) as [Hneg|Hpos]; cbn [snd].
    + split; [rewrite (Hnil Hneg); constructor | rewrite Hdom; exact Hd].
    + destruct (set_dns_servers_commit_spec message w1) as [r2 [w2 [Hc [Hl2 _]]]].
      rewrite Hc. cbn [snd]. rewrite Hl2. split.
      * rewrite dns_servers_drop_stale. cbn [dns_servers with_dns_servers].
        apply unlink_marked_unmarked.
      * unfold drop_stale_current.
        destruct (current_dns_server _); [destruct (MarkSweep.deref _ _ _)|];
          cbn [search_domains with_dns_servers with_current_dns_server];
          rewrite Hdom; exact Hd.
Qed.

Lemma no_marks_set_domains message w :
  no_marks (link w) ->
  no_marks (link (snd (bus_link_method_set_domains message w))).
Proof.
  intros [Hs Hd]. rewrite set_domains_phases.
  destruct (set_domains_begin_spec message w) as [x [w0 [Hb Hx]]].
  rewrite Hb. destruct x as [r0|entries].
  - destruct Hx as [[Hl _] _]. cbn [snd]. rewrite Hl. split; assumption.
  - destruct Hx as [_ [_ [_ [Hl0 _]]]].
    destruct (set_domains_reconcile_phase_frame entries w0)
      as [r [w1 [Hphase [Hdo _]]]].
    rewrite Hphase. destruct (domains_only_servers _ _ Hdo) as [Hsrv _].
    rewrite Hl0 in Hsrv. cbn [dns_servers with_search_domains] in Hsrv.
    destruct (Z.ltb_spec r 0) as [Hneg|Hpos].
    + rewrite set_domains_clear_spec. cbn [snd link with_link].
      split; [cbn [dns_servers with_search_domains]; rewrite Hsrv; exact Hs
             |constructor].
    + destruct (set_domains_commit_spec message w1) as [r2 [w2 [Hc [Hl2 _]]]].
      rewrite Hc. cbn [snd]. rewrite Hl2. split.
      * cbn [dns_servers with_search_domains]. rewrite Hsrv. exact Hs.
      * cbn [search_domains with_search_domains]. apply unlink_marked_unmarked.
Qed.

Lemma no_marks_revert message w :
  no_marks (link w) -> no_marks (link (snd (bus_link_method_revert message w))).
Proof.
  intros Hnm. unfold bus_link_method_revert.
  destruct (eligible_dec (link w)) as [Hel|Hbusy].
  - run_bind (verify_unmanaged_link_eligible w Hel). change (0 <? 0) with false.
    cbv iota.
    destruct (polkit_spec message "org.freedesktop.resolve1.revert" w)
      as [w1 [Hpk [Hu _]]].
    run_bind Hpk. destruct (polkit message <? 0).
    + cbn [snd ret]. eapply no_marks_kept; [apply untouched_kept, Hu | exact Hnm].
    + destruct (polkit message =? 0).
      * cbn [snd ret]. eapply no_marks_kept; [apply untouched_kept, Hu | exact Hnm].
      * unfold bind at 1. unfold link_flush_settings, modify_link. cbv beta iota zeta.
        match goal with
        | |- no_marks (link (snd (?m ?w0))) =>
            assert (Hk : keeps m) by (repeat keeps_step);
            specialize (Hk w0)
        end.
        eapply no_marks_kept; [exact Hk|].
        split; constructor.
  - destruct (verify_unmanaged_link_busy w Hbusy) as [text Hv].
    run_bind Hv. exact Hnm.
Qed.

(** C7. Whatever the method, the request and the way the call ends
    (reply, error, or a pending authorization), if no entry of the two
    lists was marked when the handler was entered, none is marked when it
    returns. *)
Theorem no_entry_marked_between_calls
        (m : method) (message : sd_bus_message) (w : World) :
  no_marks (link w) -> no_marks (link (snd (link_vtable m message w))).
Proof.
  intros Hnm. destruct m; cbn [link_vtable].
  - apply no_marks_set_dns, Hnm.
  - apply no_marks_set_dns, Hnm.
  - apply no_marks_set_domains, Hnm.
  - eapply no_marks_kept; [apply keeps_set_default_route | exact Hnm].
  - eapply no_marks_kept; [apply keeps_set_llmnr | exact Hnm].
  - eapply no_marks_kept; [apply keeps_set_mdns | exact Hnm].
  - eapply no_marks_kept; [apply keeps_set_dns_over_tls | exact Hnm].
  - eapply no_marks_kept; [apply keeps_set_dnssec | exact Hnm].
  - eapply no_marks_kept; [apply keeps_set_ntas | exact Hnm].
  - apply no_marks_revert, Hnm.
Qed.


(** ** Scalar setters and values that do not change *)

Lemma sd_bus_message_read_s_spec message s w :
  fault_free w -> msg_body message = Body_s s ->
  exists w', sd_bus_message_read_s message w = ((1, s), w')
             /\ untouched w w' /\ fault_free w'.
Proof.
  intros Hfree Hbody. unfold sd_bus_message_read_s.
  destruct (fault_spec w) as [r [w1 [Hf [_ [Hu [_ [Hff _]]]]]]].
  destruct (Hff Hfree) as [-> Hfree1]. run_bind Hf.
  change (0 <? 0) with false. cbv iota. rewrite Hbody.
  exists w1. split; [reflexivity|]. split; assumption.
Qed.

Lemma sd_bus_message_read_b_spec message b w :
  fault_free w -> msg_body message = Body_b b ->
  exists w', sd_bus_message_read_b message w = ((1, Z_of_bool b), w')
             /\ untouched w w' /\ fault_free w'.
Proof.
  intros Hfree Hbody. unfold sd_bus_message_read_b.
  destruct (fault_spec w) as [r [w1 [Hf [_ [Hu [_ [Hff _]]]]]]].
  destruct (Hff Hfree) as [-> Hfree1]. run_bind Hf.
  change (0 <? 0) with false. cbv iota. rewrite Hbody.
  exists w1. split; [reflexivity|]. split; assumption.
Qed.

Lemma with_llmnr_support_same l : with_llmnr_support (llmnr_support l) l = l.
Proof. destruct l; reflexivity. Qed.

(** The mode [SetLLMNR] stores for a request string. *)
Definition llmnr_mode_of (s : string) : Z :=
  if isempty s then RESOLVE_SUPPORT_YES else resolve_support_from_string s.

(** C2, what the code does.  A granted [SetLLMNR] call whose value is the
    one the link already has leaves the link as it is and nevertheless
    reallocates the scopes, re-announces the resource records and saves the
    link state: lines 484-488 are not guarded by a comparison. *)
Theorem set_llmnr_same_value_recomputes
        (message : sd_bus_message) (s : string) (w : World) :
  eligible (link w) ->
  fault_free w ->
  msg_body message = Body_s s ->
  0 < polkit message ->
  0 <= llmnr_mode_of s ->
  llmnr_mode_of s = llmnr_support (link w) ->
  exists w',
    bus_link_method_set_llmnr message w = (1, w')
    /\ link w' = link w
    /\ journal w'
       = journal w ++ [link_allocate_scopes; link_add_rrs; link_save_user;
                       sd_bus_reply_method_return].
Proof.
  intros Hel Hfree Hbody Hpk Hvalid Hsame. unfold bus_link_method_set_llmnr.
  run_bind (verify_unmanaged_link_eligible w Hel). change (0 <? 0) with false.
  cbv iota.
  destruct (sd_bus_message_read_s_spec message s w Hfree Hbody)
    as [w1 [Hread [Hu1 Hfree1]]].
  run_bind Hread. change (1 <? 0) with false. cbv iota zeta.
  fold (llmnr_mode_of s).
  destruct (Z.ltb_spec (llmnr_mode_of s) 0) as [Hneg|_]; [lia|].
  rewrite andb_false_r.
  destruct (polkit_spec message "org.freedesktop.resolve1.set-llmnr" w1)
    as [w2 [Hpk2 [Hu2 Hf2]]].
  run_bind Hpk2.
  destruct (Z.ltb_spec (polkit message) 0) as [Hneg|_]; [lia|].
  destruct (Z.eqb_spec (polkit message) 0) as [Hz|_]; [lia|].
  unfold bind at 1. unfold modify_link. cbv beta iota zeta.
  unfold bind at 1. unfold call at 1. cbv beta iota zeta.
  unfold bind at 1. unfold call at 1. cbv beta iota zeta.
  unfold bind at 1. unfold call at 1. cbv beta iota zeta.
  cbn [link next_ptr faults journal error with_link].
  match goal with
  | |- context [bus_reply_method_return message ?w0] =>
      destruct (bus_reply_method_return_spec message w0)
        as [r [w' [Hr [Hl [Hn Hcases]]]]]
  end.
  cbn [link next_ptr journal] in *.
  destruct (untouched_trans _ _ _ Hu1 Hu2) as [Hl2 [_ Hj2]].
  destruct Hcases as [[-> Hj]|[_ [_ Hnf]]].
  - exists w'. split; [exact Hr|]. split.
    + rewrite Hl, Hl2, Hsame. apply with_llmnr_support_same.
    + rewrite Hj, Hj2, <- !app_assoc. reflexivity.
  - exfalso. apply Hnf. unfold fault_free in *. cbn [faults]. rewrite Hf2.
    exact Hfree1.
Qed.

(** The sibling that has the guard: a granted [SetDefaultRoute] call with
    the value the link already has only replies. *)
Lemma set_default_route_same_value_only_replies message b w :
  eligible (link w) ->
  fault_free w ->
  msg_body message = Body_b b ->
  0 < polkit message ->
  default_route (link w) = Z_of_bool b ->
  exists w',
    bus_link_method_set_default_route message w = (1, w')
    /\ link w' = link w
    /\ journal w' = journal w ++ [sd_bus_reply_method_return].
Proof.
  intros Hel Hfree Hbody Hpk Hsame. unfold bus_link_method_set_default_route.
  run_bind (verify_unmanaged_link_eligible w Hel). change (0 <? 0) with false.
  cbv iota.
  destruct (sd_bus_message_read_b_spec message b w Hfree Hbody)
    as [w1 [Hread [Hu1 Hfree1]]].
  run_bind Hread. change (1 <? 0) with false. cbv iota.
  destruct (polkit_spec message "org.freedesktop.resolve1.set-default-route" w1)
    as [w2 [Hpk2 [Hu2 Hf2]]].
  run_bind Hpk2.
  destruct (Z.ltb_spec (polkit message) 0) as [Hneg|_]; [lia|].
  destruct (Z.eqb_spec (polkit message) 0) as [Hz|_]; [lia|].
  run_bind (get_link_run w2).
  destruct (untouched_trans _ _ _ Hu1 Hu2) as [Hl2 [_ Hj2]].
  rewrite Hl2, Hsame, Z.eqb_refl. cbn [negb].
  unfold bind at 1. unfold ret at 1. cbv beta iota zeta.
  destruct (bus_reply_method_return_spec message w2)
    as [r [w' [Hr [Hl [Hn Hcases]]]]].
  destruct Hcases as [[-> Hj]|[_ [_ Hnf]]].
  - exists w'. split; [exact Hr|]. split; [congruence|]. rewrite Hj, Hj2. reflexivity.
  - exfalso. apply Hnf. unfold fault_free in *. rewrite Hf2. exact Hfree1.
Qed.

End Facts.

(** ** Concrete runs *)

(** A choice of the collaborators for the examples: names without blanks
    are valid, the root domain is "." or the empty name, and the mode
    tables know "no", "yes" and one more word each. *)
Definition sample_externals : Externals := {|
  dns_name_is_valid :=
    fun s => if existsb (Ascii.eqb " "%char) (list_ascii_of_string s) then 0 else 1;
  dns_name_is_root :=
    fun s => if String.eqb s "." || String.eqb s "" then 1 else 0;
  resolve_support_from_string :=
    fun s => if String.eqb s "no" then 0
             else if String.eqb s "yes" then 1
             else if String.eqb s "resolve" then 2 else - EINVAL;
  dns_over_tls_mode_from_string :=
    fun s => if String.eqb s "no" then 0
             else if String.eqb s "opportunistic" then 1
             else if String.eqb s "yes" then 2 else - EINVAL;
  dnssec_mode_from_string :=
    fun s => if String.eqb s "no" then 0
             else if String.eqb s "allow-downgrade" then 1
             else if String.eqb s "yes" then 2 else - EINVAL;
  RESOLVE_SUPPORT_NO := 0;
  RESOLVE_SUPPORT_YES := 1;
  DNS_OVER_TLS_MODE_INVALID := - EINVAL;
  DNSSEC_MODE_INVALID := - EINVAL
|}.

(** 192.0.2.1 and 192.0.2.2. *)
Definition addr1 : list Byte.byte := [Byte.xc0; Byte.x00; Byte.x02; Byte.x01].
Definition addr2 : list Byte.byte := [Byte.xc0; Byte.x00; Byte.x02; Byte.x02].

(** An Ethernet link with 192.0.2.1 port 53 as its only, and selected, DNS
    server and "example.org" as its only search domain. *)
Definition eth0 : Link :=
  mkLink "eth0" 4163 false
    [mkServer 0 (mkAddr AF_INET addr1 53 0 None) false] (Some 0%nat)
    [mkDomain 1 "example.org" false false]
    (-1) 1 0 (- EINVAL) (- EINVAL) [].

(** The loopback device (IFF_UP, IFF_LOOPBACK, IFF_RUNNING). *)
Definition lo : Link :=
  mkLink "lo" 73 false [] None [mkDomain 0 "example.org" false false]
    (-1) 1 0 (- EINVAL) (- EINVAL) [].

Definition world_of (l : Link) (fs : list Z) : World := mkWorld l 2 fs [] None.

Definition granted (b : body) : sd_bus_message := mkMessage b 1.
Definition denied (b : body) : sd_bus_message := mkMessage b (- EACCES).

Ltac distinct :=
  repeat (constructor; [simpl; intuition (try discriminate; try lia)|]);
  try constructor.

Lemma eth0_eligible : eligible eth0.
Proof. split; reflexivity. Defined.

Lemma eth0_server_wf : server_wf 2 (dns_servers eth0).
Proof.
  unfold server_wf, MarkSweepFacts.wf. simpl.
  split; [distinct|]. split; [repeat constructor|distinct].
Defined.

Lemma eth0_domain_wf : domain_wf 2 (search_domains eth0).
Proof.
  unfold domain_wf, MarkSweepFacts.wf. simpl.
  split; [distinct|]. split; [repeat constructor|distinct].
Defined.

(** The spec's example of a rejected batch. *)
Definition bad_batch : list (string * bool) := [("a.example", false); (".", false)].

Lemma bad_batch_invalid : Exists (@invalid_entry sample_externals) bad_batch.
Proof. apply Exists_cons_tl, Exists_cons_hd. right. split; [reflexivity|discriminate]. Defined.

Lemma busy_before_parsing_witness :
  Z.land (flags (link (world_of lo []))) IFF_LOOPBACK <> 0
  /\ exists text,
       link_vtable (ext := sample_externals) SetDomains
         (granted (Body_s "not a domain list")) (world_of lo [])
       = (- EBUSY,
          mkWorld lo 2 [] [] (Some (mkError BUS_ERROR_LINK_BUSY text))).
Proof.
  assert (H : Z.land (flags (link (world_of lo []))) IFF_LOOPBACK <> 0)
    by (vm_compute; discriminate).
  split; [exact H|].
  exact (busy_before_parsing (ext := sample_externals) SetDomains
           (granted (Body_s "not a domain list")) (world_of lo []) (or_introl H)).
Defined.

Lemma denied_set_dns_changes_nothing_witness :
  polkit (denied (Body_a_iay [(AF_INET, addr2)])) < 0
  /\ let (r, w') :=
       bus_link_method_set_dns_servers_internal
         (denied (Body_a_iay [(AF_INET, addr2)])) false (world_of eth0 []) in
     r < 0
     /\ link w' = eth0
     /\ map s_ptr (dns_servers (link w')) = [0%nat]
     /\ next_ptr w' = 2%nat
     /\ journal w' = []
     /\ (Forall (fun s => s_marked s = false) (dns_servers eth0) ->
         Forall (fun s => s_marked s = false) (dns_servers (link w'))).
Proof.
  assert (H : polkit (denied (Body_a_iay [(AF_INET, addr2)])) < 0)
    by (vm_compute; reflexivity).
  split; [exact H|].
  exact (denied_set_dns_changes_nothing
           (denied (Body_a_iay [(AF_INET, addr2)])) false (world_of eth0 []) H).
Defined.

Lemma set_domains_rejects_invalid_batch_witness :
  Exists (@invalid_entry sample_externals) bad_batch
  /\ exists text w',
       bus_link_method_set_domains (ext := sample_externals)
         (granted (Body_a_sb bad_batch)) (world_of eth0 []) = (- EINVAL, w')
       /\ error w' = Some (mkError SD_BUS_ERROR_INVALID_ARGS text)
       /\ link w' = eth0
       /\ search_domains (link w') = search_domains eth0
       /\ next_ptr w' = 2%nat
       /\ journal w' = [].
Proof.
  split; [exact bad_batch_invalid|].
  apply (set_domains_rejects_invalid_batch (ext := sample_externals)
           (granted (Body_a_sb bad_batch)) (world_of eth0 []) bad_batch).
  - exact eth0_eligible.
  - constructor.
  - reflexivity.
  - repeat constructor; vm_compute; discriminate.
  - exact bad_batch_invalid.
Defined.

(** C3, the claim as stated, fails: on the loopback device the spec's
    invalid batch is answered with [BUS_ERROR_LINK_BUSY] ([-EBUSY]), not
    with [SD_BUS_ERROR_INVALID_ARGS]; eligibility is checked first. *)
Lemma set_domains_invalid_batch_on_loopback_is_busy :
  let out := bus_link_method_set_domains (ext := sample_externals)
               (granted (Body_a_sb bad_batch)) (world_of lo []) in
  Exists (@invalid_entry sample_externals) bad_batch
  /\ fst out = - EBUSY
  /\ fst out <> - EINVAL
  /\ option_map error_name (error (snd out)) = Some BUS_ERROR_LINK_BUSY.
Proof.
  split; [exact bad_batch_invalid|].
  split; [reflexivity|]. split; [vm_compute; discriminate|reflexivity].
Qed.

(** [eth0] has 192.0.2.1 registered under port 53 (the object at address
    0).  [SetDNSEx] with 192.0.2.1 under port 5353 matches it: no object is
    made, and the list is left with the one object and its port 53.
    Likewise [SetDNS] with 192.0.2.1, whose entries carry port 0. *)
Example set_dns_other_port_is_matched :
  let w := world_of eth0 [] in
  let ex := bus_link_method_set_dns_servers_internal
              (granted (Body_a_iayqs [(AF_INET, addr1, 5353, "")])) true w in
  let plain := bus_link_method_set_dns_servers_internal
                 (granted (Body_a_iay [(AF_INET, addr1)])) false w in
  dns_servers eth0 = [mkServer 0 (mkAddr AF_INET addr1 53 0 None) false]
  /\ dns_server_find (dns_servers eth0) AF_INET addr1 5353 0 None = Some 0%nat
  /\ fst ex = 1
  /\ dns_servers (link (snd ex)) = dns_servers eth0
  /\ dns_server_find (dns_servers eth0) AF_INET addr1 0 0 None = Some 0%nat
  /\ fst plain = 1
  /\ dns_servers (link (snd plain)) = dns_servers eth0.
Proof. vm_compute. repeat split; reflexivity. Qed.


Lemma set_llmnr_same_value_recomputes_witness :
  llmnr_mode_of (ext := sample_externals) "" = llmnr_support eth0
  /\ exists w',
       bus_link_method_set_llmnr (ext := sample_externals)
         (granted (Body_s "")) (world_of eth0 []) = (1, w')
       /\ link w' = eth0
       /\ journal w'
          = [link_allocate_scopes; link_add_rrs; link_save_user;
             sd_bus_reply_method_return].
Proof.
  split; [reflexivity|].
  apply (set_llmnr_same_value_recomputes (ext := sample_externals)
           (granted (Body_s "")) "" (world_of eth0 [])).
  - exact eth0_eligible.
  - constructor.
  - reflexivity.
  - reflexivity.
  - vm_compute. discriminate.
  - reflexivity.
Defined.

(** The same on the spec's "yes": the link has LLMNR at yes already. *)
Example set_llmnr_yes_on_yes :
  let out := bus_link_method_set_llmnr (ext := sample_externals)
               (granted (Body_s "yes")) (world_of eth0 []) in
  fst out = 1
  /\ link (snd out) = eth0
  /\ journal (snd out)
     = [link_allocate_scopes; link_add_rrs; link_save_user;
        sd_bus_reply_method_return].
Proof. vm_compute. repeat split; reflexivity. Qed.

Example set_default_route_unset_then_same :
  let first := bus_link_method_set_default_route
                 (granted (Body_b true)) (world_of eth0 []) in
  let again := bus_link_method_set_default_route
                 (granted (Body_b true)) (snd first) in
  journal (snd first)
  = [link_save_user; manager_write_resolv_conf; sd_bus_reply_method_return]
  /\ journal (snd again)
     = journal (snd first) ++ [sd_bus_reply_method_return].
Proof. vm_compute. split; reflexivity. Qed.

Lemma reconcile_failure_unlinks_all_witness :
  let wdns := world_of eth0 [0; - ENOMEM] in
  let wdom := world_of eth0 [0; 0; 0; 0; 0; 0; - ENOMEM] in
  (exists w',
      bus_link_method_set_dns_servers_internal
        (granted (Body_a_iay [(AF_INET, addr2)])) false wdns = (- ENOMEM, w')
      /\ dns_servers (link w') = []
      /\ journal w' = journal wdns)
  /\ (exists w',
         bus_link_method_set_domains (ext := sample_externals)
           (granted (Body_a_sb [("b.example", true)])) wdom = (- ENOMEM, w')
         /\ search_domains (link w') = []
         /\ journal w' = journal wdom).
Proof.
  intros wdns wdom.
  destruct (reconcile_failure_unlinks_all (ext := sample_externals)) as [Hdns Hdom].
  split.
  - apply (Hdns (granted (Body_a_iay [(AF_INET, addr2)])) false wdns
             [mkAddr AF_INET addr2 0 0 None] 0 [] (- ENOMEM) []).
    + exact eth0_eligible.
    + reflexivity.
    + reflexivity.
    + reflexivity.
    + lia.
    + constructor.
    + reflexivity.
    + vm_compute. lia.
  - apply (Hdom (granted (Body_a_sb [("b.example", true)])) wdom
             [("b.example", true)] [0; 0; 0; 0] [0; 0] (- ENOMEM) []).
    + exact eth0_eligible.
    + reflexivity.
    + reflexivity.
    + repeat constructor.
    + reflexivity.
    + reflexivity.
    + repeat constructor; lia.
    + repeat constructor; lia.
    + reflexivity.
    + vm_compute. lia.
Defined.

Lemma no_entry_marked_between_calls_witness :
  no_marks eth0
  /\ no_marks
       (link (snd (link_vtable (ext := sample_externals) SetDNSEx
                     (granted (Body_a_iayqs [(AF_INET, addr2, 853, "dns.example")]))
                     (world_of eth0 [])))).
Proof.
  assert (H : no_marks eth0) by (split; repeat constructor).
  split; [exact H|].
  exact (no_entry_marked_between_calls (ext := sample_externals) SetDNSEx
           (granted (Body_a_iayqs [(AF_INET, addr2, 853, "dns.example")]))
           (world_of eth0 []) H).
Defined.

Lemma set_dns_twice_same_objects_witness :
  let message := granted (Body_a_iay [(AF_INET, addr2); (AF_INET, addr1)]) in
  let w := world_of eth0 [] in
  let first := bus_link_method_set_dns_servers_internal message false w in
  let again := bus_link_method_set_dns_servers_internal message false (snd first) in
  0 <= fst first
  /\ link (snd again) = link (snd first)
  /\ map s_ptr (dns_servers (link (snd again)))
     = map s_ptr (dns_servers (link (snd first)))
  /\ current_dns_server (link (snd again)) = current_dns_server (link (snd first))
  /\ next_ptr (snd again) = next_ptr (snd first).
Proof.
  intros message w first again.
  assert (Hr : 0 <= fst first) by (vm_compute; discriminate).
  split; [exact Hr|].
  exact (set_dns_twice_same_objects message message false w
           (fst first) (snd first) (fst again) (snd again)
           eth0_server_wf (surjective_pairing first) ltac:(reflexivity) Hr
           eq_refl (surjective_pairing again)).
Defined.

(** A read failure on the second pass over the request: the validating
    pass, the rewind and the gate went well, the first read of the
    reconcile loop fails with [-EIO]; the list is emptied. *)
Example set_domains_reparse_failure :
  let out := bus_link_method_set_domains (ext := sample_externals)
               (granted (Body_a_sb [("b.example", true)]))
               (world_of eth0 [0; 0; 0; 0; -5]) in
  fst out = -5 /\ search_domains (link (snd out)) = [] /\ journal (snd out) = [].
Proof. vm_compute. repeat split; reflexivity. Qed.

(** The defaults an empty mode string stands for. *)
Example empty_mode_strings :
  llmnr_support
    (link (snd (bus_link_method_set_llmnr (ext := sample_externals)
                  (granted (Body_s "")) (world_of eth0 []))))
  = RESOLVE_SUPPORT_YES (Externals := sample_externals)
  /\ mdns_support
       (link (snd (bus_link_method_set_mdns (ext := sample_externals)
                     (granted (Body_s "")) (world_of eth0 []))))
     = RESOLVE_SUPPORT_NO (Externals := sample_externals).
Proof. split; reflexivity. Qed.

(** A pending authorization leaves everything as it is and returns 1. *)
Example set_dns_pending :
  bus_link_method_set_dns_servers_internal
    (mkMessage (Body_a_iay [(AF_INET, addr2)]) 0) false (world_of eth0 [])
  = (1, world_of eth0 []).
Proof. reflexivity. Qed.

End LinkBusFacts.

(* ===================================================================== *)
(** * Part VII. Properties of the attribute walk                         *)
(* ===================================================================== *)

Module UdevadmInfoFacts.
Import UdevadmInfo.

(** ** Sorting by a three-way comparison *)

Section Sorting.
Variable A : Type.
Variable cmp : A -> A -> comparison.
Hypothesis cmp_antisym : forall a b, cmp a b = CompOpp (cmp b a).
Hypothesis cmp_trans : forall a b c, cmp a b <> Gt -> cmp b c <> Gt -> cmp a c <> Gt.

Let le (a b : A) : Prop := cmp a b <> Gt.

Lemma cmp_gt_le a b : cmp a b = Gt -> le b a.
Proof.
  unfold le. intros H. rewrite cmp_antisym, H. discriminate.
Qed.

Lemma qsort_insert_perm x l : Permutation (x :: l) (qsort_insert cmp x l).
Proof.
  induction l as [|y l IH]; simpl.
  - apply Permutation_refl.
  - destruct (cmp x y); try apply Permutation_refl.
    eapply perm_trans; [apply perm_swap | apply perm_skip, IH].
Qed.

Lemma typesafe_qsort_perm l : Permutation l (typesafe_qsort cmp l).
Proof.
  induction l as [|x l IH]; simpl.
  - apply perm_nil.
  - eapply perm_trans; [apply perm_skip, IH | apply qsort_insert_perm].
Qed.

Lemma qsort_insert_sorted x l :
  StronglySorted le l -> StronglySorted le (qsort_insert cmp x l).
Proof.
  induction 1 as [|y l Hs IH Hy]; simpl.
  - repeat constructor.
  - destruct (cmp x y) eqn:Hxy.
    + constructor; [constructor; assumption|].
      constructor; [unfold le; rewrite Hxy; discriminate|].
      eapply Forall_impl; [|exact Hy].
      intros z Hz. apply cmp_trans with y; [rewrite Hxy; discriminate | exact Hz].
    + constructor; [constructor; assumption|].
      constructor; [unfold le; rewrite Hxy; discriminate|].
      eapply Forall_impl; [|exact Hy].
      intros z Hz. apply cmp_trans with y; [rewrite Hxy; discriminate | exact Hz].
    + constructor; [exact IH|].
      apply (Permutation_Forall (qsort_insert_perm x l)).
      constructor; [apply cmp_gt_le; exact Hxy | exact Hy].
Qed.

Lemma typesafe_qsort_sorted l : StronglySorted le (typesafe_qsort cmp l).
Proof.
  induction l as [|x l IH]; simpl.
  - constructor.
  - apply qsort_insert_sorted, IH.
Qed.

End Sorting.

(** ** [strcmp] is a total preorder on names *)

Lemma sysattr_compare_antisym a b :
  sysattr_compare a b = CompOpp (sysattr_compare b a).
Proof. apply String.compare_antisym. Qed.

Lemma string_compare_le_trans s1 s2 s3 :
  String.compare s1 s2 <> Gt -> String.compare s2 s3 <> Gt ->
  String.compare s1 s3 <> Gt.
Proof.
  intros H12 H23 H13.
  assert (Hlt : OrderedTypeEx.String_as_OT.lt s3 s1).
  { apply OrderedTypeEx.String_as_OT.cmp_lt.
    unfold OrderedTypeEx.String_as_OT.cmp.
    rewrite String.compare_antisym, H13. reflexivity. }
  destruct (String.compare s1 s2) eqn:E12; [| |congruence].
  - apply String.compare_eq_iff in E12. subst s2.
    rewrite String.compare_antisym in H23.
    apply OrderedTypeEx.String_as_OT.cmp_lt in Hlt.
    unfold OrderedTypeEx.String_as_OT.cmp in Hlt. rewrite Hlt in H23.
    apply H23. reflexivity.
  - apply OrderedTypeEx.String_as_OT.cmp_lt in E12.
    pose proof (OrderedTypeEx.String_as_OT.lt_trans _ _ _ Hlt E12) as H32.
    apply OrderedTypeEx.String_as_OT.cmp_lt in H32.
    unfold OrderedTypeEx.String_as_OT.cmp in H32.
    rewrite String.compare_antisym, H32 in H23. apply H23. reflexivity.
Qed.

Lemma sysattr_compare_trans a b c :
  sysattr_compare a b <> Gt -> sysattr_compare b c <> Gt -> sysattr_compare a c <> Gt.
Proof. apply string_compare_le_trans. Qed.

(** ** What the loop keeps *)

Lemma trailing_scan_pos l :
  (exists c, In c l /\ isprint c = false) -> (0 < trailing_scan l)%nat.
Proof.
  induction l as [|c l IH]; intros [x [Hin Hx]].
  - destruct Hin.
  - simpl. destruct (isprint c) eqn:Hc.
    + destruct Hin as [->|Hin]; [congruence|].
      apply IH. exists x. split; assumption.
    + lia.
Qed.

Lemma trailing_scan_zero l :
  trailing_scan l = 0%nat -> Forall (fun c => isprint c = true) l.
Proof.
  induction l as [|c l IH]; simpl; intros H.
  - constructor.
  - destruct (isprint c) eqn:Hc; [|discriminate].
    constructor; [exact Hc | apply IH, H].
Qed.

Lemma trailing_scan_nonprintable l :
  (0 < trailing_scan l)%nat -> exists c, In c l /\ isprint c = false.
Proof.
  induction l as [|c l IH]; simpl; intros H.
  - lia.
  - destruct (isprint c) eqn:Hc.
    + destruct (IH H) as [x [Hin Hx]]. exists x. split; [right; exact Hin|exact Hx].
    + exists c. split; [left; reflexivity|exact Hc].
Qed.

(** ** The code's tests and the specification's words *)

Lemma string_compare_lex s1 s2 : String.compare s1 s2 <> Gt <-> lex_le s1 s2.
Proof.
  revert s2. induction s1 as [|c1 s1 IH]; intros [|c2 s2]; simpl.
  - split; [intros _; constructor | discriminate].
  - split; [intros _; constructor | discriminate].
  - split; [congruence | intros H; inversion H].
  - unfold Ascii.compare.
    destruct (N.compare_spec (N_of_ascii c1) (N_of_ascii c2)) as [Heq|Hlt|Hgt].
    + assert (c1 = c2).
      { rewrite <- (ascii_N_embedding c1), <- (ascii_N_embedding c2), Heq.
        reflexivity. }
      subst c2. rewrite IH. split.
      * apply lex_le_eq.
      * intros H. inversion H; subst; [exfalso; eapply N.lt_irrefl; eassumption|].
        assumption.
    + split; [intros _; apply lex_le_lt; exact Hlt | discriminate].
    + split; [congruence|]. intros H. exfalso. inversion H; subst.
      * eapply N.lt_asymm; eassumption.
      * eapply N.lt_irrefl; eassumption.
Qed.

Lemma sysattr_compare_lex a b : name_le a b <-> lex_le (name a) (name b).
Proof. apply string_compare_lex. Qed.

Lemma skip_attribute_excluded n : skip_attribute n = true <-> In n excluded_names.
Proof.
  unfold skip_attribute. fold excluded_names. rewrite existsb_exists. split.
  - intros [x [Hin Heq]]. apply String.eqb_eq in Heq. subst. exact Hin.
  - intros Hin. exists n. split; [exact Hin|apply String.eqb_refl].
Qed.

Lemma looks_like_path_slash v : looks_like_path v = true <-> starts_with_slash v.
Proof.
  unfold starts_with_slash. destruct v as [|c rest]; simpl.
  - split; [discriminate|]. intros [r Hr]. discriminate.
  - rewrite Ascii.eqb_eq. split.
    + intros ->. exists rest. reflexivity.
    + intros [r Hr]. inversion Hr. reflexivity.
Qed.

Lemma isprint_range c :
  isprint c = false <-> ((nat_of_ascii c < 32)%nat \/ (126 < nat_of_ascii c)%nat).
Proof.
  unfold isprint. cbv zeta. rewrite andb_false_iff, !Nat.leb_gt. reflexivity.
Qed.

Lemma nonprintable_len_pos v :
  (0 <? nonprintable_len v)%nat = true <-> has_nonprintable v.
Proof.
  rewrite Nat.ltb_lt. unfold nonprintable_len, has_nonprintable. split.
  - intros H. destruct (trailing_scan_nonprintable _ H) as [c [Hin Hc]].
    exists c. split; [apply in_rev; exact Hin | apply isprint_range; exact Hc].
  - intros [c [Hin Hc]]. apply trailing_scan_pos. exists c.
    split; [apply in_rev; rewrite rev_involutive; exact Hin | apply isprint_range; exact Hc].
Qed.

(** The three reasons the claim gives for leaving an attribute out. *)
Definition left_out (device : sd_device) (n : string) : Prop :=
  In n excluded_names
  \/ exists v, sd_device_get_sysattr_value device n = inr v
               /\ (starts_with_slash v \/ has_nonprintable v).

(** What the row of an attribute shows: the value read, which does not start
    with a slash and has printable bytes only; or the words of line 104 when
    the read is refused with [-EPERM]. *)
Definition shown_as (device : sd_device) (n v : string) : Prop :=
  (sd_device_get_sysattr_value device n = inr v
   /\ ~ starts_with_slash v /\ ~ has_nonprintable v)
  \/ (sd_device_get_sysattr_value device n = inl (- EPERM) /\ v = "(write-only)").

Lemma sysattr_candidate_shown device n v :
  sysattr_candidate device n = Some v
  <-> ~ In n excluded_names /\ shown_as device n v.
Proof.
  unfold sysattr_candidate, shown_as.
  rewrite <- skip_attribute_excluded.
  destruct (skip_attribute n).
  - split; [discriminate|]. intros [H _]. exfalso. apply H. reflexivity.
  - destruct (sd_device_get_sysattr_value device n) as [r|value].
    + destruct (Z.eqb_spec r (- EPERM)) as [->|Hr].
      * split.
        -- intros H. inversion H. split; [discriminate|]. right. split; reflexivity.
        -- intros [_ [[H _]|[_ ->]]]; [discriminate|reflexivity].
      * split; [discriminate|].
        intros [_ [[H _]|[H _]]]; [discriminate|]. inversion H. contradiction.
    + rewrite <- looks_like_path_slash, <- nonprintable_len_pos.
      destruct (looks_like_path value) eqn:Hp.
      * split; [discriminate|].
        intros [_ [[H [Hs _]]|[H _]]]; [|discriminate].
        inversion H. subst. exfalso. apply Hs. exact Hp.
      * destruct (0 <? nonprintable_len value)%nat eqn:Hn.
        -- split; [discriminate|].
           intros [_ [[H [_ Hs]]|[H _]]]; [|discriminate].
           inversion H. subst. exfalso. apply Hs. exact Hn.
        -- split.
           ++ intros H. inversion H. subst. split; [discriminate|]. left.
              split; [reflexivity|]. split; [rewrite Hp|rewrite Hn]; discriminate.
           ++ intros [_ [[H _]|[H _]]]; [|discriminate]. inversion H. reflexivity.
Qed.

Lemma left_out_no_candidate device n :
  left_out device n -> sysattr_candidate device n = None.
Proof.
  intros Hout. destruct (sysattr_candidate device n) as [v|] eqn:Hc; [|reflexivity].
  exfalso. apply sysattr_candidate_shown in Hc. destruct Hc as [Hex Hshown].
  destruct Hout as [Hin | [v' [Hv Hwhy]]]; [exact (Hex Hin)|].
  destruct Hshown as [[Hv'' [Hs Hn]]|[Hv'' _]]; [|congruence].
  assert (v' = v) by congruence. subst v'. tauto.
Qed.

Definition kept_by (device : sd_device) (a : SysAttr) : Prop :=
  In (name a) (sysattrs device)
  /\ sysattr_candidate device (name a) = Some (value a).

Lemma collect_sysattrs_kept capacity device names acc out :
  (forall n, In n names -> In n (sysattrs device)) ->
  Forall (kept_by device) acc ->
  collect_sysattrs capacity device names acc = inr out ->
  Forall (kept_by device) out.
Proof.
  revert acc. induction names as [|n names IH]; simpl; intros acc Hsub Hacc Hrun.
  - inversion Hrun. subst. exact Hacc.
  - destruct (sysattr_candidate device n) eqn:Hc.
    + destruct (match capacity with
                | Some cap => (List.length acc + 1 <=? cap)%nat
                | None => true
                end); [|discriminate].
      apply IH in Hrun; [exact Hrun | intros m Hm; apply Hsub; right; exact Hm |].
      apply Forall_app. split; [exact Hacc|].
      constructor; [|constructor].
      split; simpl; [apply Hsub; left; reflexivity | exact Hc].
    + apply IH in Hrun; [exact Hrun | intros m Hm; apply Hsub; right; exact Hm | exact Hacc].
Qed.

Lemma collect_sysattrs_error capacity device names acc r :
  collect_sysattrs capacity device names acc = inl r -> r = - ENOMEM.
Proof.
  revert acc. induction names as [|n names IH]; simpl; intros acc Hrun.
  - discriminate.
  - destruct (sysattr_candidate device n).
    + destruct (match capacity with
                | Some cap => (List.length acc + 1 <=? cap)%nat
                | None => true
                end); [eapply IH; exact Hrun | congruence].
    + eapply IH; exact Hrun.
Qed.

Lemma collect_sysattrs_complete capacity device names acc out :
  collect_sysattrs capacity device names acc = inr out ->
  (forall a, In a acc -> In a out)
  /\ (forall n v, In n names -> sysattr_candidate device n = Some v ->
                  In (mkSysAttr n v) out).
Proof.
  revert acc. induction names as [|m names IH]; simpl; intros acc Hrun.
  - inversion Hrun. subst. split; [auto|]. intros n v [].
  - destruct (sysattr_candidate device m) as [value|] eqn:Hc.
    + destruct (match capacity with
                | Some cap => (List.length acc + 1 <=? cap)%nat
                | None => true
                end); [|discriminate].
      destruct (IH _ Hrun) as [Hacc Hnames]. split.
      * intros a Ha. apply Hacc. apply in_or_app. left. exact Ha.
      * intros n v [->|Hn] Hv; [|apply Hnames; assumption].
        apply Hacc. apply in_or_app. right. left. congruence.
    + destruct (IH _ Hrun) as [Hacc Hnames]. split; [exact Hacc|].
      intros n v [->|Hn] Hv; [congruence|apply Hnames; assumption].
Qed.

(** With no bound on memory the table is always produced. *)
Lemma collect_sysattrs_unbounded device names acc :
  exists out, collect_sysattrs None device names acc = inr out.
Proof.
  revert acc. induction names as [|m names IH]; simpl; intros acc.
  - exists acc. reflexivity.
  - destruct (sysattr_candidate device m); apply IH.
Qed.

Lemma attribute_table_unbounded device :
  exists table, attribute_table None device = inr table.
Proof.
  unfold attribute_table.
  destruct (collect_sysattrs_unbounded device (sysattrs device) []) as [out ->].
  eexists. reflexivity.
Qed.

Lemma StronglySorted_weaken {A} (R S : A -> A -> Prop) l :
  (forall a b, R a b -> S a b) -> StronglySorted R l -> StronglySorted S l.
Proof.
  intros HRS. induction 1 as [|a l _ IH Ha]; constructor; [exact IH|].
  eapply Forall_impl; [|exact Ha]. intros b. apply HRS.
Qed.


(** The spec's example: attributes zeta, alpha and uevent. *)
Definition example_device : sd_device :=
  mkDevice (Some "/devices/virtual/example") (Some "example") None None
    ["zeta"; "alpha"; "uevent"]
    (fun n => if String.eqb n "zeta" then inr "1"
              else if String.eqb n "alpha" then inr "2"
              else if String.eqb n "uevent" then inr "x"
              else inl (- 2)).

Example attribute_walk_example :
  attribute_table None example_device
  = inr [mkSysAttr "alpha" "2"; mkSysAttr "zeta" "1"].
Proof. reflexivity. Qed.


(** The order is that of the bytes: capitals come before small letters, and
    a name before the names it is a prefix of. *)
Example attribute_walk_byte_order :
  attribute_table None
    (mkDevice None None None None ["size"; "ro"; "Size"; "range"; "removable"; "r"]
       (fun n => inr n))
  = inr [mkSysAttr "Size" "Size"; mkSysAttr "r" "r"; mkSysAttr "range" "range";
         mkSysAttr "removable" "removable"; mkSysAttr "ro" "ro";
         mkSysAttr "size" "size"].
Proof. reflexivity. Qed.

End UdevadmInfoFacts.

(* ===================================================================== *)
(** * Part VIII. Further properties of the link's bus methods            *)
(* ===================================================================== *)

Module LinkBusMethods.
Import LinkBus LinkBusFacts.
Local Open Scope list_scope.

(** The settings of a link a client can write, one per setter. *)
Inductive setting :=
| DNS | Domains | DefaultRoute | LLMNR | MulticastDNS | DNSOverTLS | DNSSEC
| DNSSECNegativeTrustAnchors.

(** The setting a method of the vtable writes; [Revert] writes them all. *)
Definition setting_of (m : method) : option setting :=
  match m with
  | SetDNS | SetDNSEx => Some DNS
  | SetDomains => Some Domains
  | SetDefaultRoute => Some DefaultRoute
  | SetLLMNR => Some LLMNR
  | SetMulticastDNS => Some MulticastDNS
  | SetDNSOverTLS => Some DNSOverTLS
  | SetDNSSEC => Some DNSSEC
  | SetDNSSECNegativeTrustAnchors => Some DNSSECNegativeTrustAnchors
  | Revert => None
  end.

(** The link with one setting blanked out: two links that agree after
    [forget s] differ in setting [s] at most.  The DNS setting is the
    server list together with the reference to the server in use. *)
Definition forget (s : setting) (l : Link) : Link :=
  match s with
  | DNS => with_current_dns_server None (with_dns_servers [] l)
  | Domains => with_search_domains [] l
  | DefaultRoute => with_default_route 0 l
  | LLMNR => with_llmnr_support 0 l
  | MulticastDNS => with_mdns_support 0 l
  | DNSOverTLS => with_dns_over_tls_mode 0 l
  | DNSSEC => with_dnssec_mode 0 l
  | DNSSECNegativeTrustAnchors => with_dnssec_negative_trust_anchors [] l
  end.

(** What identifies the link and decides whether the methods accept it. *)
Definition identity (l : Link) : string * Z * bool := (ifname l, flags l, is_managed l).

(** A computation under which an observation [obs] of the link does not
    move. *)
Definition preserves {X A} (obs : Link -> X) (m : M A) : Prop :=
  forall w, obs (link (snd (m w))) = obs (link w).

(** A computation that changes nothing a client can see and whose result
    satisfies [P]. *)
Definition yields {A} (m : M A) (P : A -> Prop) : Prop :=
  forall w, untouched w (snd (m w)) /\ P (fst (m w)).

Lemma preserves_ret {X A} (obs : Link -> X) (a : A) : preserves obs (ret a).
Proof. intros w. reflexivity. Qed.

Lemma preserves_bind {X A B} (obs : Link -> X) (m : M A) (k : A -> M B) :
  preserves obs m -> (forall a, preserves obs (k a)) -> preserves obs (bind m k).
Proof.
  intros Hm Hk w. unfold bind. specialize (Hm w). destruct (m w) as [a w1].
  cbn [snd] in Hm. rewrite <- Hm. apply Hk.
Qed.

Lemma untouched_preserves {X A} (obs : Link -> X) (m : M A) :
  (forall w, untouched w (snd (m w))) -> preserves obs m.
Proof. intros H w. destruct (H w) as [-> _]. reflexivity. Qed.

Lemma preserves_get_link {X} (obs : Link -> X) : preserves obs get_link.
Proof. intros w. reflexivity. Qed.

Lemma preserves_fault {X} (obs : Link -> X) : preserves obs fault.
Proof.
  apply untouched_preserves. intros w.
  destruct (fault_spec w) as [r [w1 [Hf [_ [Hu _]]]]]. rewrite Hf. exact Hu.
Qed.

Lemma preserves_setf {X} (obs : Link -> X) e text :
  preserves obs (sd_bus_error_setf e text).
Proof. intros w. reflexivity. Qed.

Lemma preserves_polkit {X} (obs : Link -> X) message action :
  preserves obs (bus_verify_polkit_async message action).
Proof.
  apply untouched_preserves. intros w.
  destruct (polkit_spec message action w) as [w1 [Hp [Hu _]]]. rewrite Hp. exact Hu.
Qed.

Lemma preserves_call {X} (obs : Link -> X) e : preserves obs (call e).
Proof. intros w. reflexivity. Qed.

Lemma preserves_modify_link {X} (obs : Link -> X) f :
  (forall l, obs (f l) = obs l) -> preserves obs (modify_link f).
Proof. intros Hf w. apply Hf. Qed.

Create HintDb preserves.

#[local] Hint Resolve preserves_ret preserves_get_link preserves_fault preserves_setf
  preserves_polkit preserves_call : preserves.

Ltac preserves_step :=
  first
    [ apply preserves_ret
    | solve [auto with preserves]
    | apply preserves_bind; [|intros]
    | match goal with
      | |- preserves _ (if ?b then _ else _) => destruct b
      | |- preserves _ (match ?x with (_, _) => _ end) => destruct x
      | |- preserves _ (match ?x with Some _ => _ | None => _ end) => destruct x
      | |- preserves _ (match ?x with Body_b _ => _ | _ => _ end) => destruct x
      | |- preserves _ (match ?x with Body_s _ => _ | _ => _ end) => destruct x
      | |- preserves _ (match ?x with Body_as _ => _ | _ => _ end) => destruct x
      | |- preserves _ (match ?x with Body_a_sb _ => _ | _ => _ end) => destruct x
      end ].

Lemma yields_ret {A} (a : A) (P : A -> Prop) : P a -> yields (ret a) P.
Proof. intros H w. split; [apply untouched_refl | exact H]. Qed.

Lemma yields_bind {A B} (m : M A) (k : A -> M B) (P : A -> Prop) (R : B -> Prop) :
  yields m P -> (forall a, P a -> yields (k a) R) -> yields (bind m k) R.
Proof.
  intros Hm Hk w. unfold bind. destruct (Hm w) as [Hu HP].
  destruct (m w) as [a w1]. cbn [fst snd] in *.
  destruct (Hk a HP w1) as [Hu' HR]. split; [|exact HR].
  eapply untouched_trans; eassumption.
Qed.

Lemma yields_weaken {A} (m : M A) (P R : A -> Prop) :
  yields m P -> (forall a, P a -> R a) -> yields m R.
Proof. intros Hm HPR w. destruct (Hm w). split; auto. Qed.

Lemma yields_any_get_link : yields get_link (fun _ => True).
Proof. intros w. split; [apply untouched_refl | exact I]. Qed.

Lemma yields_any_fault : yields fault (fun _ => True).
Proof.
  intros w. destruct (fault_spec w) as [r [w1 [Hf [_ [Hu _]]]]]. rewrite Hf.
  split; [exact Hu | exact I].
Qed.

Lemma yields_setf e text : yields (sd_bus_error_setf e text) (fun r => r < 0).
Proof.
  intros w. split; [repeat split|]. cbn [fst sd_bus_error_setf].
  destruct e; unfold bus_error_errno, EBUSY, EINVAL, EACCES; lia.
Qed.

Lemma yields_polkit message action :
  yields (bus_verify_polkit_async message action) (fun r => r = polkit message).
Proof.
  intros w. destruct (polkit_spec message action w) as [w1 [Hp [Hu _]]]. rewrite Hp.
  split; [exact Hu | reflexivity].
Qed.

Section Methods.
Context {ext : Externals}.

Lemma yields_verify :
  yields verify_unmanaged_link (fun r => r = 0 \/ r = - EBUSY).
Proof.
  intros w. destruct (eligible_dec (link w)) as [Hel|Hbusy].
  - rewrite (verify_unmanaged_link_eligible w Hel). split; [apply untouched_refl|].
    left; reflexivity.
  - destruct (verify_unmanaged_link_busy w Hbusy) as [text ->].
    split; [repeat split|]. right; reflexivity.
Qed.

Lemma preserves_verify {X} (obs : Link -> X) : preserves obs verify_unmanaged_link.
Proof. apply untouched_preserves. intros w. apply yields_verify. Qed.


(** *** Reading the request changes nothing *)

Lemma untouched_read_b message w : untouched w (snd (sd_bus_message_read_b message w)).
Proof.
  unfold sd_bus_message_read_b.
  destruct (fault_spec w) as [r [w1 [Hf [_ [Hu _]]]]]. rewrite (bind_run _ _ _ _ _ Hf).
  destruct (r <? 0); [exact Hu|]. destruct (msg_body message); exact Hu.
Qed.

Lemma untouched_read_s message w : untouched w (snd (sd_bus_message_read_s message w)).
Proof.
  unfold sd_bus_message_read_s.
  destruct (fault_spec w) as [r [w1 [Hf [_ [Hu _]]]]]. rewrite (bind_run _ _ _ _ _ Hf).
  destruct (r <? 0); [exact Hu|]. destruct (msg_body message); exact Hu.
Qed.

Lemma untouched_read_strv message w :
  untouched w (snd (sd_bus_message_read_strv message w)).
Proof.
  unfold sd_bus_message_read_strv.
  destruct (fault_spec w) as [r [w1 [Hf [_ [Hu _]]]]]. rewrite (bind_run _ _ _ _ _ Hf).
  destruct (r <? 0); [exact Hu|]. destruct (msg_body message); exact Hu.
Qed.

Lemma untouched_enter_container message w :
  untouched w (snd (sd_bus_message_enter_container_a_sb message w)).
Proof.
  destruct (enter_container_a_sb_spec message w) as [r [es [w1 [H [Hu _]]]]].
  rewrite H. exact Hu.
Qed.

Lemma untouched_read_dns_servers message extended w :
  untouched w (snd (bus_message_read_dns_servers message extended w)).
Proof.
  destruct (bus_message_read_dns_servers_spec message extended w)
    as [r [dns [w1 [H [Hu _]]]]].
  rewrite H. exact Hu.
Qed.

Lemma untouched_validate entries w :
  untouched w (snd (set_domains_validate entries w)).
Proof.
  destruct (set_domains_validate_frame entries w) as [r [w1 [H [Hu _]]]].
  rewrite H. exact Hu.
Qed.

Lemma yields_any {A} (m : M A) :
  (forall w, untouched w (snd (m w))) -> yields m (fun _ => True).
Proof. intros H w. split; [apply H | exact I]. Qed.

Lemma yields_any_set_ntas_loop ntas ns : yields (set_ntas_loop ntas ns) (fun _ => True).
Proof.
  revert ns. induction ntas as [|i rest IH]; intros ns; cbn [set_ntas_loop].
  - apply yields_ret. exact I.
  - cbv zeta. destruct (dns_name_is_valid i <? 0); [apply yields_ret; exact I|].
    destruct (dns_name_is_valid i =? 0).
    + eapply yields_bind; [apply yields_setf|]. intros a _. apply yields_ret. exact I.
    + eapply yields_bind; [apply yields_any_fault|]. intros r _.
      destruct (r <? 0); [apply yields_ret; exact I | apply IH].
Qed.

Lemma untouched_set_ntas_loop ntas ns w : untouched w (snd (set_ntas_loop ntas ns w)).
Proof. apply yields_any_set_ntas_loop. Qed.

Lemma preserves_reply {X} (obs : Link -> X) message :
  preserves obs (bus_reply_method_return message).
Proof. unfold bus_reply_method_return. repeat preserves_step. Qed.

#[local] Hint Resolve preserves_reply : preserves.

#[local] Hint Extern 1 (preserves _ verify_unmanaged_link) =>
  apply preserves_verify : preserves.
#[local] Hint Extern 1 (preserves _ (sd_bus_message_read_b _)) =>
  apply untouched_preserves, untouched_read_b : preserves.
#[local] Hint Extern 1 (preserves _ (sd_bus_message_read_s _)) =>
  apply untouched_preserves, untouched_read_s : preserves.
#[local] Hint Extern 1 (preserves _ (sd_bus_message_read_strv _)) =>
  apply untouched_preserves, untouched_read_strv : preserves.
#[local] Hint Extern 1 (preserves _ (sd_bus_message_enter_container_a_sb _)) =>
  apply untouched_preserves, untouched_enter_container : preserves.
#[local] Hint Extern 1 (preserves _ (bus_message_read_dns_servers _ _)) =>
  apply untouched_preserves, untouched_read_dns_servers : preserves.
#[local] Hint Extern 1 (preserves _ (set_domains_validate _)) =>
  apply untouched_preserves, untouched_validate : preserves.
#[local] Hint Extern 1 (preserves _ (set_ntas_loop _ _)) =>
  apply untouched_preserves, untouched_set_ntas_loop : preserves.

(** *** Which fields each handler can write *)

Section Frames.
Context {X : Type} (obs : Link -> X).

Lemma preserves_drop_stale l :
  (forall c l, obs (with_current_dns_server c l) = obs l) ->
  obs (drop_stale_current l) = obs l.
Proof.
  intros Hc. unfold drop_stale_current.
  destruct (current_dns_server l) as [p|]; [|reflexivity].
  destruct (MarkSweep.deref s_ptr p (dns_servers l)); [reflexivity | apply Hc].
Qed.

Lemma preserves_set_dns_servers message extended :
  (forall v l, obs (with_dns_servers v l) = obs l) ->
  (forall c l, obs (with_current_dns_server c l) = obs l) ->
  preserves obs (bus_link_method_set_dns_servers_internal message extended).
Proof.
  intros Hs Hc.
  assert (Hloop : forall dns, preserves obs (set_dns_servers_loop dns)).
  { intros dns w.
    destruct (set_dns_servers_loop_frame dns w) as [r [w' [Hrun [[[v [c Hl]] _] _]]]].
    rewrite Hrun. cbn [snd]. rewrite Hl, Hc, Hs. reflexivity. }
  unfold bus_link_method_set_dns_servers_internal, dns_server_mark_all,
    dns_server_unlink_marked.
  repeat first
    [ apply Hloop
    | apply preserves_modify_link; intros;
      rewrite ?preserves_drop_stale by exact Hc; apply Hs
    | preserves_step ].
Qed.

Lemma preserves_set_domains message :
  (forall v l, obs (with_search_domains v l) = obs l) ->
  preserves obs (bus_link_method_set_domains message).
Proof.
  intros Hd.
  assert (Hloop : forall entries, preserves obs (set_domains_reconcile entries)).
  { intros entries w.
    destruct (set_domains_reconcile_frame entries w) as [r [w' [Hrun [[[v Hl] _] _]]]].
    rewrite Hrun. cbn [snd]. rewrite Hl, Hd. reflexivity. }
  unfold bus_link_method_set_domains, dns_search_domain_mark_all,
    dns_search_domain_unlink_marked, dns_search_domain_unlink_all.
  repeat first
    [ apply Hloop
    | apply preserves_modify_link; intros; apply Hd
    | preserves_step ].
Qed.

Lemma preserves_set_default_route message :
  (forall v l, obs (with_default_route v l) = obs l) ->
  preserves obs (bus_link_method_set_default_route message).
Proof.
  intros H. unfold bus_link_method_set_default_route.
  repeat first [ apply preserves_modify_link; intros; apply H | preserves_step ].
Qed.

Lemma preserves_set_llmnr message :
  (forall v l, obs (with_llmnr_support v l) = obs l) ->
  preserves obs (bus_link_method_set_llmnr message).
Proof.
  intros H. unfold bus_link_method_set_llmnr. cbv zeta.
  repeat first [ apply preserves_modify_link; intros; apply H | preserves_step ].
Qed.

Lemma preserves_set_mdns message :
  (forall v l, obs (with_mdns_support v l) = obs l) ->
  preserves obs (bus_link_method_set_mdns message).
Proof.
  intros H. unfold bus_link_method_set_mdns. cbv zeta.
  repeat first [ apply preserves_modify_link; intros; apply H | preserves_step ].
Qed.

Lemma preserves_set_dns_over_tls message :
  (forall v l, obs (with_dns_over_tls_mode v l) = obs l) ->
  preserves obs (bus_link_method_set_dns_over_tls message).
Proof.
  intros H. unfold bus_link_method_set_dns_over_tls, link_set_dns_over_tls_mode.
  cbv zeta.
  repeat first [ apply preserves_modify_link; intros; apply H | preserves_step ].
Qed.

Lemma preserves_set_dnssec message :
  (forall v l, obs (with_dnssec_mode v l) = obs l) ->
  preserves obs (bus_link_method_set_dnssec message).
Proof.
  intros H. unfold bus_link_method_set_dnssec, link_set_dnssec_mode. cbv zeta.
  repeat first [ apply preserves_modify_link; intros; apply H | preserves_step ].
Qed.

Lemma preserves_set_ntas message :
  (forall v l, obs (with_dnssec_negative_trust_anchors v l) = obs l) ->
  preserves obs (bus_link_method_set_dnssec_negative_trust_anchors message).
Proof.
  intros H. unfold bus_link_method_set_dnssec_negative_trust_anchors.
  repeat first [ apply preserves_modify_link; intros; apply H | preserves_step ].
Qed.

End Frames.

Lemma preserves_identity_revert message :
  preserves identity (bus_link_method_revert message).
Proof.
  unfold bus_link_method_revert, link_flush_settings.
  repeat first [ apply preserves_modify_link; intros; reflexivity | preserves_step ].
Qed.

(** Every method of the vtable leaves the link's name, its interface flags
    and its managed state as they are; a link the methods accept before a
    call is one they accept after it, and a link they refuse stays refused. *)
Theorem methods_preserve_identity (m : method) (message : sd_bus_message) (w : World) :
  let l' := link (snd (link_vtable m message w)) in
  ifname l' = ifname (link w)
  /\ flags l' = flags (link w)
  /\ is_managed l' = is_managed (link w)
  /\ (eligible l' <-> eligible (link w)).
Proof.
  cbv zeta.
  assert (H : identity (link (snd (link_vtable m message w))) = identity (link w)).
  { destruct m; cbn [link_vtable];
      [ apply preserves_set_dns_servers | apply preserves_set_dns_servers
      | apply preserves_set_domains | apply preserves_set_default_route
      | apply preserves_set_llmnr | apply preserves_set_mdns
      | apply preserves_set_dns_over_tls | apply preserves_set_dnssec
      | apply preserves_set_ntas | apply preserves_identity_revert ];
      intros; reflexivity. }
  unfold identity in H. injection H as Hn Hf Hm.
  split; [exact Hn|]. split; [exact Hf|]. split; [exact Hm|].
  unfold eligible. rewrite Hf, Hm. tauto.
Qed.

(** *** Which calls into the rest of the daemon a handler makes *)

(** A computation that only adds to the record of calls, and adds calls that
    satisfy [P] only. *)
Definition records {A} (P : effect -> Prop) (m : M A) : Prop :=
  forall w, exists added,
    journal (snd (m w)) = journal w ++ added /\ Forall P added.

Lemma records_silent {A} (P : effect -> Prop) (m : M A) :
  (forall w, journal (snd (m w)) = journal w) -> records P m.
Proof. intros H w. exists []. rewrite app_nil_r. split; [apply H|constructor]. Qed.

Lemma records_ret {A} (P : effect -> Prop) (a : A) : records P (ret a).
Proof. apply records_silent. reflexivity. Qed.

Lemma records_bind {A B} (P : effect -> Prop) (m : M A) (k : A -> M B) :
  records P m -> (forall a, records P (k a)) -> records P (bind m k).
Proof.
  intros Hm Hk w. unfold bind. destruct (Hm w) as [added [Hj Hall]].
  destruct (m w) as [a w1]. cbn [snd] in Hj.
  destruct (Hk a w1) as [added' [Hj' Hall']].
  exists (added ++ added'). rewrite Hj', Hj, app_assoc.
  split; [reflexivity|]. apply Forall_app. split; assumption.
Qed.

Lemma records_call (P : effect -> Prop) (e : effect) : P e -> records P (call e).
Proof. intros He w. exists [e]. split; [reflexivity|]. constructor; [exact He|constructor]. Qed.

Lemma untouched_journal w w' : untouched w w' -> journal w' = journal w.
Proof. intros [_ [_ H]]. exact H. Qed.

Ltac silent_leaf :=
  apply records_silent; intros;
  first
    [ reflexivity
    | apply untouched_journal;
      first
        [ apply untouched_read_b | apply untouched_read_s | apply untouched_read_strv
        | apply untouched_enter_container | apply untouched_read_dns_servers
        | apply untouched_validate | apply untouched_set_ntas_loop
        | apply yields_verify | apply yields_any_fault | apply yields_polkit ] ].

Ltac records_step :=
  first
    [ solve [silent_leaf]
    | apply records_call; cbv beta;
      solve [exact I | let H := fresh in intros H; first [discriminate H | tauto]]
    | apply records_bind; [|intros]
    | match goal with
      | |- records _ (if ?b then _ else _) => destruct b
      | |- records _ (match ?x with (_, _) => _ end) => destruct x
      | |- records _ (match ?x with Some _ => _ | None => _ end) => destruct x
      end ].

Lemma records_set_dns_servers_loop (P : effect -> Prop) dns :
  records P (set_dns_servers_loop dns).
Proof.
  apply records_silent. intros w.
  destruct (set_dns_servers_loop_frame dns w) as [r [w' [Hrun [[_ [Hj _]] _]]]].
  rewrite Hrun. exact Hj.
Qed.

Lemma records_set_domains_reconcile (P : effect -> Prop) entries :
  records P (set_domains_reconcile entries).
Proof.
  apply records_silent. intros w.
  destruct (set_domains_reconcile_frame entries w) as [r [w' [Hrun [[_ [Hj _]] _]]]].
  rewrite Hrun. exact Hj.
Qed.

(** The settings whose setter has the scopes of the link allocated anew
    (lines 301, 485 and 528). *)
Definition scopes_follow (s : setting) : Prop :=
  s = DNS \/ s = LLMNR \/ s = MulticastDNS.

Lemma setter_records (m : method) (s : setting) (message : sd_bus_message) :
  setting_of m = Some s ->
  records (fun e => e = link_allocate_scopes -> scopes_follow s) (link_vtable m message).
Proof.
  intros Hs. destruct m; cbn [setting_of] in Hs; inversion Hs; subst s;
    cbn [link_vtable]; unfold scopes_follow;
    unfold bus_link_method_set_dns_servers, bus_link_method_set_dns_servers_ex,
      bus_link_method_set_dns_servers_internal, bus_link_method_set_domains,
      bus_link_method_set_default_route, bus_link_method_set_llmnr,
      bus_link_method_set_mdns, bus_link_method_set_dns_over_tls,
      bus_link_method_set_dnssec, bus_link_method_set_dnssec_negative_trust_anchors,
      link_set_dns_over_tls_mode, link_set_dnssec_mode, bus_reply_method_return,
      dns_server_mark_all, dns_server_unlink_marked, dns_search_domain_mark_all,
      dns_search_domain_unlink_marked, dns_search_domain_unlink_all;
    cbv zeta;
    repeat first
      [ apply records_set_dns_servers_loop
      | apply records_set_domains_reconcile
      | records_step ].
Qed.



(** *** Before the gate has said yes *)

Create HintDb untouched.

#[local] Hint Resolve untouched_read_b untouched_read_s untouched_read_strv
  untouched_enter_container untouched_read_dns_servers untouched_validate
  untouched_set_ntas_loop : untouched.

(** What a call returns while it is not authorized: an error, or [1] when
    the gate is going to call back. *)
Definition unauthorized_result (message : sd_bus_message) (r : Z) : Prop :=
  (polkit message < 0 -> r < 0) /\ (r < 0 \/ r = 1).

Ltac yields_step :=
  first
    [ exfalso; lia
    | lazymatch goal with
      | |- yields (ret _) _ =>
          apply yields_ret; unfold unauthorized_result, ENOMEM; split; [intros|]; lia
      | |- yields (sd_bus_error_setf _ _) _ =>
          eapply yields_weaken;
          [ apply yields_setf
          | cbv beta; unfold unauthorized_result; intros; split; [intros|]; lia ]
      | |- yields (bind (bus_verify_polkit_async _ _) _) _ =>
          eapply yields_bind; [apply yields_polkit | cbv beta; intros ? ->]
      | |- yields (bind verify_unmanaged_link _) _ =>
          eapply yields_bind; [apply yields_verify | cbv beta; intros ? _]
      | |- yields (bind fault _) _ =>
          eapply yields_bind; [apply yields_any_fault | cbv beta; intros ? _]
      | |- yields (bind _ _) _ =>
          eapply yields_bind;
          [ apply yields_any; intros; solve [auto with untouched]
          | cbv beta; intros ? _ ]
      | |- yields (if ?r <? 0 then _ else _) _ => destruct (Z.ltb_spec r 0)
      | |- yields (if ?r =? 0 then _ else _) _ => destruct (Z.eqb_spec r 0)
      | |- yields (if ?b then _ else _) _ => destruct b
      | |- yields (match ?x with (_, _) => _ end) _ => destruct x
      end ].

Lemma unauthorized_call (m : method) (message : sd_bus_message) :
  polkit message <= 0 ->
  yields (link_vtable m message) (unauthorized_result message).
Proof.
  intros Hp.
  destruct m; cbn [link_vtable];
    unfold bus_link_method_set_dns_servers, bus_link_method_set_dns_servers_ex,
      bus_link_method_set_dns_servers_internal, bus_link_method_set_domains,
      bus_link_method_set_default_route, bus_link_method_set_llmnr,
      bus_link_method_set_mdns, bus_link_method_set_dns_over_tls,
      bus_link_method_set_dnssec, bus_link_method_set_dnssec_negative_trust_anchors,
      bus_link_method_revert;
    cbv zeta; repeat yields_step.
Qed.

(** No method of the vtable acts before the authorization gate has granted
    the call.  When the gate refuses the caller, or has not decided yet,
    the link, the allocator and the record of calls into the rest of the
    daemon (scope allocation, saving, resolv.conf, change signal, reply) are
    what they were; the call returns an error when the gate refused, and an
    error or [1] (the gate will call back) when it is still to decide. *)
Theorem no_method_acts_before_authorization
        (m : method) (message : sd_bus_message) (w : World) :
  polkit message <= 0 ->
  let (r, w') := link_vtable m message w in
  link w' = link w
  /\ next_ptr w' = next_ptr w
  /\ journal w' = journal w
  /\ (polkit message < 0 -> r < 0)
  /\ (r < 0 \/ r = 1).
Proof.
  intros Hp. destruct (unauthorized_call m message Hp w) as [[Hl [Hn Hj]] [Hr1 Hr2]].
  destruct (link_vtable m message w) as [r w']. cbn [fst snd] in *.
  repeat split; assumption.
Qed.


(** *** Mode strings *)

Ltac run_bind H := rewrite (bind_run _ _ _ _ _ H); cbv beta iota.

(** The table a mode setter looks a non-empty string up in. *)
Definition mode_table (m : method) : option (string -> Z) :=
  match m with
  | SetLLMNR | SetMulticastDNS => Some resolve_support_from_string
  | SetDNSOverTLS => Some dns_over_tls_mode_from_string
  | SetDNSSEC => Some dnssec_mode_from_string
  | _ => None
  end.

Lemma isempty_false s : s <> "" -> isempty s = false.
Proof. intros H. unfold isempty. apply String.eqb_neq. exact H. Qed.

(** [SetLLMNR], [SetMulticastDNS], [SetDNSOverTLS] and [SetDNSSEC] refuse a
    non-empty string their table does not know with [InvalidArgument],
    naming the string, before the authorization gate is asked: the outcome
    is the same for a caller the gate would refuse.  Nothing is changed. *)
Theorem unknown_mode_is_refused
        (m : method) (table : string -> Z) (message : sd_bus_message)
        (s : string) (w : World) :
  mode_table m = Some table ->
  eligible (link w) ->
  fault_free w ->
  msg_body message = Body_s s ->
  s <> "" ->
  table s < 0 ->
  exists label w',
    link_vtable m message w = (- EINVAL, w')
    /\ error w' = Some (mkError SD_BUS_ERROR_INVALID_ARGS (label ++ s))
    /\ link w' = link w /\ next_ptr w' = next_ptr w /\ journal w' = journal w.
Proof.
  intros Htable Hel Hfree Hbody Hne Hneg.
  destruct (sd_bus_message_read_s_spec message s w Hfree Hbody)
    as [w1 [Hread [[Hl [Hn Hj]] Hfree1]]].
  apply Z.ltb_lt in Hneg.
  destruct m; cbn [mode_table] in Htable; inversion Htable; subst table;
    cbn [link_vtable];
    unfold bus_link_method_set_llmnr, bus_link_method_set_mdns,
      bus_link_method_set_dns_over_tls, bus_link_method_set_dnssec;
    run_bind (verify_unmanaged_link_eligible w Hel); change (0 <? 0) with false;
    cbv iota; run_bind Hread; change (1 <? 0) with false; cbv iota zeta;
    rewrite (isempty_false s Hne), Hneg; cbn [negb andb];
    unfold sd_bus_error_setf; eexists _, _;
    (split; [reflexivity|]); cbn [error link next_ptr journal];
    repeat split; assumption.
Qed.

(** The assignment, the three calls and the reply that end [SetLLMNR] and
    [SetMulticastDNS]. *)
Ltac granted_tail message :=
  unfold bind at 1; unfold modify_link; cbv beta iota zeta;
  unfold bind at 1; unfold call at 1; cbv beta iota zeta;
  unfold bind at 1; unfold call at 1; cbv beta iota zeta;
  unfold bind at 1; unfold call at 1; cbv beta iota zeta;
  cbn [link next_ptr faults journal error with_link];
  match goal with
  | |- context [bus_reply_method_return message ?w0] =>
      let r := fresh "r" in
      destruct (bus_reply_method_return_spec message w0)
        as [r [w' [Hr [Hlr [_ [[-> _]|[_ [_ Hnf]]]]]]]];
      cbn [link faults] in *
  end.

(** The empty string stands for the default, and the two defaults differ:
    a granted [SetLLMNR] with the empty string stores
    [RESOLVE_SUPPORT_YES], a granted [SetMulticastDNS] with the empty
    string stores [RESOLVE_SUPPORT_NO]; a string the table knows stores the
    table's value in both.  Both calls reply. *)
Theorem empty_mode_string_is_the_default
        (message : sd_bus_message) (s : string) (w : World) :
  eligible (link w) ->
  fault_free w ->
  msg_body message = Body_s s ->
  0 < polkit message ->
  s = "" \/ 0 <= resolve_support_from_string s ->
  (exists w',
      bus_link_method_set_llmnr message w = (1, w')
      /\ link w' = with_llmnr_support
                     (if isempty s then RESOLVE_SUPPORT_YES
                      else resolve_support_from_string s) (link w))
  /\ (exists w',
         bus_link_method_set_mdns message w = (1, w')
         /\ link w' = with_mdns_support
                        (if isempty s then RESOLVE_SUPPORT_NO
                         else resolve_support_from_string s) (link w)).
Proof.
  intros Hel Hfree Hbody Hpk Hs.
  destruct (sd_bus_message_read_s_spec message s w Hfree Hbody)
    as [w1 [Hread [[Hl [Hn Hj]] Hfree1]]].
  assert (Hok : forall dflt,
            negb (isempty s)
            && ((if isempty s then dflt else resolve_support_from_string s) <? 0)
            = false).
  { intros dflt. destruct Hs as [->|Hs]; [reflexivity|].
    destruct (isempty s); [reflexivity|].
    destruct (Z.ltb_spec (resolve_support_from_string s) 0); [lia|reflexivity]. }
  assert (Hpk1 : (polkit message <? 0) = false) by (apply Z.ltb_ge; lia).
  assert (Hpk2 : (polkit message =? 0) = false) by (apply Z.eqb_neq; lia).
  split.
  - unfold bus_link_method_set_llmnr.
    run_bind (verify_unmanaged_link_eligible w Hel). change (0 <? 0) with false.
    cbv iota. run_bind Hread. change (1 <? 0) with false. cbv iota zeta.
    rewrite Hok.
    destruct (polkit_spec message "org.freedesktop.resolve1.set-llmnr" w1)
      as [w2 [Hp [[Hl2 _] Hf2]]].
    run_bind Hp. rewrite Hpk1, Hpk2. granted_tail message.
    + exists w'. split; [exact Hr|]. rewrite Hlr, Hl2, Hl. reflexivity.
    + exfalso. apply Hnf. unfold fault_free in *. cbn [faults]. rewrite Hf2.
      exact Hfree1.
  - unfold bus_link_method_set_mdns.
    run_bind (verify_unmanaged_link_eligible w Hel). change (0 <? 0) with false.
    cbv iota. run_bind Hread. change (1 <? 0) with false. cbv iota zeta.
    rewrite Hok.
    destruct (polkit_spec message "org.freedesktop.resolve1.set-mdns" w1)
      as [w2 [Hp [[Hl2 _] Hf2]]].
    run_bind Hp. rewrite Hpk1, Hpk2. granted_tail message.
    + exists w'. split; [exact Hr|]. rewrite Hlr, Hl2, Hl. reflexivity.
    + exfalso. apply Hnf. unfold fault_free in *. cbn [faults]. rewrite Hf2.
      exact Hfree1.
Qed.


(** *** The default route *)

Lemma with_default_route_same l : with_default_route (default_route l) l = l.
Proof. destruct l; reflexivity. Qed.

Lemma set_default_route_granted (message : sd_bus_message) (b : bool) (w : World) :
  eligible (link w) ->
  fault_free w ->
  msg_body message = Body_b b ->
  0 < polkit message ->
  exists w',
    bus_link_method_set_default_route message w = (1, w')
    /\ link w' = with_default_route (Z_of_bool b) (link w)
    /\ journal w'
       = journal w
         ++ (if default_route (link w) =? Z_of_bool b then []
             else [link_save_user; manager_write_resolv_conf])
         ++ [sd_bus_reply_method_return].
Proof.
  intros Hel Hfree Hbody Hpk. unfold bus_link_method_set_default_route.
  run_bind (verify_unmanaged_link_eligible w Hel). change (0 <? 0) with false.
  cbv iota.
  destruct (sd_bus_message_read_b_spec message b w Hfree Hbody)
    as [w1 [Hread [Hu1 Hfree1]]].
  run_bind Hread. change (1 <? 0) with false. cbv iota.
  destruct (polkit_spec message "org.freedesktop.resolve1.set-default-route" w1)
    as [w2 [Hpk2 [Hu2 Hf2]]].
  run_bind Hpk2.
  destruct (Z.ltb_spec (polkit message) 0) as [Hneg|_]; [lia|].
  destruct (Z.eqb_spec (polkit message) 0) as [Hz|_]; [lia|].
  run_bind (get_link_run w2).
  destruct (untouched_trans _ _ _ Hu1 Hu2) as [Hl2 [_ Hj2]].
  rewrite Hl2.
  assert (Hfree2 : fault_free w2) by (unfold fault_free in *; rewrite Hf2; exact Hfree1).
  destruct (Z.eqb_spec (default_route (link w)) (Z_of_bool b)) as [Hsame|Hdiff];
    cbn [negb].
  - unfold bind at 1. unfold ret at 1. cbv beta iota zeta.
    destruct (bus_reply_method_return_spec message w2)
      as [r [w' [Hr [Hl [_ [[-> Hj]|[_ [_ Hnf]]]]]]]]; [|contradiction].
    exists w'. split; [exact Hr|]. split.
    + rewrite Hl, Hl2, <- Hsame. symmetry. apply with_default_route_same.
    + rewrite Hj, Hj2. reflexivity.
  - unfold bind at 1. unfold bind at 1. unfold modify_link. cbv beta iota zeta.
    unfold bind at 1. unfold call at 1. cbv beta iota zeta.
    unfold call at 1. cbv beta iota zeta.
    cbn [link next_ptr faults journal error with_link].
    match goal with
    | |- context [bus_reply_method_return message ?w0] =>
        destruct (bus_reply_method_return_spec message w0)
          as [r [w' [Hr [Hl [_ [[-> Hj]|[_ [_ Hnf]]]]]]]];
        cbn [link faults journal] in *
    end; [|contradiction].
    exists w'. split; [exact Hr|]. split.
    + rewrite Hl, Hl2. reflexivity.
    + rewrite Hj, Hj2, <- !app_assoc. reflexivity.
Qed.

(** [SetDefaultRoute] is the one setter that compares before it writes: a
    granted call stores the requested value, and saves the link and
    rewrites resolv.conf only when the value differs from the one the link
    has; with the same value it just replies.  It never reallocates scopes
    and sends no change signal. *)
Theorem set_default_route_saves_only_on_change
        (message : sd_bus_message) (b : bool) (w : World) :
  eligible (link w) ->
  fault_free w ->
  msg_body message = Body_b b ->
  0 < polkit message ->
  exists w',
    bus_link_method_set_default_route message w = (1, w')
    /\ default_route (link w') = Z_of_bool b
    /\ journal w'
       = journal w
         ++ (if default_route (link w) =? Z_of_bool b then []
             else [link_save_user; manager_write_resolv_conf])
         ++ [sd_bus_reply_method_return].
Proof.
  intros Hel Hfree Hbody Hpk.
  destruct (set_default_route_granted message b w Hel Hfree Hbody Hpk)
    as [w' [Hrun [Hl Hj]]].
  exists w'. split; [exact Hrun|]. split; [rewrite Hl; reflexivity | exact Hj].
Qed.

(** *** Negative trust anchors *)

Lemma set_ntas_loop_refuses ntas ns w :
  fault_free w ->
  Forall (fun i => 0 <= dns_name_is_valid i) ntas ->
  Exists (fun i => dns_name_is_valid i = 0) ntas ->
  exists i ns' w',
    In i ntas /\ dns_name_is_valid i = 0
    /\ set_ntas_loop ntas ns w = ((- EINVAL, ns'), w')
    /\ error w'
       = Some (mkError SD_BUS_ERROR_INVALID_ARGS
                 ("Invalid negative trust anchor domain: " ++ i))
    /\ untouched w w'.
Proof.
  revert ns w. induction ntas as [|i rest IH]; intros ns w Hfree Hall Hex.
  - inversion Hex.
  - cbn [set_ntas_loop]. cbv zeta. inversion Hall as [|? ? Hi Hrest]. subst.
    destruct (Z.ltb_spec (dns_name_is_valid i) 0) as [Hneg|_]; [lia|].
    destruct (Z.eqb_spec (dns_name_is_valid i) 0) as [Hz|Hnz].
    + exists i, ns. eexists. split; [left; reflexivity|]. split; [exact Hz|].
      unfold bind, sd_bus_error_setf, ret. cbv beta iota zeta.
      split; [reflexivity|]. split; [reflexivity|]. repeat split.
    + inversion Hex as [? ? Hbad|? ? Hlater]; subst; [contradiction|].
      destruct (fault_spec w) as [r [w1 [Hf [_ [Hu [_ [Hff _]]]]]]].
      destruct (Hff Hfree) as [-> Hfree1]. run_bind Hf.
      change (0 <? 0) with false. cbv iota.
      destruct (IH (set_put_strdup ns i) w1 Hfree1 Hrest Hlater)
        as [j [ns' [w' [Hin [Hj [Hrun [He Hu']]]]]]].
      exists j, ns', w'. split; [right; exact Hin|]. split; [exact Hj|].
      split; [exact Hrun|]. split; [exact He|].
      eapply untouched_trans; eassumption.
Qed.

Lemma sd_bus_message_read_strv_spec message l w :
  fault_free w -> msg_body message = Body_as l ->
  exists w', sd_bus_message_read_strv message w = ((1, l), w')
             /\ untouched w w' /\ fault_free w'.
Proof.
  intros Hfree Hbody. unfold sd_bus_message_read_strv.
  destruct (fault_spec w) as [r [w1 [Hf [_ [Hu [_ [Hff _]]]]]]].
  destruct (Hff Hfree) as [-> Hfree1]. run_bind Hf.
  change (0 <? 0) with false. cbv iota. rewrite Hbody.
  exists w1. split; [reflexivity|]. split; assumption.
Qed.

(** [SetDNSSECNegativeTrustAnchors] takes all names or none: when one name
    of the request is not a valid domain name, the call fails with
    [InvalidArgument] naming the first such name, before the authorization
    gate is asked, and the link's set of trust anchors (like everything
    else) is what it was. *)
Theorem invalid_trust_anchor_is_refused
        (message : sd_bus_message) (ntas : list string) (w : World) :
  eligible (link w) ->
  fault_free w ->
  msg_body message = Body_as ntas ->
  Forall (fun i => 0 <= dns_name_is_valid i) ntas ->
  Exists (fun i => dns_name_is_valid i = 0) ntas ->
  exists i w',
    In i ntas /\ dns_name_is_valid i = 0
    /\ bus_link_method_set_dnssec_negative_trust_anchors message w = (- EINVAL, w')
    /\ error w'
       = Some (mkError SD_BUS_ERROR_INVALID_ARGS
                 ("Invalid negative trust anchor domain: " ++ i))
    /\ link w' = link w /\ next_ptr w' = next_ptr w /\ journal w' = journal w.
Proof.
  intros Hel Hfree Hbody Hall Hex.
  unfold bus_link_method_set_dnssec_negative_trust_anchors.
  run_bind (verify_unmanaged_link_eligible w Hel). change (0 <? 0) with false.
  cbv iota.
  destruct (fault_spec w) as [r [w1 [Hf [_ [Hu1 [_ [Hff _]]]]]]].
  destruct (Hff Hfree) as [-> Hfree1]. run_bind Hf.
  change (0 <? 0) with false. cbv iota.
  destruct (sd_bus_message_read_strv_spec message ntas w1 Hfree1 Hbody)
    as [w2 [Hread [Hu2 Hfree2]]].
  run_bind Hread. change (1 <? 0) with false. cbv iota.
  destruct (set_ntas_loop_refuses ntas [] w2 Hfree2 Hall Hex)
    as [i [ns' [w' [Hin [Hi [Hrun [He Hu3]]]]]]].
  run_bind Hrun. change (- EINVAL <? 0) with true. cbv iota.
  exists i, w'. split; [exact Hin|]. split; [exact Hi|].
  split; [reflexivity|]. split; [exact He|].
  apply (untouched_trans _ _ _ (untouched_trans _ _ _ Hu1 Hu2) Hu3).
Qed.

End Methods.


(** ** Concrete runs *)

(** A call the gate has not decided on yet. *)
Definition pending (b : body) : sd_bus_message := mkMessage b 0.


(** What the two kinds of setter add to the record of calls. *)
Example setters_and_scopes :
  journal (snd (link_vtable (ext := sample_externals) SetDomains
                  (granted (Body_a_sb [("example.net", true)])) (world_of eth0 [])))
  = [link_save_user; manager_write_resolv_conf; sd_bus_reply_method_return]
  /\ journal (snd (link_vtable (ext := sample_externals) SetMulticastDNS
                     (granted (Body_s "yes")) (world_of eth0 [])))
     = [link_allocate_scopes; link_add_rrs; link_save_user;
        sd_bus_reply_method_return].
Proof. vm_compute. split; reflexivity. Qed.

Lemma no_method_acts_before_authorization_witness :
  polkit (pending (Body_s "yes")) <= 0
  /\ let (r, w') := link_vtable (ext := sample_externals) SetMulticastDNS
                      (pending (Body_s "yes")) (world_of eth0 []) in
     link w' = eth0
     /\ next_ptr w' = 2%nat
     /\ journal w' = []
     /\ (polkit (pending (Body_s "yes")) < 0 -> r < 0)
     /\ (r < 0 \/ r = 1).
Proof.
  assert (H : polkit (pending (Body_s "yes")) <= 0) by (vm_compute; discriminate).
  split; [exact H|].
  exact (no_method_acts_before_authorization (ext := sample_externals) SetMulticastDNS
           (pending (Body_s "yes")) (world_of eth0 []) H).
Defined.

Lemma unknown_mode_is_refused_witness :
  mode_table (ext := sample_externals) SetDNSSEC
  = Some (dnssec_mode_from_string (Externals := sample_externals))
  /\ exists label w',
       link_vtable (ext := sample_externals) SetDNSSEC
         (denied (Body_s "maybe")) (world_of eth0 []) = (- EINVAL, w')
       /\ error w' = Some (mkError SD_BUS_ERROR_INVALID_ARGS (label ++ "maybe"))
       /\ link w' = eth0 /\ next_ptr w' = 2%nat /\ journal w' = [].
Proof.
  split; [reflexivity|].
  apply (unknown_mode_is_refused (ext := sample_externals) SetDNSSEC
           (dnssec_mode_from_string (Externals := sample_externals))
           (denied (Body_s "maybe")) "maybe" (world_of eth0 [])).
  - reflexivity.
  - exact eth0_eligible.
  - constructor.
  - reflexivity.
  - discriminate.
  - vm_compute. reflexivity.
Defined.

Lemma empty_mode_string_is_the_default_witness :
  (exists w',
      bus_link_method_set_llmnr (ext := sample_externals)
        (granted (Body_s "")) (world_of eth0 []) = (1, w')
      /\ link w' = with_llmnr_support 1 eth0)
  /\ (exists w',
         bus_link_method_set_mdns (ext := sample_externals)
           (granted (Body_s "")) (world_of eth0 []) = (1, w')
         /\ link w' = with_mdns_support 0 eth0).
Proof.
  apply (empty_mode_string_is_the_default (ext := sample_externals)
           (granted (Body_s "")) "" (world_of eth0 [])).
  - exact eth0_eligible.
  - constructor.
  - reflexivity.
  - reflexivity.
  - left. reflexivity.
Defined.

Lemma set_default_route_saves_only_on_change_witness :
  exists w',
    bus_link_method_set_default_route (granted (Body_b true)) (world_of eth0 [])
    = (1, w')
    /\ default_route (link w') = 1
    /\ journal w'
       = [link_save_user; manager_write_resolv_conf; sd_bus_reply_method_return].
Proof.
  apply (set_default_route_saves_only_on_change
           (granted (Body_b true)) true (world_of eth0 [])).
  - exact eth0_eligible.
  - constructor.
  - reflexivity.
  - reflexivity.
Defined.

Lemma invalid_trust_anchor_is_refused_witness :
  exists i w',
    In i ["example.com"; "not valid"; "example.org"]
    /\ dns_name_is_valid (Externals := sample_externals) i = 0
    /\ bus_link_method_set_dnssec_negative_trust_anchors (ext := sample_externals)
         (granted (Body_as ["example.com"; "not valid"; "example.org"]))
         (world_of eth0 [])
       = (- EINVAL, w')
    /\ error w'
       = Some (mkError SD_BUS_ERROR_INVALID_ARGS
                 ("Invalid negative trust anchor domain: " ++ i))
    /\ link w' = eth0 /\ next_ptr w' = 2%nat /\ journal w' = [].
Proof.
  apply (invalid_trust_anchor_is_refused (ext := sample_externals)
           (granted (Body_as ["example.com"; "not valid"; "example.org"]))
           ["example.com"; "not valid"; "example.org"] (world_of eth0 [])).
  - exact eth0_eligible.
  - constructor.
  - reflexivity.
  - repeat constructor; vm_compute; discriminate.
  - apply Exists_cons_tl, Exists_cons_hd. reflexivity.
Defined.

End LinkBusMethods.

(* ===================================================================== *)
(** * Part IX. Properties of the link's bus properties and object paths  *)
(* ===================================================================== *)

Module LinkBusObjectFacts.
Import LinkBus LinkBusFacts LinkBusMethods LinkBusObject.
Local Open Scope list_scope.

(** A reply on which no call is going to fail. *)
Definition accepting (reply : Reply) : Prop := Forall (fun r => 0 <= r) (results reply).

(** An array as the getters build it. *)
Definition array_of (contents : string) (elements : list reply_item) : list reply_item :=
  open_container "a" contents :: elements ++ [close_container].

(** The getter added the whole of [full] to the reply and succeeded, or it
    failed after a strict prefix of it. *)
Definition whole_or_prefix (full : list reply_item) (reply : Reply) (out : Z * Reply)
  : Prop :=
  exists k,
    items (snd out) = items reply ++ firstn k full
    /\ (0 <= fst out -> k = List.length full)
    /\ (fst out < 0 -> (k < List.length full)%nat).

(** The shape the three array getters share. *)
Definition get_array {A} (contents : string) (item : A -> reply_item) (l : list A)
           (reply : Reply) : Z * Reply :=
  let (r, reply1) := reply_put (open_container "a" contents) reply in
  if r <? 0 then (r, reply1) else
  let (r, reply2) := append_each item l reply1 in
  if r <? 0 then (r, reply2) else
  reply_put close_container reply2.

Lemma reply_put_spec i reply :
  (fst (reply_put i reply) < 0 /\ items (snd (reply_put i reply)) = items reply)
  \/ (0 <= fst (reply_put i reply)
      /\ items (snd (reply_put i reply)) = items reply ++ [i]).
Proof.
  unfold reply_put. destruct (results reply) as [|r rest].
  - right. split; [cbn; lia | reflexivity].
  - destruct (Z.ltb_spec r 0); [left | right]; split; cbn; auto.
Qed.

Lemma reply_put_accepting i reply :
  accepting reply ->
  0 <= fst (reply_put i reply)
  /\ items (snd (reply_put i reply)) = items reply ++ [i]
  /\ accepting (snd (reply_put i reply)).
Proof.
  unfold accepting, reply_put. intros H. destruct (results reply) as [|r rest].
  - cbn. repeat split; [lia | constructor].
  - inversion H; subst. destruct (Z.ltb_spec r 0); [lia|]. cbn. repeat split; assumption.
Qed.

Lemma append_each_spec {A} (item : A -> reply_item) l reply :
  exists k,
    items (snd (append_each item l reply)) = items reply ++ firstn k (map item l)
    /\ (0 <= fst (append_each item l reply) -> k = List.length l)
    /\ (fst (append_each item l reply) < 0 -> (k < List.length l)%nat).
Proof.
  revert reply. induction l as [|x rest IH]; intros reply; cbn [append_each].
  - exists 0%nat. cbn. rewrite app_nil_r. repeat split; lia.
  - destruct (reply_put_spec (item x) reply) as [[Hneg Hi]|[Hpos Hi]];
      destruct (reply_put (item x) reply) as [r reply1]; cbn [fst snd] in *.
    + apply Z.ltb_lt in Hneg as Hb. rewrite Hb. exists 0%nat. cbn [fst snd firstn].
      rewrite app_nil_r. repeat split; [exact Hi | lia | cbn; lia].
    + apply Z.ltb_ge in Hpos as Hb. rewrite Hb.
      destruct (IH reply1) as [k [Hk [Hall Hpre]]]. exists (S k).
      cbn [map firstn List.length]. rewrite Hk, Hi, <- app_assoc.
      repeat split; [intros H; f_equal; auto | intros H; apply Hpre in H; lia].
Qed.

Lemma append_each_accepting {A} (item : A -> reply_item) l reply :
  accepting reply ->
  0 <= fst (append_each item l reply)
  /\ items (snd (append_each item l reply)) = items reply ++ map item l
  /\ accepting (snd (append_each item l reply)).
Proof.
  revert reply. induction l as [|x rest IH]; intros reply Hacc; cbn [append_each].
  - cbn. rewrite app_nil_r. repeat split; [lia | exact Hacc].
  - destruct (reply_put_accepting (item x) reply Hacc) as [Hr [Hi Hacc1]].
    destruct (reply_put (item x) reply) as [r reply1]. cbn [fst snd] in *.
    apply Z.ltb_ge in Hr. rewrite Hr.
    destruct (IH reply1 Hacc1) as [Hr' [Hi' Hacc']].
    split; [exact Hr'|]. split; [|exact Hacc'].
    rewrite Hi', Hi, <- app_assoc. reflexivity.
Qed.

Lemma get_array_spec {A} contents (item : A -> reply_item) l reply :
  whole_or_prefix (array_of contents (map item l)) reply
                  (get_array contents item l reply).
Proof.
  unfold whole_or_prefix, get_array, array_of.
  destruct (reply_put_spec (open_container "a" contents) reply) as [[Hneg Hi]|[Hpos Hi]];
    destruct (reply_put (open_container "a" contents) reply) as [r reply1];
    cbn [fst snd] in *.
  - apply Z.ltb_lt in Hneg as Hb. rewrite Hb. exists 0%nat. cbn [fst snd firstn].
    rewrite app_nil_r. repeat split; [exact Hi | lia | cbn; lia].
  - apply Z.ltb_ge in Hpos as Hb. rewrite Hb.
    destruct (append_each_spec item l reply1) as [k [Hk [Hall Hpre]]].
    destruct (append_each item l reply1) as [r2 reply2]. cbn [fst snd] in *.
    destruct (Z.ltb_spec r2 0) as [Hneg2|Hpos2].
    + exists (S k). cbn [fst snd firstn]. specialize (Hpre Hneg2).
      rewrite Hk, Hi, <- app_assoc. rewrite firstn_app.
      replace (k - List.length (map item l))%nat with 0%nat
        by (rewrite length_map; lia).
      cbn [firstn]. rewrite app_nil_r.
      repeat split; [lia | cbn; rewrite length_app, length_map; cbn; lia].
    + specialize (Hall Hpos2). subst k.
      rewrite <- (length_map item l), firstn_all in Hk.
      destruct (reply_put_spec close_container reply2) as [[Hneg3 Hi3]|[Hpos3 Hi3]].
      * exists (S (List.length (map item l))). cbn [firstn].
        rewrite firstn_app, firstn_all, Nat.sub_diag. cbn [firstn].
        rewrite app_nil_r, Hi3, Hk, Hi, <- app_assoc.
        repeat split; [lia | cbn; rewrite length_app; cbn; lia].
      * exists (S (List.length (map item l ++ [close_container]))). cbn [firstn].
        rewrite firstn_all, Hi3, Hk, Hi, <- !app_assoc.
        repeat split; [lia..].
Qed.

Lemma get_array_accepting {A} contents (item : A -> reply_item) l reply :
  accepting reply ->
  0 <= fst (get_array contents item l reply)
  /\ items (snd (get_array contents item l reply))
     = items reply ++ array_of contents (map item l).
Proof.
  intros Hacc. unfold get_array, array_of.
  destruct (reply_put_accepting (open_container "a" contents) reply Hacc)
    as [Hr [Hi Hacc1]].
  destruct (reply_put (open_container "a" contents) reply) as [r reply1].
  cbn [fst snd] in *. apply Z.ltb_ge in Hr. rewrite Hr.
  destruct (append_each_accepting item l reply1 Hacc1) as [Hr2 [Hi2 Hacc2]].
  destruct (append_each item l reply1) as [r2 reply2]. cbn [fst snd] in *.
  apply Z.ltb_ge in Hr2. rewrite Hr2.
  destruct (reply_put_accepting close_container reply2 Hacc2) as [Hr3 [Hi3 _]].
  split; [exact Hr3|]. rewrite Hi3, Hi2, Hi, <- !app_assoc. reflexivity.
Qed.

(** The properties [Domains], [DNSSECNegativeTrustAnchors], [DNS] and
    [DNSEx] are arrays with one element per entry of the link's list, in
    the list's order (a search domain as its name and route-only flag, a
    server through its pointer; marks are not reported).  A getter either
    adds the whole array, opened and closed, and succeeds, or returns the
    error of the first call on the reply that failed, having added a strict
    prefix of the array only: after a failure the container is never
    closed. *)
Theorem array_properties_are_whole_or_prefix (l : Link) (reply : Reply) :
  whole_or_prefix
    (array_of "(sb)" (map (fun d => append_sb (name d) (route_only d))
                          (search_domains l)))
    reply (property_get_domains l reply)
  /\ whole_or_prefix
       (array_of "s" (map append_s (dnssec_negative_trust_anchors l)))
       reply (property_get_ntas l reply)
  /\ whole_or_prefix
       (array_of "(iay)" (map (fun s => dns_server_append (Some (s_ptr s)) false false)
                              (dns_servers l)))
       reply (property_get_dns l reply)
  /\ whole_or_prefix
       (array_of "(iayqs)" (map (fun s => dns_server_append (Some (s_ptr s)) false true)
                                (dns_servers l)))
       reply (property_get_dns_ex l reply).
Proof.
  repeat split.
  - apply (get_array_spec "(sb)" (fun d => append_sb (name d) (route_only d))).
  - apply (get_array_spec "s" append_s).
  - apply (get_array_spec "(iay)"
             (fun s => dns_server_append (Some (s_ptr s)) false false)).
  - apply (get_array_spec "(iayqs)"
             (fun s => dns_server_append (Some (s_ptr s)) false true)).
Qed.

Section RoundTrips.
Context {ext : Externals}.

(** What [SetDefaultRoute] stored is what the [DefaultRoute] property
    reports, whatever the link's unicast scope says: after a granted call
    with value [b], the getter appends [b]. *)
Theorem default_route_reads_back
        (message : sd_bus_message) (b : bool) (w : World)
        (DnsScope : Type) (dns_scope_is_default_route : DnsScope -> bool)
        (scopes : LinkScopes DnsScope) (reply : Reply) :
  eligible (link w) ->
  fault_free w ->
  msg_body message = Body_b b ->
  0 < polkit message ->
  accepting reply ->
  exists w',
    bus_link_method_set_default_route message w = (1, w')
    /\ 0 <= fst (property_get_default_route dns_scope_is_default_route
                   (link w') scopes reply)
    /\ items (snd (property_get_default_route dns_scope_is_default_route
                     (link w') scopes reply))
       = items reply ++ [append_b b].
Proof.
  intros Hel Hfree Hbody Hpk Hacc.
  destruct (set_default_route_granted message b w Hel Hfree Hbody Hpk)
    as [w' [Hrun [Hl _]]].
  exists w'. split; [exact Hrun|].
  unfold property_get_default_route. rewrite Hl. cbn [default_route with_default_route].
  replace (0 <=? Z_of_bool b) with true by (destruct b; reflexivity).
  replace (negb (Z_of_bool b =? 0)) with b by (destruct b; reflexivity).
  destruct (reply_put_accepting (append_b b) reply Hacc) as [Hr [Hi _]].
  split; assumption.
Qed.

(** What [SetDomains] stored is what the [Domains] property reports: after
    a granted call that went through, with a request in which no name
    occurs twice, the getter adds an array that holds the request's (name,
    route-only) pairs, each of them once and nothing else.  (The order of
    the array is that of the list, which the list's helpers decide.) *)
Theorem domains_read_back
        (message : sd_bus_message) (entries : list (string * bool))
        (w : World) (r : Z) (w' : World) (reply : Reply) :
  domain_wf (next_ptr w) (search_domains (link w)) ->
  bus_link_method_set_domains message w = (r, w') ->
  0 < polkit message ->
  0 <= r ->
  msg_body message = Body_a_sb entries ->
  NoDup (map fst entries) ->
  accepting reply ->
  exists stored,
    Permutation stored entries
    /\ 0 <= fst (property_get_domains (link w') reply)
    /\ items (snd (property_get_domains (link w') reply))
       = items reply
         ++ array_of "(sb)" (map (fun e => append_sb (fst e) (snd e)) stored).
Proof.
  intros Hwf Hrun Hpk Hr Hbody Hnd Hacc.
  destruct (set_domains_committed message w r w' Hwf Hrun Hpk Hr)
    as [entries' [Hbody' [_ [_ [Hl _]]]]].
  assert (entries' = entries) by congruence. subst entries'.
  exists (map domain_view (search_domains (link w'))). split.
  { rewrite Hl. cbn [search_domains with_search_domains].
    apply domain_replace_set_perm; assumption. }
  destruct (get_array_accepting "(sb)" (fun d => append_sb (name d) (route_only d))
              (search_domains (link w')) reply Hacc) as [Hr' Hi].
  split; [exact Hr'|].
  change (property_get_domains (link w') reply)
    with (get_array "(sb)" (fun d => append_sb (name d) (route_only d))
            (search_domains (link w')) reply).
  rewrite Hi. f_equal. f_equal. rewrite map_map. reflexivity.
Qed.

End RoundTrips.


(** *** The scopes mask *)

(** Flags that are not zero and share no bit with one another. *)
Fixpoint distinct_bits (flags : list Z) : Prop :=
  match flags with
  | [] => True
  | f :: rest =>
      f <> 0 /\ fold_right (fun g acc => Z.land f g = 0 /\ acc) True rest
      /\ distinct_bits rest
  end.

(** The [ScopesMask] property can be read back scope by scope: provided the
    five scope flags are distinct bits, a flag is set in the mask exactly
    when the link has the scope the flag stands for. *)
Theorem scopes_mask_reads_back
        (DnsScope : Type) (DNS_FLAG LLMNR4 LLMNR6 MDNS4 MDNS6 : Z)
        (scopes : LinkScopes DnsScope) :
  distinct_bits [DNS_FLAG; LLMNR4; LLMNR6; MDNS4; MDNS6] ->
  let mask := scopes_mask DNS_FLAG LLMNR4 LLMNR6 MDNS4 MDNS6 scopes in
  (Z.land mask DNS_FLAG <> 0 <-> is_set (unicast_scope scopes) = true)
  /\ (Z.land mask LLMNR4 <> 0 <-> is_set (llmnr_ipv4_scope scopes) = true)
  /\ (Z.land mask LLMNR6 <> 0 <-> is_set (llmnr_ipv6_scope scopes) = true)
  /\ (Z.land mask MDNS4 <> 0 <-> is_set (mdns_ipv4_scope scopes) = true)
  /\ (Z.land mask MDNS6 <> 0 <-> is_set (mdns_ipv6_scope scopes) = true).
Proof.
  cbn [distinct_bits fold_right].
  intros (N1 & (H12 & H13 & H14 & H15 & _) & N2 & (H23 & H24 & H25 & _)
          & N3 & (H34 & H35 & _) & N4 & (H45 & _) & N5 & _ & _).
  pose proof H12 as H21. pose proof H13 as H31. pose proof H14 as H41.
  pose proof H15 as H51. pose proof H23 as H32. pose proof H24 as H42.
  pose proof H25 as H52. pose proof H34 as H43. pose proof H35 as H53.
  pose proof H45 as H54.
  rewrite Z.land_comm in H21, H31, H41, H51, H32, H42, H52, H43, H53, H54.
  cbv zeta. unfold scopes_mask.
  destruct scopes as [[a|] [b|] [c|] [d|] [e|]]; cbn [is_set unicast_scope
    llmnr_ipv4_scope llmnr_ipv6_scope mdns_ipv4_scope mdns_ipv6_scope];
    rewrite ?Z.land_lor_distr_l, ?Z.land_diag, ?Z.land_0_l,
      ?H12, ?H13, ?H14, ?H15, ?H23, ?H24, ?H25, ?H34, ?H35, ?H45,
      ?H21, ?H31, ?H41, ?H51, ?H32, ?H42, ?H52, ?H43, ?H53, ?H54,
      ?Z.lor_0_l, ?Z.lor_0_r;
    repeat split; intros; try reflexivity; try assumption; try discriminate;
    try congruence.
Qed.

(** *** Object paths *)

Section Paths.

Variable sd_bus_path_encode : string -> string -> Z + string.
Variable sd_bus_path_decode : string -> string -> Z * string.
Variable parse_ifindex : string -> Z.

(** What the lookup relies on in its collaborators: a path made from a
    label below the prefix decodes to that label, and the decimal form of a
    positive index parses to the index. *)
Definition paths_decode : Prop :=
  forall label path,
    sd_bus_path_encode link_object_prefix label = inr path ->
    exists r, 0 < r /\ sd_bus_path_decode path link_object_prefix = (r, label).

Definition indices_parse : Prop :=
  forall i, 0 < i -> parse_ifindex (format_int i) = i.

(** The manager's map as [link_new] keeps it: a link is filed under its own
    positive interface index, and under one key there is one link. *)
Definition links_filed (m : Manager) : Prop :=
  NoDup (map fst (links m))
  /\ Forall (fun kl => fst kl = ifindex (snd kl) /\ 0 < fst kl) (links m).

Lemma hashmap_get_in {V} (h : list (Z * V)) k v :
  NoDup (map fst h) -> In (k, v) h -> hashmap_get h k = Some v.
Proof.
  unfold hashmap_get. induction h as [|[k0 v0] rest IH]; intros Hnd Hin.
  - inversion Hin.
  - cbn [find fst]. inversion Hnd as [|? ? Hnot Hnd']. subst.
    destruct Hin as [Heq|Hin].
    + inversion Heq. subst. rewrite Z.eqb_refl. reflexivity.
    + destruct (Z.eqb_spec k0 k) as [->|_].
      * exfalso. apply Hnot. apply (in_map fst) in Hin. exact Hin.
      * apply IH; assumption.
Qed.

Lemma link_object_find_path m k l path :
  paths_decode -> indices_parse -> links_filed m ->
  In (k, l) (links m) ->
  link_bus_path sd_bus_path_encode l = Some path ->
  link_object_find sd_bus_path_decode parse_ifindex m path = (1, Some l).
Proof.
  intros Hdec Hparse [Hnd Hfiled] Hin Hpath.
  unfold link_bus_path in Hpath. unfold link_object_find.
  destruct (sd_bus_path_encode link_object_prefix (format_int (ifindex l)))
    as [e|p] eqn:Henc; inversion Hpath. subst p.
  destruct (Hdec _ _ Henc) as [r [Hr ->]].
  destruct (Z.leb_spec r 0); [lia|].
  rewrite Forall_forall in Hfiled. destruct (Hfiled _ Hin) as [Hk Hpos].
  cbn [fst snd] in Hk, Hpos. rewrite <- Hk, (Hparse k Hpos).
  destruct (Z.ltb_spec k 0); [lia|].
  rewrite (hashmap_get_in _ k l Hnd Hin). reflexivity.
Qed.

Lemma enumerate_links_spec ls nodes :
  enumerate_links sd_bus_path_encode ls = Some nodes ->
  Forall2 (fun node kl => link_bus_path sd_bus_path_encode (snd kl) = Some node)
          nodes ls.
Proof.
  revert nodes. induction ls as [|[k l] rest IH]; intros nodes H; cbn in H.
  - inversion H. constructor.
  - destruct (link_bus_path sd_bus_path_encode l) as [p|] eqn:Hp; [|discriminate].
    destruct (enumerate_links sd_bus_path_encode rest) as [ps|]; [|discriminate].
    inversion H. subst. constructor; [exact Hp | apply IH; reflexivity].
Qed.

Lemma paths_are_found m ls nodes :
  paths_decode -> indices_parse -> links_filed m ->
  incl ls (links m) ->
  Forall2 (fun node kl => link_bus_path sd_bus_path_encode (snd kl) = Some node)
          nodes ls ->
  Forall2 (fun node kl =>
             link_object_find sd_bus_path_decode parse_ifindex m node
             = (1, Some (snd kl)))
          nodes ls.
Proof.
  intros Hdec Hparse Hfiled Hsub Hall.
  induction Hall as [|node [k l] nodes ls Hp Hall IH]; constructor.
  - apply (link_object_find_path m k l node Hdec Hparse Hfiled); [|exact Hp].
    apply Hsub. left. reflexivity.
  - apply IH. intros kl Hin. apply Hsub. right. exact Hin.
Qed.


End Paths.


(** ** Concrete runs *)

Lemma default_route_reads_back_witness :
  exists w',
    bus_link_method_set_default_route (granted (Body_b false)) (world_of eth0 [])
    = (1, w')
    /\ 0 <= fst (property_get_default_route (fun _ : unit => true) (link w')
                   (mkScopes (Some tt) None None None None) (mkReply [] []))
    /\ items (snd (property_get_default_route (fun _ : unit => true) (link w')
                     (mkScopes (Some tt) None None None None) (mkReply [] [])))
       = [append_b false].
Proof.
  apply (default_route_reads_back (granted (Body_b false)) false (world_of eth0 [])
           unit (fun _ => true) (mkScopes (Some tt) None None None None)
           (mkReply [] [])).
  - exact eth0_eligible.
  - constructor.
  - reflexivity.
  - reflexivity.
  - constructor.
Defined.

Lemma domains_read_back_witness :
  let entries := [("example.net", false); ("example.org", true)] in
  let out := bus_link_method_set_domains (ext := sample_externals)
               (granted (Body_a_sb entries)) (world_of eth0 []) in
  0 <= fst out
  /\ exists stored,
       Permutation stored entries
       /\ 0 <= fst (property_get_domains (link (snd out)) (mkReply [] []))
       /\ items (snd (property_get_domains (link (snd out)) (mkReply [] [])))
          = items (mkReply [] [])
            ++ array_of "(sb)" (map (fun e => append_sb (fst e) (snd e)) stored).
Proof.
  intros entries out.
  assert (Hr : 0 <= fst out) by (vm_compute; discriminate).
  split; [exact Hr|].
  apply (domains_read_back (ext := sample_externals)
           (granted (Body_a_sb entries)) entries (world_of eth0 [])
           (fst out) (snd out) (mkReply [] [])).
  - exact eth0_domain_wf.
  - apply surjective_pairing.
  - reflexivity.
  - exact Hr.
  - reflexivity.
  - repeat constructor; simpl; intuition discriminate.
  - constructor.
Defined.

Lemma scopes_mask_reads_back_witness :
  let scopes := mkScopes (Some tt) None (Some tt) None None in
  let mask := scopes_mask 1 2 4 8 16 scopes in
  mask = 5
  /\ (Z.land mask 1 <> 0 <-> is_set (unicast_scope scopes) = true)
  /\ (Z.land mask 2 <> 0 <-> is_set (llmnr_ipv4_scope scopes) = true)
  /\ (Z.land mask 4 <> 0 <-> is_set (llmnr_ipv6_scope scopes) = true)
  /\ (Z.land mask 8 <> 0 <-> is_set (mdns_ipv4_scope scopes) = true)
  /\ (Z.land mask 16 <> 0 <-> is_set (mdns_ipv6_scope scopes) = true).
Proof.
  intros scopes mask. split; [reflexivity|].
  apply (scopes_mask_reads_back unit 1 2 4 8 16 scopes).
  cbn. repeat split; discriminate.
Defined.

(** Collaborators for the example: a path is the prefix, a slash and the
    label; an index is parsed as a decimal number. *)
Fixpoint strip_prefix (p s : string) : option string :=
  match p, s with
  | EmptyString, _ => Some s
  | String a p', String b s' => if Ascii.eqb a b then strip_prefix p' s' else None
  | String _ _, EmptyString => None
  end.

Definition sample_path_encode (prefix label : string) : Z + string :=
  inr (prefix ++ "/" ++ label)%string.

Definition sample_path_decode (path prefix : string) : Z * string :=
  match strip_prefix (prefix ++ "/")%string path with
  | Some label => (1, label)
  | None => (0, ""%string)
  end.

Definition sample_parse_ifindex (s : string) : Z :=
  match NilZero.int_of_string s with
  | Some d => if 0 <? Z.of_int d then Z.of_int d else - EINVAL
  | None => - EINVAL
  end.

Lemma sample_paths_decode : paths_decode sample_path_encode sample_path_decode.
Proof.
  intros label path H. inversion H. subst path. exists 1. split; [lia|].
  vm_compute. reflexivity.
Defined.

Lemma sample_indices_parse : indices_parse sample_parse_ifindex.
Proof.
  intros i Hi. unfold sample_parse_ifindex, format_int.
  rewrite NilZero.isi.
  - rewrite DecimalZ.of_to. destruct (Z.ltb_spec 0 i); [reflexivity | lia].
  - destruct i; cbn; try discriminate. intros H. inversion H.
    apply (DecimalPos.Unsigned.to_uint_nonnil p). assumption.
  - destruct i; cbn; try discriminate; lia.
Defined.

Definition sample_manager : Manager :=
  mkManager [(2, mkLinkObject 2 eth0); (1, mkLinkObject 1 lo)].


End LinkBusObjectFacts.

(* ===================================================================== *)
(** * Part X. Properties of the udevadm info commands                     *)
(* ===================================================================== *)

Module UdevadmInfoCommandsFacts.
Import UdevadmInfo UdevadmInfoFacts UdevadmInfoCommands.
Local Open Scope list_scope.

(** ** The attribute table does not depend on the enumeration order *)

(** The pairs the collecting loop stores for a list of names. *)
Definition candidates (device : sd_device) (names : list string) : list SysAttr :=
  flat_map (fun n => match sysattr_candidate device n with
                     | Some v => [mkSysAttr n v]
                     | None => []
                     end) names.

Lemma collect_sysattrs_candidates device names acc :
  collect_sysattrs None device names acc = inr (acc ++ candidates device names).
Proof.
  revert acc. induction names as [|n names IH]; intros acc; cbn [collect_sysattrs].
  - cbn. rewrite app_nil_r. reflexivity.
  - unfold candidates. cbn [flat_map]. fold (candidates device names).
    destruct (sysattr_candidate device n) as [v|].
    + rewrite IH, <- app_assoc. reflexivity.
    + apply IH.
Qed.

Lemma candidates_names device names :
  NoDup names -> NoDup (map UdevadmInfo.name (candidates device names)).
Proof.
  intros Hnd.
  assert (Hsub : forall n, In n (map UdevadmInfo.name (candidates device names)) ->
                           In n names).
  { intros n Hin. apply in_map_iff in Hin as [a [<- Ha]].
    apply in_flat_map in Ha as [m [Hm Ha]].
    destruct (sysattr_candidate device m); [|inversion Ha].
    destruct Ha as [<-|[]]. exact Hm. }
  revert Hsub. induction Hnd as [|n names Hn Hnd IH]; intros Hsub; [constructor|].
  unfold candidates. cbn [flat_map]. fold (candidates device names).
  assert (Hrest : NoDup (map UdevadmInfo.name (candidates device names))).
  { apply IH. intros m Hin. apply in_map_iff in Hin as [a [<- Ha]].
    apply in_flat_map in Ha as [k [Hk Ha]].
    destruct (sysattr_candidate device k); [|inversion Ha].
    destruct Ha as [<-|[]]. exact Hk. }
  destruct (sysattr_candidate device n) as [v|]; [|exact Hrest].
  cbn [app map UdevadmInfo.name]. constructor; [|exact Hrest].
  intros Hin. apply Hn. apply in_map_iff in Hin as [a [<- Ha]].
  apply in_flat_map in Ha as [k [Hk Ha]].
  destruct (sysattr_candidate device k); [|inversion Ha].
  destruct Ha as [<-|[]]. exact Hk.
Qed.

Lemma same_name_same_pair (l : list SysAttr) a b :
  NoDup (map UdevadmInfo.name l) -> In a l -> In b l ->
  UdevadmInfo.name a = UdevadmInfo.name b -> a = b.
Proof.
  induction l as [|x l IH]; intros Hnd Ha Hb Hn; [inversion Ha|].
  inversion Hnd as [|? ? Hx Hnd']. subst.
  destruct Ha as [->|Ha], Hb as [->|Hb].
  - reflexivity.
  - exfalso. apply Hx. rewrite Hn. apply in_map. exact Hb.
  - exfalso. apply Hx. rewrite <- Hn. apply in_map. exact Ha.
  - apply IH; assumption.
Qed.

Lemma name_le_antisym a b :
  name_le a b -> name_le b a -> UdevadmInfo.name a = UdevadmInfo.name b.
Proof.
  unfold name_le, sysattr_compare. intros Hab Hba.
  destruct (String.compare (UdevadmInfo.name a) (UdevadmInfo.name b)) eqn:Hc.
  - apply String.compare_eq_iff. exact Hc.
  - exfalso. apply Hba. rewrite String.compare_antisym, Hc. reflexivity.
  - exfalso. apply Hab. reflexivity.
Qed.

(** Two sorted arrangements of the same pairs, no two of one name, are the
    same list. *)
Lemma sorted_arrangement_unique (l1 l2 : list SysAttr) :
  StronglySorted name_le l1 -> StronglySorted name_le l2 ->
  Permutation l1 l2 -> NoDup (map UdevadmInfo.name l1) -> l1 = l2.
Proof.
  intros Hs1. revert l2. induction Hs1 as [|a l1 Hs1 IH Ha]; intros l2 Hs2 Hp Hnd.
  - apply Permutation_nil in Hp. subst. reflexivity.
  - destruct l2 as [|b l2].
    { apply Permutation_sym, Permutation_nil in Hp. discriminate. }
    inversion Hs2 as [|? ? Hs2' Hb]. subst.
    assert (Hab : a = b).
    { assert (Hin_a : In a (b :: l2)) by (apply (Permutation_in _ Hp); left; reflexivity).
      assert (Hin_b : In b (a :: l1))
        by (apply (Permutation_in _ (Permutation_sym Hp)); left; reflexivity).
      destruct Hin_a as [->|Hin_a]; [reflexivity|].
      destruct Hin_b as [->|Hin_b]; [reflexivity|].
      apply (same_name_same_pair (a :: l1) a b Hnd);
        [left; reflexivity | right; exact Hin_b |].
      rewrite Forall_forall in Ha, Hb.
      apply name_le_antisym; [apply Ha, Hin_b | apply Hb, Hin_a]. }
    subst b. f_equal. apply IH; [exact Hs2' | |].
    + apply (Permutation_cons_inv Hp).
    + inversion Hnd. assumption.
Qed.

(** The sort makes the table canonical.  Two devices that give the same
    value for every attribute name and whose attribute names are the same
    up to the order in which [FOREACH_DEVICE_SYSATTR] yields them (each
    name once) have the same table, row by row: the order of enumeration
    does not show in what [print_all_attributes] prints. *)
Theorem attribute_table_ignores_enumeration_order (d1 d2 : sd_device) :
  (forall n, sd_device_get_sysattr_value d1 n = sd_device_get_sysattr_value d2 n) ->
  Permutation (sysattrs d1) (sysattrs d2) ->
  NoDup (sysattrs d1) ->
  attribute_table None d1 = attribute_table None d2.
Proof.
  intros Hval Hperm Hnd. unfold attribute_table.
  rewrite !collect_sysattrs_candidates. cbn [app]. f_equal.
  assert (Hcand : forall names, candidates d1 names = candidates d2 names).
  { intros names. unfold candidates. apply flat_map_ext. intros n.
    unfold sysattr_candidate. rewrite Hval. reflexivity. }
  rewrite <- (Hcand (sysattrs d2)).
  apply sorted_arrangement_unique.
  - apply typesafe_qsort_sorted;
      [apply sysattr_compare_antisym | apply sysattr_compare_trans].
  - apply typesafe_qsort_sorted;
      [apply sysattr_compare_antisym | apply sysattr_compare_trans].
  - eapply perm_trans; [apply Permutation_sym, typesafe_qsort_perm|].
    eapply perm_trans; [|apply typesafe_qsort_perm].
    unfold candidates. apply Permutation_flat_map. exact Hperm.
  - apply (Permutation_NoDup
             (Permutation_map UdevadmInfo.name
                (typesafe_qsort_perm _ sysattr_compare (candidates d1 (sysattrs d1))))).
    apply candidates_names. exact Hnd.
Qed.

(** ** Cleaning up the database *)

(** What one round of the loop of [cleanup_dir] leaves of an entry, with
    [levels] levels still to go below it. *)
Definition cleanup_entry (levels : nat) (mask : Z) (dent : dirent) : list dirent :=
  if starts_with_dot (d_name dent) then [dent] else
  match fstatat dent with
  | None => [dent]
  | Some st_mode =>
      if negb (Z.land st_mode mask =? 0) then [dent] else
      if S_ISDIR st_mode
      then unlinkat_removedir
             (if openable dent
              then with_entries (cleanup_levels levels mask (entries dent)) dent
              else dent)
      else unlinkat dent
  end.

Lemma cleanup_levels_S levels mask dir :
  cleanup_levels (S levels) mask dir = flat_map (cleanup_entry levels mask) dir.
Proof. reflexivity. Qed.

(** An entry the loop passes over: its name begins with a dot, or it
    cannot be stat-ed, or its mode has a bit of the mask. *)
Definition passed_over (mask : Z) (dent : dirent) : bool :=
  starts_with_dot (d_name dent)
  || match fstatat dent with
     | None => true
     | Some st_mode => negb (Z.land st_mode mask =? 0)
     end.

(** An entry that is in nobody's way: visible, stat-able, without a bit of
    the mask, and such that the kernel lets it be opened and unlinked. *)
Definition ordinary (mask : Z) (dent : dirent) : bool :=
  negb (passed_over mask dent) && openable dent && unlinkable dent.

(** A non-directory has no entries. *)
Definition leaf_if_file (dent : dirent) : bool :=
  match fstatat dent with
  | Some st_mode => S_ISDIR st_mode || match entries dent with [] => true | _ => false end
  | None => true
  end.

(** [ok] holds of an entry and of everything below it. *)
Fixpoint all_nodes (ok : dirent -> bool) (dent : dirent) : bool :=
  match dent with
  | mkDirent _ _ _ _ es => ok dent && forallb (all_nodes ok) es
  end.

(** The number of levels an entry spans: 1 for a file or an empty
    directory. *)
Fixpoint height (dent : dirent) : nat :=
  match dent with
  | mkDirent _ _ _ _ es => S (fold_right (fun e h => Nat.max (height e) h) 0%nat es)
  end.

(** The entries [n] levels below a directory's own. *)
Fixpoint level (n : nat) (dir : list dirent) : list dirent :=
  match n with
  | O => dir
  | S n' => level n' (flat_map entries dir)
  end.

Lemma all_nodes_eq ok dent :
  all_nodes ok dent = ok dent && forallb (all_nodes ok) (entries dent).
Proof. destruct dent; reflexivity. Qed.

Lemma height_eq dent :
  height dent = S (fold_right (fun e h => Nat.max (height e) h) 0%nat (entries dent)).
Proof. destruct dent; reflexivity. Qed.

Lemma height_entries dent e :
  In e (entries dent) -> (height e < height dent)%nat.
Proof.
  rewrite (height_eq dent). generalize (entries dent) as es.
  induction es as [|x es IH]; intros Hin; [inversion Hin|].
  cbn [fold_right]. destruct Hin as [->|Hin]; [lia|]. specialize (IH Hin). lia.
Qed.

Lemma passed_over_entry levels mask dent :
  passed_over mask dent = true -> cleanup_entry levels mask dent = [dent].
Proof.
  unfold passed_over, cleanup_entry. intros H.
  destruct (starts_with_dot (d_name dent)); [reflexivity|].
  destruct (fstatat dent) as [m|]; [|reflexivity].
  cbn [orb] in H. rewrite H. reflexivity.
Qed.

Lemma with_entries_same dent : with_entries (entries dent) dent = dent.
Proof. destruct dent; reflexivity. Qed.

Lemma with_entries_twice es es' dent :
  with_entries es (with_entries es' dent) = with_entries es dent.
Proof. reflexivity. Qed.

(** An entry that is left after a round is left by the next one as it is. *)
Lemma cleanup_entry_settled levels mask :
  (forall dir, cleanup_levels levels mask (cleanup_levels levels mask dir)
               = cleanup_levels levels mask dir) ->
  forall dent dent',
    In dent' (cleanup_entry levels mask dent) ->
    cleanup_entry levels mask dent' = [dent'].
Proof.
  intros IH dent dent' Hin. unfold cleanup_entry in Hin.
  destruct (starts_with_dot (d_name dent)) eqn:Hdot.
  { destruct Hin as [<-|[]]. unfold cleanup_entry. rewrite Hdot. reflexivity. }
  destruct (fstatat dent) as [m|] eqn:Hstat.
  2:{ destruct Hin as [<-|[]]. unfold cleanup_entry. rewrite Hdot, Hstat. reflexivity. }
  destruct (negb (Z.land m mask =? 0)) eqn:Hmask.
  { destruct Hin as [<-|[]]. unfold cleanup_entry. rewrite Hdot, Hstat, Hmask.
    reflexivity. }
  destruct (S_ISDIR m) eqn:Hdir.
  - unfold unlinkat_removedir in Hin.
    destruct (openable dent) eqn:Hopen.
    + cbn [unlinkable entries with_entries] in Hin.
      destruct (unlinkable dent
                && match cleanup_levels levels mask (entries dent) with
                   | [] => true | _ :: _ => false end) eqn:Hgone;
        [inversion Hin|].
      destruct Hin as [<-|[]]. unfold cleanup_entry.
      cbn [d_name fstatat openable with_entries entries].
      rewrite Hdot, Hstat, Hmask, Hdir, Hopen, IH.
      unfold unlinkat_removedir. cbn [unlinkable entries with_entries].
      rewrite Hgone. reflexivity.
    + destruct (unlinkable dent && match entries dent with [] => true | _ :: _ => false end)
        eqn:Hgone; [inversion Hin|].
      destruct Hin as [<-|[]]. unfold cleanup_entry.
      rewrite Hdot, Hstat, Hmask, Hdir, Hopen. unfold unlinkat_removedir.
      rewrite Hgone. reflexivity.
  - unfold unlinkat in Hin. destruct (unlinkable dent) eqn:Hun; [inversion Hin|].
    destruct Hin as [<-|[]]. unfold cleanup_entry.
    rewrite Hdot, Hstat, Hmask, Hdir. unfold unlinkat. rewrite Hun. reflexivity.
Qed.

Lemma cleanup_levels_idempotent levels mask dir :
  cleanup_levels levels mask (cleanup_levels levels mask dir)
  = cleanup_levels levels mask dir.
Proof.
  revert dir. induction levels as [|levels IH]; intros dir; [reflexivity|].
  rewrite !cleanup_levels_S.
  induction dir as [|dent dir IHdir]; [reflexivity|].
  cbn [flat_map]. rewrite flat_map_app, IHdir. f_equal.
  pose proof (cleanup_entry_settled levels mask IH dent) as Hs.
  induction (cleanup_entry levels mask dent) as [|x l IHl]; [reflexivity|].
  cbn [flat_map]. rewrite (Hs x (or_introl eq_refl)).
  cbn [app]. f_equal. apply IHl. intros d Hd. apply Hs. right. exact Hd.
Qed.

(** Running [cleanup_dir] again changes nothing: what a run leaves (the
    entries it passes over, the entries the kernel does not let go, the
    directories that still hold something) is left by the next run as it
    is. *)
Theorem cleanup_dir_idempotent (dir : list dirent) (mask depth : Z) :
  cleanup_dir (cleanup_dir dir mask depth) mask depth = cleanup_dir dir mask depth.
Proof.
  unfold cleanup_dir. destruct (depth <=? 0); [reflexivity|].
  apply cleanup_levels_idempotent.
Qed.


(** What [stat], [openat] and [unlinkat] see of an entry. *)
Definition identity (dent : dirent) : string * option Z * bool * bool :=
  (d_name dent, fstatat dent, openable dent, unlinkable dent).

Lemma cleanup_entry_cases levels mask dent :
  cleanup_entry levels mask dent = []
  \/ exists dent', cleanup_entry levels mask dent = [dent']
                   /\ identity dent' = identity dent.
Proof.
  unfold cleanup_entry, unlinkat_removedir, unlinkat.
  repeat match goal with
         | |- context [if ?b then _ else _] => destruct b
         | |- context [match fstatat dent with _ => _ end] => destruct (fstatat dent)
         end;
    first [ left; reflexivity | right; eexists; split; reflexivity ].
Qed.

Lemma cleanup_levels_passes_over levels mask dir dent :
  In dent dir -> passed_over mask dent = true ->
  In dent (cleanup_levels levels mask dir).
Proof.
  destruct levels as [|levels]; intros Hin Hp; [exact Hin|].
  rewrite cleanup_levels_S. apply in_flat_map. exists dent. split; [exact Hin|].
  rewrite (passed_over_entry levels mask dent Hp). left. reflexivity.
Qed.

Lemma cleanup_levels_only_removes levels mask dir :
  exists keep,
    map identity (cleanup_levels levels mask dir) = map identity (filter keep dir).
Proof.
  destruct levels as [|levels].
  - exists (fun _ => true). cbn [cleanup_levels]. f_equal. symmetry.
    apply forallb_filter_id. apply forallb_forall. reflexivity.
  - exists (fun dent => match cleanup_entry levels mask dent with
                        | [] => false | _ => true end).
    rewrite cleanup_levels_S. induction dir as [|dent dir IH]; [reflexivity|].
    cbn [flat_map filter]. rewrite map_app, IH.
    destruct (cleanup_entry_cases levels mask dent) as [->|[dent' [-> Hid]]].
    + reflexivity.
    + cbn [map app]. rewrite Hid. reflexivity.
Qed.

(** [cleanup_dir] only ever removes: the entries left are entries that
    were there, in the order they were in, with the name, the mode and the
    permissions they had (a directory may have lost entries of its own).
    And it never removes what it is told to pass over: an entry whose name
    begins with a dot, an entry it cannot stat, an entry whose mode has a
    bit of the mask is left exactly as it was, with all that is below it. *)
Theorem cleanup_dir_only_removes (dir : list dirent) (mask depth : Z) :
  (exists keep,
      map identity (cleanup_dir dir mask depth) = map identity (filter keep dir))
  /\ (forall dent,
         In dent dir -> passed_over mask dent = true ->
         In dent (cleanup_dir dir mask depth)).
Proof.
  unfold cleanup_dir. destruct (depth <=? 0).
  - split; [|auto]. exists (fun _ => true). f_equal. symmetry.
    apply forallb_filter_id. apply forallb_forall. reflexivity.
  - split; [apply cleanup_levels_only_removes|].
    intros dent. apply cleanup_levels_passes_over.
Qed.

(** A directory in which every entry is passed over, or is ordinary
    through and through and spans [levels] levels at most. *)
Definition clearable (mask : Z) (levels : nat) (dir : list dirent) : Prop :=
  Forall (fun dent =>
            passed_over mask dent = true
            \/ (all_nodes (ordinary mask) dent = true /\ (height dent <= levels)%nat))
         dir.

Lemma ordinary_not_passed_over mask dent :
  ordinary mask dent = true ->
  passed_over mask dent = false /\ openable dent = true /\ unlinkable dent = true.
Proof.
  unfold ordinary. intros H. apply andb_prop in H as [H Hu].
  apply andb_prop in H as [Hp Ho]. apply negb_true_iff in Hp. auto.
Qed.

Lemma filter_none {A} (f : A -> bool) l :
  Forall (fun x => f x = false) l -> filter f l = [].
Proof.
  induction 1 as [|x l Hx _ IH]; [reflexivity|]. cbn [filter]. rewrite Hx. exact IH.
Qed.

Lemma cleanup_levels_clearable levels mask dir :
  clearable mask levels dir ->
  cleanup_levels levels mask dir = filter (passed_over mask) dir.
Proof.
  revert dir. induction levels as [|levels IH]; intros dir Hc.
  - cbn [cleanup_levels]. symmetry. apply forallb_filter_id. apply forallb_forall.
    intros dent Hin. unfold clearable in Hc. rewrite Forall_forall in Hc.
    destruct (Hc dent Hin) as [Hp|[_ Hh]]; [exact Hp|].
    rewrite height_eq in Hh. lia.
  - rewrite cleanup_levels_S. induction Hc as [|dent dir Hd Hc IHdir]; [reflexivity|].
    cbn [flat_map filter]. rewrite IHdir. clear IHdir.
    destruct Hd as [Hp|[Hall Hh]].
    + rewrite (passed_over_entry levels mask dent Hp), Hp. reflexivity.
    + rewrite all_nodes_eq in Hall. apply andb_prop in Hall as [Hord Hsub].
      destruct (ordinary_not_passed_over mask dent Hord) as [Hp [Ho Hu]].
      rewrite Hp. cbn [app].
      assert (Hgone : cleanup_levels levels mask (entries dent) = []).
      { rewrite IH.
        - apply filter_none. apply Forall_forall. intros e He.
          rewrite forallb_forall in Hsub. specialize (Hsub e He).
          rewrite all_nodes_eq in Hsub. apply andb_prop in Hsub as [Hoe _].
          apply (ordinary_not_passed_over mask e Hoe).
        - apply Forall_forall. intros e He. right.
          rewrite forallb_forall in Hsub. split; [apply Hsub, He|].
          pose proof (height_entries dent e He). lia. }
      unfold passed_over in Hp. unfold cleanup_entry.
      destruct (starts_with_dot (d_name dent)); [discriminate|].
      destruct (fstatat dent) as [m|]; [|discriminate].
      cbn [orb] in Hp. rewrite Hp, Ho.
      destruct (S_ISDIR m).
      * unfold unlinkat_removedir. cbn [unlinkable entries with_entries].
        rewrite Hu, Hgone. reflexivity.
      * unfold unlinkat. rewrite Hu. reflexivity.
Qed.

Lemma cleanup_dir_leaves_what_it_passes_over_lemma dir mask depth :
  clearable mask (Z.to_nat depth) dir ->
  cleanup_dir dir mask depth = filter (passed_over mask) dir.
Proof.
  intros Hc. unfold cleanup_dir. destruct (Z.leb_spec depth 0) as [Hle|Hgt].
  - replace (Z.to_nat depth) with 0%nat in Hc by lia.
    apply (cleanup_levels_clearable 0 mask dir Hc).
  - apply cleanup_levels_clearable. exact Hc.
Qed.

(** [cleanup_dir] removes all it is meant to remove: when every entry of
    the directory that is not passed over is an ordinary tree (nothing in
    it hidden, unreadable, protected by the mask or held by the kernel)
    that spans no more than [depth] levels, what is left is exactly the
    entries passed over. *)
Theorem cleanup_dir_leaves_what_it_passes_over
        (dir : list dirent) (mask depth : Z) :
  clearable mask (Z.to_nat depth) dir ->
  cleanup_dir dir mask depth = filter (passed_over mask) dir.
Proof.
  apply cleanup_dir_leaves_what_it_passes_over_lemma.
Qed.

Lemma level_nil n : level n [] = [].
Proof. induction n; [reflexivity | exact IHn]. Qed.

Lemma level_app n a b : level n (a ++ b) = level n a ++ level n b.
Proof.
  revert a b. induction n as [|n IH]; intros a b; [reflexivity|].
  cbn [level]. rewrite flat_map_app. apply IH.
Qed.

Lemma level_cons n dent dir :
  level (S n) (dent :: dir) = level n (entries dent) ++ level (S n) dir.
Proof. cbn [level flat_map]. apply level_app. Qed.

Lemma cleanup_levels_below levels mask n dir :
  forallb (all_nodes leaf_if_file) dir = true ->
  (levels <= n)%nat ->
  level n (cleanup_levels levels mask dir) = level n dir.
Proof.
  revert n dir. induction levels as [|levels IH]; intros n dir Hwf Hn; [reflexivity|].
  destruct n as [|n]; [lia|]. rewrite cleanup_levels_S.
  induction dir as [|dent dir IHdir]; [reflexivity|].
  cbn [forallb] in Hwf. apply andb_prop in Hwf as [Hd Hrest].
  cbn [flat_map]. change (dent :: dir) with ([dent] ++ dir).
  rewrite !level_app, (IHdir Hrest). f_equal. clear IHdir Hrest.
  rewrite all_nodes_eq in Hd. apply andb_prop in Hd as [Hleaf Hsub].
  assert (Hbelow : level n (cleanup_levels levels mask (entries dent))
                   = level n (entries dent)) by (apply IH; [exact Hsub | lia]).
  cbn [level flat_map]. rewrite app_nil_r.
  unfold cleanup_entry, unlinkat_removedir, unlinkat. unfold leaf_if_file in Hleaf.
  destruct (starts_with_dot (d_name dent));
    [cbn [flat_map]; rewrite app_nil_r; reflexivity|].
  destruct (fstatat dent) as [m|];
    [|cbn [flat_map]; rewrite app_nil_r; reflexivity].
  destruct (negb (Z.land m mask =? 0));
    [cbn [flat_map]; rewrite app_nil_r; reflexivity|].
  destruct (S_ISDIR m).
  - destruct (openable dent).
    + cbn [unlinkable entries with_entries].
      destruct (unlinkable dent);
        destruct (cleanup_levels levels mask (entries dent)) eqn:Hc;
        cbn [andb flat_map entries with_entries]; rewrite ?app_nil_r;
        first [exact Hbelow | rewrite <- Hbelow; reflexivity].
    + destruct (unlinkable dent); destruct (entries dent) eqn:He;
        cbn [andb flat_map]; rewrite ?He, ?app_nil_r; reflexivity.
  - cbn [orb] in Hleaf. destruct (entries dent) eqn:He; [|discriminate].
    destruct (unlinkable dent); cbn [flat_map]; rewrite ?He; reflexivity.
Qed.

(** [depth] bounds how deep [cleanup_dir] reaches: what lies [depth] levels
    or more below the directory's own entries is never removed and never
    changed (and so a directory holding such an entry is never removed).
    With depth 1, as for /run/udev/data and /run/udev/watch, the content
    of every subdirectory stays. *)
Theorem cleanup_dir_stops_at_depth (dir : list dirent) (mask depth : Z) (n : nat) :
  forallb (all_nodes leaf_if_file) dir = true ->
  depth <= Z.of_nat n ->
  level n (cleanup_dir dir mask depth) = level n dir.
Proof.
  intros Hwf Hn. unfold cleanup_dir. destruct (depth <=? 0); [reflexivity|].
  apply cleanup_levels_below; [exact Hwf | lia].
Qed.

(** A /run/udev whose directories, where they can be opened, hold nothing
    [cleanup_db] cannot remove other than what it passes over. *)
Definition cleanable (run : RunUdev) : Prop :=
  (forall dir, data run = Some dir -> clearable S_ISVTX 1 dir)
  /\ (forall dir, links run = Some dir -> clearable 0 2 dir)
  /\ (forall dir, tags run = Some dir -> clearable 0 2 dir)
  /\ (forall dir, static_node_tags run = Some dir -> clearable 0 2 dir)
  /\ (forall dir, watch run = Some dir -> clearable 0 1 dir).

(** A database entry is persistent when it has the sticky bit (or is
    hidden, or cannot be stat-ed); in the other four directories the sticky
    bit protects nothing. *)
Definition persistent (dent : dirent) : bool := passed_over S_ISVTX dent.
Definition hidden (dent : dirent) : bool := passed_over 0 dent.

(** [cleanup_db] on a cleanable /run/udev: of /run/udev/data exactly the
    persistent entries are left; /run/udev/links, tags, static_node-tags
    and watch are left with their hidden entries only, whatever mode bits
    their other entries have.  A directory that cannot be opened is not
    touched. *)
Theorem cleanup_db_leaves_persistent_entries (run : RunUdev) :
  cleanable run ->
  cleanup_db run
  = mkRunUdev (option_map (filter persistent) (data run))
              (option_map (filter hidden) (links run))
              (option_map (filter hidden) (tags run))
              (option_map (filter hidden) (static_node_tags run))
              (option_map (filter hidden) (watch run)).
Proof.
  intros (Hd & Hl & Ht & Hs & Hw). unfold cleanup_db, persistent, hidden.
  destruct run as [d l t s w]. cbn [data links tags static_node_tags watch] in *.
  f_equal.
  - destruct d as [dir|]; [|reflexivity]. cbn [option_map]. f_equal.
    apply (cleanup_dir_leaves_what_it_passes_over_lemma dir S_ISVTX 1), Hd. reflexivity.
  - destruct l as [dir|]; [|reflexivity]. cbn [option_map]. f_equal.
    apply (cleanup_dir_leaves_what_it_passes_over_lemma dir 0 2), Hl. reflexivity.
  - destruct t as [dir|]; [|reflexivity]. cbn [option_map]. f_equal.
    apply (cleanup_dir_leaves_what_it_passes_over_lemma dir 0 2), Ht. reflexivity.
  - destruct s as [dir|]; [|reflexivity]. cbn [option_map]. f_equal.
    apply (cleanup_dir_leaves_what_it_passes_over_lemma dir 0 2), Hs. reflexivity.
  - destruct w as [dir|]; [|reflexivity]. cbn [option_map]. f_equal.
    apply (cleanup_dir_leaves_what_it_passes_over_lemma dir 0 1), Hw. reflexivity.
Qed.


(** ** Running the commands *)

(** The process after [lines] have been written to the standard output. *)
Definition print (lines : list string) (p : Process) : Process :=
  mkProcess (args p) (stdout p ++ lines) (log p) (faults p) (realloc_capacity p)
            (run_udev p).

Lemma print_nil p : print [] p = p.
Proof. destruct p. unfold print. cbn. rewrite app_nil_r. reflexivity. Qed.

Lemma print_print a b p : print b (print a p) = print (a ++ b) p.
Proof. unfold print. cbn. rewrite app_assoc. reflexivity. Qed.

Lemma bind_inr {A B} (m : P A) (k : A -> P B) p a p' :
  m p = (inr a, p') -> bind m k p = k a p'.
Proof. intros H. unfold bind. rewrite H. reflexivity. Qed.

Lemma bind_inl {A B} (m : P A) (k : A -> P B) p c p' :
  m p = (inl c, p') -> bind m k p = (inl c, p').
Proof. intros H. unfold bind. rewrite H. reflexivity. Qed.

Lemma puts_print line p : puts line p = (inr tt, print [line] p).
Proof. reflexivity. Qed.

Lemma foreach_puts lines p : foreach lines puts p = (inr tt, print lines p).
Proof.
  revert p. induction lines as [|l lines IH]; intros p; cbn [foreach].
  - rewrite print_nil. reflexivity.
  - rewrite (bind_inr _ _ _ _ _ (puts_print l p)), IH, print_print. reflexivity.
Qed.

Section Commands.
Context {host : Host}.

(** *** The chain of parents *)

(** The devices [sd_device_get_parent] leads to, nearest first. *)
Fixpoint ancestors (device : Device) : list Device :=
  match sd_device_get_parent device with
  | Some parent => parent :: ancestors parent
  | None => []
  end.

(** What [print_all_attributes] writes for a device when memory is not
    short. *)
Definition block (is_parent : bool) (device : Device) : list string :=
  snd (print_all_attributes None (as_sd_device device) is_parent).

Lemma print_all_attributes_of_unbounded device is_parent p :
  realloc_capacity p = None ->
  print_all_attributes_of device is_parent p = (inr 0, print (block is_parent device) p).
Proof.
  intros Hcap. destruct p as [a out lg fs cap run]. cbn in Hcap. subst cap.
  unfold print_all_attributes_of, block, print.
  cbn [args stdout log faults realloc_capacity run_udev].
  unfold print_all_attributes.
  destruct (attribute_table_unbounded (as_sd_device device)) as [table ->].
  reflexivity.
Qed.

Lemma print_parents_unbounded l :
  forall device p,
    ancestors device = l ->
    realloc_capacity p = None ->
    print_parents device p = (inr 0, print (flat_map (block true) l) p).
Proof.
  induction l as [|parent l IH]; intros device p Hl Hcap;
    destruct device as [? ? ? ? ? ? ? ? ? ? [par|]]; cbn in Hl; try discriminate.
  - cbn. rewrite print_nil. reflexivity.
  - inversion Hl. subst par. cbn [print_parents sd_device_get_parent].
    rewrite (bind_inr _ _ _ _ _ (print_all_attributes_of_unbounded parent true p Hcap)).
    change (0 <? 0) with false. cbv iota.
    rewrite (IH parent (print (block true parent) p) H1 Hcap), print_print, <- H1.
    reflexivity.
Qed.

(** [udevadm info -a] walks the whole chain, nearest parent first: when
    memory is not short, [print_device_chain] returns 0 after writing the
    preamble, the block of the device itself (with the keys [KERNEL],
    [SUBSYSTEM], [DRIVER], [ATTR]) and then one block for each device
    [sd_device_get_parent] leads to, in that order (with the keys
    [KERNELS], [SUBSYSTEMS], [DRIVERS], [ATTRS]).  Nothing else of the
    process changes. *)
Theorem print_device_chain_walks_the_parents (device : Device) (p : Process) :
  realloc_capacity p = None ->
  print_device_chain device p
  = (inr 0,
     print (chain_preamble ++ block false device
            ++ flat_map (block true) (ancestors device)) p).
Proof.
  intros Hcap. unfold print_device_chain.
  rewrite (bind_inr _ _ _ _ _ (foreach_puts chain_preamble p)).
  rewrite (bind_inr _ _ _ _ _
             (print_all_attributes_of_unbounded device false
                (print chain_preamble p) Hcap)).
  change (0 <? 0) with false. cbv iota.
  rewrite (print_parents_unbounded (ancestors device) device
             (print (block false device) (print chain_preamble p)) eq_refl Hcap).
  rewrite !print_print, <- ?app_assoc. reflexivity.
Qed.

(** *** Queries *)

(** Whether [--property] lets a property through. *)
Definition selected (a : Args) (kv : string * string) : bool :=
  match arg_properties a with
  | Some l => existsb (String.eqb (fst kv)) l
  | None => true
  end.

(** The line a property is shown as. *)
Definition property_line (a : Args) (kv : string * string) : string :=
  if arg_export a
  then (strempty (arg_export_prefix a) ++ fst kv ++ "='" ++ snd kv ++ "'")%string
  else if arg_value a then snd kv
  else (fst kv ++ "=" ++ snd kv)%string.

Lemma foreach_query_property a props p :
  foreach props (query_property a) p
  = (inr tt, print (map (property_line a) (filter (selected a) props)) p).
Proof.
  revert p. induction props as [|[key value] props IH]; intros p; cbn [foreach].
  - cbn. rewrite print_nil. reflexivity.
  - assert (Hone : query_property a (key, value) p
                   = (inr tt, print (map (property_line a)
                                         (filter (selected a) [(key, value)])) p)).
    { unfold query_property, selected, property_line. cbn [filter fst snd].
      destruct (arg_properties a) as [l|].
      - destruct (existsb (String.eqb key) l); cbn [negb map].
        + destruct (arg_export a); [reflexivity|]. destruct (arg_value a); reflexivity.
        + rewrite print_nil. reflexivity.
      - cbn [map]. destruct (arg_export a); [reflexivity|].
        destruct (arg_value a); reflexivity. }
    rewrite (bind_inr _ _ _ _ _ Hone), IH, print_print, <- map_app.
    change ((key, value) :: props) with ([(key, value)] ++ props).
    rewrite filter_app. reflexivity.
Qed.

(** [udevadm info -q property] shows the device's properties in the
    device's order, each on a line of its own: all of them without
    [--property], and with it those whose key is in the list given (none
    when the list given is empty).  A line is [KEY=value]; with [--value]
    it is the value alone; with [-x] or [-P] it is the key with the export
    prefix in front and the value in single quotes, and [--value] is then
    without effect.  The query returns 0 and changes nothing else. *)
Theorem query_property_shows_the_selected (device : Device) (p : Process) :
  query_device QUERY_PROPERTY device p
  = (inr 0,
     print (map (property_line (args p))
                (filter (selected (args p)) (device_properties device))) p)
  /\ (arg_properties (args p) = Some [] ->
      query_device QUERY_PROPERTY device p = (inr 0, p)).
Proof.
  assert (H : query_device QUERY_PROPERTY device p
              = (inr 0,
                 print (map (property_line (args p))
                            (filter (selected (args p)) (device_properties device))) p)).
  { unfold query_device. unfold bind at 1. unfold get_args. cbv beta iota.
    rewrite (bind_inr _ _ _ _ _
               (foreach_query_property (args p) (device_properties device) p)).
    reflexivity. }
  split; [exact H|]. intros Hempty. rewrite H. f_equal.
  replace (filter (selected (args p)) (device_properties device)) with
    (@nil (string * string)).
  - apply print_nil.
  - symmetry. apply filter_none. apply Forall_forall. intros kv _.
    unfold selected. rewrite Hempty. reflexivity.
Qed.

(** The name a devlink is shown under: the link itself with [--root], its
    path below /dev/ otherwise ([None] when it is not below /dev/). *)
Definition shown_link (a : Args) (devlink : string) : option string :=
  if arg_root a then Some devlink else path_startswith devlink "/dev/".

(** All the names, when every one exists. *)
Fixpoint all_shown (names : list (option string)) : option (list string) :=
  match names with
  | [] => Some []
  | None :: _ => None
  | Some x :: rest =>
      match all_shown rest with
      | Some l => Some (x :: l)
      | None => None
      end
  end.

Lemma string_app_assoc (a b c : string) : ((a ++ b) ++ c = a ++ b ++ c)%string.
Proof. induction a as [|x a IH]; cbn; [reflexivity | rewrite IH; reflexivity]. Qed.

Lemma query_symlinks_spec arg_root' devlinks prefix line p :
  query_symlinks arg_root' devlinks prefix line p
  = match all_shown (map (fun l => if arg_root' then Some l
                                   else path_startswith l "/dev/") devlinks) with
    | Some names =>
        (inr (match names with
              | [] => line
              | _ => (line ++ prefix ++ String.concat " " names)%string
              end), p)
    | None => (inl assertion_failed, p)
    end.
Proof.
  revert prefix line.
  induction devlinks as [|l devlinks IH]; intros prefix line; cbn [query_symlinks map all_shown].
  - reflexivity.
  - destruct arg_root'; cbn [negb].
    + unfold bind at 1. unfold ret at 1. cbv beta iota. rewrite IH.
      destruct (all_shown (map (fun l0 => Some l0) devlinks)) as [names|];
        [|reflexivity].
      destruct names as [|n names].
      * cbn [String.concat]. reflexivity.
      * cbn [String.concat]. rewrite !string_app_assoc. reflexivity.
    + unfold dev_relative. destruct (path_startswith l "/dev/") as [val|].
      * unfold bind at 1. unfold ret at 1. cbv beta iota. rewrite IH.
        destruct (all_shown (map (fun l0 => path_startswith l0 "/dev/") devlinks))
          as [names|]; [|reflexivity].
        destruct names as [|n names].
        -- cbn [String.concat]. reflexivity.
        -- cbn [String.concat]. rewrite !string_app_assoc. reflexivity.
      * reflexivity.
Qed.

(** [udevadm info -q symlink] writes one line, the device's links
    separated by single blanks (an empty line when there are none), and
    returns 0.  Without [--root] each link is shown by its path below
    /dev/, and a link that is not below /dev/ makes the command abort on a
    failed assertion; the line is then never completed. *)
Theorem query_symlink_writes_one_line (device : Device) (p : Process) :
  query_device QUERY_SYMLINK device p
  = match all_shown (map (shown_link (args p)) (device_devlinks device)) with
    | Some names => (inr 0, print [String.concat " " names] p)
    | None => (inl assertion_failed, p)
    end.
Proof.
  unfold query_device. unfold bind at 1. unfold get_args. cbv beta iota.
  unfold bind at 1. rewrite query_symlinks_spec. unfold shown_link.
  destruct (all_shown _) as [names|]; [|reflexivity].
  destruct names; reflexivity.
Qed.


(** *** The options *)

(** The query a [-q] argument names. *)
Definition query_type (s : string) : option QueryType :=
  if String.eqb s "property" || String.eqb s "env" then Some QUERY_PROPERTY
  else if String.eqb s "name" then Some QUERY_NAME
  else if String.eqb s "symlink" then Some QUERY_SYMLINK
  else if String.eqb s "path" then Some QUERY_PATH
  else if String.eqb s "all" then Some QUERY_ALL
  else None.

(** The options at which [info_main] returns from inside the loop whatever
    the state: [-e], [-c], [-V], [-h], an option [getopt_long] rejects, a
    [-q] with an unknown type, a [-w] with a time that does not parse. *)
Definition returns_at_once (c : getopt_result) : bool :=
  match c with
  | opt_e | opt_c | opt_V | opt_h | opt_unknown => true
  | opt_q s => match query_type s with None => true | Some _ => false end
  | opt_w (Some s) => match parse_sec s with inl _ => true | inr _ => false end
  | _ => false
  end.

(** The loop has left [info_main] (or the process has crashed). *)
Definition left_the_loop (out : (crash + (Z + Locals)) * Process) : Prop :=
  match fst out with
  | inr (inr _) => False
  | _ => True
  end.

Lemma bind_left {A} (m : P A) (f : A -> Z) p :
  left_the_loop (bind m (fun a => ret (inl (f a))) p).
Proof.
  unfold left_the_loop, bind. destruct (m p) as [[c|a] p']; exact I.
Qed.

Lemma info_option_returns c v p :
  returns_at_once c = true -> left_the_loop (info_option c v p).
Proof.
  destruct c as [s| |s|s|s| |s| | | | |s|[s|]| | |]; cbn [returns_at_once];
    intros H; try discriminate H.
  - unfold info_option. unfold query_type in H.
    destruct (String.eqb s "property" || String.eqb s "env"); [discriminate|].
    destruct (String.eqb s "name"); [discriminate|].
    destruct (String.eqb s "symlink"); [discriminate|].
    destruct (String.eqb s "path"); [discriminate|].
    destruct (String.eqb s "all"); [discriminate|].
    apply (bind_left _ (fun r => r)).
  - apply (bind_left export_devices (fun r => r)).
  - unfold info_option. apply (bind_left cleanup_db_of (fun _ => 0)).
  - unfold info_option. destruct (parse_sec s); [|discriminate].
    apply (bind_left _ (fun r => r)).
  - apply (bind_left print_version (fun r => r)).
  - apply (bind_left help (fun r => r)).
  - exact I.
Qed.

Lemma info_options_cut pre c post v p :
  returns_at_once c = true ->
  info_options (pre ++ c :: post) v p = info_options (pre ++ [c]) v p
  /\ left_the_loop (info_options (pre ++ [c]) v p).
Proof.
  intros Hc. revert v p. induction pre as [|a pre IH]; intros v p.
  - cbn [app info_options]. pose proof (info_option_returns c v p Hc) as Hleft.
    unfold left_the_loop in *.
    destruct (info_option c v p) as [[cr|[r|v']] p'] eqn:Hrun; cbn [fst] in Hleft;
      [| |contradiction].
    + rewrite !(bind_inl _ _ _ _ _ Hrun). split; [reflexivity | exact I].
    + rewrite !(bind_inr _ _ _ _ _ Hrun). split; [reflexivity | exact I].
  - cbn [app info_options].
    destruct (info_option a v p) as [[cr|[r|v']] p'] eqn:Hrun.
    + rewrite !(bind_inl _ _ _ _ _ Hrun). split; [reflexivity | exact I].
    + rewrite !(bind_inr _ _ _ _ _ Hrun). split; [reflexivity | exact I].
    + rewrite !(bind_inr _ _ _ _ _ Hrun). apply IH.
Qed.

(** [-e], [-c], [-V], [-h], an option [getopt_long] rejects, a [-q] with
    an unknown type and a [-w] whose time does not parse end the run where
    they stand on the command line: what comes after them, options and
    device names alike, has no influence on what the run does or returns. *)
Theorem options_after_a_final_one_are_ignored
        (pre post : list getopt_result) (c : getopt_result)
        (positional positional' : list string) (p : Process) :
  returns_at_once c = true ->
  info_main (pre ++ c :: post) positional p = info_main (pre ++ [c]) positional' p.
Proof.
  intros Hc. unfold info_main.
  destruct (info_options_cut pre c post initial_locals p Hc) as [Heq Hleft].
  unfold bind. rewrite Heq. unfold left_the_loop in Hleft.
  destruct (info_options (pre ++ [c]) initial_locals p) as [[cr|[r|v']] p'];
    cbn [fst] in Hleft; [reflexivity | reflexivity | contradiction].
Qed.

(** What an option that lets the loop go on does to the local and the
    static variables. *)
Definition option_effect (c : getopt_result) (va : Locals * Args) : Locals * Args :=
  let (v, a) := va in
  match c with
  | ARG_PROPERTY optarg =>
      (v, with_arg_properties
            (if isempty optarg
                && match arg_properties a with None => true | Some _ => false end
             then Some []
             else strv_split_and_extend (arg_properties a) optarg) a)
  | ARG_VALUE => (v, with_arg_value true a)
  | opt_n optarg =>
      (mkLocals (devices v
                 ++ [path_join (match path_startswith optarg "/dev/" with
                                | Some _ => None | None => Some "/dev/" end) optarg])
                (name v) (action v) (query v), a)
  | opt_p optarg =>
      (mkLocals (devices v
                 ++ [path_join (match path_startswith optarg "/sys/" with
                                | Some _ => None | None => Some "/sys/" end) optarg])
                (name v) (action v) (query v), a)
  | opt_q optarg =>
      (mkLocals (devices v) (name v) ACTION_QUERY
                (match query_type optarg with Some q => q | None => query v end), a)
  | opt_r => (v, with_arg_root true a)
  | opt_d optarg =>
      (mkLocals (devices v) (Some optarg) ACTION_DEVICE_ID_FILE (query v), a)
  | opt_a => (mkLocals (devices v) (name v) ACTION_ATTRIBUTE_WALK (query v), a)
  | opt_x => (v, with_arg_export true a)
  | opt_P optarg => (v, with_arg_export_prefix (Some optarg) (with_arg_export true a))
  | opt_w (Some optarg) =>
      (v, match parse_sec optarg with
          | inr usec => with_arg_wait_for_initialization_timeout usec a
          | inl _ => a
          end)
  | opt_w None => (v, with_arg_wait_for_initialization_timeout USEC_INFINITY a)
  | _ => (v, a)
  end.

Definition options_effect (opts : list getopt_result) (va : Locals * Args)
  : Locals * Args :=
  fold_left (fun va c => option_effect c va) opts va.

(** The process with other static variables. *)
Definition with_args (a : Args) (p : Process) : Process :=
  mkProcess a (stdout p) (log p) (faults p) (realloc_capacity p) (run_udev p).

Lemma with_args_same p : with_args (args p) p = p.
Proof. destruct p; reflexivity. Qed.

Lemma fault_none p : faults p = [] -> fault p = (inr 0, p).
Proof. intros H. unfold fault. rewrite H. reflexivity. Qed.

Lemma info_option_goes_on c v p :
  returns_at_once c = false ->
  faults p = [] ->
  info_option c v p
  = (inr (inr (fst (option_effect c (v, args p)))),
     with_args (snd (option_effect c (v, args p))) p).
Proof.
  intros Hc Hf.
  destruct c as [s| |s|s|s| |s| | | | |s|[s|]| | |]; cbn [returns_at_once] in Hc;
    try discriminate Hc; cbn [option_effect fst snd].
  - unfold info_option. unfold bind at 1. unfold get_args. cbv beta iota.
    destruct (isempty s && match arg_properties (args p) with
                           | Some _ => false | None => true end);
      rewrite (bind_inr _ _ _ _ _ (fault_none p Hf)); reflexivity.
  - reflexivity.
  - unfold info_option. cbv zeta.
    rewrite (bind_inr _ _ _ _ _ (fault_none p Hf)). change (0 <? 0) with false.
    cbv iota. rewrite (bind_inr _ _ _ _ _ (fault_none p Hf)).
    change (0 <? 0) with false. cbv iota. unfold ret.
    rewrite with_args_same. reflexivity.
  - unfold info_option. cbv zeta.
    rewrite (bind_inr _ _ _ _ _ (fault_none p Hf)). change (0 <? 0) with false.
    cbv iota. rewrite (bind_inr _ _ _ _ _ (fault_none p Hf)).
    change (0 <? 0) with false. cbv iota. unfold ret.
    rewrite with_args_same. reflexivity.
  - unfold info_option, query_type in *. cbv zeta. rewrite with_args_same.
    destruct (String.eqb s "property" || String.eqb s "env"); [reflexivity|].
    destruct (String.eqb s "name"); [reflexivity|].
    destruct (String.eqb s "symlink"); [reflexivity|].
    destruct (String.eqb s "path"); [reflexivity|].
    destruct (String.eqb s "all"); [reflexivity|discriminate].
  - reflexivity.
  - unfold info_option. cbv zeta.
    rewrite (bind_inr _ _ _ _ _ (fault_none p Hf)). change (0 <? 0) with false.
    cbv iota. unfold ret. rewrite with_args_same. reflexivity.
  - unfold info_option, ret. rewrite with_args_same. reflexivity.
  - reflexivity.
  - reflexivity.
  - unfold info_option. destruct (parse_sec s); [discriminate|]. reflexivity.
  - reflexivity.
Qed.

Lemma info_options_go_on opts v p :
  Forall (fun c => returns_at_once c = false) opts ->
  faults p = [] ->
  info_options opts v p
  = (inr (inr (fst (options_effect opts (v, args p)))),
     with_args (snd (options_effect opts (v, args p))) p).
Proof.
  intros Hall. revert v p. induction Hall as [|c opts Hc Hall IH]; intros v p Hf.
  - cbn. rewrite with_args_same. reflexivity.
  - cbn [info_options].
    rewrite (bind_inr _ _ _ _ _ (info_option_goes_on c v p Hc Hf)).
    rewrite IH by exact Hf. unfold options_effect. cbn [fold_left args with_args].
    destruct (option_effect c (v, args p)) as [v1 a1]. reflexivity.
Qed.

(** What the options say when read by themselves. *)
Definition named_devices (opts : list getopt_result) : list string :=
  flat_map (fun c =>
              match c with
              | opt_n optarg =>
                  [path_join (match path_startswith optarg "/dev/" with
                              | Some _ => None | None => Some "/dev/" end) optarg]
              | opt_p optarg =>
                  [path_join (match path_startswith optarg "/sys/" with
                              | Some _ => None | None => Some "/sys/" end) optarg]
              | _ => []
              end) opts.

(** The action the last of [-q], [-a] and [-d] selects. *)
Definition selected_action (opts : list getopt_result) (before : ActionType)
  : ActionType :=
  fold_left (fun act c =>
               match c with
               | opt_q _ => ACTION_QUERY
               | opt_a => ACTION_ATTRIBUTE_WALK
               | opt_d _ => ACTION_DEVICE_ID_FILE
               | _ => act
               end) opts before.

Definition asks_export (opts : list getopt_result) : bool :=
  existsb (fun c => match c with opt_x | opt_P _ => true | _ => false end) opts.

Definition asks_value (opts : list getopt_result) : bool :=
  existsb (fun c => match c with ARG_VALUE => true | _ => false end) opts.

Lemma options_effect_reads opts v a :
  let (v', a') := options_effect opts (v, a) in
  devices v' = devices v ++ named_devices opts
  /\ action v' = selected_action opts (action v)
  /\ arg_export a' = arg_export a || asks_export opts
  /\ arg_value a' = arg_value a || asks_value opts.
Proof.
  revert v a. induction opts as [|c opts IH]; intros v a.
  - cbn. rewrite app_nil_r, !orb_false_r. repeat split.
  - unfold options_effect. cbn [fold_left].
    destruct (option_effect c (v, a)) as [v1 a1] eqn:Hc.
    specialize (IH v1 a1). unfold options_effect in IH.
    destruct (fold_left _ opts (v1, a1)) as [v' a'].
    destruct IH as (Hd & Ha & He & Hv). rewrite Hd, Ha, He, Hv.
    unfold named_devices, selected_action, asks_export, asks_value.
    cbn [flat_map fold_left existsb].
    destruct c as [s| |s|s|s| |s| | | | |s|[s|]| | |];
      cbn [option_effect] in Hc; inversion Hc; subst;
      cbn [devices action arg_export arg_value with_arg_properties with_arg_value
           with_arg_root with_arg_export with_arg_export_prefix
           with_arg_wait_for_initialization_timeout app];
      rewrite <- ?app_assoc, ?orb_true_r, ?orb_false_r, ?orb_false_l, ?app_nil_l;
      try (repeat split; reflexivity).
    destruct (parse_sec s); repeat split; reflexivity.
Qed.

(** The message of the first check of lines 516-525 that refuses what the
    command line asks for. *)
Definition refusal (opts : list getopt_result) (positional : list string)
  : option string :=
  match named_devices opts ++ positional with
  | [] => Some "A device name or path is required"%string
  | _ :: rest =>
      match selected_action opts ACTION_QUERY, rest with
      | ACTION_ATTRIBUTE_WALK, _ :: _ =>
          Some "Only one device may be specified with -a/--attribute-walk"%string
      | _, _ =>
          if asks_export opts && asks_value opts
          then Some "-x/--export or -P/--export-prefix cannot be used with --value"%string
          else None
      end
  end.

(** The command line is checked as a whole before any device is looked at.
    With options that let the loop run to its end and no allocation
    failing, a query or an attribute walk is refused with [-EINVAL] when no
    device is named; else when [-a] is the action and more than one device
    is named; else when [--value] is combined with [-x] or [-P], in
    whatever order they stand.  The first of these that applies is what
    is logged; nothing is printed. *)
Theorem command_line_is_checked_first
        (opts : list getopt_result) (positional : list string) (p : Process)
        (message : string) :
  Forall (fun c => returns_at_once c = false) opts ->
  faults p = [] ->
  args p = initial_args ->
  selected_action opts ACTION_QUERY <> ACTION_DEVICE_ID_FILE ->
  refusal opts positional = Some message ->
  exists p',
    info_main opts positional p = (inr (- EINVAL), p')
    /\ log p' = log p ++ [message]
    /\ stdout p' = stdout p
    /\ run_udev p' = run_udev p.
Proof.
  intros Hall Hf Hargs Hact Hrefuse. unfold info_main.
  rewrite (bind_inr _ _ _ _ _ (info_options_go_on opts initial_locals p Hall Hf)).
  pose proof (options_effect_reads opts initial_locals (args p)) as Hreads.
  destruct (options_effect opts (initial_locals, args p)) as [v a].
  destruct Hreads as (Hd & Ha & He & Hv). cbn [fst snd].
  cbn [initial_locals devices action app] in Hd, Ha.
  rewrite Hargs in He, Hv. cbn [initial_args arg_export arg_value orb] in He, Hv.
  rewrite Ha. unfold refusal in Hrefuse.
  destruct (selected_action opts ACTION_QUERY) eqn:Hsel; [| |contradiction].
  - rewrite (bind_inr _ _ _ _ _ (fault_none (with_args a p) Hf)).
    change (0 <? 0) with false. cbv iota zeta. rewrite Hd.
    destruct (named_devices opts ++ positional) as [|d rest].
    + inversion Hrefuse. subst. eexists. split; [reflexivity|]. repeat split.
    + cbn [andb]. unfold bind at 1. unfold get_args. cbv beta iota.
      cbn [args with_args]. rewrite He, Hv.
      destruct (asks_export opts && asks_value opts); [|destruct rest; discriminate].
      assert (Hm : message
                   = "-x/--export or -P/--export-prefix cannot be used with --value"%string)
        by (destruct rest; inversion Hrefuse; reflexivity).
      subst message. eexists. split; [reflexivity|]. repeat split.
  - rewrite (bind_inr _ _ _ _ _ (fault_none (with_args a p) Hf)).
    change (0 <? 0) with false. cbv iota zeta. rewrite Hd.
    destruct (named_devices opts ++ positional) as [|d rest].
    + inversion Hrefuse. subst. eexists. split; [reflexivity|]. repeat split.
    + destruct rest as [|d2 rest].
      * change (1 <? Z.of_nat (List.length [d])) with false. cbn [andb].
        unfold bind at 1. unfold get_args. cbv beta iota.
        cbn [args with_args]. rewrite He, Hv.
        destruct (asks_export opts && asks_value opts); [|discriminate].
        inversion Hrefuse. subst. eexists. split; [reflexivity|]. repeat split.
      * replace (1 <? Z.of_nat (List.length (d :: d2 :: rest))) with true
          by (symmetry; apply Z.ltb_lt; cbn [List.length]; lia).
        cbn [andb]. inversion Hrefuse. subst.
        eexists. split; [reflexivity|]. repeat split.
Qed.



(** The file the last [-d] names, and the prefix the last [-P] gives. *)
Definition last_file (opts : list getopt_result) (before : option string)
  : option string :=
  fold_left (fun f c => match c with opt_d optarg => Some optarg | _ => f end)
            opts before.

Definition last_prefix (opts : list getopt_result) (before : option string)
  : option string :=
  fold_left (fun f c => match c with opt_P optarg => Some optarg | _ => f end)
            opts before.

Lemma options_effect_file opts v a :
  let (v', a') := options_effect opts (v, a) in
  name v' = last_file opts (name v)
  /\ arg_export_prefix a' = last_prefix opts (arg_export_prefix a).
Proof.
  revert v a. induction opts as [|c opts IH]; intros v a.
  - cbn. split; reflexivity.
  - unfold options_effect. cbn [fold_left].
    destruct (option_effect c (v, a)) as [v1 a1] eqn:Hc.
    specialize (IH v1 a1). unfold options_effect in IH.
    destruct (fold_left _ opts (v1, a1)) as [v' a'].
    destruct IH as (Hn & Hp). rewrite Hn, Hp.
    unfold last_file, last_prefix. cbn [fold_left].
    destruct c as [s| |s|s|s| |s| | | | |s|[s|]| | |];
      cbn [option_effect] in Hc; inversion Hc; subst;
      cbn [name arg_export_prefix with_arg_properties with_arg_value
           with_arg_root with_arg_export with_arg_export_prefix
           with_arg_wait_for_initialization_timeout];
      try (split; reflexivity).
    destruct (parse_sec s); split; reflexivity.
Qed.

Lemma selected_action_file opts :
  forall act f,
    selected_action opts act = ACTION_DEVICE_ID_FILE ->
    (act = ACTION_DEVICE_ID_FILE -> f <> None) ->
    last_file opts f <> None.
Proof.
  induction opts as [|c opts IH]; intros act f Hsel Hf.
  - cbn in *. auto.
  - unfold selected_action, last_file in *. cbn [fold_left] in *.
    destruct c; try (apply (IH _ _ Hsel); first [exact Hf | discriminate]).
Qed.

(** The lines [-d] writes for a device number. *)
Definition device_id_lines (opts : list getopt_result) (st_dev : Z) : list string :=
  if asks_export opts
  then let prefix := match last_prefix opts None with
                     | Some s => s
                     | None => "INFO_"%string
                     end in
       [ (prefix ++ "MAJOR=" ++ format_int (major st_dev))%string;
         (prefix ++ "MINOR=" ++ format_int (minor st_dev))%string ]
  else [ (format_int (major st_dev) ++ ":" ++ format_int (minor st_dev))%string ].

(** [udevadm info -d FILE], when [-d] is the last of [-q], [-a] and [-d]
    (with options that let the loop run to its end and no allocation
    failing).  Arguments after the options are refused with [-EINVAL].
    Without them the file the last [-d] names is stat-ed, whatever devices
    [-n] and [-p] name: when [stat] fails the negated [errno] is returned
    and nothing printed; otherwise 0 is returned and the device number
    printed as [major:minor], or with [-x] or [-P] as the two lines
    [<prefix>MAJOR=] and [<prefix>MINOR=], the prefix being that of the
    last [-P], or [INFO_]. *)
Theorem device_id_of_file
        (opts : list getopt_result) (positional : list string) (p : Process) :
  Forall (fun c => returns_at_once c = false) opts ->
  faults p = [] ->
  args p = initial_args ->
  selected_action opts ACTION_QUERY = ACTION_DEVICE_ID_FILE ->
  exists file p1,
    last_file opts None = Some file
    /\ stdout p1 = stdout p /\ log p1 = log p
    /\ info_main opts positional p
       = match positional with
         | _ :: _ =>
             log_error_errno EINVAL
               "Positional arguments are not allowed with -d/--device-id-of-file." p1
         | [] =>
             match stat file with
             | inl errno => (inr (- errno), p1)
             | inr st_dev => (inr 0, print (device_id_lines opts st_dev) p1)
             end
         end.
Proof.
  intros Hall Hf Hargs Hsel. unfold info_main.
  rewrite (bind_inr _ _ _ _ _ (info_options_go_on opts initial_locals p Hall Hf)).
  pose proof (options_effect_reads opts initial_locals (args p)) as Hreads.
  pose proof (options_effect_file opts initial_locals (args p)) as Hfile.
  destruct (options_effect opts (initial_locals, args p)) as [v a].
  destruct Hreads as (_ & Ha & He & _). destruct Hfile as (Hn & Hp).
  cbn [fst snd]. cbn [initial_locals action name] in Ha, Hn.
  rewrite Hargs in He, Hp. cbn [initial_args arg_export arg_export_prefix orb] in He, Hp.
  rewrite Ha, Hsel.
  destruct (last_file opts None) as [file|] eqn:Hlast.
  2:{ exfalso. apply (selected_action_file opts ACTION_QUERY None Hsel);
        [discriminate | exact Hlast]. }
  exists file, (with_args a p). split; [reflexivity|].
  split; [reflexivity|]. split; [reflexivity|].
  destruct positional as [|x rest]; [|reflexivity].
  rewrite Hn. unfold bind at 1. unfold get_args. cbv beta iota.
  cbn [args with_args]. unfold stat_device, device_id_lines.
  destruct (stat file) as [errno|st_dev]; [reflexivity|].
  rewrite He, Hp. destruct (asks_export opts); [|reflexivity].
  unfold bind, puts, ret, print. cbv zeta.
  cbn [args stdout log faults realloc_capacity run_udev].
  rewrite <- app_assoc. reflexivity.
Qed.

(** *** The loop over the devices *)

(** The query the last [-q] with a known type selects. *)
Definition selected_query (opts : list getopt_result) (before : QueryType)
  : QueryType :=
  fold_left (fun q c =>
               match c with
               | opt_q optarg =>
                   match query_type optarg with Some q' => q' | None => q end
               | _ => q
               end) opts before.

Lemma options_effect_query opts v a :
  query (fst (options_effect opts (v, a))) = selected_query opts (query v).
Proof.
  revert v a. induction opts as [|c opts IH]; intros v a.
  - reflexivity.
  - unfold options_effect, selected_query. cbn [fold_left].
    destruct (option_effect c (v, a)) as [v1 a1] eqn:Hc.
    specialize (IH v1 a1). unfold options_effect, selected_query in IH.
    rewrite IH. f_equal.
    destruct c as [s| |s|s|s| |s| | | | |s|[s|]| | |];
      cbn [option_effect] in Hc; inversion Hc; subst; reflexivity.
Qed.

(** How the loop of lines 528-560 gets from a name to the device it
    queries: [find_device], and with a timeout set
    [device_wait_for_initialization] on what was found. *)
Definition reach (a : Args) (id : string) : Z + Device :=
  match find_device id with
  | inl r => inl r
  | inr device =>
      if 0 <? arg_wait_for_initialization_timeout a
      then device_wait_for_initialization device
             (arg_wait_for_initialization_timeout a)
      else inr device
  end.

(** What [-q property] shows of one device. *)
Definition property_lines (a : Args) (device : Device) : list string :=
  map (property_line a) (filter (selected a) (device_properties device)).

Lemma query_device_property device p :
  query_device QUERY_PROPERTY device p
  = (inr 0, print (property_lines (args p) device) p).
Proof.
  unfold query_device. unfold bind at 1. unfold get_args. cbv beta iota.
  rewrite (bind_inr _ _ _ _ _
             (foreach_query_property (args p) (device_properties device) p)).
  reflexivity.
Qed.

Lemma info_devices_properties ids devs rest p :
  Forall2 (fun id dev => reach (args p) id = inr dev) ids devs ->
  info_devices ACTION_QUERY QUERY_PROPERTY (ids ++ rest) p
  = info_devices ACTION_QUERY QUERY_PROPERTY rest
      (print (flat_map (property_lines (args p)) devs) p).
Proof.
  intros Hall. revert p Hall.
  assert (Hgen : forall a,
             Forall2 (fun id dev => reach a id = inr dev) ids devs ->
             forall p, args p = a ->
               info_devices ACTION_QUERY QUERY_PROPERTY (ids ++ rest) p
               = info_devices ACTION_QUERY QUERY_PROPERTY rest
                   (print (flat_map (property_lines a) devs) p)).
  { intros a Hall. induction Hall as [|id dev ids devs Hreach Hall IH]; intros p Ha.
    - cbn [app flat_map]. rewrite print_nil. reflexivity.
    - cbn [app info_devices flat_map]. unfold reach in Hreach.
      destruct (find_device id) as [r|device]; [discriminate|].
      unfold bind at 1. unfold get_args. cbv beta iota zeta. rewrite Ha.
      rewrite Hreach. subst a.
      rewrite (bind_inr _ _ _ _ _ (query_device_property dev p)).
      change (0 <? 0) with false. cbv iota.
      rewrite (IH (print (property_lines (args p) dev) p) eq_refl).
      rewrite print_print. reflexivity. }
  intros p Hall. exact (Hgen (args p) Hall p eq_refl).
Qed.

Lemma info_devices_unreached action' query' id rest r p :
  reach (args p) id = inl r ->
  r < 0 ->
  exists p',
    info_devices action' query' (id :: rest) p = (inr r, p')
    /\ stdout p' = stdout p.
Proof.
  intros Hreach Hr. cbn [info_devices]. unfold reach in Hreach.
  destruct (find_device id) as [r0|device].
  - inversion Hreach. subst r0.
    assert (Habs : - Z.abs r = r) by lia.
    destruct (r =? - EINVAL); unfold log_error_errno; rewrite Habs;
      eexists; split; reflexivity.
  - unfold bind at 1. unfold get_args. cbv beta iota zeta. rewrite Hreach.
    eexists. split; reflexivity.
Qed.

(** [udevadm info -q property DEVICE...] answers the devices one after the
    other, those named with [-n] and [-p] first, then the arguments after
    the options, and prints for each device it reaches the properties the
    options select.  The run returns 0 when every device was reached.  The
    first device that is not found, or does not get initialized in time,
    ends the run with that error: the devices after it are not looked at,
    and what was printed for the devices before it stays printed. *)
Theorem properties_are_shown_device_by_device
        (opts : list getopt_result) (positional : list string) (p : Process)
        (reached : list string) (devs : list Device) (rest : list string) :
  Forall (fun c => returns_at_once c = false) opts ->
  faults p = [] ->
  args p = initial_args ->
  selected_action opts ACTION_QUERY = ACTION_QUERY ->
  selected_query opts QUERY_ALL = QUERY_PROPERTY ->
  refusal opts positional = None ->
  let a := snd (options_effect opts (initial_locals, initial_args)) in
  named_devices opts ++ positional = reached ++ rest ->
  Forall2 (fun id dev => reach a id = inr dev) reached devs ->
  match rest with
  | [] => True
  | id :: _ => exists r, reach a id = inl r /\ r < 0
  end ->
  exists r p',
    info_main opts positional p = (inr r, p')
    /\ stdout p' = stdout p ++ flat_map (property_lines a) devs
    /\ match rest with
       | [] => r = 0
       | id :: _ => reach a id = inl r
       end.
Proof.
  intros Hall Hf Hargs Hact Hquery Hrefuse a Hnames Hreached Hrest.
  unfold info_main.
  rewrite (bind_inr _ _ _ _ _ (info_options_go_on opts initial_locals p Hall Hf)).
  pose proof (options_effect_reads opts initial_locals (args p)) as Hreads.
  pose proof (options_effect_query opts initial_locals (args p)) as Hq.
  rewrite Hargs in *. subst a.
  destruct (options_effect opts (initial_locals, initial_args)) as [v a].
  destruct Hreads as (Hd & Ha & He & Hv). cbn [fst snd] in *.
  cbn [initial_locals devices action query app] in Hd, Ha, Hq.
  cbn [initial_args arg_export arg_value orb] in He, Hv.
  rewrite Ha, Hact.
  rewrite (bind_inr _ _ _ _ _ (fault_none (with_args a p) Hf)).
  change (0 <? 0) with false. cbv iota zeta. rewrite Hd.
  unfold refusal in Hrefuse. rewrite Hact in Hrefuse.
  destruct (named_devices opts ++ positional) as [|d ds] eqn:Hds; [discriminate|].
  cbn [andb]. unfold bind at 1. unfold get_args. cbv beta iota.
  cbn [args with_args]. rewrite He, Hv.
  destruct (asks_export opts && asks_value opts); [discriminate|].
  rewrite Hq, Hquery, Hnames.
  rewrite (info_devices_properties reached devs rest (with_args a p) Hreached).
  cbn [args with_args].
  destruct rest as [|id rest'].
  - exists 0. eexists. split; [reflexivity|]. split; [reflexivity|reflexivity].
  - destruct Hrest as [r [Hreach Hr]].
    destruct (info_devices_unreached ACTION_QUERY QUERY_PROPERTY id rest' r
                (print (flat_map (property_lines a) devs) (with_args a p))
                Hreach Hr) as [p' [Hrun Hout]].
    exists r, p'. split; [exact Hrun|]. split; [|exact Hreach].
    rewrite Hout. reflexivity.
Qed.

End Commands.


(** ** Concrete runs *)

(** A regular file, a regular file with the sticky bit, a directory. *)
Definition file (name : string) : dirent := mkDirent name (Some 33188) true true [].
Definition sticky_file (name : string) : dirent := mkDirent name (Some 33700) true true [].
Definition directory (name : string) (es : list dirent) : dirent :=
  mkDirent name (Some 16877) true true es.

Definition sample_data : list dirent :=
  [file "b8:0"; sticky_file "b8:1"; file ".#tmp"; file "n2"].

Definition sample_links : list dirent :=
  [directory "disk" [file "b8:0"; sticky_file "b8:1"]; sticky_file "stray"].

Definition sample_run : RunUdev :=
  mkRunUdev (Some sample_data) (Some sample_links) None (Some []) (Some [file "7"]).

Lemma sample_run_cleanable : cleanable sample_run.
Proof.
  unfold cleanable, sample_run. cbn [data links tags static_node_tags watch].
  repeat split; intros dir H; inversion H; subst; unfold clearable;
    repeat constructor;
    first [ left; reflexivity | right; split; [reflexivity | cbn; lia] ].
Defined.

Lemma cleanup_dir_leaves_what_it_passes_over_witness :
  cleanup_dir sample_data S_ISVTX 1 = [sticky_file "b8:1"; file ".#tmp"].
Proof.
  apply (cleanup_dir_leaves_what_it_passes_over sample_data S_ISVTX 1).
  destruct sample_run_cleanable as [H _]. apply H. reflexivity.
Defined.

Lemma cleanup_dir_stops_at_depth_witness :
  level 1 (cleanup_dir sample_links 0 1) = [file "b8:0"; sticky_file "b8:1"].
Proof.
  apply (cleanup_dir_stops_at_depth sample_links 0 1 1).
  - reflexivity.
  - cbn. lia.
Defined.

Lemma cleanup_db_leaves_persistent_entries_witness :
  cleanup_db sample_run
  = mkRunUdev (Some [sticky_file "b8:1"; file ".#tmp"]) (Some []) None (Some [])
              (Some []).
Proof.
  exact (cleanup_db_leaves_persistent_entries sample_run sample_run_cleanable).
Defined.

(** Two enumerations of the attributes of one device. *)
Definition sample_values (n : string) : Z + string :=
  if String.eqb n "size" then inr "1024"%string
  else if String.eqb n "ro" then inr "0"%string
  else if String.eqb n "uevent" then inr "MAJOR=8"%string
  else if String.eqb n "reset" then inl (- UdevadmInfo.EPERM)
  else inl (- 2).

Definition sample_walk (names : list string) : sd_device :=
  mkDevice (Some "/devices/sda"%string) (Some "sda"%string) (Some "block"%string) None
           names sample_values.

Lemma attribute_table_ignores_enumeration_order_witness :
  attribute_table None (sample_walk ["size"; "uevent"; "reset"; "ro"]%string)
  = attribute_table None (sample_walk ["ro"; "size"; "reset"; "uevent"]%string).
Proof.
  apply (attribute_table_ignores_enumeration_order
           (sample_walk ["size"; "uevent"; "reset"; "ro"]%string)
           (sample_walk ["ro"; "size"; "reset"; "uevent"]%string)).
  - reflexivity.
  - cbn [sysattrs sample_walk].
    apply Permutation_sym.
    apply (perm_trans (l' := ["size"; "ro"; "reset"; "uevent"]%string));
      [apply perm_swap|]. apply perm_skip.
    apply (perm_trans (l' := ["reset"; "ro"; "uevent"]%string)); [apply perm_swap|].
    apply (perm_trans (l' := ["reset"; "uevent"; "ro"]%string));
      [apply perm_skip, perm_swap|]. apply perm_swap.
  - cbn [sysattrs sample_walk].
    repeat (constructor; [simpl; intuition discriminate|]). constructor.
Defined.

(** The rest of a path after a prefix, byte by byte. *)
Fixpoint strip_prefix (prefix s : string) : option string :=
  match prefix, s with
  | EmptyString, _ => Some s
  | String a prefix', String b s' =>
      if Ascii.eqb a b then strip_prefix prefix' s' else None
  | String _ _, EmptyString => None
  end.

(** A PCI device and a disk below it. *)
Definition sample_pci : Device :=
  mkDev (inr "/devices/pci0000:00"%string) (inr "pci0000:00"%string) (inl (- 2))
        (inl (- 2)) [] (fun _ => inl (- 2)) (inl (- 2)) (inl (- 2)) [] [] None.

Definition sample_sda : Device :=
  mkDev (inr "/devices/pci0000:00/sda"%string) (inr "sda"%string)
        (inr "block"%string) (inl (- 2))
        ["size"; "uevent"; "ro"]%string sample_values
        (inr "/dev/sda"%string) (inr 0)
        ["/dev/disk/by-id/ata-1"; "/dev/disk/by-path/pci-1"]%string
        [("DEVNAME", "/dev/sda"); ("DEVTYPE", "disk"); ("MAJOR", "8")]%string
        (Some sample_pci).

(** Collaborators for the examples. *)
Definition sample_host : Host := {|
  path_startswith := fun path prefix => strip_prefix prefix path;
  path_join := fun prefix path =>
                 match prefix with Some s => (s ++ path)%string | None => path end;
  strv_split_and_extend :=
    fun l s => Some (match l with Some x => x | None => [] end ++ [s]);
  parse_sec := fun s => if String.eqb s "5" then inr 5000000 else inl (- EINVAL);
  USEC_INFINITY := 18446744073709551615;
  find_device := fun id => if String.eqb id "/dev/sda" then inr sample_sda
                           else inl (- 19);
  device_wait_for_initialization := fun device _ => inr device;
  stat := fun n => if String.eqb n "/etc/fstab" then inr 2049 else inl 2;
  major := fun st_dev => st_dev / 256;
  minor := fun st_dev => st_dev mod 256;
  scanned_devices := [sample_sda];
  version_lines := ["252"%string];
  program_invocation_short_name := "udevadm"%string
|}.

Definition sample_process : Process :=
  mkProcess initial_args [] [] [] None sample_run.

Lemma print_device_chain_walks_the_parents_witness :
  print_device_chain sample_sda sample_process
  = (inr 0,
     print (chain_preamble
            ++ [ "  looking at device '/devices/pci0000:00/sda':";
                 "    KERNEL==" ++ dquote ++ "sda" ++ dquote;
                 "    SUBSYSTEM==" ++ dquote ++ "block" ++ dquote;
                 "    DRIVER==" ++ dquote ++ dquote;
                 "    ATTR{ro}==" ++ dquote ++ "0" ++ dquote;
                 "    ATTR{size}==" ++ dquote ++ "1024" ++ dquote;
                 "";
                 "  looking at parent device '/devices/pci0000:00':";
                 "    KERNELS==" ++ dquote ++ "pci0000:00" ++ dquote;
                 "    SUBSYSTEMS==" ++ dquote ++ dquote;
                 "    DRIVERS==" ++ dquote ++ dquote;
                 "" ]%string)
           sample_process).
Proof.
  exact (print_device_chain_walks_the_parents sample_sda sample_process eq_refl).
Defined.

Lemma options_after_a_final_one_are_ignored_witness :
  info_main (host := sample_host) [opt_x; opt_h; opt_q "bogus"%string; opt_a]
            ["/dev/sda"%string] sample_process
  = info_main (host := sample_host) [opt_x; opt_h] [] sample_process.
Proof.
  exact (options_after_a_final_one_are_ignored (host := sample_host)
           [opt_x] [opt_q "bogus"%string; opt_a] opt_h ["/dev/sda"%string] []
           sample_process eq_refl).
Defined.

Lemma command_line_is_checked_first_witness :
  exists p',
    info_main (host := sample_host)
      [ARG_VALUE; opt_n "sda"%string; opt_a; opt_x] ["/dev/sdb"%string] sample_process
    = (inr (- EINVAL), p')
    /\ log p' = ["Only one device may be specified with -a/--attribute-walk"%string]
    /\ stdout p' = []
    /\ run_udev p' = sample_run.
Proof.
  apply (command_line_is_checked_first (host := sample_host)
           [ARG_VALUE; opt_n "sda"%string; opt_a; opt_x] ["/dev/sdb"%string]
           sample_process).
  - repeat constructor.
  - reflexivity.
  - reflexivity.
  - discriminate.
  - reflexivity.
Defined.

Lemma device_id_of_file_witness :
  exists file p1,
    last_file [opt_n "sda"; opt_d "/etc/fstab"; opt_P "ID_"]%string None = Some file
    /\ stdout p1 = [] /\ log p1 = []
    /\ info_main (host := sample_host)
         [opt_n "sda"; opt_d "/etc/fstab"; opt_P "ID_"]%string [] sample_process
       = match stat (Host := sample_host) file with
         | inl errno => (inr (- errno), p1)
         | inr st_dev =>
             (inr 0,
              print (device_id_lines (host := sample_host)
                       [opt_n "sda"; opt_d "/etc/fstab"; opt_P "ID_"]%string st_dev) p1)
         end.
Proof.
  apply (device_id_of_file (host := sample_host)
           [opt_n "sda"; opt_d "/etc/fstab"; opt_P "ID_"]%string [] sample_process).
  - repeat constructor.
  - reflexivity.
  - reflexivity.
  - reflexivity.
Defined.

(** What the last run prints. *)
Example device_id_of_file_example :
  info_main (host := sample_host)
    [opt_n "sda"; opt_d "/etc/fstab"; opt_P "ID_"]%string [] sample_process
  = (inr 0,
     mkProcess (mkArgs None false true false (Some "ID_"%string) 0)
               ["ID_MAJOR=8"; "ID_MINOR=1"]%string [] [] None sample_run).
Proof. reflexivity. Qed.

Lemma properties_are_shown_device_by_device_witness :
  exists r p',
    info_main (host := sample_host)
      [opt_q "env"; ARG_VALUE; opt_n "sda"]%string ["/dev/sdb"%string] sample_process
    = (inr r, p')
    /\ stdout p' = ["/dev/sda"; "disk"; "8"]%string
    /\ r = - 19.
Proof.
  destruct (properties_are_shown_device_by_device (host := sample_host)
              [opt_q "env"; ARG_VALUE; opt_n "sda"]%string ["/dev/sdb"%string]
              sample_process ["/dev/sda"%string] [sample_sda] ["/dev/sdb"%string])
    as [r [p' [Hrun [Hout Hr]]]].
  - repeat constructor.
  - reflexivity.
  - reflexivity.
  - reflexivity.
  - reflexivity.
  - reflexivity.
  - reflexivity.
  - repeat constructor.
  - exists (- 19). split; [reflexivity | reflexivity].
  - exists r, p'. split; [exact Hrun|]. split; [exact Hout|].
    inversion Hr. reflexivity.
Defined.


(** [--property=] with nothing after it shows no property at all;
    [-q symlink] and [-q name] strip /dev/. *)
Example query_examples :
  stdout (snd (info_main (host := sample_host)
                 [ARG_PROPERTY ""; opt_q "property"]%string ["/dev/sda"%string]
                 sample_process)) = []
  /\ stdout (snd (info_main (host := sample_host)
                    [opt_q "symlink"]%string ["/dev/sda"%string] sample_process))
     = ["disk/by-id/ata-1 disk/by-path/pci-1"%string]
  /\ stdout (snd (info_main (host := sample_host)
                    [opt_q "name"]%string ["/dev/sda"%string] sample_process))
     = ["sda"%string]
  /\ stdout (snd (info_main (host := sample_host)
                    [opt_q "env"; ARG_VALUE]%string ["/dev/sda"%string] sample_process))
     = ["/dev/sda"; "disk"; "8"]%string.
Proof. repeat split; reflexivity. Qed.

End UdevadmInfoCommandsFacts.
